(* ===== verification/_CoqProject ===== *)
-Q . S2P
Prelude.v
GoStrings.v
Json.v
JsonText.v
Base64.v
Http.v
Sha256.v
Passwords.v
Invariants.v
Stages.v
Floats.v
BigFloat.v
Duration.v
Money.v
EventStore.v
Streams.v
Outbox.v
Ledger.v
LedgerSpec.v
LedgerProps.v
LedgerProjection.v
LedgerGaps.v
LedgerConcurrent.v
Account.v
AccountSpec.v
AccountStore.v
AccountProps.v
AccountConcurrent.v
AccountWorker.v
Payment.v
PaymentSpec.v
PaymentStore.v
PaymentProps.v
PaymentConcurrent.v
Transfer.v
Authz.v
Tokens.v
LoginLimiter.v
Auth.v
AuthSpec.v
AuthProps.v
AuthCodes.v
AuthFlows.v
Identity.v
Passkeys.v
IdentityProps.v
PasskeyProps.v
Startup.v
Fraud.v
Fx.v
BackOffice.v
Gateway.v
GatewayProps.v
AuditLog.v
AuditProps.v
System.v
SystemProps.v
TransferProps.v
TransferRun.v
AccountRetry.v
Sample.v
AuthSample.v
Wiring.v
WiringProps.v
Bus.v
WiringWitnesses.v
AuthWitnesses.v
IdentityWitnesses.v
ServiceWitnesses.v
EdgeWitnesses.v
Witnesses.v
