(* ===== verification/Prelude.v ===== *)
(** * FinCore: a verification library for the FinCore banking engine

    FinCore ([src/]) is a set of Go services around event-sourced money
    movement. This library models the services that carry its logic and
    proves what they promise, and, where the code falls short of what it
    means to do, what it really does.

    ** The program and the files that model it

    Shared packages ([src/pkg]).
    - [Money.v]: [money/money.go], int64 kobo with a currency.
    - [EventStore.v], [Streams.v]: [eventstore] and its Postgres store:
      append with optimistic versions, reading a stream and the whole log,
      snapshots; [Streams] is the invariant of one stream per aggregate.
    - [Outbox.v]: [outbox], its Postgres store, the relay
      ([outbox/relay]) and the publishers ([messaging/kafka.go]) seen from
      the broker's side.
    - [Authz.v]: [security/middleware/grpc.go], the interceptor in front of
      the ledger, account and payment servers.
    - [Base64.v], [Sha256.v], [Passwords.v], [Tokens.v]: [security]: base64
      and hex, SHA-256, argon2id password records, refresh token hashes,
      Ed25519 token makers, keys, and the verifier of published keys.
    - [Startup.v]: [secrets], [security/spiffe_mtls.go],
      [security/middleware/gateway.go], and what the [main] functions decide
      from the environment: DSNs, settings, keys, transport credentials.
    - [GoStrings.v], [Json.v], [JsonText.v], [Http.v], [Floats.v],
      [BigFloat.v], [Duration.v]: the parts of Go's [strings], [strconv],
      [encoding/json], [net/http], floating point, [math/big] and [time]
      they use.

    Services ([src/services]).
    - [Ledger.v], with [LedgerSpec.v], [LedgerProps.v],
      [LedgerProjection.v]: ledger-service. [PostEntry] and its transaction,
      repositories, the projection worker, the balance query, the server.
      [LedgerConcurrent.v]: the same handler in stages, with many requests
      in flight ([Stages.v] cuts transactions into stages). [LedgerGaps.v]:
      events that commit behind the worker's cursor.
    - [Account.v], with [AccountSpec.v], [AccountStore.v], [AccountProps.v],
      [AccountWorker.v]: account-service. The aggregate, its commands and
      snapshots, the server, the projection worker. [AccountConcurrent.v]:
      its commands in stages, interleaved, and the abstract service they
      implement. [AccountRetry.v]: a command sent twice, with the ledger.
    - [Payment.v], with [PaymentSpec.v], [PaymentStore.v],
      [PaymentProps.v]: payment-service. The lifecycle, commands and server.
      [PaymentConcurrent.v]: its transactions in stages, interleaved.
    - [Transfer.v]: payment-service's saga and Temporal workflow, over the
      ledger and account ports.
    - [LoginLimiter.v], [Auth.v], with [AuthSpec.v], [AuthProps.v],
      [AuthCodes.v], [AuthFlows.v]: auth-service. Every handler of
      [infrastructure/grpc/server.go], the limiter, the clean-up job and the
      tables of the migrations.
    - [Identity.v], [Passkeys.v], with [IdentityProps.v], [PasskeyProps.v]:
      identity-service. [main.go]: browser sessions, the OAuth pages and
      endpoints, discovery, the routes; [webauthn.go]: the passkey
      ceremonies. It embeds the server of auth-service.
    - [Gateway.v], [GatewayProps.v]: api-gateway's middleware chain.
    - [AuditLog.v], [AuditProps.v]: audit-service's hash-chained log, its
      consumers, its money-movement projection and its server.
    - [Fraud.v]: fraud-engine's rules and handler. [Fx.v]: fx-service.
      [BackOffice.v]: admin-, notification-, reporting- and vault-service.
    - [System.v], with [SystemProps.v], [TransferProps.v],
      [TransferRun.v]: ledger, account and payment service together. Each
      has its own database; the others reach it by gRPC calls that pass its
      interceptor and can fail on the way. The account commands call the
      ledger, the transfer drivers call account and ledger.
    - [Wiring.v], [WiringProps.v]: the [main] functions of all services:
      what each process is built with and in which order, every fatal exit,
      and how its gRPC server and its HTTP routes treat a call. [Bus.v]: the
      messages the processes publish and the subjects they subscribe to.

    [Sample.v], [AuthSample.v] are concrete deployments, and [Witnesses.v],
    [AuthWitnesses.v], [IdentityWitnesses.v], [ServiceWitnesses.v],
    [EdgeWitnesses.v], [WiringWitnesses.v] apply every theorem that has
    hypotheses to one of them, where the hypotheses are evaluated.

    ** The model

    A handler is a computation of type [M DB A]: it takes a [World] and
    returns a [result] (a value or a Go error) and the new world. The world
    holds the tables, the counters that index the environment's readings
    (identifiers, clock), the time of the current transaction, the messages
    the broker has accepted, and a schedule of faults. Every statement,
    commit, publish and gRPC call consumes one entry of the schedule: it
    succeeds, it fails without effect, or it takes effect and its
    acknowledgement is lost. A theorem about all worlds is therefore a
    theorem about all such failures; past the end of the schedule everything
    succeeds. [with_tx] is a transaction (rolled back on an error; identity
    values and identifiers are not given back), [autoexec] a statement on the
    pool, [exec] a statement inside a transaction, [rpc] a call. Tables are
    records of rows with the constraints of the migrations written out in the
    statements; the schema a statement needs is checked against the columns
    the migrations create where the two differ. [Lens] places the tables of a
    component in those of a service, and a service in the system.

    Integers keep their width ([wrap64] for int64, errors for Postgres'
    bigint, 32-bit words in SHA-256, bytes in base64), float64 and float32
    are the Standard Library's executable IEEE 754.

    Code outside [src/] is a parameter, a class with its documented behaviour
    as a second class of laws: [Env]/[EnvOk] (uuid and clock: identifiers
    never repeat and are not empty), [Random]/[RandomOk] (crypto/rand: the
    refresh tokens made from the first [rand_limit] readings have different
    SHA-256 hashes), [Argon2]/[Argon2Ok] (output length),
    [Jwt]/[JwtOk] (what a key signs its public key verifies),
    [TokenMaker]/[TokenMakerOk], [JwksEndpoint], [NetLib] (net/url, net/mail),
    [Collation] (the order of text in the database),
    [BigFloatLib]/[BigFloatOk] (big.Float.SetString: the nearest value at
    256 bits of a decimal within the bounds below), [MimeLib], [JsonReader], [JwtText] (media types,
    JSON bodies, the unverified reading of a token), [WebAuthnLib] (the
    passkey library), [RedisClient], [Logical]/[TransitOk] (Vault's transit
    engine: a key decrypts what it encrypted and nothing else),
    [VaultHTTP], [Process] (environment and files), [SpiffeLib], [Host]
    (sockets, driver, broker: a call succeeds or fails), [TransportLib] (gRPC:
    TLS meets only TLS), [Network] (which target leads to which listener: of
    this only that a process reaches its own), [NatsLib] (how subjects match),
    grpc-gateway's default header matcher, and the Temporal library. The samples give an instance of each that a theorem
    has laws of.

    ** What the theorems show

    - Ledger: [PostEntry] refines an abstract ledger (a log of postings, each
      under its key) step by step under every failure; among postings one
      after the other, with no other writer of the balances, balances are the
      sums of the postings, a key is posted at most once, a retry after any
      failure gives exactly one posting, an overdraft is refused, each entry
      has its outbox message; the worker at a fresh version rebuilds the
      balances, and reads that wait for a sequence number are not stale.
      Requests at the same time keep all of this except the sign: with [k]
      postings of at most [A] in flight a balance can fall to minus
      [(k - 1) * A], and two withdrawals that race do overdraw.
    - Event store, outbox: appending adds exactly the batch or fails for a
      reason and the log only grows, paging is complete, the relay
      delivers at least once, and drains.
    - Accounts and payments: loading is replay, the tables stay consistent,
      commands follow the lifecycle, also when they run at the same time;
      the rows of payments then show a present or past state, and can go
      back, and the interleaved commands on accounts are those of an abstract
      service that runs them one at a time; of two that race the second fails
      and succeeds when it is sent again. A deposit sent twice moves the money
      once, where the services may call each other. The account worker
      replays the log into its table, from any contents.
    - Transfers: under all failures and retries only the transfer's own
      entries are posted, each at most once; with nothing failing it
      completes, having moved the amount twice.
    - Auth: over any run of handlers, one after the other, and any failures
      sessions stay consistent, a refresh token is used once and a code is
      redeemed once (overlapping requests break all three); tokens come only
      from a correct password, a live session or a valid code of the client
      that has authenticated itself; lifetimes are bounded; register then log
      in works; admin calls need their permission; the limiter bounds failed
      attempts since the last success and recovers. Passwords and tokens
      round-trip.
    - Identity: the token endpoint and the passkey login give tokens and
      sessions only for a valid code or assertion, challenges are used once,
      the authorization page changes nothing without consent and its CSRF
      token; but no login on it ever succeeds, so it locks everyone out.
    - FX, fraud, vault, start-up: conversion is correctly rounded, the fraud
      decision is that of the exact amount, which tokens come back, and a
      service that starts has a usable configuration.
    - Processes: in whatever order Go ranges over the permission maps, only a
      caller with the write permission changes the data of the ledger, account
      and payment services; which connections work with and without mutual
      TLS, given where their targets lead; the probes; and that no published
      event reaches a subscriber.
    - Edge: what passes the gateway's chain and what it takes from the
      buckets, their burst bound; the audit chain detects changed rows, short
      of a collision among the rows, stays intact under sequential saves, and
      a fork is permanent.

    Theorems about behaviour the code does not intend are named for it and
    proved the same way, among them [transfer_success_moves_twice],
    [ledger_worker_doubles], [PostEntry_migrated_schema_fails],
    [internal_calls_refused], [saga_moves_nothing],
    [refresh_reuse_revokes_nothing], [refresh_race], [code_race],
    [rotate_secret_fails], [authorize_needs_scope], [rate_limit_evaded], [identity_smuggled],
    [truncation_passes], [payment_targets_miss],
    [ledger_overdraft_race], [payment_link_race], [identity_locked_out], [passkey_takeover],
    [authorize_issues_no_code], [mtls_fails_open], [approve_anything],
    [aml_ignores_threshold], [mutual_tls_reach], [open_services],
    [events_reach_nobody], [default_addresses_clash], [deposit_retry],
    [ledger_worker_gap].

    ** Bounds and fuel

    Loops of the code that run for ever (the relay, the workers, the key
    refresh) take the number of ticks; [relay_drains],
    [ledger_worker_rebuilds] and [account_worker_rebuilds] say how many are
    enough. The polling read takes
    the list of changes made between its polls, whose length is the number of
    polls the deadline allows. Retries of an activity are bounded by the
    workflow's own retry policy. [ParseDuration] has the length of its text
    as fuel, which [duration_fuel] shows to be enough. All other recursion is
    structural on the data. The Postgres serial columns are unbounded.
    Decimals are bounded by 2^200 units and 100 decimals where 256 bits must
    hold them; requests in flight by [k] and their amounts by [A] with
    [k * A] an int64; between the two reads of one load of an account at most
    10000 of its events are recorded, the limit of the read.

    ** Not modelled

    Requests to one service run one after the other, except where an
    interleaving is written out: the stages of [LedgerConcurrent.v],
    [AccountConcurrent.v] and [PaymentConcurrent.v], and the statements of two
    requests ([refresh_interleaved] in [AuthProps.v], [redeem_interleaved] in
    [AuthFlows.v], [save_interleaved] in [AuditProps.v]). The reachable states
    [ledger_reachable], [auth_reachable] and [payment_reachable] are those of
    sequential runs. Row locks are not modelled: the writes and the commit of
    a transaction are one step because the rows and keys they touch are
    locked until the commit. That numbers are drawn before the commit is only
    seen by [LedgerGaps.v], where rows may appear behind the worker's cursor.
    JSON text is identified with its tree outside [JsonText.v]. Signals and
    graceful stops, tracing, the redirects of [http.ServeMux], the text of
    pages, the generated HTTP proxies and message encoding, and the web client
    are left out: they are library or generated code, or have no effect on the
    state the theorems are about. *)
From stdpp Require Export prelude gmap strings list sorting pretty.
From Stdlib Require Export ZArith Lia.

Declare Scope go_scope.
Delimit Scope go_scope with go.
#[export] Set Default Goal Selector "!".
#[local] Open Scope Z_scope.

(** ** Errors and results

    A Go [error] is a value: a message made by [errors.New], a wrapped error
    made by [fmt.Errorf("ctx: %w", err)], an error reported by the database
    driver, a gRPC status, or (as a separate outcome) a panic. *)
Inductive error : Type :=
| ENew (msg : string)
| EWrap (ctx : string) (inner : error)
| ESql (msg : string)
| EStatus (code : string) (msg : string)
| ENet
| EPanic (msg : string).

#[export] Instance error_eq_dec : EqDecision error.
Proof. solve_decision. Defined.

(** [err.Error()] *)
Fixpoint Error (e : error) : string :=
  match e with
  | ENew m | ESql m => m
  | EWrap ctx e' => ctx +:+ ": " +:+ Error e'
  | EStatus code m => "rpc error: code = " +:+ code +:+ " desc = " +:+ m
  | ENet => "connection error"
  | EPanic m => "panic: " +:+ m
  end.

(** What a gRPC client sees of a handler's error: a status goes through,
    another error becomes a status of code Unknown, and a panic takes the
    server down. *)
Definition rpc_error (e : error) : error :=
  match e with
  | EStatus _ _ => e
  | EPanic _ => ENet
  | _ => EStatus "Unknown" (Error e)
  end.

Inductive result (A : Type) : Type :=
| Ok (a : A)
| Err (e : error).
Arguments Ok {A} a.
Arguments Err {A} e.

#[export] Instance result_eq_dec {A} `{EqDecision A} : EqDecision (result A).
Proof. solve_decision. Defined.

Definition is_ok {A} (r : result A) : bool :=
  match r with Ok _ => true | Err _ => false end.

Definition result_map {A B} (f : A -> B) (r : result A) : result B :=
  match r with Ok a => Ok (f a) | Err e => Err e end.

Definition result_bind {A B} (r : result A) (k : A -> result B) : result B :=
  match r with Ok a => k a | Err e => Err e end.

Notation "'let?' x ':=' r 'in' k" := (result_bind r (fun x => k))
  (at level 10, x name, r at level 100, k at level 200,
   format "'[v' 'let?'  x  ':='  r  'in' '/' k ']'") : go_scope.

Definition rpc_result {A} (r : result A) : result A :=
  match r with Ok a => Ok a | Err e => Err (rpc_error e) end.

(** ** Machine integers

    Go's [int64] wraps modulo [2^64]; Postgres' [bigint] reports an error
    instead. *)
Definition min_int64 : Z := - 2 ^ 63.
Definition max_int64 : Z := 2 ^ 63 - 1.
Definition in_int64 (z : Z) : Prop := min_int64 <= z <= max_int64.
Definition in_int64b (z : Z) : bool := (min_int64 <=? z)%Z && (z <=? max_int64)%Z.
Definition wrap64 (z : Z) : Z := (z + 2 ^ 63) `mod` 2 ^ 64 - 2 ^ 63.

(** ** The environment

    What a service reads from the outside world: identifiers from
    [uuid.NewString] and instants from [time.Now]. Both are indexed by the
    number of readings made so far. A time is a number of nanoseconds since
    Go's zero [time.Time], so [t.IsZero()] is [t =? 0]. *)
Class Env := {
  uuid_NewString : nat -> string;
  clock_Now : nat -> Z;
}.

(** What the code relies on: identifiers are never repeated and never empty,
    and the clock is past Go's zero time. *)
Class EnvOk `{Env} : Prop := {
  uuid_inj :: Inj (=) (=) uuid_NewString;
  uuid_nonempty : forall n, uuid_NewString n <> "";
  clock_pos : forall n, (0 < clock_Now n)%Z;
}.

(** Each interaction with a database or a remote service has an outcome
    picked by the environment: it succeeds, it fails before taking effect, or
    it takes effect and the acknowledgement is lost. *)
Inductive fault : Type := FOk | FErr | FLostAck.

#[export] Instance fault_eq_dec : EqDecision fault.
Proof. solve_decision. Defined.

(** ** JSON documents and byte strings

    The text of a JSON document is identified with its tree. [JTime t] is the
    string [time.Time] marshals to (RFC 3339, nanoseconds) and [JB64 b] the
    base64 string a [[]byte] marshals to. A byte string is the text of a JSON
    document or bytes that are not one. *)
Inductive json : Type :=
| JNull
| JBool (b : bool)
| JInt (z : Z)
| JStr (s : string)
| JTime (t : Z)
| JB64 (b : json)
| JArr (l : list json)
| JObj (fs : list (string * json)).

Inductive bytes : Type :=
| BJson (j : json)
| BRaw (s : string).

(** A message handed to the broker. *)
Record message : Type := mkMessage {
  msg_topic : string;
  msg_key : bytes;
  msg_value : bytes;
  msg_headers : gmap string string;
}.

(** ** The world of a service

    [w_db] is the database, [w_seq] the next value of the identity columns,
    [w_uuid] and [w_tick] the readings made of the environment, [w_tx] the
    value of SQL's [now()] in the current transaction, [w_faults] the
    outcomes still to come (no more entries: everything succeeds), and
    [w_sent] what the broker has accepted, which no rollback takes back. *)
Record World (DB : Type) : Type := mkWorld {
  w_db : DB;
  w_seq : Z;
  w_uuid : nat;
  w_tick : nat;
  w_tx : Z;
  w_faults : list fault;
  w_sent : list message;
}.
Arguments mkWorld {DB} _ _ _ _ _ _ _.
Arguments w_db {DB} _.
Arguments w_seq {DB} _.
Arguments w_uuid {DB} _.
Arguments w_tick {DB} _.
Arguments w_tx {DB} _.
Arguments w_faults {DB} _.
Arguments w_sent {DB} _.

Definition set_db {DB DB'} (db : DB') (w : World DB) : World DB' :=
  mkWorld db (w_seq w) (w_uuid w) (w_tick w) (w_tx w) (w_faults w) (w_sent w).

(** ** The monad of a service: state and errors *)
Definition M (DB A : Type) : Type := World DB -> result A * World DB.

Definition retM {DB A} (a : A) : M DB A := fun w => (Ok a, w).
Definition failM {DB A} (e : error) : M DB A := fun w => (Err e, w).
Definition bindM {DB A B} (m : M DB A) (k : A -> M DB B) : M DB B :=
  fun w => match m w with
           | (Ok a, w') => k a w'
           | (Err e, w') => (Err e, w')
           end.
Definition liftR {DB A} (r : result A) : M DB A := fun w => (r, w).

Notation "'let!' x ':=' m 'in' k" := (bindM m (fun x => k))
  (at level 10, x name, m at level 100, k at level 200,
   format "'[v' 'let!'  x  ':='  m  'in' '/' k ']'") : go_scope.
Notation "'let!' ' p ':=' m 'in' k" := (bindM m (fun x => match x with p => k end))
  (at level 10, p pattern, m at level 100, k at level 200) : go_scope.
Notation "m ';;;' k" := (bindM m (fun _ => k))
  (at level 199, right associativity, format "'[v' m  ';;;' '/' k ']'") : go_scope.

(** [if cond { return err }] *)
Definition fail_if {DB} (cond : bool) (e : error) : M DB unit :=
  if cond then failM e else retM tt.

(** [fmt.Errorf("ctx: %w", err)] on the error of a call *)
Definition wrap_err {DB A} (ctx : string) (m : M DB A) : M DB A :=
  fun w => match m w with
           | (Ok a, w') => (Ok a, w')
           | (Err e, w') => (Err (EWrap ctx e), w')
           end.

(** A call whose error is a value for the caller ([_, err := f()]). *)
Definition tryM {DB A} (m : M DB A) : M DB (result A) :=
  fun w => let '(r, w') := m w in (Ok r, w').

Fixpoint forM {DB A} (l : list A) (f : A -> M DB unit) : M DB unit :=
  match l with
  | [] => retM tt
  | x :: l' => bindM (f x) (fun _ => forM l' f)
  end.

Section environment.
Context `{Env} {DB : Type}.

Definition ids_New : M DB string := fun w =>
  (Ok (uuid_NewString (w_uuid w)),
   mkWorld (w_db w) (w_seq w) (S (w_uuid w)) (w_tick w) (w_tx w) (w_faults w) (w_sent w)).

Definition time_Now : M DB Z := fun w =>
  (Ok (clock_Now (w_tick w)),
   mkWorld (w_db w) (w_seq w) (w_uuid w) (S (w_tick w)) (w_tx w) (w_faults w) (w_sent w)).

Definition next_fault (w : World DB) : fault * World DB :=
  match w_faults w with
  | [] => (FOk, w)
  | f :: fs => (f, mkWorld (w_db w) (w_seq w) (w_uuid w) (w_tick w) (w_tx w) fs (w_sent w))
  end.

(** A SQL statement reads [now()], the next identity value and the tables;
    it fails (a violated constraint, an overflow) or returns rows and the new
    tables. *)
Definition stmt (A : Type) : Type := Z -> Z -> DB -> result (A * DB).

Definition run_stmt {A} (s : stmt A) (w : World DB) : result A * World DB :=
  match s (w_tx w) (w_seq w) (w_db w) with
  | Ok (a, db') =>
      (Ok a, mkWorld db' (w_seq w + 1)%Z (w_uuid w) (w_tick w) (w_tx w) (w_faults w) (w_sent w))
  | Err e =>
      (Err e, mkWorld (w_db w) (w_seq w + 1)%Z (w_uuid w) (w_tick w) (w_tx w) (w_faults w) (w_sent w))
  end.

(** A statement inside a transaction. *)
Definition exec {A} (s : stmt A) : M DB A := fun w =>
  match next_fault w with
  | (FOk, w1) => run_stmt s w1
  | (_, w1) => (Err ENet, w1)
  end.

(** [now()] is fixed when the transaction starts. *)
Definition start_tx (w : World DB) : World DB :=
  mkWorld (w_db w) (w_seq w) (w_uuid w) (S (w_tick w)) (clock_Now (w_tick w)) (w_faults w) (w_sent w).

(** A statement on the pool is a transaction of its own. *)
Definition autoexec {A} (s : stmt A) : M DB A := fun w =>
  match next_fault w with
  | (FOk, w1) => run_stmt s (start_tx w1)
  | (FErr, w1) => (Err ENet, w1)
  | (FLostAck, w1) => let '(_, w2) := run_stmt s (start_tx w1) in (Err ENet, w2)
  end.

(** [tx := pool.Begin(); defer tx.Rollback(); fn(tx) or return err;
    tx.Commit()]. An error rolls the tables back; identity values, clock
    readings and identifiers are not given back. A commit whose
    acknowledgement is lost reports an error although the tables changed. *)
Definition with_tx {A} (fn : M DB A) : M DB A := fun w =>
  match next_fault w with
  | (FOk, w1) =>
      match fn (start_tx w1) with
      | (Err e, w2) => (Err e, set_db (w_db w) w2)
      | (Ok a, w2) =>
          match next_fault w2 with
          | (FOk, w3) => (Ok a, w3)
          | (FErr, w3) => (Err ENet, set_db (w_db w) w3)
          | (FLostAck, w3) => (Err ENet, w3)
          end
      end
  | (_, w1) => (Err ENet, w1)
  end.

(** A unary gRPC call: the request or the response can be lost. *)
Definition rpc {A} (m : M DB A) : M DB A := fun w =>
  match next_fault w with
  | (FOk, w1) => let '(r, w2) := m w1 in (rpc_result r, w2)
  | (FErr, w1) => (Err ENet, w1)
  | (FLostAck, w1) => let '(_, w2) := m w1 in (Err ENet, w2)
  end.
End environment.
Arguments stmt : clear implicits.

(** ** Lenses: the tables of one component inside a larger database *)
Class Lens (S T : Type) := {
  view : S -> T;
  upd : T -> S -> S;
}.
Class LensOk (S T : Type) `{Lens S T} : Prop := {
  view_upd : forall t s, view (upd t s) = t;
  upd_view : forall s, upd (view s) s = s;
  upd_upd : forall t t' s, upd t (upd t' s) = upd t s;
}.

(** Run a computation of a component on the database of a system. *)
Definition zoom {S T A} `{Lens S T} (m : M T A) : M S A := fun w =>
  let '(r, w') := m (set_db (view (w_db w)) w) in
  (r, set_db (upd (w_db w') (w_db w)) w').

Definition on {S T A} `{Lens S T} (s : stmt T A) : stmt S A :=
  fun now seq db => result_map (fun '(a, t) => (a, upd t db)) (s now seq (view db)).
Arguments on : simpl never.

(** A statement that names a column its table does not have is an error. *)
Definition columns_exist (have need : list string) : bool :=
  forallb (fun c => bool_decide (c ∈ have)) need.
Definition no_column : error := ESql "column does not exist".

(** ** [order by key asc], [limit n]

    The keys the code orders by are unique, apart from [created_at], where
    ties keep insertion order. *)
Section order_by.
Context {A : Type} (key : A -> Z).

Fixpoint order_insert (x : A) (l : list A) : list A :=
  match l with
  | [] => [x]
  | y :: l' => if key x <=? key y then x :: l else y :: order_insert x l'
  end.

Fixpoint order_by (l : list A) : list A :=
  match l with
  | [] => []
  | x :: l' => order_insert x (order_by l')
  end.
End order_by.

(** * Proofs *)

(** ** Integers *)
Lemma wrap64_id z : in_int64 z -> wrap64 z = z.
Proof.
  unfold in_int64, wrap64, min_int64, max_int64. intros Hz.
  rewrite Z.mod_small; lia.
Qed.

Lemma wrap64_range z : in_int64 (wrap64 z).
Proof.
  unfold in_int64, wrap64, min_int64, max_int64.
  pose proof (Z.mod_pos_bound (z + 2 ^ 63) (2 ^ 64)). lia.
Qed.

Lemma wrap64_add_l a b : wrap64 (wrap64 a + b) = wrap64 (a + b).
Proof.
  unfold wrap64. f_equal.
  replace ((a + 2 ^ 63) `mod` 2 ^ 64 - 2 ^ 63 + b + 2 ^ 63)
    with ((a + 2 ^ 63) `mod` 2 ^ 64 + b) by lia.
  rewrite Zplus_mod_idemp_l. f_equal. lia.
Qed.

Lemma in_int64b_spec z : in_int64b z = true <-> in_int64 z.
Proof. unfold in_int64b, in_int64. lia. Qed.

(** ** Runs of the monad: weakest preconditions

    [wpm m Q w] says that running [m] from [w] ends in a result and a world
    that satisfy [Q]. Every run ends: the monad is a total function. *)
Definition wpm {DB A} (m : M DB A) (Q : result A -> World DB -> Prop) (w : World DB) : Prop :=
  Q (m w).1 (m w).2.

Section wp.
Context {DB : Type}.
Implicit Types w : World DB.

Lemma wpm_run {A} (m : M DB A) Q w r w' : m w = (r, w') -> wpm m Q w -> Q r w'.
Proof. unfold wpm. by intros ->. Qed.

Lemma wpm_intro {A} (m : M DB A) (Q : result A -> World DB -> Prop) w :
  (forall r w', m w = (r, w') -> Q r w') -> wpm m Q w.
Proof. unfold wpm. intros HQ. apply HQ. by destruct (m w). Qed.

Lemma wpm_mono {A} (m : M DB A) (P Q : result A -> World DB -> Prop) w :
  (forall r w', P r w' -> Q r w') -> wpm m P w -> wpm m Q w.
Proof. unfold wpm. auto. Qed.

Lemma wpm_ret {A} (a : A) (Q : result A -> World DB -> Prop) w :
  Q (Ok a) w -> wpm (retM a) Q w.
Proof. done. Qed.

Lemma wpm_fail {A} e (Q : result A -> World DB -> Prop) w :
  Q (Err e) w -> wpm (failM e) Q w.
Proof. done. Qed.

Lemma wpm_lift {A} (r : result A) (Q : result A -> World DB -> Prop) w :
  Q r w -> wpm (liftR r) Q w.
Proof. done. Qed.

Lemma wpm_bind {A B} (m : M DB A) (k : A -> M DB B) (Q : result B -> World DB -> Prop) w :
  wpm m (fun r w' => match r with Ok a => wpm (k a) Q w' | Err e => Q (Err e) w' end) w ->
  wpm (bindM m k) Q w.
Proof. unfold wpm, bindM. by destruct (m w) as [[a|e] w']. Qed.

Lemma wpm_fail_if b e (Q : result unit -> World DB -> Prop) w :
  (b = true -> Q (Err e) w) -> (b = false -> Q (Ok tt) w) -> wpm (fail_if b e) Q w.
Proof. destruct b; unfold wpm; simpl; auto. Qed.

Lemma wpm_wrap_err {A} ctx (m : M DB A) (Q : result A -> World DB -> Prop) w :
  wpm m (fun r w' => match r with Ok a => Q (Ok a) w' | Err e => Q (Err (EWrap ctx e)) w' end) w ->
  wpm (wrap_err ctx m) Q w.
Proof. unfold wpm, wrap_err. by destruct (m w) as [[a|e] w']. Qed.

Lemma wpm_try {A} (m : M DB A) (Q : result (result A) -> World DB -> Prop) w :
  wpm m (fun r w' => Q (Ok r) w') w -> wpm (tryM m) Q w.
Proof. unfold wpm, tryM. by destruct (m w) as [r w']. Qed.
End wp.

Section wp_env.
Context `{Env} {DB : Type}.
Implicit Types (db : DB) (sq tx : Z) (u t : nat) (fl : list fault) (sn : list message).

Lemma wpm_ids_New (Q : result string -> World DB -> Prop) db sq u t tx fl sn :
  Q (Ok (uuid_NewString u)) (mkWorld db sq (S u) t tx fl sn) ->
  wpm ids_New Q (mkWorld db sq u t tx fl sn).
Proof. done. Qed.

Lemma wpm_time_Now (Q : result Z -> World DB -> Prop) db sq u t tx fl sn :
  Q (Ok (clock_Now t)) (mkWorld db sq u (S t) tx fl sn) ->
  wpm time_Now Q (mkWorld db sq u t tx fl sn).
Proof. done. Qed.

(** A statement of a transaction: it runs, or the connection fails (only when
    outcomes are still scheduled). *)
Lemma wpm_exec {A} (s : stmt DB A) (Q : result A -> World DB -> Prop) db sq u t tx fl sn :
  (fl <> [] -> Q (Err ENet) (mkWorld db sq u t tx (tail fl) sn)) ->
  match s tx sq db with
  | Ok (a, db') => Q (Ok a) (mkWorld db' (sq + 1) u t tx (tail fl) sn)
  | Err e => Q (Err e) (mkWorld db (sq + 1) u t tx (tail fl) sn)
  end ->
  wpm (exec s) Q (mkWorld db sq u t tx fl sn).
Proof.
  intros He Hr. unfold wpm, exec, next_fault, run_stmt; simpl.
  destruct fl as [|[] fl]; simpl in *; [|idtac|by apply He|by apply He];
    by destruct (s tx sq db) as [[a db']|e].
Qed.

Lemma wpm_autoexec {A} (s : stmt DB A) (Q : result A -> World DB -> Prop) db sq u t tx fl sn :
  (fl <> [] -> Q (Err ENet) (mkWorld db sq u t tx (tail fl) sn)) ->
  match s (clock_Now t) sq db with
  | Ok (a, db') => Q (Ok a) (mkWorld db' (sq + 1) u (S t) (clock_Now t) (tail fl) sn) /\
      (fl <> [] -> Q (Err ENet) (mkWorld db' (sq + 1) u (S t) (clock_Now t) (tail fl) sn))
  | Err e => Q (Err e) (mkWorld db (sq + 1) u (S t) (clock_Now t) (tail fl) sn) /\
      (fl <> [] -> Q (Err ENet) (mkWorld db (sq + 1) u (S t) (clock_Now t) (tail fl) sn))
  end ->
  wpm (autoexec s) Q (mkWorld db sq u t tx fl sn).
Proof.
  intros He Hr. unfold wpm, autoexec, next_fault, run_stmt, start_tx; simpl.
  destruct fl as [|[] fl]; simpl in *; try by apply He.
  all: destruct (s (clock_Now t) sq db) as [[a db']|e]; simpl; by apply Hr.
Qed.

(** A transaction: the body runs on the tables it started with, and an error
    anywhere leaves exactly those tables. *)
Lemma wpm_with_tx {A} (fn : M DB A) (Q : result A -> World DB -> Prop) db sq u t tx fl sn :
  (fl <> [] -> Q (Err ENet) (mkWorld db sq u t tx (tail fl) sn)) ->
  wpm fn (fun r w2 =>
            match r with
            | Ok a =>
                Q (Ok a) (mkWorld (w_db w2) (w_seq w2) (w_uuid w2) (w_tick w2) (w_tx w2)
                            (tail (w_faults w2)) (w_sent w2)) /\
                (w_faults w2 <> [] -> forall db', db' = db \/ db' = w_db w2 ->
                  Q (Err ENet) (mkWorld db' (w_seq w2) (w_uuid w2) (w_tick w2) (w_tx w2)
                                  (tail (w_faults w2)) (w_sent w2)))
            | Err e => Q (Err e) (set_db db w2)
            end)
    (mkWorld db sq u (S t) (clock_Now t) (tail fl) sn) ->
  wpm (with_tx fn) Q (mkWorld db sq u t tx fl sn).
Proof.
  intros He Hr. unfold wpm, with_tx, next_fault, start_tx in *; simpl in *.
  destruct fl as [|[] fl]; simpl in *; try by apply He.
  all: destruct (fn _) as [[a|e] [db2 sq2 u2 t2 tx2 fl2 sn2]]; simpl in *; [|done].
  all: destruct Hr as [Hok Herr]; destruct fl2 as [|[] fl2]; simpl in *;
    first [done|apply Herr; [done|auto]].
Qed.

(** The error of a transaction's body leaves the tables exactly as they
    were. *)
Lemma with_tx_error {A} (fn : M DB A) w e w' :
  with_tx fn w = (Err e, w') -> e <> ENet -> w_db w' = w_db w.
Proof.
  destruct w as [db sq u t tx fl sn]. unfold with_tx, next_fault, start_tx.
  destruct fl as [|[] fl]; simpl; try (by intros [= <- <-]);
    destruct (fn _) as [[a|e'] w2]; simpl; try (by intros [= <- <-]);
    destruct (w_faults w2) as [|[] fl2]; by intros; simplify_eq.
Qed.

Lemma wpm_rpc {A} (m : M DB A) (Q : result A -> World DB -> Prop) db sq u t tx fl sn :
  (fl <> [] -> Q (Err ENet) (mkWorld db sq u t tx (tail fl) sn)) ->
  wpm m (fun r w' => Q (rpc_result r) w' /\ (fl <> [] -> Q (Err ENet) w')) (mkWorld db sq u t tx (tail fl) sn) ->
  wpm (rpc m) Q (mkWorld db sq u t tx fl sn).
Proof.
  intros He Hr. unfold wpm, rpc, next_fault in *; simpl in *.
  destruct fl as [|[] fl]; simpl in *; [..|by apply He|];
    destruct (m _) as [r w'] eqn:E; simpl in *; by apply Hr.
Qed.
End wp_env.

(** ** What every run keeps: counters grow, and no failure appears from
    nowhere. *)
Definition later {DB DB'} (w : World DB) (w' : World DB') : Prop :=
  w_seq w <= w_seq w' /\ (w_uuid w <= w_uuid w')%nat /\ (w_faults w = [] -> w_faults w' = []).

Lemma later_refl {DB} (w : World DB) : later w w.
Proof. by split_and!. Qed.
Lemma later_trans {DB} (w1 w2 w3 : World DB) : later w1 w2 -> later w2 w3 -> later w1 w3.
Proof. intros (? & ? & ?) (? & ? & ?). split_and!; [lia|lia|auto]. Qed.

(** The world a transaction's body starts in. *)
Definition tx_world `{Env} {DB} (w : World DB) : World DB :=
  mkWorld (w_db w) (w_seq w) (w_uuid w) (S (w_tick w)) (clock_Now (w_tick w)) (tail (w_faults w)) (w_sent w).

Lemma later_tx `{Env} {DB} (w : World DB) : later w (tx_world w).
Proof. unfold later, tx_world. simpl. split_and!; [lia|lia|by intros ->]. Qed.

(** A transaction whose body, when it succeeds, establishes [P], and otherwise
    fails with an error of [E] unless the database failed: the transaction
    commits [P], or reports the error with the tables as they were; only when
    the database fails can it report an error and have committed. *)
Lemma with_tx_post `{Env} {DB A} (fn : M DB A) (P : A -> World DB -> Prop) (E : error -> Prop) w :
  (forall a w1 w2, w_db w2 = w_db w1 -> w_seq w2 = w_seq w1 -> w_uuid w2 = w_uuid w1 -> P a w1 -> P a w2) ->
  wpm fn (fun r w2 => later (tx_world w) w2 /\
            match r with Ok a => P a w2 | Err e => E e \/ w_faults w <> [] end) (tx_world w) ->
  wpm (with_tx fn) (fun r w' => later w w' /\
    match r with
    | Ok a => P a w'
    | Err e => (E e /\ w_db w' = w_db w) \/ (w_faults w <> [] /\ (w_db w' = w_db w \/ exists a, P a w'))
    end) w.
Proof.
  intros Hst Hbody. destruct w as [db sq u t tx fl sn]. unfold tx_world in *. simpl in *.
  apply wpm_with_tx.
  { intros Hne. split; [|auto]. split_and!; simpl; [lia|lia|by intros ->]. }
  eapply wpm_mono; [|exact Hbody]. intros r w2 ((Hsq & Hu & Hfl) & Hr). simpl in *.
  assert (fl = [] -> w_faults w2 = []) as Hfl2 by (intros ->; by apply Hfl).
  assert (fl = [] -> tail (w_faults w2) = []) as Hfl3 by (intros Hnil; by rewrite (Hfl2 Hnil)).
  destruct r as [a|e].
  - split.
    + split; [by split_and!|]. by eapply Hst; [..|exact Hr].
    + intros Hne db' Hdb'. split; [by split_and!|]. right.
      split; [intros Hnil; by apply Hne, Hfl2|]. destruct Hdb' as [->| ->]; [by left|right].
      exists a. by eapply Hst; [..|exact Hr].
  - split; [by split_and!|]. destruct Hr as [HE|Hne]; [left; done|right]. split; [done|by left].
Qed.

(** One step of symbolic execution; [wp_steps] runs as far as the program's
    own case analysis. *)
Ltac wp_step :=
  cbv beta;
  lazymatch goal with
  | |- wpm (bindM _ _) _ _ => apply wpm_bind
  | |- wpm (retM _) _ _ => apply wpm_ret
  | |- wpm (failM _) _ _ => apply wpm_fail
  | |- wpm (liftR _) _ _ => apply wpm_lift
  | |- wpm (wrap_err _ _) _ _ => apply wpm_wrap_err
  | |- wpm (tryM _) _ _ => apply wpm_try
  | |- wpm ids_New _ _ => apply wpm_ids_New
  | |- wpm time_Now _ _ => apply wpm_time_Now
  | |- wpm (fail_if _ _) _ _ => apply wpm_fail_if; intros ?
  | |- wpm (with_tx _) _ _ => apply wpm_with_tx; [intros _|]
  end.
Ltac wp_steps := repeat wp_step.

(** ** [order by] *)
Section order_by_lemmas.
Context {A : Type} (key : A -> Z).

Lemma order_insert_perm x l : order_insert key x l ≡ₚ x :: l.
Proof.
  induction l as [|y l IH]; simpl; [done|].
  destruct (key x <=? key y); [done|]. rewrite IH. apply Permutation_swap.
Qed.

Lemma order_by_perm l : order_by key l ≡ₚ l.
Proof.
  induction l as [|x l IH]; simpl; [done|]. by rewrite order_insert_perm, IH.
Qed.

Lemma elem_of_order_by x l : x ∈ order_by key l <-> x ∈ l.
Proof. by rewrite order_by_perm. Qed.

Definition key_sorted (l : list A) : Prop := StronglySorted (fun x y => key x <= key y) l.

Lemma order_insert_sorted x l : key_sorted l -> key_sorted (order_insert key x l).
Proof.
  unfold key_sorted. induction 1 as [|y l Hl IH Hy]; simpl.
  - by repeat constructor.
  - destruct (Z.leb_spec (key x) (key y)) as [Hle|Hlt].
    + constructor; [by constructor|]. constructor; [done|].
      eapply Forall_impl; [exact Hy|]. simpl; lia.
    + constructor; [done|]. rewrite order_insert_perm.
      constructor; [lia|done].
Qed.

Lemma order_by_sorted l : key_sorted (order_by key l).
Proof. induction l; simpl; [constructor|by apply order_insert_sorted]. Qed.

(** A last element whose key is not below the others stays last. *)
Lemma order_insert_snoc x l y : key x <= key y -> order_insert key x (l ++ [y]) = order_insert key x l ++ [y].
Proof.
  intros Hxy. induction l as [|z l IH]; simpl.
  - destruct (Z.leb_spec (key x) (key y)); [done|lia].
  - destruct (key x <=? key z); [done|]. by rewrite IH.
Qed.

(** Ordering a list that is already in order changes nothing. *)
Lemma order_by_id l : key_sorted l -> order_by key l = l.
Proof.
  unfold key_sorted. induction 1 as [|x l Hl IH Hx]; simpl; [done|].
  rewrite IH. destruct l as [|y l]; simpl; [done|].
  apply Forall_inv in Hx. simpl in Hx.
  destruct (Z.leb_spec (key x) (key y)); [done|lia].
Qed.

(** [order by key limit 1] finds a smallest key. *)
Lemma head_order_by l :
  match head (order_by key l) with
  | Some x => x ∈ l /\ forall y, y ∈ l -> key x <= key y
  | None => l = []
  end.
Proof.
  pose proof (order_by_sorted l) as Hs. pose proof (order_by_perm l) as Hp.
  destruct (order_by key l) as [|x l'] eqn:E; simpl.
  - by apply Permutation_nil_l in Hp.
  - split; [rewrite <-Hp; by left|]. intros y Hy. rewrite <-Hp in Hy.
    apply elem_of_cons in Hy as [->|Hy]; [done|].
    inversion Hs as [|? ? _ HF]; subst. rewrite Forall_forall in HF. by apply HF.
Qed.
End order_by_lemmas.

(** ** Lenses *)
#[export] Instance lens_id {T} : Lens T T := {| view := fun t => t; upd := fun t _ => t |}.

(** ** Lists *)
Lemma list_length_ind {A} (P : list A -> Prop) :
  (forall l, (forall l', (length l' < length l)%nat -> P l') -> P l) -> forall l, P l.
Proof.
  intros HP l. assert (forall n l', (length l' < n)%nat -> P l') as Hn; [|eapply Hn; apply Nat.lt_succ_diag_r].
  induction n as [|n IH]; intros l' Hl'; [lia|]. apply HP. intros l'' Hl''. apply IH. lia.
Qed.

Section list_lemmas.
Context {A : Type}.
Implicit Types l : list A.

Lemma elem_of_filter_list (f : A -> bool) l x : x ∈ List.filter f l <-> x ∈ l /\ f x = true.
Proof. by rewrite !list_elem_of_In, filter_In. Qed.

Lemma filter_list_app (f : A -> bool) l l' :
  List.filter f (l ++ l') = List.filter f l ++ List.filter f l'.
Proof. apply List.filter_app. Qed.

Lemma filter_list_all (f : A -> bool) l : (forall x, x ∈ l -> f x = true) -> List.filter f l = l.
Proof.
  induction l as [|x l IH]; simpl; intros Hf; [done|].
  rewrite Hf by set_solver. f_equal. apply IH. set_solver.
Qed.

Lemma filter_list_none (f : A -> bool) l : (forall x, x ∈ l -> f x = false) -> List.filter f l = [].
Proof.
  induction l as [|x l IH]; simpl; intros Hf; [done|].
  rewrite Hf by set_solver. apply IH. set_solver.
Qed.

Lemma filter_list_filter (f g : A -> bool) l :
  (forall x, x ∈ l -> f x = true -> g x = true) ->
  List.filter f (List.filter g l) = List.filter f l.
Proof.
  induction l as [|x l IH]; simpl; intros Hfg; [done|].
  destruct (g x) eqn:Hg; simpl.
  - destruct (f x); rewrite IH by set_solver; done.
  - rewrite IH by set_solver. destruct (f x) eqn:Hf; [|done].
    rewrite Hfg in Hg; [done|set_solver|done].
Qed.

Lemma existsb_false_list (f : A -> bool) l :
  existsb f l = false <-> forall x, x ∈ l -> f x = false.
Proof.
  induction l as [|y l IH]; simpl.
  - split; [intros _ x Hx; by apply not_elem_of_nil in Hx|done].
  - rewrite orb_false_iff, IH. setoid_rewrite elem_of_cons. naive_solver.
Qed.

Lemma existsb_true_list (f : A -> bool) l :
  existsb f l = true <-> exists x, x ∈ l /\ f x = true.
Proof. rewrite existsb_exists. by setoid_rewrite <-list_elem_of_In. Qed.

Lemma NoDup_map_snoc {B} (f : A -> B) l x :
  NoDup (map f l) -> (forall y, y ∈ l -> f y <> f x) -> NoDup (map f (l ++ [x])).
Proof.
  intros Hl Hx. rewrite map_app. apply NoDup_app. split; [done|]. split; [|apply NoDup_singleton].
  intros b Hb Hb'. simpl in Hb'. apply list_elem_of_singleton in Hb' as ->.
  apply list_elem_of_fmap in Hb as (y & Hy & ?). by eapply Hx.
Qed.

Lemma NoDup_map_filter {B} (f : A -> B) (g : A -> bool) l :
  NoDup (map f l) -> NoDup (map f (List.filter g l)).
Proof.
  induction l as [|x l IH]; simpl; [done|]. intros [Hx Hl]%NoDup_cons.
  destruct (g x); simpl; [|by apply IH]. apply NoDup_cons. split; [|by apply IH].
  intros (y & Hy1 & Hy2)%list_elem_of_fmap. apply elem_of_filter_list in Hy2 as [Hy2 _].
  apply Hx. rewrite Hy1. by apply (list_elem_of_fmap_2 f).
Qed.

Lemma NoDup_map_inj {B} (f : A -> B) l x y :
  NoDup (map f l) -> x ∈ l -> y ∈ l -> f x = f y -> x = y.
Proof.
  intros Hnd [i Hi]%list_elem_of_lookup [j Hj]%list_elem_of_lookup Hf.
  assert (i = j) as ->; [|congruence].
  eapply (NoDup_lookup (map f l)); [done|..]; rewrite list_lookup_fmap, ?Hi, ?Hj; simpl; [done|].
  by rewrite Hf.
Qed.

Lemma filter_unique {B} `{EqDecision B} (f : A -> B) l x :
  NoDup (map f l) -> x ∈ l -> List.filter (fun y => bool_decide (f y = f x)) l = [x].
Proof.
  induction l as [|z l IH]; simpl; intros Hnd Hx; [by apply not_elem_of_nil in Hx|].
  apply NoDup_cons in Hnd as [Hz Hnd]. apply elem_of_cons in Hx as [->|Hx].
  - rewrite bool_decide_true by done. f_equal. apply filter_list_none. intros y Hy.
    apply bool_decide_false. intros Hf. apply Hz. rewrite <-Hf. by apply (list_elem_of_fmap_2 f).
  - rewrite bool_decide_false; [by apply IH|]. intros Hf. apply Hz. rewrite Hf.
    by apply (list_elem_of_fmap_2 f).
Qed.

Lemma StronglySorted_snoc (R : A -> A -> Prop) l x :
  StronglySorted R l -> Forall (fun y => R y x) l -> StronglySorted R (l ++ [x]).
Proof.
  induction 1 as [|y l Hl IH Hy]; intros Hx; simpl; [by repeat constructor|].
  inversion Hx; subst. constructor; [by apply IH|]. apply Forall_app. auto.
Qed.

Lemma StronglySorted_filter_list (R : A -> A -> Prop) (f : A -> bool) l :
  StronglySorted R l -> StronglySorted R (List.filter f l).
Proof.
  induction 1 as [|y l Hl IH Hy]; simpl; [constructor|].
  destruct (f y); [|done]. constructor; [done|].
  rewrite Forall_forall in Hy |- *. intros x Hx. apply Hy.
  by apply elem_of_filter_list in Hx as [? _].
Qed.

Lemma StronglySorted_weaken (R R' : A -> A -> Prop) l :
  (forall x y, R x y -> R' x y) -> StronglySorted R l -> StronglySorted R' l.
Proof.
  intros HR. induction 1 as [|y l Hl IH Hy]; constructor; [done|].
  eapply Forall_impl; [exact Hy|]. auto.
Qed.

Lemma StronglySorted_app_inv_l (R : A -> A -> Prop) l1 x l2 :
  StronglySorted R (l1 ++ x :: l2) -> Forall (fun y => R y x) l1 /\ Forall (R x) l2.
Proof.
  induction l1 as [|y l1 IH]; simpl; intros HS; inversion HS as [|? ? HS' HF]; subst.
  - split; [constructor|done].
  - destruct (IH HS') as [Hl1 Hl2]. split; [|done]. constructor; [|done].
    rewrite Forall_forall in HF. apply HF. set_solver.
Qed.

Lemma Forall2_elem_l {B} (R : A -> B -> Prop) l k x :
  Forall2 R l k -> x ∈ l -> exists y, y ∈ k /\ R x y.
Proof.
  induction 1; intros Hx; [by apply not_elem_of_nil in Hx|].
  apply elem_of_cons in Hx as [->|Hx]; set_solver.
Qed.

Lemma columns_exist_spec have need : columns_exist have need = true <-> need ⊆ have.
Proof.
  unfold columns_exist. rewrite forallb_forall. split.
  - intros Hf c Hc. apply list_elem_of_In, Hf in Hc. by apply bool_decide_eq_true in Hc.
  - intros Hs c Hc. apply bool_decide_eq_true, Hs. by apply list_elem_of_In.
Qed.

Lemma tail_nonempty l : tail l <> [] -> l <> [].
Proof. by destruct l. Qed.
End list_lemmas.

(** ** Statements through a lens, loops *)
Lemma on_run {S T A} `{Lens S T} (s : stmt T A) now seq (db : S) :
  on s now seq db =
  match s now seq (view db) with Ok (a, t) => Ok (a, upd t db) | Err e => Err e end.
Proof. unfold on. by destruct (s now seq (view db)) as [[a t]|e]. Qed.

Lemma wpm_zoom {S T A} `{Lens S T} (m : M T A) (Q : result A -> World S -> Prop) w :
  wpm m (fun r w' => Q r (set_db (upd (w_db w') (w_db w)) w')) (set_db (view (w_db w)) w) ->
  wpm (zoom m) Q w.
Proof. unfold wpm, zoom. by destruct (m _) as [r w']. Qed.

Lemma zoom_run {S T A} `{Lens S T} (m : M T A) w r w' :
  m (set_db (view (w_db w)) w) = (r, w') -> zoom m w = (r, set_db (upd (w_db w') (w_db w)) w').
Proof. unfold zoom. by intros ->. Qed.

Lemma rpc_quiet {DB A} (m : M DB A) w r w' :
  w_faults w = [] -> m w = (r, w') -> rpc m w = (rpc_result r, w').
Proof. intros Hfl Hm. unfold rpc, next_fault. by rewrite Hfl, Hm. Qed.

Lemma wpm_forM_inv {DB A} (I : World DB -> Prop) (l : list A) (f : A -> M DB unit) w :
  (forall x w', x ∈ l -> I w' -> wpm (f x) (fun _ w'' => I w'') w') ->
  I w -> wpm (forM l f) (fun _ w' => I w') w.
Proof.
  revert w. induction l as [|x l IH]; intros w Hf Hw; simpl; [done|].
  apply wpm_bind. eapply wpm_mono; [|apply Hf; [set_solver|done]].
  intros [a|e] w' HI; [|done]. apply IH; [|done]. intros y w'' Hy. apply Hf. set_solver.
Qed.

(** [order by] commutes with [where]. *)
Lemma filter_order_insert {A} (key : A -> Z) (f : A -> bool) x l :
  key_sorted key l ->
  List.filter f (order_insert key x l) =
  if f x then order_insert key x (List.filter f l) else List.filter f l.
Proof.
  unfold key_sorted. induction 1 as [|y l Hl IH Hy]; simpl.
  - by destruct (f x).
  - destruct (Z.leb_spec (key x) (key y)) as [Hle|Hlt]; simpl.
    + destruct (f x); [|done]. destruct (f y); simpl.
      { destruct (Z.leb_spec (key x) (key y)); [done|lia]. }
      rewrite Forall_forall in Hy. clear IH Hl.
      induction l as [|z l IH]; simpl; [done|].
      assert (key y <= key z) by (apply Hy; set_solver).
      destruct (f z); simpl.
      * destruct (Z.leb_spec (key x) (key z)); [done|lia].
      * apply IH. set_solver.
    + rewrite IH. destruct (f x), (f y); simpl; try done.
      destruct (Z.leb_spec (key x) (key y)); [lia|done].
Qed.

Lemma filter_order_by {A} (key : A -> Z) (f : A -> bool) l :
  List.filter f (order_by key l) = order_by key (List.filter f l).
Proof.
  induction l as [|x l IH]; simpl; [done|].
  rewrite filter_order_insert, IH by apply order_by_sorted. by destruct (f x).
Qed.

(** ** Counters only grow

    [advances m]: whatever [m] does, identity values and identifiers are not
    given back and no failure appears from nowhere. The database [advances]
    proves it of a computation from its parts. *)
Definition advances {DB A} (m : M DB A) : Prop := forall w, later w (m w).2.

Section advances.
Context {DB : Type}.

Lemma advances_ret {A} (a : A) : advances (DB := DB) (retM a).
Proof. intros w. apply later_refl. Qed.
Lemma advances_fail {A} e : advances (DB := DB) (A := A) (failM e).
Proof. intros w. apply later_refl. Qed.
Lemma advances_lift {A} (r : result A) : advances (DB := DB) (liftR r).
Proof. intros w. apply later_refl. Qed.
Lemma advances_fail_if b e : advances (DB := DB) (fail_if b e).
Proof. intros w. unfold fail_if. destruct b; apply later_refl. Qed.

Lemma advances_bind {A B} (m : M DB A) (k : A -> M DB B) :
  advances m -> (forall a, advances (k a)) -> advances (bindM m k).
Proof.
  intros Hm Hk w. specialize (Hm w). unfold bindM. destruct (m w) as [[a|e] w']; [|done].
  eapply later_trans; [exact Hm|apply Hk].
Qed.
Lemma advances_wrap {A} ctx (m : M DB A) : advances m -> advances (wrap_err ctx m).
Proof. intros Hm w. specialize (Hm w). unfold wrap_err. by destruct (m w) as [[]]. Qed.
Lemma advances_try {A} (m : M DB A) : advances m -> advances (tryM m).
Proof. intros Hm w. specialize (Hm w). unfold tryM. by destruct (m w). Qed.
Lemma advances_forM {A} (l : list A) (f : A -> M DB unit) : (forall x, advances (f x)) -> advances (forM l f).
Proof. intros Hf. induction l; simpl; [apply advances_ret|by apply advances_bind]. Qed.

Context `{Env}.

Lemma advances_ids : advances (DB := DB) ids_New.
Proof. intros w. split_and!; simpl; [lia|lia|done]. Qed.
Lemma advances_now : advances (DB := DB) time_Now.
Proof. intros w. split_and!; simpl; [lia|lia|done]. Qed.
Lemma later_next_fault (w : World DB) : later w (next_fault w).2.
Proof. destruct w as [db sq u t tx [|f fl] sn]; by split_and!. Qed.
Lemma advances_exec {A} (s : stmt DB A) : advances (exec s).
Proof.
  intros [db sq u t tx fl sn]. apply (wpm_exec s (fun _ w' => later _ w')).
  - intros _. split_and!; simpl; [lia|lia|by intros ->].
  - destruct (s tx sq db) as [[a db']|e]; split_and!; simpl; solve [lia|by intros ->].
Qed.
Lemma advances_autoexec {A} (s : stmt DB A) : advances (autoexec s).
Proof.
  intros [db sq u t tx fl sn]. apply (wpm_autoexec s (fun _ w' => later _ w')).
  - intros _. split_and!; simpl; [lia|lia|by intros ->].
  - destruct (s (clock_Now t) sq db) as [[a db']|e]; split; intros; split_and!; simpl; solve [lia|by intros ->].
Qed.
Lemma advances_tx {A} (fn : M DB A) : advances fn -> advances (with_tx fn).
Proof.
  intros Hfn w. apply (wpm_mono _ (fun r w' => later w w' /\ match r with Ok _ => True | Err e =>
    (True /\ w_db w' = w_db w) \/ (w_faults w <> [] /\ (w_db w' = w_db w \/ exists a : A, True)) end)
    (fun _ w' => later w w')); [by intros r w' [? _]|].
  apply (with_tx_post fn (fun _ _ => True) (fun _ => True)); [done|].
  apply wpm_intro. intros r w' Hrun. specialize (Hfn (tx_world w)). rewrite Hrun in Hfn.
  split; [done|]. destruct r; auto.
Qed.
Lemma advances_rpc {A} (m : M DB A) : advances m -> advances (rpc m).
Proof.
  intros Hm w. unfold rpc. pose proof (later_next_fault w) as Hl. destruct (next_fault w) as [f w1]; simpl in Hl.
  specialize (Hm w1). destruct f; [..|done|]; destruct (m w1) as [r w2]; simpl in *; by eapply later_trans.
Qed.
End advances.

Lemma advances_zoom {S T A} `{Lens S T} (m : M T A) : advances m -> advances (zoom m).
Proof.
  intros Hm w. specialize (Hm (set_db (view (w_db w)) w)). unfold zoom. destruct (m _) as [r w'].
  destruct Hm as (? & ? & ?). by split_and!.
Qed.

Create HintDb advances discriminated.
#[export] Hint Resolve advances_ret advances_fail advances_lift advances_fail_if advances_ids advances_now
  advances_exec advances_autoexec : advances.

(** The structure of the computation is followed; the leaves are in the
    database. *)
Ltac solve_advances :=
  intros; cbv beta zeta;
  lazymatch goal with
  | |- advances (bindM _ _) => apply advances_bind; solve_advances
  | |- advances (wrap_err _ _) => apply advances_wrap; solve_advances
  | |- advances (tryM _) => apply advances_try; solve_advances
  | |- advances (forM _ _) => apply advances_forM; solve_advances
  | |- advances (with_tx _) => apply advances_tx; solve_advances
  | |- advances (rpc _) => apply advances_rpc; solve_advances
  | |- advances (zoom _) => apply advances_zoom; solve_advances
  | |- advances (match ?x with _ => _ end) => destruct x; solve_advances
  | |- advances _ => solve [auto with advances nocore]
  end.
