(* ===== verification/GoStrings.v ===== *)
(** * The parts of Go's package [strings] the services call

    Go strings are byte strings; [string] is the same thing here. White space
    is Unicode's, recognised by its UTF-8 encodings, as [strings.TrimSpace]
    does. Case mapping is the ASCII one. *)
From S2P Require Import Prelude.
From Stdlib Require Import Ascii String.
#[local] Open Scope Z_scope.

Definition byte_is (n : nat) (a : ascii) : bool := (nat_of_ascii a =? n)%nat.
Definition byte_in (lo hi : nat) (a : ascii) : bool :=
  (lo <=? nat_of_ascii a)%nat && (nat_of_ascii a <=? hi)%nat.

(** The white space characters by the length of their encoding: tab to
    carriage return and space; U+0085 and U+00A0; U+1680, U+2000 to U+200A,
    U+2028, U+2029, U+202F, U+205F and U+3000. *)
Definition space1 (a : ascii) : bool := byte_in 9 13 a || byte_is 32 a.
Definition space2 (a b : ascii) : bool :=
  byte_is 194 a && (byte_is 133 b || byte_is 160 b).
Definition space3 (a b c : ascii) : bool :=
  (byte_is 225 a && byte_is 154 b && byte_is 128 c) ||
  (byte_is 226 a && byte_is 128 b &&
     (byte_in 128 138 c || byte_is 168 c || byte_is 169 c || byte_is 175 c)) ||
  (byte_is 226 a && byte_is 129 b && byte_is 159 c) ||
  (byte_is 227 a && byte_is 128 b && byte_is 128 c).

Section trim.
Variables (sp2 : ascii -> ascii -> bool) (sp3 : ascii -> ascii -> ascii -> bool).
Fixpoint trim_spaces (l : list ascii) : list ascii :=
  match l with
  | a :: l1 =>
      if space1 a then trim_spaces l1 else
      match l1 with
      | b :: l2 =>
          if sp2 a b then trim_spaces l2 else
          match l2 with
          | c :: l3 => if sp3 a b c then trim_spaces l3 else l
          | [] => l
          end
      | [] => l
      end
  | [] => []
  end.
End trim.
Definition trim_left : list ascii -> list ascii := trim_spaces space2 space3.
(** The same on the reversed string, for the right end. *)
Definition trim_left_rev : list ascii -> list ascii :=
  trim_spaces (fun a b => space2 b a) (fun a b c => space3 c b a).

Definition TrimSpace (s : string) : string :=
  string_of_list_ascii
    (reverse (trim_left_rev (reverse (trim_left (list_ascii_of_string s))))).

Definition is_empty (s : string) : bool := bool_decide (s = "").

Definition lower_ascii (a : ascii) : ascii :=
  if byte_in 65 90 a then ascii_of_nat (nat_of_ascii a + 32) else a.
Definition upper_ascii (a : ascii) : ascii :=
  if byte_in 97 122 a then ascii_of_nat (nat_of_ascii a - 32) else a.

Fixpoint ToLower (s : string) : string :=
  match s with
  | EmptyString => EmptyString
  | String a s' => String (lower_ascii a) (ToLower s')
  end.
Fixpoint ToUpper (s : string) : string :=
  match s with
  | EmptyString => EmptyString
  | String a s' => String (upper_ascii a) (ToUpper s')
  end.
Definition EqualFold (s t : string) : bool := bool_decide (ToLower s = ToLower t).

Definition HasPrefix (s p : string) : bool := String.prefix p s.
(** [HasPrefix] and [TrimPrefix] in one: what follows the prefix. *)
Fixpoint prefix_tail (p s : string) : option string :=
  match p, s with
  | EmptyString, _ => Some s
  | String a p', String b s' => if bool_decide (a = b) then prefix_tail p' s' else None
  | String _ _, EmptyString => None
  end.
Fixpoint HasSuffix (s p : string) : bool :=
  bool_decide (s = p) ||
  match s with EmptyString => false | String _ s' => HasSuffix s' p end.

Fixpoint Contains (s sub : string) : bool :=
  HasPrefix s sub || match s with EmptyString => false | String _ s' => Contains s' sub end.

(** [strings.Split(s, sep)] for a separator of one byte. *)
Fixpoint Split (sep : ascii) (s : string) : list string :=
  match s with
  | EmptyString => [""]
  | String c s' =>
      if bool_decide (c = sep) then "" :: Split sep s'
      else match Split sep s' with
           | [] => [String c ""]
           | p :: ps => String c p :: ps
           end
  end.

(** [strings.SplitN(s, sep, 2)] when it has two parts. *)
Fixpoint cut_at (sep : ascii) (s : string) : option (string * string) :=
  match s with
  | EmptyString => None
  | String c s' =>
      if bool_decide (c = sep) then Some ("", s')
      else match cut_at sep s' with
           | Some (a, b) => Some (String c a, b)
           | None => None
           end
  end.

Fixpoint Join (l : list string) (sep : string) : string :=
  match l with
  | [] => ""
  | [x] => x
  | x :: l' => x +:+ sep +:+ Join l' sep
  end.

(** [strings.Fields]: the maximal runs of characters that are not white
    space; [cur] is the run being read, reversed. *)
Definition flush_field (cur : list ascii) (fs : list string) : list string :=
  match cur with [] => fs | _ => string_of_list_ascii (reverse cur) :: fs end.
Fixpoint fields_from (cur : list ascii) (l : list ascii) : list string :=
  match l with
  | [] => flush_field cur []
  | a :: l1 =>
      if space1 a then flush_field cur (fields_from [] l1) else
      match l1 with
      | b :: l2 =>
          if space2 a b then flush_field cur (fields_from [] l2) else
          match l2 with
          | c :: l3 => if space3 a b c then flush_field cur (fields_from [] l3) else fields_from (a :: cur) l1
          | [] => fields_from (a :: cur) l1
          end
      | [] => fields_from (a :: cur) l1
      end
  end.
Definition Fields (s : string) : list string := fields_from [] (list_ascii_of_string s).

(** [strconv.ParseUint(s, 10, 64)] *)
Definition digit_value (c : ascii) : option Z :=
  let d := Z.of_nat (nat_of_ascii c) - 48 in
  if (0 <=? d) && (d <=? 9) then Some d else None.
Fixpoint digits_value (acc : Z) (s : string) : option Z :=
  match s with
  | EmptyString => Some acc
  | String c s' =>
      match digit_value c with
      | Some d => digits_value (10 * acc + d) s'
      | None => None
      end
  end.
Definition ParseUint64 (s : string) : option Z :=
  if is_empty s then None
  else match digits_value 0 s with
       | Some z => if z <? 2 ^ 64 then Some z else None
       | None => None
       end.

Lemma is_empty_true s : is_empty s = true <-> s = "".
Proof. unfold is_empty. by rewrite bool_decide_eq_true. Qed.

Lemma is_empty_false s : is_empty s = false <-> s <> "".
Proof. unfold is_empty. by rewrite bool_decide_eq_false. Qed.

Lemma TrimSpace_nil : TrimSpace "" = "".
Proof. reflexivity. Qed.

(** A string that trims to something is not empty: the checks
    [strings.TrimSpace(x) == ""] of the servers subsume the checks [x == ""]
    of the handlers behind them. *)
Lemma TrimSpace_nonempty s : TrimSpace s <> "" -> s <> "".
Proof. intros Hs ->. by apply Hs. Qed.

(** A string without the separator is one part, and the separator ends a
    part. *)
Definition free_of (c : ascii) (s : string) : Prop := c ∉ list_ascii_of_string s.

Lemma Split_app sep s t : free_of sep s -> Split sep (s +:+ String sep t) = s :: Split sep t.
Proof.
  unfold free_of. induction s as [|c s IH]; simpl; intros Hs.
  - by rewrite bool_decide_true.
  - rewrite not_elem_of_cons in Hs. destruct Hs as [Hc Hs].
    rewrite bool_decide_false by congruence. by rewrite IH.
Qed.

Lemma Split_free sep s : free_of sep s -> Split sep s = [s].
Proof.
  unfold free_of. induction s as [|c s IH]; simpl; intros Hs; [done|].
  rewrite not_elem_of_cons in Hs. destruct Hs as [Hc Hs].
  rewrite bool_decide_false by congruence. by rewrite IH.
Qed.

(** Trimming keeps every ASCII character that is not white space. *)
Definition solid (c : ascii) : bool := negb (space1 c) && (nat_of_ascii c <? 128)%nat.

Lemma solid_space1 c : solid c = true -> space1 c = false.
Proof. unfold solid. intros [H%negb_true_iff _]%andb_prop. done. Qed.
Lemma solid_space2 a b c : solid c = true -> space2 a b = true -> c <> a /\ c <> b.
Proof.
  unfold solid, space2, byte_is. intros [_ Hc%Nat.ltb_lt]%andb_prop Hs.
  rewrite !andb_true_iff, !orb_true_iff, !Nat.eqb_eq in Hs. split; intros <-; lia.
Qed.
Lemma solid_space3 a b d c : solid c = true -> space3 a b d = true -> c <> a /\ c <> b /\ c <> d.
Proof.
  unfold solid, space3, byte_is, byte_in. intros [_ Hc%Nat.ltb_lt]%andb_prop Hs.
  rewrite !orb_true_iff, !andb_true_iff, !orb_true_iff, !andb_true_iff, !Nat.eqb_eq, !Nat.leb_le in Hs.
  split_and!; intros <-; lia.
Qed.
Lemma trim_spaces_keeps sp2 sp3 c :
  solid c = true ->
  (forall a b, sp2 a b = true -> c <> a /\ c <> b) ->
  (forall a b d, sp3 a b d = true -> c <> a /\ c <> b /\ c <> d) ->
  forall l, c ∈ l -> c ∈ trim_spaces sp2 sp3 l.
Proof.
  intros Hc Hsp2 Hsp3 l. induction l as [l IH] using list_length_ind.
  destruct l as [|a l1]; intros Hin; [done|]. simpl. destruct (space1 a) eqn:H1.
  { apply IH; [simpl; lia|]. apply elem_of_cons in Hin as [->|?]; [|done]. by rewrite solid_space1 in H1. }
  destruct l1 as [|b l2]; [done|]. destruct (sp2 a b) eqn:H2.
  { apply IH; [simpl; lia|]. destruct (Hsp2 _ _ H2). rewrite !elem_of_cons in Hin. tauto. }
  destruct l2 as [|d l3]; [done|]. destruct (sp3 a b d) eqn:H3; [|done].
  apply IH; [simpl; lia|]. destruct (Hsp3 _ _ _ H3) as (? & ? & ?). rewrite !elem_of_cons in Hin. tauto.
Qed.

Lemma TrimSpace_keeps c s : solid c = true -> c ∈ list_ascii_of_string s -> c ∈ list_ascii_of_string (TrimSpace s).
Proof.
  intros Hc Hs. unfold TrimSpace. rewrite list_ascii_of_string_of_list_ascii, elem_of_reverse.
  apply trim_spaces_keeps; [done|..].
  - intros a b Hab. destruct (solid_space2 _ _ _ Hc Hab). done.
  - intros a b d Habd. destruct (solid_space3 _ _ _ _ Hc Habd) as (? & ? & ?). done.
  - rewrite elem_of_reverse. apply trim_spaces_keeps; [done|..|done].
    + intros a b. by apply solid_space2.
    + intros a b d. by apply solid_space3.
Qed.

(** A string of solid characters is not trimmed. *)
Lemma trim_spaces_stays sp2 sp3 c l :
  solid c = true -> (forall a b, sp2 a b = true -> c <> a /\ c <> b) ->
  (forall a b d, sp3 a b d = true -> c <> a /\ c <> b /\ c <> d) ->
  head l = Some c -> trim_spaces sp2 sp3 l = l.
Proof.
  intros Hc Hsp2 Hsp3. destruct l as [|a l1]; [done|]. intros [= ->]. simpl. rewrite solid_space1 by done.
  destruct l1 as [|b l2]; [done|]. destruct (sp2 c b) eqn:H2; [by destruct (Hsp2 _ _ H2)|].
  destruct l2 as [|d l3]; [done|]. destruct (sp3 c b d) eqn:H3; [|done]. by destruct (Hsp3 _ _ _ H3) as (? & _).
Qed.

Lemma TrimSpace_solid s : (forall c, c ∈ list_ascii_of_string s -> solid c = true) -> TrimSpace s = s.
Proof.
  intros Hs. unfold TrimSpace, trim_left, trim_left_rev. remember (list_ascii_of_string s) as l eqn:Hl.
  rewrite <-(string_of_list_ascii_of_string s), <-Hl. f_equal. clear Hl.
  destruct l as [|c l]; [done|]. rewrite (trim_spaces_stays space2 space3 c); [..|done].
  2: apply Hs; left. 2: intros; by eapply solid_space2; [apply Hs; left|].
  2: intros; by eapply solid_space3; [apply Hs; left|].
  destruct (reverse (c :: l)) as [|d l'] eqn:Hr; [by apply (f_equal (@List.length _)) in Hr; rewrite length_reverse in Hr|].
  assert (solid d = true) as Hd by (apply Hs; rewrite <-elem_of_reverse, Hr; left).
  rewrite (trim_spaces_stays _ _ d); [by rewrite <-Hr, reverse_involutive|done|..|done].
  - intros a b Hab. by destruct (solid_space2 _ _ _ Hd Hab).
  - intros a b e Habe. by destruct (solid_space3 _ _ _ _ Hd Habe) as (? & ? & ?).
Qed.

(** Trimming twice is trimming once. *)
Lemma trim_spaces_suffix sp2 sp3 l : trim_spaces sp2 sp3 l `suffix_of` l.
Proof.
  induction l as [l IH] using list_length_ind. destruct l as [|a l1]; [done|]. simpl. destruct (space1 a).
  { apply suffix_cons_r, IH. simpl. lia. }
  destruct l1 as [|b l2]; [done|]. destruct (sp2 a b).
  { do 2 apply suffix_cons_r. apply IH. simpl. lia. }
  destruct l2 as [|c l3]; [done|]. destruct (sp3 a b c); [|done].
  do 3 apply suffix_cons_r. apply IH. simpl. lia.
Qed.
Lemma trim_spaces_idem sp2 sp3 l : trim_spaces sp2 sp3 (trim_spaces sp2 sp3 l) = trim_spaces sp2 sp3 l.
Proof.
  induction l as [l IH] using list_length_ind. destruct l as [|a l1]; [done|]. simpl.
  destruct (space1 a) eqn:H1; [apply IH; simpl; lia|].
  destruct l1 as [|b l2]; [simpl; by rewrite H1|]. destruct (sp2 a b) eqn:H2; [apply IH; simpl; lia|].
  destruct l2 as [|c l3]; [simpl; by rewrite H1, H2|].
  destruct (sp3 a b c) eqn:H3; [apply IH; simpl; lia|]. simpl. by rewrite H1, H2, H3.
Qed.
Lemma trim_spaces_prefix sp2 sp3 k l :
  trim_spaces sp2 sp3 l = l -> k `prefix_of` l -> trim_spaces sp2 sp3 k = k.
Proof.
  assert (forall x y : list ascii, trim_spaces sp2 sp3 x <> y ++ x \/ y = []) as Hlen.
  { intros x [|c y]; [by right|left]. intros Hx. pose proof (suffix_length _ _ (trim_spaces_suffix sp2 sp3 x)) as Hl.
    rewrite Hx, length_app in Hl. simpl in Hl. lia. }
  intros Hl [m ->]. destruct k as [|a k]; [done|]. simpl in *. destruct (space1 a) eqn:H1.
  { by destruct (Hlen (k ++ m) [a]) as [Hn|Hn]; [destruct Hn|]. }
  destruct k as [|b k]; [done|]. simpl in *. destruct (sp2 a b) eqn:H2.
  { by destruct (Hlen (k ++ m) [a; b]) as [Hn|Hn]; [destruct Hn|]. }
  destruct k as [|c k]; [done|]. simpl in *. destruct (sp3 a b c) eqn:H3; [|done].
  by destruct (Hlen (k ++ m) [a; b; c]) as [Hn|Hn]; [destruct Hn|].
Qed.
Lemma TrimSpace_idem s : TrimSpace (TrimSpace s) = TrimSpace s.
Proof.
  unfold TrimSpace. rewrite list_ascii_of_string_of_list_ascii. f_equal.
  set (l := trim_left (list_ascii_of_string s)). set (k := trim_left_rev (reverse l)).
  assert (trim_left (reverse k) = reverse k) as ->.
  { apply (trim_spaces_prefix _ _ _ l); [apply trim_spaces_idem|].
    destruct (trim_spaces_suffix (fun a b => space2 b a) (fun a b c => space3 c b a) (reverse l)) as [m Hm].
    exists (reverse m). rewrite <-reverse_app. unfold k, trim_left_rev. by rewrite <-Hm, reverse_involutive. }
  rewrite reverse_involutive. unfold k, trim_left_rev. by rewrite trim_spaces_idem.
Qed.

Create HintDb gostr discriminated.
Create Rewrite HintDb gostr.
#[export] Hint Resolve TrimSpace_nonempty : gostr.
#[export] Hint Rewrite is_empty_true is_empty_false : gostr.

Example trim_both : TrimSpace (" 	withdrawal failed  ") = "withdrawal failed".
Proof. reflexivity. Qed.

Example fields_both : Fields "  openid	profile  email " = ["openid"; "profile"; "email"].
Proof. reflexivity. Qed.
Example split_dollar : Split "$" "$a$$b" = [""; "a"; ""; "b"].
Proof. reflexivity. Qed.

(** ** Decimal numbers are read back *)
Lemma digit_value_char (x : N) : (x < 10)%N -> digit_value (pretty_N_char x) = Some (Z.of_N x).
Proof.
  intros Hx. assert (x = 0 \/ x = 1 \/ x = 2 \/ x = 3 \/ x = 4 \/ x = 5 \/ x = 6 \/ x = 7 \/ x = 8 \/ x = 9)%N as Hc by lia.
  by repeat destruct Hc as [->|Hc]; [..|subst x].
Qed.

Lemma append_assoc (s t u : string) : s +:+ t +:+ u = (s +:+ t) +:+ u.
Proof. induction s as [|c s IH]; [done|]. change (String c (s +:+ t +:+ u) = String c ((s +:+ t) +:+ u)). by rewrite IH. Qed.
Lemma append_empty (s : string) : s +:+ "" = s.
Proof. induction s as [|c s IH]; [done|]. change (String c (s +:+ "") = String c s). by rewrite IH. Qed.
Lemma length_append (s t : string) : String.length (s +:+ t) = (String.length s + String.length t)%nat.
Proof. induction s as [|c s IH]; [done|]. change (S (String.length (s +:+ t)) = S (String.length s + String.length t)). by rewrite IH. Qed.

(** The digits of [x] and how many they are *)
Lemma pretty_go_digits (x : N) s : exists p, pretty_N_go x s = p +:+ s /\
  (forall acc t, digits_value acc (p +:+ t) = digits_value (acc * 10 ^ Z.of_nat (String.length p) + Z.of_N x) t) /\
  (forall k : nat, Z.of_N x < 10 ^ Z.of_nat k -> (String.length p <= k)%nat).
Proof.
  revert s. induction (N.lt_wf_0 x) as [x _ IH]; intros s. assert (x = 0 \/ 0 < x)%N as [->|Hx] by lia.
  { exists "". split_and!; [done| |simpl; lia]. intros acc t. simpl. f_equal. lia. }
  rewrite pretty_N_go_step by done. destruct (IH (x `div` 10)%N) with (s := String (pretty_N_char (x `mod` 10)) s)
    as (p & -> & Hp & Hl); [by apply N.div_lt|].
  exists (p +:+ String (pretty_N_char (x `mod` 10)) ""). rewrite <-append_assoc. split; [done|].
  assert (String.length (p +:+ String (pretty_N_char (x `mod` 10)) "") = S (String.length p)) as Hlen.
  { rewrite length_append. simpl. lia. }
  rewrite Hlen. pose proof (N.div_mod x 10 ltac:(done)) as Hdm. pose proof (N.mod_lt x 10 ltac:(done)).
  set (d := (x `div` 10)%N) in *. set (r := (x `mod` 10)%N) in *. split.
  - intros acc t. rewrite <-append_assoc, Hp. rewrite Nat2Z.inj_succ, Z.pow_succ_r by lia.
    simpl. rewrite digit_value_char by done. f_equal. lia.
  - intros [|k] Hk; [simpl in Hk; lia|]. enough (String.length p <= k)%nat by lia. apply Hl.
    rewrite Nat2Z.inj_succ, Z.pow_succ_r in Hk by lia. lia.
Qed.

Lemma pretty_digits (z : Z) : 0 <= z ->
  (forall acc t, digits_value acc (pretty z +:+ t) = digits_value (acc * 10 ^ Z.of_nat (String.length (pretty z)) + z) t) /\
  (forall k : nat, (0 < k)%nat -> z < 10 ^ Z.of_nat k -> (String.length (pretty z) <= k)%nat).
Proof.
  intros Hz. destruct z as [|p|p]; [|clear Hz|done].
  - split; [|done]. intros acc t. change (digits_value (10 * acc + 0) t = digits_value (acc * 10 + 0) t). f_equal. lia.
  - destruct (pretty_go_digits (N.pos p) "") as (d & Hd & Hv & Hl).
    assert (pretty (Z.pos p) = d) as ->.
    { change (pretty (Z.pos p)) with (pretty_N_go (N.pos p) ""). rewrite Hd. clear. induction d as [|c d IH]; [done|].
      change (String c (d +:+ "") = String c d). by rewrite IH. }
    split; [exact Hv|auto].
Qed.

Lemma digits_value_free c acc s : digit_value c = None -> is_Some (digits_value acc s) -> free_of c s.
Proof.
  intros Hc. unfold free_of. revert acc. induction s as [|a s IH]; intros acc [v Hs]; [by apply not_elem_of_nil|].
  simpl in *. destruct (digit_value a) eqn:Ha; [|done]. apply not_elem_of_cons. split; [congruence|eauto].
Qed.
