(* ===== verification/Json.v ===== *)
(** * The parts of [encoding/json] the services call

    Marshalling writes one member per exported struct field, under the
    field's tag or its name. Unmarshalling looks members up by name without
    regard to case, the last occurrence winning; a missing member or [null]
    leaves the Go zero value; a member of the wrong kind is an error. *)
From S2P Require Import Prelude GoStrings.
#[local] Open Scope Z_scope.

Definition json_type_error : error := ENew "json: cannot unmarshal".
Definition json_syntax_error : error := ENew "invalid character".

Fixpoint json_member (k : string) (fs : list (string * json)) : option json :=
  match fs with
  | [] => None
  | (k', v) :: fs' =>
      match json_member k fs' with
      | Some v' => Some v'
      | None => if EqualFold k' k then Some v else None
      end
  end.

Definition json_string (o : option json) : result string :=
  match o with
  | None | Some JNull => Ok ""
  | Some (JStr s) => Ok s
  | Some _ => Err json_type_error
  end.

Definition json_int64 (o : option json) : result Z :=
  match o with
  | None | Some JNull => Ok 0
  | Some (JInt z) => if in_int64b z then Ok z else Err json_type_error
  | Some _ => Err json_type_error
  end.

Definition json_time (o : option json) : result Z :=
  match o with
  | None | Some JNull => Ok 0
  | Some (JTime t) => Ok t
  | Some _ => Err json_type_error
  end.

(** The members of the document a struct is read from; [null] has none. *)
Definition json_members (b : bytes) : result (list (string * json)) :=
  match b with
  | BJson (JObj fs) => Ok fs
  | BJson JNull => Ok []
  | BJson _ => Err json_type_error
  | BRaw _ => Err json_syntax_error
  end.

(** What the services need of a struct: [json.Marshal] and
    [json.Unmarshal]. *)
Class Json (A : Type) := {
  Marshal : A -> json;
  Unmarshal : bytes -> result A;
}.
Arguments Marshal : simpl never.
Arguments Unmarshal : simpl never.

(** Types whose values survive a round trip; [P] restricts the values. *)
Class JsonRoundTrip (A : Type) (P : A -> Prop) `{Json A} : Prop := {
  Unmarshal_Marshal : forall a, P a -> Unmarshal (BJson (Marshal a)) = Ok a;
}.
