(* ===== verification/JsonText.v ===== *)
(** * The text [json.Marshal] writes for dynamic values

    The values of [structpb.Struct] as [AsMap] gives them, and their text. *)
From S2P Require Import Prelude GoStrings.
From Stdlib Require Import Ascii String.
#[local] Open Scope Z_scope.

(** A [float64] by its sign and shortest decimal digits: [0.d1d2...dn] times
    ten to [f_point]; zero has no digits. *)
Record decimal : Type := mkDecimal {
  f_neg : bool;
  f_digits : list nat;
  f_point : Z;
}.

(** The fields of a struct are listed in the order of their keys, the order
    [json.Marshal] writes a Go map in. *)
Inductive pbValue : Type :=
| PNull
| PBool (b : bool)
| PNumber (d : decimal)
| PString (s : string)
| PList (l : list pbValue)
| PStruct (fs : list (string * pbValue)).

Definition digit (n : nat) : ascii := ascii_of_nat (48 + n).
Definition digits_text (l : list nat) : string := string_of_list_ascii (map digit l).

(** [strconv.AppendFloat(b, f, 'f', -1, 64)] *)
Definition text_f (ds : list nat) (point : Z) : string :=
  let whole := if 0 <? point
               then digits_text (take (Z.to_nat point) ds ++ List.repeat 0%nat (Z.to_nat point - List.length ds))
               else "0" in
  let frac := if point <? Z.of_nat (List.length ds)
              then "." +:+ digits_text (List.repeat 0%nat (Z.to_nat (- point)) ++ drop (Z.to_nat point) ds)
              else "" in
  whole +:+ frac.

(** the format ['e'] with [encoding/json]'s clean-up of a leading zero in the
    exponent *)
Definition text_e (ds : list nat) (point : Z) : string :=
  let e := point - 1 in
  digits_text (take 1 ds) +:+ (match drop 1 ds with [] => "" | rest => "." +:+ digits_text rest end) +:+
  "e" +:+ (if e <? 0 then "-" else "+") +:+ pretty (Z.abs e).

Definition number_text (d : decimal) : string :=
  (if f_neg d then "-" else "") +:+
  match f_digits d with
  | [] => "0"
  | ds => if (f_point d <? -5) || (21 <? f_point d) then text_e ds (f_point d) else text_f ds (f_point d)
  end.

Definition hex_lower (n : nat) : ascii := ascii_of_nat (if (n <? 10)%nat then 48 + n else 87 + n).
Definition u00 (n : nat) : list ascii :=
  ["\"; "u"; "0"; "0"; hex_lower (n / 16); hex_lower (n mod 16)]%char.

(** The escapes of a string of valid UTF-8, with those for HTML; U+2028 and
    U+2029 are escaped too. *)
Fixpoint escape (l : list ascii) : list ascii :=
  match l with
  | [] => []
  | c :: l' =>
      let n := nat_of_ascii c in
      if (n =? 34)%nat || (n =? 92)%nat then "\"%char :: c :: escape l'
      else if (n =? 8)%nat then ["\"; "b"]%char ++ escape l'
      else if (n =? 9)%nat then ["\"; "t"]%char ++ escape l'
      else if (n =? 10)%nat then ["\"; "n"]%char ++ escape l'
      else if (n =? 12)%nat then ["\"; "f"]%char ++ escape l'
      else if (n =? 13)%nat then ["\"; "r"]%char ++ escape l'
      else if (n <? 32)%nat || (n =? 60)%nat || (n =? 62)%nat || (n =? 38)%nat then u00 n ++ escape l'
      else if (n =? 226)%nat then
        match l' with
        | a :: b :: l'' =>
            if (nat_of_ascii a =? 128)%nat && ((nat_of_ascii b =? 168)%nat || (nat_of_ascii b =? 169)%nat)
            then (["\"; "u"; "2"; "0"; "2"]%char ++ [if (nat_of_ascii b =? 168)%nat then "8"%char else "9"%char]) ++ escape l''
            else c :: escape l'
        | _ => c :: escape l'
        end
      else c :: escape l'
  end.

Definition quote : string := String (ascii_of_nat 34) EmptyString.
Definition string_text (s : string) : string :=
  quote +:+ string_of_list_ascii (escape (list_ascii_of_string s)) +:+ quote.

Fixpoint value_text (v : pbValue) : string :=
  match v with
  | PNull => "null"
  | PBool b => if b then "true" else "false"
  | PNumber d => number_text d
  | PString s => string_text s
  | PList l => "[" +:+ Join (map value_text l) "," +:+ "]"
  | PStruct fs => "{" +:+ Join (map (fun kv => string_text kv.1 +:+ ":" +:+ value_text kv.2) fs) "," +:+ "}"
  end.

(** ** What a [jsonb] column keeps of a value

    Numbers keep their value, so a negative zero loses its sign; a string
    with a NUL character is refused. *)
Definition has_nul (s : string) : bool := existsb (fun c => (nat_of_ascii c =? 0)%nat) (list_ascii_of_string s).

Fixpoint jsonb (v : pbValue) : option pbValue :=
  match v with
  | PNumber d => Some (PNumber (match f_digits d with [] => mkDecimal false [] 0 | _ => d end))
  | PString s => if has_nul s then None else Some v
  | PList l => PList <$> (fix go l := match l with [] => Some [] | x :: l' => x' ← jsonb x; l'' ← go l'; Some (x' :: l'') end) l
  | PStruct fs =>
      PStruct <$> (fix go fs := match fs with
        | [] => Some []
        | (k, x) :: fs' => if has_nul k then None else x' ← jsonb x; fs'' ← go fs'; Some ((k, x') :: fs'')
        end) fs
  | _ => Some v
  end.

Example text_small : number_text (mkDecimal false [1;5]%nat (-6)) = "1.5e-7".
Proof. vm_compute. reflexivity. Qed.
Example text_plain : number_text (mkDecimal true [1;2;5]%nat 1) = "-1.25".
Proof. vm_compute. reflexivity. Qed.
Example text_large : number_text (mkDecimal false [1]%nat 22) = "1e+21".
Proof. vm_compute. reflexivity. Qed.
Example text_round : number_text (mkDecimal false [1;2]%nat 4) = "1200".
Proof. vm_compute. reflexivity. Qed.
Example text_millionth : number_text (mkDecimal false [1]%nat (-5)) = "0.000001".
Proof. vm_compute. reflexivity. Qed.
