(* ===== verification/Base64.v ===== *)
(** * [encoding/base64] and [encoding/hex]

    The encodings the services use: the raw (unpadded) standard and URL
    alphabets, the padded standard alphabet, and hexadecimal. Decoders skip
    carriage returns and line feeds, as Go's do, and ignore the spare bits of
    the last character. *)
From S2P Require Import Prelude.
From Stdlib Require Import Ascii String.
#[local] Open Scope Z_scope.

Definition byte_val (a : ascii) : Z := Z.of_N (N_of_ascii a).
Definition val_byte (z : Z) : ascii := ascii_of_N (Z.to_N z).

(** ** Groups of 8 bits and groups of 6 bits *)
Fixpoint to_sextets (l : list Z) : list Z :=
  match l with
  | a :: b :: c :: l' =>
      a / 4 :: (a mod 4) * 16 + b / 16 :: (b mod 16) * 4 + c / 64 :: c mod 64 :: to_sextets l'
  | [a; b] => [a / 4; (a mod 4) * 16 + b / 16; (b mod 16) * 4]
  | [a] => [a / 4; (a mod 4) * 16]
  | [] => []
  end.

Fixpoint of_sextets (l : list Z) : option (list Z) :=
  match l with
  | w :: x :: y :: z :: l' =>
      rest ← of_sextets l';
      Some (w * 4 + x / 16 :: (x mod 16) * 16 + y / 4 :: (y mod 4) * 64 + z :: rest)
  | [w; x; y] => Some [w * 4 + x / 16; (x mod 16) * 16 + y / 4]
  | [w; x] => Some [w * 4 + x / 16]
  | [_] => None
  | [] => Some []
  end.

(** ** Alphabets *)
Record Encoding : Type := mkEncoding { alphabet : list ascii }.

Definition StdAlphabet : list ascii :=
  list_ascii_of_string "ABCDEFGHIJKLMNOPQRSTUVWXYZabcdefghijklmnopqrstuvwxyz0123456789+/".
Definition URLAlphabet : list ascii :=
  list_ascii_of_string "ABCDEFGHIJKLMNOPQRSTUVWXYZabcdefghijklmnopqrstuvwxyz0123456789-_".
Definition StdEncoding : Encoding := mkEncoding StdAlphabet.
Definition URLEncoding : Encoding := mkEncoding URLAlphabet.

Definition encode_char (enc : Encoding) (v : Z) : ascii := nth (Z.to_nat v) (alphabet enc) zero.
Fixpoint index_of (c : ascii) (i : Z) (l : list ascii) : option Z :=
  match l with
  | [] => None
  | d :: l' => if bool_decide (c = d) then Some i else index_of c (i + 1) l'
  end.
Definition decode_char (enc : Encoding) (c : ascii) : option Z := index_of c 0 (alphabet enc).

Definition is_newline (a : ascii) : bool := (byte_val a =? 10) || (byte_val a =? 13).

(** [base64.RawStdEncoding] and [base64.RawURLEncoding] *)
Definition raw_EncodeToString (enc : Encoding) (s : string) : string :=
  string_of_list_ascii
    (map (encode_char enc) (to_sextets (map byte_val (list_ascii_of_string s)))).

Definition decode_chars (enc : Encoding) (l : list ascii) : option string :=
  vs ← mapM (decode_char enc) l;
  bs ← of_sextets vs;
  Some (string_of_list_ascii (map val_byte bs)).

Definition raw_DecodeString (enc : Encoding) (s : string) : option string :=
  decode_chars enc (List.filter (fun a => negb (is_newline a)) (list_ascii_of_string s)).

(** [base64.StdEncoding]: whole groups of four characters, the last one
    padded with one or two equals signs. *)
Definition pad_char : ascii := "="%char.
Definition padded_DecodeString (enc : Encoding) (s : string) : option string :=
  let l := List.filter (fun a => negb (is_newline a)) (list_ascii_of_string s) in
  if negb (Z.of_nat (List.length l) mod 4 =? 0) then None
  else match reverse l with
       | p :: q :: r =>
           if bool_decide (p = pad_char) then
             if bool_decide (q = pad_char) then decode_chars enc (reverse r)
             else decode_chars enc (reverse (q :: r))
           else decode_chars enc l
       | _ => decode_chars enc l
       end.

(** ** Hexadecimal *)
Definition hex_digit (v : Z) : ascii := nth (Z.to_nat v) (list_ascii_of_string "0123456789abcdef") zero.
Definition hex_EncodeToString (s : string) : string :=
  string_of_list_ascii
    (List.concat (map (fun a => [hex_digit (byte_val a / 16); hex_digit (byte_val a mod 16)])
       (list_ascii_of_string s))).

(** * Proofs *)
Lemma length_string_of_list_ascii l : String.length (string_of_list_ascii l) = List.length l.
Proof. induction l as [|a l IH]; simpl; [done|]. by rewrite IH. Qed.

Lemma byte_val_range a : 0 <= byte_val a < 256.
Proof. unfold byte_val. pose proof (N_ascii_bounded a). lia. Qed.

Lemma val_byte_val a : val_byte (byte_val a) = a.
Proof. unfold val_byte, byte_val. rewrite N2Z.id. apply ascii_N_embedding. Qed.

Definition is_byte (z : Z) : Prop := 0 <= z < 256.
Definition is_sextet (z : Z) : Prop := 0 <= z < 64.

(** The groups of three are followed by an induction in steps of three. *)
Lemma triples_ind {A} (P : list A -> Prop) :
  P [] -> (forall a, P [a]) -> (forall a b, P [a; b]) ->
  (forall a b c l, P l -> P (a :: b :: c :: l)) -> forall l, P l.
Proof.
  intros H0 H1 H2 H3. fix IH 1. intros [|a [|b [|c l]]]; [done|done|done|].
  apply H3, IH.
Qed.

Lemma to_sextets_range l : Forall is_byte l -> Forall is_sextet (to_sextets l).
Proof.
  unfold is_byte, is_sextet.
  induction l as [|a|a b|a b c l IH] using triples_ind; simpl; intros Hl; rewrite ?Forall_cons in Hl; [done|..];
    rewrite ?Forall_cons; split_and!; try (Z.to_euclidean_division_equations; lia); try done.
  apply IH. tauto.
Qed.

Lemma of_to_sextets l : Forall is_byte l -> of_sextets (to_sextets l) = Some l.
Proof.
  unfold is_byte.
  induction l as [|a|a b|a b c l IH] using triples_ind; simpl; intros Hl; rewrite ?Forall_cons in Hl; [done|..].
  3: rewrite IH by tauto; simpl.
  all: do 2 f_equal; try (Z.to_euclidean_division_equations; lia).
  all: f_equal; try (Z.to_euclidean_division_equations; lia).
  f_equal. Z.to_euclidean_division_equations; lia.
Qed.

(** An alphabet is usable when it tells the 64 values apart and keeps clear
    of line ends. *)
Definition usable (enc : Encoding) : bool :=
  forallb (fun v => bool_decide (decode_char enc (encode_char enc v) = Some v) &&
                    negb (is_newline (encode_char enc v))) (map Z.of_nat (seq 0 64)).

Lemma usable_spec enc v : usable enc = true -> is_sextet v ->
  decode_char enc (encode_char enc v) = Some v /\ is_newline (encode_char enc v) = false.
Proof.
  unfold usable. rewrite forallb_forall. intros Hu Hv.
  assert (In v (map Z.of_nat (seq 0 64))) as Hin.
  { apply in_map_iff. exists (Z.to_nat v). unfold is_sextet in Hv. split; [lia|].
    apply in_seq. lia. }
  apply Hu in Hin. apply andb_prop in Hin as [H1 H2].
  split; [by apply bool_decide_eq_true in H1|]. by apply negb_true_iff in H2.
Qed.

Lemma StdEncoding_usable : usable StdEncoding = true.
Proof. vm_compute. reflexivity. Qed.
Lemma URLEncoding_usable : usable URLEncoding = true.
Proof. vm_compute. reflexivity. Qed.

Lemma decode_encode_chars enc vs : usable enc = true -> Forall is_sextet vs ->
  mapM (decode_char enc) (map (encode_char enc) vs) = Some vs.
Proof.
  intros Hu. induction 1 as [|v vs Hv _ IH]; [done|]. simpl.
  destruct (usable_spec enc v Hu Hv) as [-> _]. simpl. by rewrite IH.
Qed.

Lemma bytes_of_string_range s : Forall is_byte (map byte_val (list_ascii_of_string s)).
Proof. apply Forall_map, Forall_true. intros a. apply byte_val_range. Qed.

Lemma map_val_byte_val l : map val_byte (map byte_val l) = l.
Proof. induction l; simpl; [done|]. by rewrite val_byte_val, IHl. Qed.

(** What [EncodeToString] writes, [DecodeString] reads back. *)
Lemma raw_Decode_Encode enc s : usable enc = true -> raw_DecodeString enc (raw_EncodeToString enc s) = Some s.
Proof.
  intros Hu. unfold raw_DecodeString, raw_EncodeToString.
  rewrite list_ascii_of_string_of_list_ascii.
  pose proof (to_sextets_range _ (bytes_of_string_range s)) as Hsx.
  rewrite filter_list_all.
  - unfold decode_chars. rewrite decode_encode_chars by done. simpl.
    rewrite of_to_sextets by apply bytes_of_string_range. simpl.
    by rewrite map_val_byte_val, string_of_list_ascii_of_string.
  - intros c Hc. apply list_elem_of_fmap in Hc as (v & -> & Hv).
    rewrite Forall_forall in Hsx. by destruct (usable_spec enc v Hu (Hsx v Hv)) as [_ ->].
Qed.

#[export] Instance raw_Encode_inj enc : usable enc = true -> Inj (=) (=) (raw_EncodeToString enc).
Proof.
  intros Hu s t Hst. apply (f_equal (raw_DecodeString enc)) in Hst.
  rewrite !raw_Decode_Encode in Hst by done. congruence.
Qed.

(** An encoded string holds only characters of its alphabet. *)
Lemma raw_Encode_chars enc s c :
  c ∈ list_ascii_of_string (raw_EncodeToString enc s) -> exists v, is_sextet v /\ c = encode_char enc v.
Proof.
  unfold raw_EncodeToString. rewrite list_ascii_of_string_of_list_ascii.
  intros (v & -> & Hv)%list_elem_of_fmap. exists v. split; [|done].
  pose proof (to_sextets_range _ (bytes_of_string_range s)) as Hsx.
  rewrite Forall_forall in Hsx. by apply Hsx.
Qed.

Example base64_foobar : raw_EncodeToString StdEncoding "fooba" = "Zm9vYmE" /\
  raw_DecodeString StdEncoding "Zm9vYmE" = Some "fooba" /\
  padded_DecodeString StdEncoding "Zm9vYmE=" = Some "fooba" /\
  padded_DecodeString StdEncoding "Zm9vYg==" = Some "foob" /\
  padded_DecodeString StdEncoding "Zm9vYg" = None.
Proof. vm_compute. done. Qed.

(** Hexadecimal text determines the bytes, has two digits per byte and holds
    nothing but digits. *)
Lemma hex_digit_inj v v' : 0 <= v < 16 -> 0 <= v' < 16 -> hex_digit v = hex_digit v' -> v = v'.
Proof.
  intros Hv Hv' Heq.
  assert (forallb (fun i => forallb (fun j => bool_decide (i = j) ||
    negb (bool_decide (hex_digit (Z.of_nat i) = hex_digit (Z.of_nat j)))) (seq 0 16)) (seq 0 16) = true) as Hall
    by (vm_compute; reflexivity).
  rewrite forallb_forall in Hall. specialize (Hall (Z.to_nat v) ltac:(apply in_seq; lia)).
  rewrite forallb_forall in Hall. specialize (Hall (Z.to_nat v') ltac:(apply in_seq; lia)).
  rewrite !Z2Nat.id in Hall by lia. apply orb_prop in Hall as [E%bool_decide_eq_true|E]; [lia|].
  by apply negb_true_iff, bool_decide_eq_false in E.
Qed.

#[export] Instance hex_Encode_inj : Inj (=) (=) hex_EncodeToString.
Proof.
  intros s t Hst. unfold hex_EncodeToString in Hst. apply (f_equal list_ascii_of_string) in Hst.
  rewrite !list_ascii_of_string_of_list_ascii in Hst.
  rewrite <-(string_of_list_ascii_of_string s), <-(string_of_list_ascii_of_string t). f_equal.
  revert Hst. generalize (list_ascii_of_string t). induction (list_ascii_of_string s) as [|a l IH]; intros [|b l']; simpl; try done.
  intros [= H1 H2 H3]. pose proof (byte_val_range a). pose proof (byte_val_range b).
  apply hex_digit_inj in H1; [|split; [apply Z.div_pos; lia|apply Z.div_lt_upper_bound; lia]..]. apply hex_digit_inj in H2; [|apply Z.mod_pos_bound; lia..].
  f_equal; [|by apply IH]. rewrite <-(val_byte_val a), <-(val_byte_val b). f_equal.
  rewrite (Z.div_mod (byte_val a) 16), (Z.div_mod (byte_val b) 16) by lia. congruence.
Qed.

Lemma hex_Encode_length s : String.length (hex_EncodeToString s) = (2 * String.length s)%nat.
Proof.
  unfold hex_EncodeToString. rewrite length_string_of_list_ascii. induction s as [|a s IH]; [done|].
  simpl. rewrite IH. lia.
Qed.

Lemma hex_Encode_chars s c : c ∈ list_ascii_of_string (hex_EncodeToString s) ->
  exists v, 0 <= v < 16 /\ c = hex_digit v.
Proof.
  unfold hex_EncodeToString. rewrite list_ascii_of_string_of_list_ascii.
  rewrite list_elem_of_In. intros (l & (a & <- & _)%in_map_iff & Hc)%in_concat.
  pose proof (byte_val_range a). destruct Hc as [<-|[<-|[]]]; eexists; (split; [|reflexivity]).
  - split; [apply Z.div_pos; lia|apply Z.div_lt_upper_bound; lia].
  - apply Z.mod_pos_bound. lia.
Qed.
