(* ===== verification/Http.v ===== *)
(** * The parts of [net/http] and [net/url] the services call

    Requests and responses, query strings, forms and cookies. *)
From S2P Require Import Prelude GoStrings Base64.
From Stdlib Require Import Ascii String.
#[local] Open Scope Z_scope.

(** ** Requests and responses

    Headers are kept under canonical keys; [http.Header]'s methods make the
    keys they are given canonical. *)
Fixpoint canonical_from (upper : bool) (s : string) : string :=
  match s with
  | EmptyString => EmptyString
  | String c s' => String (if upper then upper_ascii c else lower_ascii c) (canonical_from (Ascii.eqb c "-") s')
  end.
(** of a key made of letters, digits and dashes *)
Definition CanonicalHeaderKey : string -> string := canonical_from true.

Abbreviation Header := (gmap string (list string)).
Definition Header_Get (h : Header) (k : string) : string :=
  match h !! CanonicalHeaderKey k with Some (v :: _) => v | _ => "" end.
Definition Header_Set (k v : string) (h : Header) : Header := <[CanonicalHeaderKey k := [v]]> h.
Definition Header_Del (k : string) (h : Header) : Header := delete (CanonicalHeaderKey k) h.

(** [rq_TLS]: [r.TLS != nil] *)
Record request : Type := mkRequest {
  rq_Method : string;
  rq_Path : string;
  rq_RawQuery : string;
  rq_Header : Header;
  rq_RemoteAddr : string;
  rq_Body : string;
  rq_TLS : bool;
}.
Record response : Type := mkResponse {
  rp_Status : Z;
  rp_Header : Header;
  rp_Body : string;
}.
Definition with_header (h : Header) (r : request) : request :=
  mkRequest (rq_Method r) (rq_Path r) (rq_RawQuery r) h (rq_RemoteAddr r) (rq_Body r) (rq_TLS r).

Definition newline : string := String (ascii_of_nat 10) "".
Definition error_header (h : Header) : Header :=
  Header_Set "Content-Type" "text/plain; charset=utf-8" (Header_Set "X-Content-Type-Options" "nosniff" h).
Definition http_Error (h : Header) (msg : string) (code : Z) : response :=
  mkResponse code (error_header h) (msg +:+ newline).

(** ** Query strings

    A [url.Values] as its pairs in the order they were added: [Get] is the
    first value of a key. *)
Definition Values : Type := list (string * string).
Fixpoint Values_Get (vs : Values) (k : string) : string :=
  match vs with
  | [] => ""
  | (k', v) :: vs' => if bool_decide (k' = k) then v else Values_Get vs' k
  end.

Definition hex_digit (c : ascii) : option Z :=
  let n := byte_val c in
  if (48 <=? n) && (n <=? 57) then Some (n - 48)
  else if (97 <=? n) && (n <=? 102) then Some (n - 87)
  else if (65 <=? n) && (n <=? 70) then Some (n - 55)
  else None.

(** [url.QueryUnescape] *)
Fixpoint unescape (l : list ascii) : option (list ascii) :=
  match l with
  | [] => Some []
  | c :: l' =>
      if Ascii.eqb c "%" then
        match l' with
        | a :: b :: l'' =>
            x ← hex_digit a;
            y ← hex_digit b;
            rest ← unescape l'';
            Some (val_byte (16 * x + y) :: rest)
        | _ => None
        end
      else
        rest ← unescape l';
        Some ((if Ascii.eqb c "+" then " "%char else c) :: rest)
  end.
Definition QueryUnescape (s : string) : option string :=
  string_of_list_ascii <$> unescape (list_ascii_of_string s).

(** [strings.Cut(s, sep)] for a separator of one byte *)
Definition Cut (sep : ascii) (s : string) : string * string := default (s, "") (cut_at sep s).

(** [url.ParseQuery]: the pairs that can be read, and whether all could. *)
Definition parse_pair (part : string) : option (string * string) :=
  if bool_decide (";"%char ∈ list_ascii_of_string part) then None
  else
    let '(key, value) := Cut "="%char part in
    key ← QueryUnescape key;
    value ← QueryUnescape value;
    Some (key, value).

Fixpoint parse_pairs (parts : list string) : Values * bool :=
  match parts with
  | [] => ([], true)
  | part :: parts' =>
      let '(vs, ok) := parse_pairs parts' in
      if is_empty part then (vs, ok)
      else match parse_pair part with
           | Some kv => (kv :: vs, ok)
           | None => (vs, false)
           end
  end.
Definition ParseQuery (query : string) : Values * bool := parse_pairs (Split "&"%char query).

(** [r.URL.Query()] *)
Definition URL_Query (r : request) : Values := (ParseQuery (rq_RawQuery r)).1.

(** ** Forms

    [mime.ParseMediaType]: the media type, and whether the header could be
    read. *)
Class MimeLib := { mime_ParseMediaType : string -> string * bool }.

Definition maxFormSize : nat := 10 * 1024 * 1024.

(** The values of the body of a POST, PUT or PATCH *)
Definition parsePostForm `{MimeLib} (r : request) : Values * bool :=
  let ct := Header_Get (rq_Header r) "Content-Type" in
  let '(ct, ok) := mime_ParseMediaType (if is_empty ct then "application/octet-stream" else ct) in
  if bool_decide (ct = "application/x-www-form-urlencoded") then
    if (maxFormSize <? String.length (rq_Body r))%nat then ([], false)
    else let '(vs, e) := ParseQuery (rq_Body r) in (vs, ok && e)
  else ([], ok).

(** [r.ParseForm()]: [r.Form] (the values of the body before those of the
    URL), and whether there was no error *)
Definition ParseForm `{MimeLib} (r : request) : Values * bool :=
  let '(post, ok) :=
    if bool_decide (rq_Method r ∈ ["POST"; "PUT"; "PATCH"]) then parsePostForm r else ([], true) in
  let '(query, okq) := ParseQuery (rq_RawQuery r) in
  (post ++ query, ok && okq).

(** ** Cookies *)
Record Cookie : Type := mkCookie {
  ck_Name : string;
  ck_Value : string;
  ck_Path : string;
  ck_MaxAge : Z;
  ck_HttpOnly : bool;
  ck_SameSiteLax : bool;
  ck_Secure : bool;
}.

(** [textproto.TrimString] *)
Definition ascii_space (c : ascii) : bool := byte_is 32 c || byte_is 9 c || byte_is 10 c || byte_is 13 c.
Fixpoint drop_space (l : list ascii) : list ascii :=
  match l with
  | c :: l' => if ascii_space c then drop_space l' else l
  | [] => []
  end.
Definition TrimString (s : string) : string :=
  string_of_list_ascii (reverse (drop_space (reverse (drop_space (list_ascii_of_string s))))).

Definition validCookieValueByte (c : ascii) : bool :=
  byte_in 32 126 c && negb (byte_is 34 c) && negb (byte_is 59 c) && negb (byte_is 92 c).

(** [parseCookieValue]: one pair of double quotes is taken off. *)
Definition unquote (l : list ascii) : list ascii :=
  match l with
  | c :: rest =>
      match reverse rest with
      | d :: rest' => if byte_is 34 c && byte_is 34 d then reverse rest' else l
      | [] => l
      end
  | [] => []
  end.
Definition parseCookieValue (s : string) : option string :=
  let l := unquote (list_ascii_of_string s) in
  if forallb validCookieValueByte l then Some (string_of_list_ascii l) else None.

Fixpoint cookie_parts (name : string) (parts : list string) : option string :=
  match parts with
  | [] => None
  | part :: parts' =>
      let part := TrimString part in
      let '(n, v) := Cut "="%char part in
      if negb (is_empty part) && bool_decide (TrimString n = name) then
        match parseCookieValue v with
        | Some v => Some v
        | None => cookie_parts name parts'
        end
      else cookie_parts name parts'
  end.

(** [r.Cookie(name)]: the value, for a name that is a token *)
Definition request_Cookie (r : request) (name : string) : option string :=
  cookie_parts name
    (List.concat (map (fun line => Split ";"%char (TrimString line)) (default [] (rq_Header r !! "Cookie")))).

(** * Examples *)
Example query_values : ParseQuery "a=1&b=x%20y+z&a=2&&c" =
  ([("a", "1"); ("b", "x y z"); ("a", "2"); ("c", "")], true).
Proof. vm_compute. reflexivity. Qed.
Example query_bad : ParseQuery "a=%zz&b=1;c=2&d=3" = ([("d", "3")], false).
Proof. vm_compute. reflexivity. Qed.
Example cookie_second : request_Cookie (mkRequest "GET" "/" "" {["Cookie" := ["x=1; sid2=3; y"; "sid=abc"]]} "" "" false) "sid"
  = Some "abc".
Proof. vm_compute. reflexivity. Qed.
