(* ===== verification/Sha256.v ===== *)
(** * [crypto/sha256]

    SHA-256 (FIPS 180-4) on byte strings, as [sha256.Sum256] computes it:
    32-bit words with wrap-around addition. Checked below on the standard's
    test vectors. *)
From S2P Require Import Prelude Base64.
From Stdlib Require Import Ascii String.
#[local] Open Scope Z_scope.

Definition wrap32 (z : Z) : Z := z mod 2 ^ 32.
Definition rotr (n x : Z) : Z := Z.lor (Z.shiftr x n) (wrap32 (Z.shiftl x (32 - n))).

Definition Sigma0 (x : Z) : Z := Z.lxor (rotr 2 x) (Z.lxor (rotr 13 x) (rotr 22 x)).
Definition Sigma1 (x : Z) : Z := Z.lxor (rotr 6 x) (Z.lxor (rotr 11 x) (rotr 25 x)).
Definition sigma0 (x : Z) : Z := Z.lxor (rotr 7 x) (Z.lxor (rotr 18 x) (Z.shiftr x 3)).
Definition sigma1 (x : Z) : Z := Z.lxor (rotr 17 x) (Z.lxor (rotr 19 x) (Z.shiftr x 10)).
Definition Ch (x y z : Z) : Z := Z.lxor (Z.land x y) (Z.land (Z.lxor x (2 ^ 32 - 1)) z).
Definition Maj (x y z : Z) : Z := Z.lxor (Z.land x y) (Z.lxor (Z.land x z) (Z.land y z)).

(** The round constants are the first 32 bits of the fractions of the cube
    roots of the first 64 primes, and the initial state those of the square
    roots of the first 8. *)
Definition is_prime (n : nat) : bool :=
  forallb (fun d => negb (Nat.eqb (Nat.modulo n d) 0)) (seq 2 (n - 2)).
Definition primes_to_311 : list Z :=
  Eval vm_compute in map Z.of_nat (List.filter is_prime (seq 2 310)).

(** The largest [r] with [acc <= r < acc + 2 ^ bits] and [r ^ 3 <= x]. *)
Fixpoint cube_root (bits : nat) (acc x : Z) : Z :=
  match bits with
  | O => acc
  | S n =>
      let acc' := acc + 2 ^ Z.of_nat n in
      cube_root n (if acc' ^ 3 <=? x then acc' else acc) x
  end.

Definition sha256_K : list Z :=
  Eval vm_compute in map (fun p => wrap32 (cube_root 35 0 (p * 2 ^ 96))) primes_to_311.

Record sha_state : Type := mkSha { sa : Z; sb : Z; sc : Z; sd : Z; se : Z; sf : Z; sg : Z; sh : Z }.
Definition sha256_init : sha_state :=
  Eval vm_compute in
  match map (fun p => wrap32 (Z.sqrt (p * 2 ^ 64))) primes_to_311 with
  | a :: b :: c :: d :: e :: f :: g :: h :: _ => mkSha a b c d e f g h
  | _ => mkSha 0 0 0 0 0 0 0 0
  end.

(** One round with constant [k] and schedule word [w]. *)
Definition sha_round (s : sha_state) (kw : Z * Z) : sha_state :=
  let t1 := wrap32 (sh s + Sigma1 (se s) + Ch (se s) (sf s) (sg s) + kw.1 + kw.2) in
  let t2 := wrap32 (Sigma0 (sa s) + Maj (sa s) (sb s) (sc s)) in
  mkSha (wrap32 (t1 + t2)) (sa s) (sb s) (sc s) (wrap32 (sd s + t1)) (se s) (sf s) (sg s).

(** The message schedule, newest word first. *)
Fixpoint schedule (n : nat) (ws : list Z) : list Z :=
  match n with
  | O => ws
  | S n' =>
      schedule n'
        (wrap32 (sigma1 (nth 1 ws 0) + nth 6 ws 0 + sigma0 (nth 14 ws 0) + nth 15 ws 0) :: ws)
  end.

Definition sha_block (s : sha_state) (words : list Z) : sha_state :=
  let r := foldl sha_round s (combine sha256_K (rev (schedule 48 (rev words)))) in
  mkSha (wrap32 (sa s + sa r)) (wrap32 (sb s + sb r)) (wrap32 (sc s + sc r)) (wrap32 (sd s + sd r))
    (wrap32 (se s + se r)) (wrap32 (sf s + sf r)) (wrap32 (sg s + sg r)) (wrap32 (sh s + sh r)).

(** A word as four bytes, big-endian, and back. *)
Definition word_bytes (w : Z) : list Z := [w / 2 ^ 24; (w / 2 ^ 16) mod 256; (w / 2 ^ 8) mod 256; w mod 256].
Fixpoint words_of (l : list Z) : list Z :=
  match l with
  | a :: b :: c :: d :: l' => a * 2 ^ 24 + b * 2 ^ 16 + c * 2 ^ 8 + d :: words_of l'
  | _ => []
  end.

(** Padding to whole blocks: a one bit, zeros, and the length in bits. *)
Definition sha_pad (l : list Z) : list Z :=
  let n := Z.of_nat (List.length l) in
  let zeros := Z.to_nat ((55 - n) mod 64) in
  l ++ [128] ++ repeat 0 zeros ++ word_bytes (8 * n / 2 ^ 32) ++ word_bytes (wrap32 (8 * n)).

Fixpoint sha_blocks (fuel : nat) (s : sha_state) (words : list Z) : sha_state :=
  match fuel, words with
  | S fuel', _ :: _ => sha_blocks fuel' (sha_block s (take 16 words)) (drop 16 words)
  | _, _ => s
  end.

(** Every block has 16 words, so the number of words is enough fuel. *)
Definition sha_digest (l : list Z) : list Z :=
  let words := words_of (sha_pad l) in
  let s := sha_blocks (List.length words) sha256_init words in
  List.concat (map word_bytes [sa s; sb s; sc s; sd s; se s; sf s; sg s; sh s]).

Definition Sum256 (data : string) : string :=
  string_of_list_ascii (map val_byte (sha_digest (map byte_val (list_ascii_of_string data)))).

(** * Proofs *)
Example sha256_empty : hex_EncodeToString (Sum256 "") =
  "e3b0c44298fc1c149afbf4c8996fb92427ae41e4649b934ca495991b7852b855".
Proof. vm_compute. reflexivity. Qed.
Example sha256_abc : hex_EncodeToString (Sum256 "abc") =
  "ba7816bf8f01cfea414140de5dae2223b00361a396177a9cb410ff61f20015ad".
Proof. vm_compute. reflexivity. Qed.
Example sha256_two_blocks :
  hex_EncodeToString (Sum256 "abcdbcdecdefdefgefghfghighijhijkijkljklmklmnlmnomnopnopq") =
  "248d6a61d20638b8e5c026930c3e6039a33ce45964ff2167f6ecedd419db06c1".
Proof. vm_compute. reflexivity. Qed.

(** A digest has 32 bytes. *)
Lemma sha_digest_length l : List.length (sha_digest l) = 32%nat.
Proof. reflexivity. Qed.

Lemma Sum256_length data : String.length (Sum256 data) = 32%nat.
Proof.
  unfold Sum256. by rewrite length_string_of_list_ascii, length_map, sha_digest_length.
Qed.
