(* ===== verification/Passwords.v ===== *)
(** * Passwords, refresh tokens and secrets ([src/pkg/security])

    [password_argon2id.go], [refresh_token.go], [secret.go] and
    [base64url.go]. The key derivation of [golang.org/x/crypto/argon2] is a
    parameter; randomness comes from the environment. *)
From S2P Require Import Prelude GoStrings Base64 Sha256.
From Stdlib Require Import Ascii String.
#[local] Open Scope Z_scope.
#[local] Open Scope go_scope.

(** ** Randomness

    [rand_Read k n] is what the [k]-th reading of [n] random bytes gives. *)
Class Random := { rand_bytes : nat -> nat -> string }.

Definition rand_error : error := ENew "rand: read failed".

Definition rand_Read `{Random} {DB} (n : nat) : M DB string := fun w =>
  match next_fault w with
  | (FOk, w1) =>
      (Ok (rand_bytes (w_uuid w1) n),
       mkWorld (w_db w1) (w_seq w1) (S (w_uuid w1)) (w_tick w1) (w_tx w1) (w_faults w1) (w_sent w1))
  | (_, w1) => (Err rand_error, w1)
  end.

(** ** [base64url.go] *)
Definition encodeB64URL (b : string) : string := raw_EncodeToString URLEncoding b.
Definition decodeB64URL (s : string) : option string := raw_DecodeString URLEncoding s.

(** ** [refresh_token.go] and [secret.go] *)
Definition HashRefreshToken (token : string) : string :=
  let t := TrimSpace token in
  raw_EncodeToString URLEncoding (Sum256 t).

Definition GenerateSecret `{Random} {DB} (n : nat) : M DB string :=
  let! b := wrap_err "read random" (rand_Read n) in
  retM (raw_EncodeToString URLEncoding b).

(** ** [password_argon2id.go] *)
Definition argon2idTime : Z := 3.
Definition argon2idMemory : Z := 64 * 1024.
Definition argon2idThreads : Z := 2.
Definition argon2idKeyLen : Z := 32.
Definition saltLen : nat := 16.
(** [argon2.Version], 0x13 *)
Definition argon2_Version : Z := 19.

(** [argon2.IDKey(password, salt, time, memory, threads, keyLen)]; it panics
    when there are no passes or no threads. *)
Class Argon2 := { argon2_IDKey : string -> string -> Z -> Z -> Z -> Z -> result string }.
(** Its documentation: with at least one pass and one thread it derives a key
    of [keyLen] bytes. *)
Class Argon2Ok `{Argon2} : Prop := {
  argon2_key : forall password salt time memory threads keyLen,
    1 <= time -> 1 <= threads -> 0 <= keyLen ->
    exists key, argon2_IDKey password salt time memory threads keyLen = Ok key /\
                Z.of_nat (String.length key) = keyLen;
}.

(** *** [fmt.Sscanf]

    The verb [%d] skips white space (a line feed is an error) and reads a
    maximal run of digits, after an optional sign for a signed operand; a
    literal must match; what follows the last verb is not looked at. *)
Fixpoint scan_space (l : list ascii) : option (list ascii) :=
  match l with
  | a :: l1 =>
      if byte_is 10 a then None
      else if space1 a then scan_space l1 else
      match l1 with
      | b :: l2 =>
          if space2 a b then scan_space l2 else
          match l2 with
          | c :: l3 => if space3 a b c then scan_space l3 else Some l
          | [] => Some l
          end
      | [] => Some l
      end
  | [] => Some []
  end.

Fixpoint scan_digits (acc : Z) (s : string) : Z * string :=
  match s with
  | EmptyString => (acc, EmptyString)
  | String c s' =>
      match digit_value c with
      | Some d => scan_digits (10 * acc + d) s'
      | None => (acc, s)
      end
  end.

Definition starts_with_digit (s : string) : bool :=
  match s with String c _ => bool_decide (is_Some (digit_value c)) | EmptyString => false end.

(** An unsigned operand of [bits] bits. *)
Definition scan_uint (bits : Z) (s : string) : option (Z * string) :=
  l ← scan_space (list_ascii_of_string s);
  let s1 := string_of_list_ascii l in
  if starts_with_digit s1 then
    let '(z, rest) := scan_digits 0 s1 in
    if z <? 2 ^ bits then Some (z, rest) else None
  else None.

(** A signed operand of 64 bits. *)
Definition scan_int (s : string) : option (Z * string) :=
  l ← scan_space (list_ascii_of_string s);
  let s1 := string_of_list_ascii l in
  let '(sign, s2) := match prefix_tail "-" s1 with
                     | Some s2 => (-1, s2)
                     | None => (1, default s1 (prefix_tail "+" s1))
                     end in
  if starts_with_digit s2 then
    let '(z, rest) := scan_digits 0 s2 in
    if in_int64b (sign * z) then Some (sign * z, rest) else None
  else None.

Definition Sscanf_version (s : string) : option Z :=
  s ← prefix_tail "v=" s;
  fst <$> scan_int s.

Record argon2idParams : Type := mkParams {
  ap_time : Z;
  ap_memory : Z;
  ap_threads : Z;
}.

Definition Sscanf_params (s : string) : option argon2idParams :=
  s ← prefix_tail "m=" s;
  '(memory, s) ← scan_uint 32 s;
  s ← prefix_tail ",t=" s;
  '(time, s) ← scan_uint 32 s;
  s ← prefix_tail ",p=" s;
  '(threads, _) ← scan_uint 8 s;
  Some (mkParams time memory threads).

Definition or_error {A} (o : option A) (msg : string) : result A :=
  match o with Some a => Ok a | None => Err (ENew msg) end.

Definition parseArgon2idHash (encoded : string) : result (argon2idParams * string * string) :=
  match Split "$"%char encoded with
  | [_; algorithm; p2; p3; p4; p5] =>
      if negb (bool_decide (algorithm = "argon2id")) then Err (ENew "invalid hash algorithm")
      else
        let? version := or_error (Sscanf_version p2) "invalid hash version" in
        if negb (version =? argon2_Version) then Err (ENew "incompatible hash version")
        else
          let? params := or_error (Sscanf_params p3) "invalid hash params" in
          let? salt := or_error (raw_DecodeString StdEncoding p4) "invalid salt encoding" in
          let? hash := or_error (raw_DecodeString StdEncoding p5) "invalid hash encoding" in
          if is_empty hash then Err (ENew "invalid hash length")
          else Ok (params, salt, hash)
  | _ => Err (ENew "invalid hash format")
  end.

(** [fmt.Sprintf("$argon2id$v=%d$m=%d,t=%d,p=%d$%s$%s", ...)] *)
Definition format_hash (salt hash : string) : string :=
  "$argon2id$v=" +:+ pretty argon2_Version +:+ "$m=" +:+ pretty argon2idMemory +:+
  ",t=" +:+ pretty argon2idTime +:+ ",p=" +:+ pretty argon2idThreads +:+ "$" +:+
  raw_EncodeToString StdEncoding salt +:+ "$" +:+ raw_EncodeToString StdEncoding hash.

Definition HashPassword `{Random, Argon2} {DB} (password : string) : M DB string :=
  fail_if (is_empty (TrimSpace password)) (ENew "password required") ;;;
  let! salt := wrap_err "read salt" (rand_Read saltLen) in
  let! hash := liftR (argon2_IDKey password salt argon2idTime argon2idMemory argon2idThreads argon2idKeyLen) in
  retM (format_hash salt hash).

Definition VerifyPassword `{Argon2} (password encodedHash : string) : result bool :=
  if is_empty (TrimSpace password) then Err (ENew "password required")
  else if is_empty (TrimSpace encodedHash) then Err (ENew "encoded hash required")
  else
    let? parsed := parseArgon2idHash encodedHash in
    let '(params, salt, expectedHash) := parsed in
    let? actualHash := argon2_IDKey password salt (ap_time params) (ap_memory params) (ap_threads params)
                         (Z.of_nat (String.length expectedHash) mod 2 ^ 32) in
    Ok (bool_decide (actualHash = expectedHash)).

(** * Proofs *)

(** An encoded string never holds the separator of the hash format. *)
Lemma encoded_free_of_dollar s : free_of "$"%char (raw_EncodeToString StdEncoding s).
Proof.
  intros (v & Hv & Hc)%raw_Encode_chars.
  assert (forallb (fun v => negb (bool_decide (encode_char StdEncoding v = "$"%char)))
            (map Z.of_nat (seq 0 64)) = true) as Hall by (vm_compute; reflexivity).
  rewrite forallb_forall in Hall. unfold is_sextet in Hv.
  specialize (Hall v). rewrite <-Hc in Hall. rewrite bool_decide_true in Hall by done.
  assert (negb true = true); [|done]. apply Hall, in_map_iff. exists (Z.to_nat v).
  split; [lia|]. apply in_seq. lia.
Qed.

Definition hash_head : string :=
  Eval vm_compute in "$argon2id$v=" +:+ pretty argon2_Version +:+ "$m=" +:+ pretty argon2idMemory +:+
  ",t=" +:+ pretty argon2idTime +:+ ",p=" +:+ pretty argon2idThreads.

Lemma format_hash_eq salt hash : format_hash salt hash =
  hash_head +:+ String "$" (raw_EncodeToString StdEncoding salt +:+
    String "$" (raw_EncodeToString StdEncoding hash)).
Proof. reflexivity. Qed.

Lemma Split_format_hash salt hash : Split "$"%char (format_hash salt hash) =
  [""; "argon2id"; "v=19"; "m=65536,t=3,p=2"; raw_EncodeToString StdEncoding salt;
   raw_EncodeToString StdEncoding hash].
Proof.
  rewrite format_hash_eq. unfold hash_head. simpl.
  rewrite Split_app by apply encoded_free_of_dollar.
  by rewrite Split_free by apply encoded_free_of_dollar.
Qed.

(** What [HashPassword] writes parses back to its parameters, salt and
    key. *)
Lemma parse_format_hash salt hash : hash <> "" ->
  parseArgon2idHash (format_hash salt hash) =
    Ok (mkParams argon2idTime argon2idMemory argon2idThreads, salt, hash).
Proof.
  intros Hne. unfold parseArgon2idHash. rewrite Split_format_hash. simpl.
  rewrite !raw_Decode_Encode by apply StdEncoding_usable. simpl.
  apply is_empty_false in Hne. by rewrite Hne.
Qed.

Lemma format_hash_nonblank salt hash : is_empty (TrimSpace (format_hash salt hash)) = false.
Proof.
  apply is_empty_false. intros He.
  assert ("$"%char ∈ list_ascii_of_string (TrimSpace (format_hash salt hash))) as Hin.
  { apply TrimSpace_keeps; [reflexivity|]. rewrite format_hash_eq. left. }
  rewrite He in Hin. by apply not_elem_of_nil in Hin.
Qed.

Section verify.
Context `{Argon2, !Argon2Ok}.

(** A hash checks exactly the passwords that derive its key. *)
Lemma VerifyPassword_format password salt hash :
  is_empty (TrimSpace password) = false -> Z.of_nat (String.length hash) = argon2idKeyLen ->
  exists key, argon2_IDKey password salt argon2idTime argon2idMemory argon2idThreads argon2idKeyLen = Ok key /\
    VerifyPassword password (format_hash salt hash) = Ok (bool_decide (key = hash)).
Proof.
  intros Hp Hlen. assert (hash <> "") as Hne by (by intros ->).
  destruct (argon2_key password salt argon2idTime argon2idMemory argon2idThreads argon2idKeyLen)
    as (key & Hkey & _); [done..|].
  exists key. split; [done|]. unfold VerifyPassword.
  rewrite Hp, format_hash_nonblank, parse_format_hash by done. simpl.
  rewrite Hlen. unfold argon2idTime, argon2idMemory, argon2idThreads, argon2idKeyLen in *.
  rewrite Z.mod_small by lia. by rewrite Hkey.
Qed.

Context `{Random} {DB : Type}.

(** A run of [HashPassword]: it refuses a blank password, fails only when the
    system has no randomness, and otherwise returns the formatted hash. *)
Lemma HashPassword_run password (w : World DB) :
  (is_empty (TrimSpace password) = true /\ HashPassword password w = (Err (ENew "password required"), w)) \/
  (w_faults w <> [] /\ exists e w', HashPassword password w = (Err e, w') /\ w_db w' = w_db w /\ later w w') \/
  (is_empty (TrimSpace password) = false /\ exists salt key w',
     argon2_IDKey password salt argon2idTime argon2idMemory argon2idThreads argon2idKeyLen = Ok key /\
     Z.of_nat (String.length key) = argon2idKeyLen /\
     HashPassword password w = (Ok (format_hash salt key), w') /\ w_db w' = w_db w /\ later w w').
Proof.
  unfold HashPassword, bindM, fail_if. destruct (is_empty (TrimSpace password)); [by left|right].
  unfold wrap_err, rand_Read, retM, liftR. destruct w as [db sq u t tx fl sn]. unfold next_fault. simpl.
  assert (exists key, argon2_IDKey password (rand_bytes u saltLen) argon2idTime argon2idMemory
      argon2idThreads argon2idKeyLen = Ok key /\ Z.of_nat (String.length key) = argon2idKeyLen)
    as (key & Hkey & Hlen) by by apply argon2_key.
  destruct fl as [|[] fl]; [right|right|left|left]; simpl.
  1,2: split; [done|]; eexists _, key, _; rewrite Hkey; split_and!; try done;
    unfold later; simpl; split_and!; [lia|lia|done].
  all: split; [done|]; eexists _, _; split_and!; try done; by unfold later.
Qed.

Lemma VerifyPassword_formatted p salt key :
  is_empty (TrimSpace p) = false -> Z.of_nat (String.length key) = argon2idKeyLen ->
  VerifyPassword p (format_hash salt key) =
  Ok (bool_decide (argon2_IDKey p salt argon2idTime argon2idMemory argon2idThreads argon2idKeyLen = Ok key)).
Proof.
  intros Hp Hlen. destruct (VerifyPassword_format p salt key Hp Hlen) as (k & Hk & ->).
  rewrite Hk. f_equal. apply bool_decide_ext. split; congruence.
Qed.

Lemma HashPassword_verifies password h (w w' : World DB) :
  HashPassword password w = (Ok h, w') -> VerifyPassword password h = Ok true.
Proof.
  intros Hrun. destruct (HashPassword_run password w)
    as [[_ Hr]|[(_ & e & w1 & Hr & _)|(Hp & salt & key & w1 & Hkey & Hlen & Hr & _)]];
    rewrite Hrun in Hr; simplify_eq. rewrite VerifyPassword_formatted by done. by rewrite bool_decide_true.
Qed.

(** C36. Passwords: what [HashPassword] returns, [VerifyPassword] accepts for
    the same password; any other password is accepted only if argon2 derives
    the same key from it. The hash survives its own textual format: the
    parameters, the salt and the key are read back exactly. *)
Theorem password_roundtrip password h w w' :
  HashPassword (DB := DB) password w = (Ok h, w') ->
  exists salt key,
    parseArgon2idHash h = Ok (mkParams argon2idTime argon2idMemory argon2idThreads, salt, key) /\
    VerifyPassword password h = Ok true /\
    forall password', TrimSpace password' <> "" ->
      VerifyPassword password' h =
        Ok (bool_decide (argon2_IDKey password' salt argon2idTime argon2idMemory argon2idThreads argon2idKeyLen =
                         argon2_IDKey password salt argon2idTime argon2idMemory argon2idThreads argon2idKeyLen)).
Proof.
  intros Hrun. destruct (HashPassword_run password w)
    as [[_ Hr]|[(_ & e & w1 & Hr & _)|(Hp & salt & key & w1 & Hkey & Hlen & Hr & _)]];
    rewrite Hrun in Hr; simplify_eq.
  exists salt, key. assert (key <> "") as Hne by (by intros ->).
  split; [by apply parse_format_hash|].
  split; [by eapply HashPassword_verifies|].
  intros p Hp'. rewrite VerifyPassword_formatted, Hkey by first [done|by apply is_empty_false]. done.
Qed.
End verify.
