(* ===== verification/Invariants.v ===== *)
(** * Invariants of a service's tables

    [keeps J m]: whatever fails, running [m] keeps the invariant [J] of the
    tables. [J] may mention the number of identifiers and random readings
    drawn so far, and holds on when more are drawn. The database [keeps] and
    [solve_keeps] prove it of a computation from its parts. *)
From S2P Require Import Prelude Passwords.
#[local] Open Scope Z_scope.

(** ** Runs of a sequence *)
Lemma bind_ok {DB A B} (m : M DB A) (k : A -> M DB B) w a w1 : m w = (Ok a, w1) -> bindM m k w = k a w1.
Proof. unfold bindM. by intros ->. Qed.
Lemma bind_err {DB A B} (m : M DB A) (k : A -> M DB B) w e w1 : m w = (Err e, w1) -> bindM m k w = (Err e, w1).
Proof. unfold bindM. by intros ->. Qed.
Lemma bind_assoc {DB A B C} (m : M DB A) (k : A -> M DB B) (l : B -> M DB C) w :
  bindM (bindM m k) l w = bindM m (fun a => bindM (k a) l) w.
Proof. unfold bindM. by destruct (m w) as [[]]. Qed.
Lemma bind_inv {DB A B} (m : M DB A) (k : A -> M DB B) w b w' :
  bindM m k w = (Ok b, w') -> exists a w1, m w = (Ok a, w1) /\ k a w1 = (Ok b, w').
Proof. unfold bindM. destruct (m w) as [[a|e] w1]; [eauto|done]. Qed.

(** ** What a statement does

    On error the tables are unchanged, unless the acknowledgement was lost;
    errors other than the statement's own come from the schedule of
    failures. *)
Lemma exec_cases {DB A} (s : stmt DB A) (w : World DB) :
  exists r w', exec s w = (r, w') /\ w_uuid w' = w_uuid w /\ w_tick w' = w_tick w /\ w_tx w' = w_tx w /\
    ((is_ok r = false /\ w_db w' = w_db w /\ (w_faults w = [] -> r = result_map fst (s (w_tx w) (w_seq w) (w_db w)))) \/
     (exists a, r = Ok a /\ s (w_tx w) (w_seq w) (w_db w) = Ok (a, w_db w'))).
Proof.
  unfold exec, next_fault, run_stmt. destruct w as [db sq u t tx fl sn].
  destruct fl as [|[] fl]; simpl.
  3,4: by eexists _, _; split_and!; [done..|left].
  all: destruct (s tx sq db) as [[a db']|e]; eexists _, _; split_and!; try done; [right|left]; eauto.
Qed.

Lemma autoexec_cases `{Env} {DB A} (s : stmt DB A) (w : World DB) :
  exists r w', autoexec s w = (r, w') /\ w_uuid w' = w_uuid w /\
    (w_faults w = [] -> w_faults w' = [] /\ w_tick w' = S (w_tick w) /\
       r = result_map fst (s (clock_Now (w_tick w)) (w_seq w) (w_db w))) /\
    ((is_ok r = false /\ w_db w' = w_db w /\ True) \/
     (exists now sq a, (r = Ok a \/ r = Err ENet) /\ s now sq (w_db w) = Ok (a, w_db w'))).
Proof.
  unfold autoexec, next_fault, run_stmt, start_tx. destruct w as [db sq u t tx fl sn].
  destruct fl as [|[] fl]; simpl.
  3: by eexists _, _; split_and!; [done..|left].
  all: destruct (s (clock_Now t) sq db) as [[a db']|e] eqn:E; simpl;
    eexists _, _; split_and!; try done; first [by left|right; eauto 10].
Qed.

Lemma autoexec_tick `{Env} {DB A} (s : stmt DB A) (w : World DB) : (w_tick w <= w_tick (autoexec s w).2)%nat.
Proof.
  unfold autoexec, next_fault, run_stmt, start_tx. destruct w as [db sq u t tx fl sn].
  destruct fl as [|[] fl]; simpl; try destruct (s _ _ _) as [[]|]; simpl; lia.
Qed.

(** A statement when nothing fails, in full. *)
Lemma autoexec_eq `{Env} {DB A} (s : stmt DB A) (w : World DB) a db' :
  w_faults w = [] -> s (clock_Now (w_tick w)) (w_seq w) (w_db w) = Ok (a, db') ->
  autoexec s w = (Ok a, mkWorld db' (w_seq w + 1) (w_uuid w) (S (w_tick w)) (clock_Now (w_tick w)) [] (w_sent w)).
Proof.
  destruct w as [db sq u t tx fl sn]. simpl. intros -> Hs. unfold autoexec, next_fault, run_stmt. simpl. by rewrite Hs.
Qed.
(** A statement that succeeds when nothing fails. *)
Lemma autoexec_run `{Env} {DB A} (s : stmt DB A) (w : World DB) a db' :
  w_faults w = [] -> s (clock_Now (w_tick w)) (w_seq w) (w_db w) = Ok (a, db') ->
  exists w', autoexec s w = (Ok a, w') /\ w_db w' = db' /\ w_faults w' = [] /\ w_uuid w' = w_uuid w.
Proof.
  destruct w as [db sq u t tx fl sn]. simpl. intros -> Hs. unfold autoexec, next_fault, run_stmt. simpl.
  rewrite Hs. eauto.
Qed.

Lemma exec_run {DB A} (s : stmt DB A) (w : World DB) a db' :
  w_faults w = [] -> s (w_tx w) (w_seq w) (w_db w) = Ok (a, db') ->
  exists w', exec s w = (Ok a, w') /\ w_db w' = db' /\ w_faults w' = [] /\ w_uuid w' = w_uuid w /\ w_tick w' = w_tick w.
Proof.
  destruct w as [db sq u t tx fl sn]. simpl. intros -> Hs. unfold exec, next_fault, run_stmt. simpl. rewrite Hs. eauto 6.
Qed.

(** What a step that succeeded did. *)
Lemma exec_ok {DB A} (s : stmt DB A) w a w' : exec s w = (Ok a, w') ->
  s (w_tx w) (w_seq w) (w_db w) = Ok (a, w_db w') /\ w_uuid w' = w_uuid w /\ w_tick w' = w_tick w.
Proof.
  intros Hr. destruct (exec_cases s w) as (r & w1 & Hr1 & Hu & Ht & _ & Hc). rewrite Hr in Hr1. simplify_eq.
  destruct Hc as [(? & _)|(b & ? & Hst)]; [done|]. by simplify_eq.
Qed.
Lemma autoexec_ok `{Env} {DB A} (s : stmt DB A) w a w' : autoexec s w = (Ok a, w') ->
  (exists now sq, s now sq (w_db w) = Ok (a, w_db w')) /\ w_uuid w' = w_uuid w.
Proof.
  intros Hr. destruct (autoexec_cases s w) as (r & w1 & Hr1 & Hu & _ & Hc). rewrite Hr in Hr1. simplify_eq.
  destruct Hc as [(? & _)|(now & sq & b & [?|?] & Hst)]; simplify_eq; eauto.
Qed.
(** A statement on the pool runs at the next reading of the clock. *)
Lemma autoexec_at `{Env} {DB A} (s : stmt DB A) w a w' : autoexec s w = (Ok a, w') ->
  s (clock_Now (w_tick w)) (w_seq w) (w_db w) = Ok (a, w_db w') /\ w_uuid w' = w_uuid w /\ w_tick w' = S (w_tick w).
Proof.
  destruct w as [db sq u t tx fl sn]. unfold autoexec, next_fault, run_stmt.
  destruct fl as [|[] fl]; simpl; [..|done|by destruct (s _ _ _) as [[]|]].
  all: destruct (s _ _ _) as [[b db']|]; [|done]; by intros [= -> <-].
Qed.
Lemma with_tx_ok `{Env} {DB A} (fn : M DB A) w a w' : with_tx fn w = (Ok a, w') ->
  exists w2, fn (tx_world w) = (Ok a, w2) /\ w_db w' = w_db w2 /\ w_uuid w' = w_uuid w2.
Proof.
  unfold with_tx, next_fault, start_tx, tx_world. destruct w as [db sq u t tx fl sn].
  destruct fl as [|[] fl]; simpl; [..|done|done].
  all: destruct (fn _) as [[b|e] [db2 sq2 u2 t2 tx2 fl2 sn2]]; [|done].
  all: destruct fl2 as [|[] fl2]; simpl; intros; simplify_eq; eauto.
Qed.
Lemma with_tx_tick `{Env} {DB A} (fn : M DB A) w a w' : with_tx fn w = (Ok a, w') ->
  w_tick w' = w_tick (fn (tx_world w)).2.
Proof.
  unfold with_tx, next_fault, start_tx, tx_world. destruct w as [db sq u t tx fl sn].
  destruct fl as [|[] fl]; simpl; [..|done|done].
  all: destruct (fn _) as [[b|e] [db2 sq2 u2 t2 tx2 fl2 sn2]]; [|done].
  all: destruct fl2 as [|[] fl2]; simpl; intros; by simplify_eq.
Qed.
(** A transaction whose body cannot succeed leaves the tables alone. *)
Lemma with_tx_refused `{Env} {DB A} (fn : M DB A) (w : World DB) : (forall a, (fn (tx_world w)).1 <> Ok a) ->
  exists e w', with_tx fn w = (Err e, w') /\ w_db w' = w_db w.
Proof.
  intros Hfn. destruct (with_tx fn w) as [[a|e] w'] eqn:Hr.
  - apply with_tx_ok in Hr as (w2 & Hr & _). specialize (Hfn a). by rewrite Hr in Hfn.
  - exists e, w'. split; [done|]. unfold with_tx, next_fault, start_tx, tx_world in *.
    destruct w as [db sq u t tx fl sn]. destruct fl as [|[] fl]; simpl in *; try (by simplify_eq).
    all: destruct (fn _) as [[a|e'] w2]; [by destruct (Hfn a)|by simplify_eq].
Qed.

Lemma rpc_ok {DB A} (m : M DB A) w a w' : rpc m w = (Ok a, w') ->
  exists fl, m (mkWorld (w_db w) (w_seq w) (w_uuid w) (w_tick w) (w_tx w) fl (w_sent w)) = (Ok a, w').
Proof.
  unfold rpc, next_fault. destruct w as [db sq u t tx fl sn].
  destruct fl as [|[] fl]; simpl; [exists []|exists fl|done|by destruct (m _)].
  - destruct (m _) as [[]]; naive_solver.
  - destruct (m _) as [[]]; naive_solver.
Qed.

Lemma fail_if_ok {DB} b e (w : World DB) u w' : fail_if b e w = (Ok u, w') -> b = false /\ w' = w.
Proof. unfold fail_if. destruct b; [done|]. by intros [= <- <-]. Qed.

Section keeps.
Context {DB : Type} (J : DB -> nat -> Prop).

(** Statements and computations that keep [J]. *)
Definition stmt_keeps {A} (s : stmt DB A) : Prop :=
  forall now seq db u a db', J db u -> s now seq db = Ok (a, db') -> J db' u.

Definition keeps {A} (m : M DB A) : Prop :=
  forall w, (w_uuid w <= w_uuid (m w).2)%nat /\ (J (w_db w) (w_uuid w) -> J (w_db (m w).2) (w_uuid (m w).2)).

Class Drawn : Prop := { drawn_more : forall db u u', (u <= u')%nat -> J db u -> J db u' }.

Lemma keeps_ret {A} (a : A) : keeps (retM a).
Proof. by intros w. Qed.
Lemma keeps_fail {A} e : keeps (A := A) (failM e).
Proof. by intros w. Qed.
Lemma keeps_lift {A} (r : result A) : keeps (liftR r).
Proof. by intros w. Qed.
Lemma keeps_fail_if b e : keeps (fail_if b e).
Proof. intros w. by destruct b. Qed.

Lemma keeps_bind {A B} (m : M DB A) (k : A -> M DB B) :
  keeps m -> (forall a, keeps (k a)) -> keeps (bindM m k).
Proof.
  intros Hm Hk w. destruct (Hm w) as [Hu HJ]. unfold bindM. destruct (m w) as [[a|e] w']; simpl in *; [|done].
  destruct (Hk a w') as [Hu' HJ']. split; [lia|auto].
Qed.
Lemma keeps_wrap {A} ctx (m : M DB A) : keeps m -> keeps (wrap_err ctx m).
Proof. intros Hm w. specialize (Hm w). unfold wrap_err. by destruct (m w) as [[]]. Qed.
Lemma keeps_try {A} (m : M DB A) : keeps m -> keeps (tryM m).
Proof. intros Hm w. specialize (Hm w). unfold tryM. by destruct (m w). Qed.

Context `{!Drawn}.

Lemma keeps_step {A} (m : M DB A) :
  (forall w, (w_uuid w <= w_uuid (m w).2)%nat) -> (forall w, w_db (m w).2 = w_db w) -> keeps m.
Proof. intros Hu Hdb w. split; [done|]. rewrite Hdb. by apply drawn_more. Qed.

Context `{Env}.

Lemma keeps_ids : keeps ids_New.
Proof. apply keeps_step; [intros w; simpl; lia|done]. Qed.
Lemma keeps_now : keeps time_Now.
Proof. by apply keeps_step. Qed.

Lemma keeps_exec {A} (s : stmt DB A) : stmt_keeps s -> keeps (exec s).
Proof.
  intros Hs w. destruct (exec_cases s w) as (r & w' & Hr & Hu & _ & _ & Hc). rewrite Hr. simpl. rewrite Hu.
  split; [done|]. intros HJ.
  destruct Hc as [(_ & -> & _)|(a & _ & Hst)]; [done|by eapply Hs].
Qed.

Lemma keeps_autoexec {A} (s : stmt DB A) : stmt_keeps s -> keeps (autoexec s).
Proof.
  intros Hs w. destruct (autoexec_cases s w) as (r & w' & Hr & Hu & _ & Hc). rewrite Hr. simpl. rewrite Hu.
  split; [done|]. intros HJ.
  destruct Hc as [(_ & -> & _)|(now & sq & a & _ & Hst)]; [done|by eapply Hs].
Qed.

Lemma keeps_tx {A} (fn : M DB A) : keeps fn -> keeps (with_tx fn).
Proof.
  intros Hfn w. unfold with_tx, next_fault.
  destruct (w_faults w) as [|[] fl]; simpl; [..|done|done].
  all: match goal with H : keeps ?f |- context [?f ?w1] => destruct (H w1) as [Hu HJ]; destruct (f w1) as [[a|e] w2] end.
  all: simpl in *; try (split; [done|by apply drawn_more]).
  all: destruct (w_faults w2) as [|[] fl2]; simpl; split; try done; by apply drawn_more.
Qed.

Lemma keeps_rpc {A} (m : M DB A) : keeps m -> keeps (rpc m).
Proof.
  intros Hm w. unfold rpc, next_fault. destruct (w_faults w) as [|[] fl]; simpl; [..|done|].
  all: match goal with H : keeps ?f |- context [?f ?x] => specialize (H x); by destruct (f x) as [r w2] end.
Qed.
Lemma keeps_rand `{Random} n : keeps (rand_Read n).
Proof.
  apply keeps_step; intros w; unfold rand_Read, next_fault; destruct (w_faults w) as [|[] fl]; simpl; done || lia.
Qed.
End keeps.

Create HintDb keeps discriminated.
#[export] Hint Resolve keeps_ret keeps_fail keeps_lift keeps_fail_if keeps_ids keeps_now keeps_rand : keeps.

(** The structure of the computation is followed; the leaves, and that
    statements keep the invariant, are in the database. *)
Ltac solve_keeps :=
  intros; cbv beta zeta;
  lazymatch goal with
  | |- keeps _ (bindM _ _) => apply keeps_bind; solve_keeps
  | |- keeps _ (wrap_err _ _) => apply keeps_wrap; solve_keeps
  | |- keeps _ (tryM _) => apply keeps_try; solve_keeps
  | |- keeps _ (rpc _) => apply keeps_rpc; solve_keeps
  | |- keeps _ (exec _) => apply keeps_exec; solve [auto with keeps nocore]
  | |- keeps _ (autoexec _) => apply keeps_autoexec; solve [auto with keeps nocore]
  | |- keeps _ (with_tx _) => apply keeps_tx; [typeclasses eauto|solve_keeps]
  | |- keeps _ (match ?x with _ => _ end) => destruct x; solve_keeps
  | |- keeps _ _ => solve [eauto with keeps nocore typeclass_instances]
  end.

(** ** Properties of the tables alone

    [kept P m]: whatever fails, running [m] keeps the property [P] of the
    tables. *)
Section kept.
Context {DB : Type} (P : DB -> Prop).

Definition kept {A} (m : M DB A) : Prop := forall w, P (w_db w) -> P (w_db (m w).2).
Definition stmt_kept {A} (s : stmt DB A) : Prop :=
  forall now seq db a db', P db -> s now seq db = Ok (a, db') -> P db'.

Lemma kept_step {A} (m : M DB A) : (forall w, w_db (m w).2 = w_db w) -> kept m.
Proof. intros Hm w. by rewrite Hm. Qed.
Lemma kept_ret {A} (a : A) : kept (retM a).
Proof. by apply kept_step. Qed.
Lemma kept_fail {A} e : kept (A := A) (failM e).
Proof. by apply kept_step. Qed.
Lemma kept_lift {A} (r : result A) : kept (liftR r).
Proof. by apply kept_step. Qed.
Lemma kept_fail_if b e : kept (fail_if b e).
Proof. apply kept_step. by destruct b. Qed.
Lemma kept_bind {A B} (m : M DB A) (k : A -> M DB B) : kept m -> (forall a, kept (k a)) -> kept (bindM m k).
Proof.
  intros Hm Hk w HP. specialize (Hm w HP). unfold bindM. destruct (m w) as [[a|e] w']; [by apply Hk|done].
Qed.
(** What follows a step that fails does not matter. *)
Lemma kept_bind_fails {A B} (m : M DB A) (k : A -> M DB B) :
  kept m -> (forall w a, (m w).1 <> Ok a) -> kept (bindM m k).
Proof.
  intros Hm Hf w HP. specialize (Hm w HP). specialize (Hf w). unfold bindM.
  destruct (m w) as [[a|e] w']; [by destruct (Hf a)|done].
Qed.
(** What follows a step may use what the step returns when [P] holds. *)
Lemma kept_bind_post {A B} (Q : A -> Prop) (m : M DB A) (k : A -> M DB B) :
  kept m -> (forall w a w', P (w_db w) -> m w = (Ok a, w') -> Q a) -> (forall a, Q a -> kept (k a)) -> kept (bindM m k).
Proof.
  intros Hm HQ Hk w HP. pose proof (Hm w HP) as HP'. specialize (HQ w). unfold bindM.
  destruct (m w) as [[a|e] w'] eqn:Hr; [|done]. apply Hk; [by eapply HQ|done].
Qed.
Lemma kept_try {A} (m : M DB A) : kept m -> kept (tryM m).
Proof. intros Hm w. specialize (Hm w). unfold tryM. by destruct (m w). Qed.
Lemma kept_rpc {A} (m : M DB A) : kept m -> kept (rpc m).
Proof.
  intros Hm w HP. unfold rpc, next_fault. destruct (w_faults w) as [|[] fl]; simpl; [..|done|].
  all: match goal with H : kept ?f |- context [?f ?x] => specialize (H x); destruct (f x) as [r w2] end; by apply Hm.
Qed.
Lemma kept_now `{Env} : kept time_Now.
Proof. by apply kept_step. Qed.
Lemma kept_ids `{Env} : kept ids_New.
Proof. by apply kept_step. Qed.
Lemma kept_wrap {A} ctx (m : M DB A) : kept m -> kept (wrap_err ctx m).
Proof. intros Hm w HP. specialize (Hm w HP). unfold wrap_err. by destruct (m w) as [[]]. Qed.
Lemma kept_rand `{Random} n : kept (rand_Read n).
Proof. apply kept_step. intros w. unfold rand_Read, next_fault. by destruct (w_faults w) as [|[] fl]. Qed.
Lemma kept_autoexec `{Env} {A} (s : stmt DB A) : stmt_kept s -> kept (autoexec s).
Proof.
  intros Hs w HP. destruct (autoexec_cases s w) as (r & w' & Hr & _ & _ & Hc). rewrite Hr. simpl.
  destruct Hc as [(_ & -> & _)|(now & sq & a & _ & Hst)]; [done|by eapply Hs].
Qed.
Lemma kept_exec {A} (s : stmt DB A) : stmt_kept s -> kept (exec s).
Proof.
  intros Hs w HP. destruct (exec_cases s w) as (r & w' & Hr & _ & _ & _ & Hc). rewrite Hr. simpl.
  destruct Hc as [(_ & -> & _)|(a & _ & Hst)]; [done|by eapply Hs].
Qed.
Lemma kept_tx `{Env} {A} (fn : M DB A) : kept fn -> kept (with_tx fn).
Proof.
  intros Hfn w HP. unfold with_tx, next_fault. destruct (w_faults w) as [|[] fl]; simpl; [..|done|done].
  all: match goal with H : kept ?f |- context [?f ?x] => specialize (H x HP); destruct (f x) as [[a|e] w2] end; [|done].
  all: destruct (w_faults w2) as [|[] fl2]; done.
Qed.
End kept.

(** A computation on a part of the tables keeps what does not depend on that
    part, and what it keeps of that part. *)
Lemma kept_zoom_frame {S T A} `{Lens S T} (P : S -> Prop) (m : M T A) :
  (forall t s, P s -> P (upd t s)) -> kept P (zoom m).
Proof. intros Hf w HP. unfold zoom. destruct (m _) as [r w']. simpl. auto. Qed.
Lemma kept_zoom {S T A} `{LensOk S T} (P : T -> Prop) (m : M T A) :
  kept P m -> kept (fun s => P (view s)) (zoom m).
Proof.
  intros Hm w HP. specialize (Hm (set_db (view (w_db w)) w) HP). unfold zoom. destruct (m _) as [r w']. simpl in *.
  by rewrite view_upd.
Qed.
Lemma keeps_kept {DB A} (J : DB -> nat -> Prop) (P : DB -> Prop) (m : M DB A) :
  (forall db u, J db u <-> P db) -> keeps J m -> kept P m.
Proof. intros HJ Hm w HP. destruct (Hm w) as [_ Hk]. eapply HJ, Hk, HJ, HP. Qed.

Create HintDb kept discriminated.
#[export] Hint Resolve kept_ret kept_fail kept_lift kept_fail_if kept_ids kept_now kept_rand : kept.
Ltac solve_kept :=
  intros; cbv beta zeta;
  lazymatch goal with
  | |- kept _ (bindM _ _) => apply kept_bind; solve_kept
  | |- kept _ (wrap_err _ _) => apply kept_wrap; solve_kept
  | |- kept _ (tryM _) => apply kept_try; solve_kept
  | |- kept _ (rpc _) => apply kept_rpc; solve_kept
  | |- kept _ (exec _) => apply kept_exec; solve [auto with kept nocore]
  | |- kept _ (with_tx _) => apply kept_tx; solve_kept
  | |- kept _ (autoexec _) => apply kept_autoexec; solve [auto with kept nocore]
  | |- kept _ (match ?x with _ => _ end) => destruct x; solve_kept
  | |- kept _ _ => solve [eauto with kept nocore typeclass_instances]
  end.

(** ** Every run succeeds, with a value that has [Q]. *)
Definition answers {DB A} (Q : A -> Prop) (m : M DB A) : Prop := forall w, exists a w', m w = (Ok a, w') /\ Q a.
Lemma answers_ret {DB A} (Q : A -> Prop) (a : A) : Q a -> answers (DB := DB) Q (retM a).
Proof. intros Ha w. by exists a, w. Qed.
Lemma answers_bind {DB A B} (R : A -> Prop) (Q : B -> Prop) (m : M DB A) k :
  answers R m -> (forall a, R a -> answers Q (k a)) -> answers Q (bindM m k).
Proof.
  intros Hm Hk w. destruct (Hm w) as (a & w1 & Hr & Ha). destruct (Hk a Ha w1) as (b & w2 & Hr2 & Hb).
  exists b, w2. by rewrite (bind_ok _ _ _ _ _ Hr).
Qed.
Lemma answers_try {DB A} (m : M DB A) : answers (fun _ => True) (tryM m).
Proof. intros w. unfold tryM. destruct (m w) as [r w']. eauto. Qed.
