(* ===== verification/Stages.v ===== *)
(** * Transactions in stages

    Postgres runs the transactions of the services at the READ COMMITTED
    level: what a transaction has read can have changed by the time it
    writes. A transaction is cut after its reads, where others can come in
    between. Its writes and its commit are one stage: they lock the rows and
    the keys they touch until the commit, so the writes of two transactions
    that touch the same row or key follow one another, the second on what the
    first has committed. *)
From S2P Require Import Prelude.
#[local] Open Scope Z_scope.
#[local] Open Scope go_scope.

Section stages.
Context `{Env} {DB : Type}.
Implicit Types (w : World DB).

Definition set_tx (now : Z) (w : World DB) : World DB :=
  mkWorld (w_db w) (w_seq w) (w_uuid w) (w_tick w) now (w_faults w) (w_sent w).
(** [pool.Begin], and the time [now()] has in the transaction *)
Definition tx_begin : M DB Z := fun w =>
  match next_fault w with
  | (FOk, w1) => (Ok (w_tx (start_tx w1)), start_tx w1)
  | (_, w1) => (Err ENet, w1)
  end.
Definition in_tx {A} (now : Z) (m : M DB A) : M DB A := fun w => m (set_tx now w).
(** The last statements of a transaction and its commit *)
Definition tx_commit {A} (m : M DB A) : M DB A := fun w =>
  match m w with
  | (Err e, w2) => (Err e, set_db (w_db w) w2)
  | (Ok a, w2) =>
      match next_fault w2 with
      | (FOk, w3) => (Ok a, w3)
      | (FErr, w3) => (Err ENet, set_db (w_db w) w3)
      | (FLostAck, w3) => (Err ENet, w3)
      end
  end.

(** ** Reads *)
Definition reads {A} (m : M DB A) : Prop := forall w r w', m w = (r, w') -> w_db w' = w_db w.

Lemma set_db_same w : set_db (w_db w) w = w.
Proof. by destruct w. Qed.
Lemma reads_exec {B} (s : stmt DB B) :
  (forall now sq db a db', s now sq db = Ok (a, db') -> db' = db) -> reads (exec s).
Proof.
  intros Hs w r w'. unfold exec, next_fault, run_stmt. destruct (w_faults w) as [|[] fl]; simpl.
  all: try (intros [= _ <-]; done).
  all: destruct (s _ _ _) as [[a db']|e] eqn:E; intros [= _ <-]; simpl; try done; by eapply Hs.
Qed.
Lemma reads_bind {A B} (m : M DB A) (k : A -> M DB B) : reads m -> (forall a, reads (k a)) -> reads (bindM m k).
Proof.
  intros Hm Hk w r w'. unfold bindM. destruct (m w) as [[a|e] w1] eqn:E; apply Hm in E.
  - intros Hr. rewrite <-E. by eapply Hk.
  - by intros [= _ <-].
Qed.
Lemma reads_fail_if b e : reads (fail_if (DB := DB) b e).
Proof. intros w r w'. unfold fail_if. by destruct b; intros [= _ <-]. Qed.
Lemma reads_liftR {A} (x : result A) : reads (liftR (DB := DB) x).
Proof. by intros w r w' [= _ <-]. Qed.

(** ** A transaction is its stages *)
Lemma tx_commit_bind {A B} (m : M DB A) (k : A -> M DB B) w :
  reads m -> tx_commit (bindM m k) w = bindM m (fun a => tx_commit (k a)) w.
Proof.
  intros Hm. unfold tx_commit, bindM. destruct (m w) as [[a|e] w1] eqn:E; apply Hm in E.
  - by rewrite E.
  - by rewrite <-E, set_db_same.
Qed.
Lemma with_tx_stages {A} (m : M DB A) w : with_tx m w = bindM tx_begin (fun _ => tx_commit m) w.
Proof.
  unfold with_tx, tx_begin, tx_commit, bindM. destruct (next_fault w) as [[] w1] eqn:E; [|done..].
  assert (w_db w1 = w_db w) as Hdb by (unfold next_fault in E; destruct (w_faults w); by simplify_eq/=).
  by rewrite <-Hdb.
Qed.

(** ** What a stage leaves *)
Lemma later_in_tx now w : later w (set_tx now w).
Proof. by split_and!. Qed.
Lemma tx_begin_post : forall w, wpm tx_begin (fun r w' => w_db w' = w_db w /\ later w w' /\
  match r with Ok _ => True | Err e => e = ENet /\ w_faults w <> [] end) w.
Proof.
  intros w. unfold wpm, tx_begin, next_fault. destruct (w_faults w) as [|[] fl] eqn:E; simpl.
  all: unfold later; simpl; rewrite E; by split_and!.
Qed.
Lemma exec_select_post {B} (s : stmt DB B) (f : DB -> B) w : (forall now sq db, s now sq db = Ok (f db, db)) ->
  wpm (exec s) (fun r w' => w_db w' = w_db w /\ later w w' /\
    match r with Ok b => b = f (w_db w) | Err e => w_faults w <> [] end) w.
Proof.
  intros Hs. unfold wpm, exec, next_fault, run_stmt. destruct (w_faults w) as [|[] fl] eqn:E; simpl; rewrite ?Hs; simpl.
  all: split_and!; simpl; try done; try lia; unfold later; simpl; rewrite ?E; split_and!; try done; lia.
Qed.
Lemma tx_commit_post {A} (m : M DB A) (J : A -> World DB -> Prop) (E : Prop) w :
  (forall a w1 w2, w_db w2 = w_db w1 -> w_seq w2 = w_seq w1 -> w_uuid w2 = w_uuid w1 -> J a w1 -> J a w2) ->
  wpm m (fun r w2 => later w w2 /\ match r with Ok a => J a w2 | Err _ => E \/ w_faults w <> [] end) w ->
  wpm (tx_commit m) (fun r w' => later w w' /\
    match r with
    | Ok a => J a w'
    | Err _ => (w_db w' = w_db w \/ exists a, J a w') /\ (E \/ w_faults w <> [])
    end) w.
Proof.
  intros HJ Hm. unfold wpm, tx_commit in *. destruct (m w) as [[a|e] w2]; simpl in *.
  2: { destruct Hm as [Hl He]. split; [exact Hl|]. by split; [left|]. }
  destruct Hm as [Hl Ha]. destruct (next_fault w2) as [ft w3] eqn:Hnf.
  assert (w_db w3 = w_db w2 /\ w_seq w3 = w_seq w2 /\ w_uuid w3 = w_uuid w2 /\ later w2 w3 /\ (ft <> FOk -> w_faults w2 <> []))
    as (E1 & E2 & E3 & Hl3 & Hft).
  { unfold next_fault in Hnf. unfold later. destruct (w_faults w2) as [|f fl] eqn:Hf; simplify_eq/=; by split_and!. }
  assert (later w w3) as Hl' by (by eapply later_trans).
  assert (J a w3) as Ha3 by (by eapply HJ; [..|exact Ha]).
  assert (ft <> FOk -> w_faults w <> []) as Hne by (intros Hf Hnil; by apply (Hft Hf), Hl).
  destruct ft; simpl; (split; [exact Hl'|]); [exact Ha3|split; [by left|right; by apply Hne]|split; [by right; exists a|right; by apply Hne]].
Qed.
End stages.
