(* ===== verification/Floats.v ===== *)
(** * Floating point

    Go's [float64] and [float32]: IEEE 754 with rounding to nearest even,
    from the Standard Library's executable model. *)
From S2P Require Import Prelude.
From Stdlib Require Import SpecFloat.
#[local] Open Scope Z_scope.

Definition float64 : Type := spec_float.
Definition float32 : Type := spec_float.

Definition f64_of_Z (z : Z) : float64 := binary_normalize 53 1024 z 0 false.
Definition f64_add : float64 -> float64 -> float64 := SFadd 53 1024.
Definition f64_sub : float64 -> float64 -> float64 := SFsub 53 1024.
Definition f64_mul : float64 -> float64 -> float64 := SFmul 53 1024.
Definition f64_div : float64 -> float64 -> float64 := SFdiv 53 1024.

Definition f32_of_Z (z : Z) : float32 := binary_normalize 24 128 z 0 false.
Definition f32_add : float32 -> float32 -> float32 := SFadd 24 128.
(** A decimal constant [n / d], both exact: correctly rounded. *)
Definition f32_const (n d : Z) : float32 := SFdiv 24 128 (f32_of_Z n) (f32_of_Z d).

Definition f_ltb : spec_float -> spec_float -> bool := SFltb.
Definition f_leb : spec_float -> spec_float -> bool := SFleb.

#[export] Instance spec_float_eq_dec : EqDecision spec_float.
Proof. solve_decision. Defined.

(** [time.Duration.Seconds] *)
Definition second_ns : Z := 1000000000.
Definition Seconds (d : Z) : float64 :=
  f64_add (f64_of_Z (d ÷ second_ns)) (f64_div (f64_of_Z (Z.rem d second_ns)) (f64_of_Z second_ns)).

Example seconds_half : Seconds 1500000000 = f64_div (f64_of_Z 3) (f64_of_Z 2).
Proof. vm_compute. reflexivity. Qed.
Example float32_tenth : f32_const 1 10 = S754_finite false 13421773 (-27).
Proof. vm_compute. reflexivity. Qed.
