(* ===== verification/BigFloat.v ===== *)
(** * Arbitrary-precision floating point ([math/big.Float])

    What the fraud engine and the FX service use of it, at the precision of
    256 bits they ask for: comparison, multiplication with rounding to the
    nearest even and the limits of the exponent, and printing with eight
    decimals. Reading a number is a parameter; [decimal_text] are the plain
    decimal notations, and what reading one promises is that the value is
    within half a unit of the last place, and exact for integers that fit. *)
From S2P Require Import Prelude GoStrings.
From Stdlib Require Import QArith Qabs Qpower Lqa.
#[local] Open Scope Z_scope.
#[local] Open Scope go_scope.

(** A finite value is [m * 2^e] with its sign apart: zeros have one too. *)
Inductive bigFloat : Type :=
| BigFinite (neg : bool) (m e : Z)
| BigInf (neg : bool).

Definition signed (neg : bool) (m : Z) : Z := if neg then - m else m.

Definition big_Cmp (x y : bigFloat) : comparison :=
  match x, y with
  | BigInf true, BigInf true | BigInf false, BigInf false => Eq
  | BigInf true, _ | _, BigInf false => Lt
  | BigInf false, _ | _, BigInf true => Gt
  | BigFinite s m e, BigFinite s' m' e' =>
      let low := Z.min e e' in (signed s m * 2 ^ (e - low)) ?= (signed s' m' * 2 ^ (e' - low))
  end.

(** [a / b] to the nearest integer, ties to even *)
Definition div_even (a b : Z) : Z :=
  let q := a / b in let r := a mod b in
  if (b <? 2 * r) || ((b =? 2 * r) && Z.odd q) then q + 1 else q.

Definition prec : Z := 256.
Definition MaxExp : Z := 2147483647.
Definition MinExp : Z := - 2147483648.
(** The exponent of a value whose mantissa lies in [1/2, 1) *)
Definition exponent (m e : Z) : Z := Z.log2 m + 1 + e.

(** [Float.setExpAndRound] *)
Definition big_round (neg : bool) (m e : Z) : bigFloat :=
  if m =? 0 then BigFinite neg 0 0
  else if exponent m e <? MinExp then BigFinite neg 0 0
  else
    let k := Z.log2 m + 1 - prec in
    let '(m, e) := if k <=? 0 then (m, e) else (div_even m (2 ^ k), e + k) in
    if MaxExp <? exponent m e then BigInf neg else BigFinite neg m e.

(** [new(big.Float).Mul(x, y)]: the product of a zero and an infinity panics
    with [ErrNaN]. *)
Definition big_Mul (x y : bigFloat) : result bigFloat :=
  match x, y with
  | BigFinite s m e, BigFinite s' m' e' => Ok (big_round (xorb s s') (m * m') (e + e'))
  | BigFinite s m _, BigInf s' | BigInf s', BigFinite s m _ =>
      if m =? 0 then Err (EPanic "multiplication of zero with infinity") else Ok (BigInf (xorb s s'))
  | BigInf s, BigInf s' => Ok (BigInf (xorb s s'))
  end.

(** ** Text *)
Fixpoint zeros (n : nat) : string := match n with O => "" | S n => "0" +:+ zeros n end.
Definition pad_left (w : nat) (s : string) : string := zeros (w - String.length s) +:+ s.
(** [n / 10^k], with all its [k] decimals *)
Definition decimal_text (neg : bool) (n : Z) (k : nat) : string :=
  let unit := 10 ^ Z.of_nat k in
  (if neg then "-" else "") +:+ pretty (n / unit) +:+
  (if (k =? 0)%nat then "" else "." +:+ pad_left k (pretty (n mod unit))).

(** [Float.Text('f', 8)]: the nearest decimal, ties to even *)
Definition scaled8 (m e : Z) : Z :=
  if 0 <=? e then m * 2 ^ e * 10 ^ 8 else div_even (m * 10 ^ 8) (2 ^ (- e)).
Definition big_Text_f8 (x : bigFloat) : string :=
  match x with
  | BigInf neg => (if neg then "-" else "+") +:+ "Inf"
  | BigFinite neg m e => decimal_text neg (scaled8 m e) 8
  end.

(** [new(big.Float).SetPrec(256).SetString]: [None] when the text is not a
    number. *)
Class BigFloatLib := { big_SetString : string -> option bigFloat }.

(** ** Values as rationals *)
#[local] Open Scope Q_scope.
Definition pow2 (e : Z) : Q := (2 # 1) ^ e.
Definition value (m e : Z) : Q := inject_Z m * pow2 e.
Definition ratio (n : Z) (k : nat) : Q := inject_Z n / inject_Z (10 ^ Z.of_nat k).
(** Half a unit in the last place of 256 bits, relative to the value *)
Definition eps : Q := pow2 (-256).
Definition near (x v : Q) : Prop := x * (1 - eps) <= v /\ v <= x * (1 + eps).

Class BigFloatOk `{BigFloatLib} := {
  big_SetString_decimal neg n k : (0 <= n < 2 ^ 200)%Z -> (k <= 100)%nat ->
    exists m e, big_SetString (decimal_text neg n k) = Some (BigFinite neg m e) /\ (0 <= m)%Z /\
      near (ratio n k) (value m e) /\
      (forall z, n = (z * 10 ^ Z.of_nat k)%Z -> value m e == inject_Z z) }.

Lemma pow2_pos e : 0 < pow2 e.
Proof. apply Qpower_0_lt. lra. Qed.
Lemma pow2_add a b : pow2 (a + b) == pow2 a * pow2 b.
Proof. apply Qpower_plus. lra. Qed.
Lemma pow2_Z e : (0 <= e)%Z -> pow2 e == inject_Z (2 ^ e).
Proof. intros He. symmetry. by apply (Zpower_Qpower 2 e). Qed.
Lemma pow2_le_inv a b : pow2 a <= pow2 b -> (a <= b)%Z.
Proof. intros Hle. apply (Qpower_le_compat_l_inv (2 # 1)); [done|lra]. Qed.

Lemma div_even_spec a b : (0 < b)%Z -> (2 * Z.abs (div_even a b * b - a) <= b)%Z.
Proof.
  intros Hb. unfold div_even. cbv zeta. pose proof (Z.div_mod a b ltac:(lia)). pose proof (Z.mod_pos_bound a b Hb).
  destruct (Z.ltb_spec b (2 * (a mod b))); simpl; [nia|].
  destruct (Z.eqb_spec b (2 * (a mod b))); simpl; [destruct (Z.odd _); nia|nia].
Qed.

Lemma value_pos m e : (0 < m)%Z -> 0 < value m e.
Proof. intros Hm. apply Qmult_lt_0_compat; [change 0 with (inject_Z 0); by rewrite <-Zlt_Qlt|apply pow2_pos]. Qed.
Lemma value_mul m e m' e' : value (m * m') (e + e') == value m e * value m' e'.
Proof. unfold value. rewrite inject_Z_mult, pow2_add. ring. Qed.

Lemma pow2_step a : pow2 (a + 1) == 2 * pow2 a.
Proof. rewrite pow2_add. change (pow2 1) with (2 # 1). ring. Qed.

(** The exponent of a value brackets it. *)
Lemma exponent_bounds m e : (0 < m)%Z -> pow2 (exponent m e - 1) <= value m e /\ value m e < pow2 (exponent m e).
Proof.
  intros Hm. unfold exponent, value. destruct (Z.log2_spec m Hm) as [Hl Hu]. pose proof (Z.log2_nonneg m).
  pose proof (pow2_pos e). split.
  - replace (Z.log2 m + 1 + e - 1)%Z with (Z.log2 m + e)%Z by lia. rewrite pow2_add, pow2_Z by lia.
    apply Qmult_le_compat_r; [by rewrite <-Zle_Qle|lra].
  - rewrite pow2_add, (pow2_Z (_ + 1)) by lia. apply Qmult_lt_compat_r; [done|].
    rewrite <-Zlt_Qlt. by rewrite Z.add_1_r.
Qed.

Lemma exponent_range m e lo hi : (0 < m)%Z -> pow2 lo <= value m e -> value m e <= pow2 hi ->
  (lo <= exponent m e <= hi + 1)%Z.
Proof.
  intros Hm Hlo Hhi. destruct (exponent_bounds m e Hm) as [Hl Hu]. split.
  - apply pow2_le_inv. lra.
  - enough (exponent m e - 1 <= hi)%Z by lia. apply pow2_le_inv. lra.
Qed.

(** Rounding to 256 bits is within half a unit of the last place. *)
Lemma round_near m k : (0 < m)%Z -> k = (Z.log2 m + 1 - prec)%Z -> (0 < k)%Z ->
  (2 ^ 256 * Z.abs (div_even m (2 ^ k) * 2 ^ k - m) <= m)%Z.
Proof.
  intros Hm -> Hk. pose proof (div_even_spec m (2 ^ (Z.log2 m + 1 - prec)) ltac:(apply Z.pow_pos_nonneg; lia)) as Hd.
  set (d := Z.abs _) in *. destruct (Z.log2_spec m Hm) as [Hl _]. unfold prec in *.
  assert (2 ^ Z.log2 m = 2 ^ 255 * 2 ^ (Z.log2 m + 1 - 256))%Z as Heq by (rewrite <-Z.pow_add_r by lia; f_equal; lia).
  change (2 ^ 256)%Z with (2 ^ 255 * 2)%Z. nia.
Qed.

Lemma eps_bounds : 0 < eps /\ eps <= 1 # 4 /\ eps * inject_Z (2 ^ 256) == 1.
Proof. repeat split; vm_compute; done. Qed.

Lemma near_scaled m q e k : (0 <= k)%Z -> (2 ^ 256 * Z.abs (q * 2 ^ k - m) <= m)%Z -> near (value m e) (value q (e + k)).
Proof.
  intros Hk Hb. assert (value q (e + k) == inject_Z (q * 2 ^ k) * pow2 e) as Hq.
  { unfold value. rewrite pow2_add, inject_Z_mult, (pow2_Z k) by done. ring. }
  assert (2 ^ 256 * (q * 2 ^ k) - 2 ^ 256 * m <= m /\ 2 ^ 256 * m - 2 ^ 256 * (q * 2 ^ k) <= m)%Z as [H1 H2] by lia.
  rewrite Zle_Qle in H1, H2. unfold Z.sub in H1, H2. rewrite inject_Z_plus, inject_Z_opp, !(inject_Z_mult (2 ^ 256)) in H1, H2.
  destruct eps_bounds as (He & _ & HN). set (N := inject_Z (2 ^ 256)) in *. set (M := inject_Z m) in *.
  set (R := inject_Z (q * 2 ^ k)) in *. pose proof (pow2_pos e) as Hp.
  assert (M * (1 - eps) <= R /\ R <= M * (1 + eps)) as [Hl Hu].
  { split.
    - assert (eps * (N * M + - (N * R)) <= eps * M) as Hm by (apply Qmult_le_l; done).
      setoid_replace (eps * (N * M + - (N * R))) with ((eps * N) * (M - R)) using relation Qeq in Hm by ring. rewrite HN in Hm. lra.
    - assert (eps * (N * R + - (N * M)) <= eps * M) as Hm by (apply Qmult_le_l; done).
      setoid_replace (eps * (N * R + - (N * M))) with ((eps * N) * (R - M)) using relation Qeq in Hm by ring. rewrite HN in Hm. lra. }
  unfold near. rewrite Hq. unfold value. fold M. split.
  - setoid_replace (M * pow2 e * (1 - eps)) with (M * (1 - eps) * pow2 e) using relation Qeq by ring. apply Qmult_le_compat_r; [done|lra].
  - setoid_replace (M * pow2 e * (1 + eps)) with (M * (1 + eps) * pow2 e) using relation Qeq by ring. apply Qmult_le_compat_r; [done|lra].
Qed.

Lemma near_refl x : 0 <= x -> near x x.
Proof. intros Hx. destruct eps_bounds as (He & _). split; nra. Qed.

Lemma near_pos m e v : (0 < m)%Z -> near (value m e) v -> 0 < v.
Proof.
  intros Hm [Hl _]. pose proof (value_pos m e Hm). destruct eps_bounds as (He & H4 & _). nra.
Qed.

Lemma value_pos_inv m e : 0 < value m e -> (0 < m)%Z.
Proof.
  unfold value. intros Hv. pose proof (pow2_pos e). destruct (Z.lt_ge_cases 0 m) as [|Hm]; [done|exfalso].
  rewrite Zle_Qle in Hm. change (inject_Z 0) with 0 in Hm. nra.
Qed.

(** Where the exponent is far from its limits, rounding gives a finite value
    near the exact one. *)
Lemma big_round_near neg m e : (0 <= m)%Z -> ((0 < m)%Z -> (-10000 <= exponent m e <= 10000)%Z) ->
  exists q f, big_round neg m e = BigFinite neg q f /\ (0 <= q)%Z /\ near (value m e) (value q f).
Proof.
  intros Hm Hex. unfold big_round. destruct (Z.eqb_spec m 0) as [->|Hn].
  { exists 0%Z, 0%Z. split_and!; [done..|]. unfold value. change (inject_Z 0) with 0. split; lra. }
  assert (0 < m)%Z as Hpos by lia. specialize (Hex Hpos). destruct (Z.ltb_spec (exponent m e) MinExp) as [?|_];
    [unfold MinExp in *; lia|].
  set (k := (Z.log2 m + 1 - prec)%Z).
  assert (exists q f, (if (k <=? 0)%Z then (m, e) else (div_even m (2 ^ k), (e + k)%Z)) = (q, f) /\
            near (value m e) (value q f)) as (q & f & -> & Hnear).
  { destruct (Z.leb_spec k 0).
    - exists m, e. split; [done|]. apply near_refl, Qlt_le_weak. by apply value_pos.
    - eexists _, _. split; [done|]. apply near_scaled; [lia|]. by apply round_near. }
  pose proof (near_pos m e _ Hpos Hnear) as Hv. apply value_pos_inv in Hv as Hq.
  destruct (exponent_bounds m e Hpos) as [_ Hu]. destruct (exponent_bounds q f Hq) as [Hl _].
  assert (exponent q f - 1 <= exponent m e + 1)%Z as Hle.
  { apply pow2_le_inv. rewrite pow2_step. destruct Hnear as [_ Hn2]. destruct eps_bounds as (He & H4 & _).
    pose proof (value_pos m e Hpos). nra. }
  destruct (Z.ltb_spec MaxExp (exponent q f)) as [?|_]; [unfold MaxExp in *; lia|].
  exists q, f. split_and!; [done|lia|done].
Qed.

Lemma scaled8_near m e : Qabs (inject_Z (scaled8 m e) - value m e * inject_Z (10 ^ 8)) <= 1 # 2.
Proof.
  unfold scaled8, value. destruct (Z.leb_spec 0 e) as [He|He].
  - rewrite pow2_Z, !inject_Z_mult by done. setoid_replace (inject_Z m * inject_Z (2 ^ e) * inject_Z (10 ^ 8) -
      inject_Z m * inject_Z (2 ^ e) * inject_Z (10 ^ 8)) with 0 using relation Qeq by ring. done.
  - assert (pow2 e * pow2 (- e) == 1) as H1.
    { rewrite <-pow2_add. by replace (e + - e)%Z with 0%Z by lia. }
    assert (0 < 2 ^ (- e))%Z as Hb by (apply Z.pow_pos_nonneg; lia).
    pose proof (div_even_spec (m * 10 ^ 8) (2 ^ (- e)) Hb) as Hd. rewrite (pow2_Z (- e)) in H1 by lia.
    set (q := div_even _ _) in *. set (b := (2 ^ (- e))%Z) in *. pose proof (pow2_pos e) as Hp.
    assert (2 * (q * b) - 2 * (m * 10 ^ 8) <= b /\ 2 * (m * 10 ^ 8) - 2 * (q * b) <= b)%Z as [A B] by lia.
    rewrite Zle_Qle in A, B. unfold Z.sub in A, B. rewrite inject_Z_plus, inject_Z_opp, !inject_Z_mult in A, B.
    change (inject_Z 2) with 2 in A, B. set (Q := inject_Z q) in *. set (Bq := inject_Z b) in *. set (Mq := inject_Z m) in *.
    set (T := inject_Z (10 ^ 8)) in *. set (p := pow2 e) in *.
    assert (2 * (Q * (p * Bq)) - 2 * (Mq * T * p) <= p * Bq /\ 2 * (Mq * T * p) - 2 * (Q * (p * Bq)) <= p * Bq) as [A' B'].
    { split.
      - apply (Qmult_le_compat_r _ _ p) in A; [|lra].
        setoid_replace ((2 * (Q * Bq) + - (2 * (Mq * T))) * p) with (2 * (Q * (p * Bq)) - 2 * (Mq * T * p)) using relation Qeq in A by ring.
        setoid_replace (Bq * p) with (p * Bq) using relation Qeq in A by ring. done.
      - apply (Qmult_le_compat_r _ _ p) in B; [|lra].
        setoid_replace ((2 * (Mq * T) + - (2 * (Q * Bq))) * p) with (2 * (Mq * T * p) - 2 * (Q * (p * Bq))) using relation Qeq in B by ring.
        setoid_replace (Bq * p) with (p * Bq) using relation Qeq in B by ring. done. }
    rewrite H1 in A', B'. apply Qabs_Qle_condition. split; lra.
Qed.

(** Comparing with an integer is comparing the values. *)
Lemma big_Cmp_integer m e z : big_Cmp (BigFinite false m e) (BigFinite false z 0) = Gt <-> inject_Z z < value m e.
Proof.
  unfold big_Cmp, signed, value. cbv zeta. rewrite Z.compare_gt_iff, Zlt_Qlt, !inject_Z_mult, <-!pow2_Z by lia.
  set (low := Z.min e 0). assert (pow2 (e - low) == pow2 e * pow2 (- low)) as -> by (by rewrite <-pow2_add).
  replace (0 - low)%Z with (- low)%Z by lia. rewrite Qmult_assoc. apply Qmult_lt_r, pow2_pos.
Qed.

Lemma ratio_nonneg n k : (0 <= n)%Z -> 0 <= ratio n k.
Proof.
  intros Hn. unfold ratio. apply Qle_shift_div_l.
  - change 0 with (inject_Z 0). rewrite <-Zlt_Qlt. apply Z.pow_pos_nonneg; lia.
  - rewrite Qmult_0_l. change 0 with (inject_Z 0). by rewrite <-Zle_Qle.
Qed.
Lemma ratio_mult n k : ratio n k * inject_Z (10 ^ Z.of_nat k) == inject_Z n.
Proof.
  unfold ratio. rewrite Qmult_comm. apply Qmult_div_r.
  intros E. unfold Qeq in E. cbn [Qnum Qden inject_Z] in E.
  pose proof (Z.pow_pos_nonneg 10 (Z.of_nat k) ltac:(lia) ltac:(lia)). lia.
Qed.
