(* ===== verification/Duration.v ===== *)
(** * Settings as text: [strconv.Atoi] and [time.ParseDuration]

    Durations are int64 nanoseconds. The parser adds up components such as
    [1h], [30m] and [1.5s]; it works on unsigned 64-bit integers and, for
    fractions, in float64. *)
From S2P Require Import Prelude GoStrings Floats.
From Stdlib Require Import Ascii String SpecFloat.
#[local] Open Scope Z_scope.
#[local] Open Scope go_scope.

Definition split_sign (s : string) : bool * string :=
  match s with
  | String "-" t => (true, t)
  | String "+" t => (false, t)
  | _ => (false, s)
  end.

Definition Atoi (s : string) : option Z :=
  let '(neg, t) := split_sign s in
  if is_empty t then None
  else match digits_value 0 t with
       | Some n => let v := if neg then - n else n in
                   if (- 2 ^ 63 <=? v) && (v <? 2 ^ 63) then Some v else None
       | None => None
       end.

(** The value of the leading digits, [None] past [1<<63], and the rest *)
Fixpoint leadingInt (x : Z) (s : string) : option (Z * string) :=
  match s with
  | String c s' =>
      match digit_value c with
      | None => Some (x, s)
      | Some d =>
          if 2 ^ 63 / 10 <? x then None
          else if 2 ^ 63 <? 10 * x + d then None
          else leadingInt (10 * x + d) s'
      end
  | "" => Some (x, s)
  end.
(** Digits after the point: those that no longer fit are skipped. *)
Fixpoint leadingFraction (x : Z) (scale : float64) (overflow : bool) (s : string) : Z * float64 * string :=
  match s with
  | String c s' =>
      match digit_value c with
      | None => (x, scale, s)
      | Some d =>
          if overflow || ((2 ^ 63 - 1) / 10 <? x) || (2 ^ 63 <? 10 * x + d) then leadingFraction x scale true s'
          else leadingFraction (10 * x + d) (f64_mul scale (f64_of_Z 10)) false s'
      end
  | "" => (x, scale, s)
  end.
Fixpoint unit_name (s : string) : string * string :=
  match s with
  | String c s' =>
      if Ascii.eqb c "." || bool_decide (is_Some (digit_value c)) then ("", s)
      else let '(u, r) := unit_name s' in (String c u, r)
  | "" => ("", "")
  end.
(** The micro sign and the Greek letter mu, in UTF-8 *)
Definition micro_sign : string := String (ascii_of_nat 194) (String (ascii_of_nat 181) "").
Definition greek_mu : string := String (ascii_of_nat 206) (String (ascii_of_nat 188) "").
Definition unitMap (u : string) : option Z :=
  if bool_decide (u = "ns") then Some 1
  else if bool_decide (u ∈ ["us"; micro_sign +:+ "s"; greek_mu +:+ "s"]) then Some 1000
  else if bool_decide (u = "ms") then Some 1000000
  else if bool_decide (u = "s") then Some 1000000000
  else if bool_decide (u = "m") then Some 60000000000
  else if bool_decide (u = "h") then Some 3600000000000
  else None.

(** [uint64(x)] of a float that is not negative and in range *)
Definition f64_trunc (x : float64) : Z :=
  match x with
  | S754_finite false m e => if 0 <=? e then Z.pos m * 2 ^ e else Z.pos m / 2 ^ (- e)
  | _ => 0
  end.

(** A component: its nanoseconds and the rest *)
Definition duration_part (s : string) : option (Z * string) :=
  match leadingInt 0 s with
  | None => None
  | Some (v, s1) =>
      let pre := negb (String.length s =? String.length s1)%nat in
      let '(f, scale, s2, post) :=
        match s1 with
        | String "." t => let '(f, scale, r) := leadingFraction 0 (f64_of_Z 1) false t in
                          (f, scale, r, negb (String.length t =? String.length r)%nat)
        | _ => (0, f64_of_Z 1, s1, false)
        end in
      if negb pre && negb post then None
      else
        let '(u, s3) := unit_name s2 in
        match unitMap u with
        | None => None
        | Some unit =>
            if 2 ^ 63 / unit <? v then None
            else
              let v := v * unit in
              let v' := if 0 <? f then v + f64_trunc (f64_mul (f64_of_Z f) (f64_div (f64_of_Z unit) scale)) else v in
              if (0 <? f) && (2 ^ 63 <? v') then None else Some (v', s3)
        end
  end.
Fixpoint duration_parts (fuel : nat) (d : Z) (s : string) : option Z :=
  match fuel, s with
  | _, "" => Some d
  | O, _ => None
  | S fuel, _ =>
      match duration_part s with
      | None => None
      | Some (v, s') => let d := (d + v) mod 2 ^ 64 in if 2 ^ 63 <? d then None else duration_parts fuel d s'
      end
  end.
Definition ParseDuration (s : string) : option Z :=
  let '(neg, t) := split_sign s in
  if bool_decide (t = "0") then Some 0
  else if is_empty t then None
  else match duration_parts (String.length t) 0 t with
       | None => None
       | Some d => if neg then Some (- d) else if 2 ^ 63 - 1 <? d then None else Some d
       end.

Example duration_hour : ParseDuration "1h30m" = Some 5400000000000. Proof. vm_compute. reflexivity. Qed.
Example duration_fraction : ParseDuration "-1.5s" = Some (-1500000000). Proof. vm_compute. reflexivity. Qed.
Example duration_no_unit : ParseDuration "15" = None. Proof. vm_compute. reflexivity. Qed.
Example duration_too_long : ParseDuration "9223372036854775808ns" = None. Proof. vm_compute. reflexivity. Qed.
Example duration_wraps : ParseDuration "9223372036854775808ns9223372036854775808ns" = Some 0.
Proof. vm_compute. reflexivity. Qed.

(** ** Proofs *)
Lemma leadingInt_range x s v r : 0 <= x <= 2 ^ 63 -> leadingInt x s = Some (v, r) -> 0 <= v <= 2 ^ 63.
Proof.
  revert x. induction s as [|c s IH]; intros x Hx; simpl; [by intros [= <- <-]|].
  destruct (digit_value c) as [d|] eqn:Hd; [|by intros [= <- <-]].
  destruct (_ <? x); [done|]. destruct (Z.ltb_spec (2 ^ 63) (10 * x + d)); [done|]. apply IH.
  unfold digit_value in Hd. case_match; [|done]. injection Hd as <-. lia.
Qed.
Lemma leadingInt_length x s v r : leadingInt x s = Some (v, r) -> (String.length r <= String.length s)%nat.
Proof.
  revert x. induction s as [|c s IH]; intros x; simpl; [by intros [= <- <-]|].
  destruct (digit_value c); [|by intros [= <- <-]]. repeat (destruct (_ <? _); [done|]). intros Hr%IH. lia.
Qed.
Lemma leadingFraction_length x sc o s : (String.length (leadingFraction x sc o s).2 <= String.length s)%nat.
Proof.
  revert x sc o. induction s as [|c s IH]; intros x sc o; simpl; [done|].
  destruct (digit_value c); simpl; [|lia]. destruct (_ || _); (etrans; [apply IH|lia]).
Qed.
Lemma unit_name_length s : (String.length (unit_name s).2 <= String.length s)%nat.
Proof.
  induction s as [|c s IH]; [done|]. simpl. destruct (_ || _); [done|].
  destruct (unit_name s) as [u r]. simpl in *. lia.
Qed.
Lemma unit_name_consumes s u r : unit_name s = (u, r) -> u <> "" -> (String.length r < String.length s)%nat.
Proof.
  destruct s as [|c s]; simpl; [by intros [= <- <-]|]. destruct (_ || _); [by intros [= <- <-]|].
  pose proof (unit_name_length s). destruct (unit_name s) as [u' r']. intros [= <- <-] _. simpl in *. lia.
Qed.

(** Every component consumes text, so the length is fuel enough. *)
Lemma duration_part_consumes s v r : duration_part s = Some (v, r) -> (String.length r < String.length s)%nat.
Proof.
  unfold duration_part. destruct (leadingInt 0 s) as [[n s1]|] eqn:Hl; [|done]. apply leadingInt_length in Hl.
  set (fr := match s1 with String "." _ => _ | _ => _ end).
  assert (String.length fr.1.2 <= String.length s1)%nat as Hf.
  { unfold fr. destruct s1 as [|c t]; [done|]. pose proof (leadingFraction_length 0 (f64_of_Z 1) false t) as Hfr.
    destruct (leadingFraction 0 (f64_of_Z 1) false t) as [[f sc] r']. simpl in Hfr.
    destruct c as [[] [] [] [] [] [] [] []]; simpl; lia. }
  destruct fr as [[[f scale] s2] post]. simpl in Hf. destruct (_ && _); [done|].
  destruct (unit_name s2) as [u s3] eqn:Hu. destruct (unitMap u) as [unit|] eqn:Hm; [|done].
  apply unit_name_consumes in Hu; [|by intros ->]. cbv zeta. repeat (destruct (_ <? _); simpl; try done).
  all: intros [= _ <-]; lia.
Qed.
Lemma duration_fuel n d s : (String.length s <= n)%nat -> duration_parts n d s = duration_parts (String.length s) d s.
Proof.
  revert d s. induction n as [n IH] using lt_wf_ind. intros d s Hn. destruct s as [|c s]; [by destruct n|].
  destruct n as [|n]; [simpl in Hn; lia|]. simpl String.length. simpl in Hn.
  cbn [duration_parts]. destruct (duration_part (String c s)) as [[v r]|] eqn:Hp; [|done].
  apply duration_part_consumes in Hp. simpl in Hp. destruct (_ <? _); [done|].
  rewrite (IH n) by lia. destruct (decide (String.length s = n)) as [->|]; [by rewrite (IH n) by lia|].
  by rewrite (IH (String.length s)) by lia.
Qed.

(** A parsed duration is an int64. *)
Lemma duration_parts_range n d s v : 0 <= d <= 2 ^ 63 -> duration_parts n d s = Some v -> 0 <= v <= 2 ^ 63.
Proof.
  revert d s. induction n as [|n IH]; intros d [|c s] Hd; cbn [duration_parts]; try (by intros [= <-]). 
  destruct (duration_part _) as [[x r]|]; [|done]. cbv zeta.
  destruct (Z.ltb_spec (2 ^ 63) ((d + x) mod 2 ^ 64)); [done|]. apply IH.
  pose proof (Z.mod_pos_bound (d + x) (2 ^ 64) eq_refl). lia.
Qed.
Lemma ParseDuration_range s d : ParseDuration s = Some d -> - 2 ^ 63 <= d < 2 ^ 63.
Proof.
  unfold ParseDuration. destruct (split_sign s) as [neg t]. case_bool_decide; [by intros [= <-]|].
  destruct (is_empty t); [done|]. destruct (duration_parts _ 0 t) as [v|] eqn:Hv; [|done].
  apply duration_parts_range in Hv; [|lia]. destruct neg; [intros [= <-]; lia|].
  destruct (Z.ltb_spec (2 ^ 63 - 1) v); [done|]. intros [= <-]. lia.
Qed.

(** What is written as a number of a unit is read as that many of it. *)
Lemma digits_value_le acc s n : 0 <= acc -> digits_value acc s = Some n -> acc <= n.
Proof.
  revert acc. induction s as [|c s IH]; intros acc Ha; simpl; [intros [= ->]; lia|].
  destruct (digit_value c) as [d|] eqn:Hd; [|done]. assert (0 <= d) as Hd0.
  { unfold digit_value in Hd. case_match; [|done]. injection Hd as <-. lia. }
  intros Hn%IH; lia.
Qed.
Definition starts_no_digit (u : string) : Prop := match u with String c _ => digit_value c = None | "" => True end.
Lemma leadingInt_digits acc p n u : 0 <= acc -> digits_value acc p = Some n -> n <= 2 ^ 63 -> starts_no_digit u ->
  leadingInt acc (p +:+ u) = Some (n, u).
Proof.
  intros Ha Hp Hn Hu. revert acc Ha Hp. induction p as [|c p IH]; intros acc Ha Hp.
  - injection Hp as ->. change ("" +:+ u) with u. destruct u as [|c u]; [done|]. simpl in *. by rewrite Hu.
  - change (String c p +:+ u) with (String c (p +:+ u)). simpl in Hp |- *. destruct (digit_value c) as [d|] eqn:Hd; [|done].
    assert (0 <= d) as Hd0. { unfold digit_value in Hd. case_match; [|done]. injection Hd as <-. lia. }
    assert (10 * acc + d <= n) as Hle by (eapply digits_value_le; [|exact Hp]; lia).
    destruct (Z.ltb_spec (2 ^ 63 / 10) acc) as [Hb|_]; [change (2 ^ 63 / 10) with 922337203685477580 in Hb; lia|].
    destruct (Z.ltb_spec (2 ^ 63) (10 * acc + d)); [lia|]. apply IH; [lia|done].
Qed.

Definition units : list string := ["ns"; "us"; "ms"; "s"; "m"; "h"].
Lemma unit_shape u : u ∈ units -> exists ns, unitMap u = Some ns /\ 0 < ns /\ unit_name u = (u, "") /\ u <> "" /\
  starts_no_digit u /\ match u with String "." _ => False | _ => True end.
Proof.
  unfold units. intros Hu. repeat (apply elem_of_cons in Hu as [->|Hu]; [eexists; split_and!; by vm_compute|]).
  by apply not_elem_of_nil in Hu.
Qed.

Lemma pretty_parts (n : Z) : 0 <= n -> exists c s, pretty n = String c s /\ is_Some (digit_value c).
Proof.
  intros Hn. destruct (pretty_digits n Hn) as [Hv _]. specialize (Hv 0 "").
  destruct (pretty n) as [|c s] eqn:Hp.
  - injection Hv as Hz. assert (n = 0) as -> by lia. done.
  - exists c, s. split; [done|]. change (String c s +:+ "") with (String c (s +:+ "")) in Hv. simpl in Hv.
    by destruct (digit_value c).
Qed.

Lemma ParseDuration_units n u ns : 0 <= n -> u ∈ units -> unitMap u = Some ns -> n * ns < 2 ^ 63 ->
  ParseDuration (pretty n +:+ u) = Some (n * ns).
Proof.
  intros Hn Hu Hns Hlt. destruct (unit_shape u Hu) as (ns' & Hns' & Hpos & Hname & Hne & Hstart & Hdot).
  rewrite Hns in Hns'. injection Hns' as <-. destruct (pretty_parts n Hn) as (c & s & Hp & [d Hd]).
  assert (digits_value 0 (pretty n) = Some n) as Hv.
  { destruct (pretty_digits n Hn) as [Hv _]. specialize (Hv 0 ""). simpl in Hv. rewrite <-(append_empty (pretty n)). exact Hv. }
  assert (leadingInt 0 (pretty n +:+ u) = Some (n, u)) as Hl by (apply leadingInt_digits; [done..|nia|done]).
  assert (split_sign (pretty n +:+ u) = (false, pretty n +:+ u)) as Hsign.
  { rewrite Hp. change (String c s +:+ u) with (String c (s +:+ u)).
    destruct c as [[] [] [] [] [] [] [] []]; try done; vm_compute in Hd; done. }
  assert (String.length (pretty n +:+ u) = S (String.length s + String.length u)) as Hlen.
  { rewrite length_append, Hp. done. }
  assert (0 < String.length u)%nat as Hul by (destruct u; [done|simpl; lia]).
  unfold ParseDuration. rewrite Hsign. rewrite bool_decide_false.
  2: { intros E. rewrite E in Hlen. simpl in Hlen. lia. }
  rewrite (proj2 (is_empty_false _)) by (intros E; rewrite E in Hlen; done). rewrite Hlen.
  assert (duration_part (pretty n +:+ u) = Some (n * ns, "")) as Hpart.
  { unfold duration_part. rewrite Hl, Hlen. replace (S (String.length s + String.length u) =? String.length u)%nat with false
      by (symmetry; apply Nat.eqb_neq; lia).
    replace (match u with String "." _ => _ | _ => _ end) with (0, f64_of_Z 1, u, false).
    2: { destruct u as [|a u]; [done|]. destruct a as [[] [] [] [] [] [] [] []]; done. }
    simpl. rewrite Hname, Hns. destruct (Z.ltb_spec (2 ^ 63 / ns) n) as [Hb|_]; [|done].
    assert (n <= 2 ^ 63 / ns) by (apply Z.div_le_lower_bound; lia). lia. }
  destruct (pretty n +:+ u) as [|a t] eqn:E; [done|]. cbn [duration_parts]. rewrite Hpart. cbv zeta.
  rewrite Z.mod_small by (change (2 ^ 64) with (2 * 2 ^ 63); nia). rewrite Z.add_0_l.
  destruct (Z.ltb_spec (2 ^ 63) (n * ns)); [lia|].
  replace (duration_parts _ _ "") with (Some (n * ns)) by (by destruct (String.length s + String.length u)%nat).
  destruct (Z.ltb_spec (2 ^ 63 - 1) (n * ns)); [lia|done].
Qed.
