(* ===== verification/Money.v ===== *)
(** * Package [money] ([src/pkg/money/money.go])

    An amount is an [int64] number of kobo with a currency; arithmetic wraps.
    Both fields are unexported, so [encoding/json] neither writes nor reads
    them. *)
From S2P Require Import Prelude GoStrings Json.
#[local] Open Scope Z_scope.

Definition NGN : string := "NGN".

Record Money : Type := mkMoney {
  amountKobo : Z;
  currency : string;
}.

#[export] Instance Money_eq_dec : EqDecision Money.
Proof. solve_decision. Defined.

Definition Money_zero : Money := mkMoney 0 "".

Definition money_New (amt : Z) (cur : string) : result Money :=
  if is_empty cur then Err (ENew "currency required") else Ok (mkMoney amt cur).

(** [MustNew] panics where [New] fails. *)
Definition money_MustNew (amt : Z) (cur : string) : result Money :=
  match money_New amt cur with
  | Ok m => Ok m
  | Err _ => Err (EPanic "currency required")
  end.

Definition AmountKobo (m : Money) : Z := amountKobo m.
Definition Currency (m : Money) : string := currency m.

Definition money_Add (m x : Money) : result Money :=
  if bool_decide (currency m = currency x)
  then Ok (mkMoney (wrap64 (amountKobo m + amountKobo x)) (currency m))
  else Err (ENew "currency mismatch").

Definition money_Sub (m x : Money) : result Money :=
  if bool_decide (currency m = currency x)
  then Ok (mkMoney (wrap64 (amountKobo m - amountKobo x)) (currency m))
  else Err (ENew "currency mismatch").

Definition IsZero (m : Money) : bool := amountKobo m =? 0.
Definition IsNegative (m : Money) : bool := amountKobo m <? 0.
Definition IsNegativeOrZero (m : Money) : bool := amountKobo m <=? 0.

(** [encoding/json] on [Money]: no exported fields, so the document is [{}]
    and reading any object leaves the value it had, the zero value. *)
Definition Money_Marshal (m : Money) : json := JObj [].
Definition json_money (o : option json) : result Money :=
  match o with
  | None | Some JNull | Some (JObj _) => Ok Money_zero
  | Some _ => Err json_type_error
  end.

(** The amount is an [int64]. *)
Definition money_ok (m : Money) : Prop := in_int64 (amountKobo m).

(** A positive amount of naira: what every handler requires. *)
Definition ngn_positive (m : Money) : Prop :=
  currency m = NGN /\ 0 < amountKobo m <= max_int64.

Lemma money_Add_ok m x r : money_Add m x = Ok r -> money_ok r.
Proof.
  unfold money_Add, money_ok. case_bool_decide; intros Hr; simplify_eq.
  apply wrap64_range.
Qed.

(** [Sub] undoes [Add] on every pair of [int64] amounts of one currency,
    also when the sum wraps around. *)
Lemma money_Add_Sub m x s :
  money_ok m -> money_Add m x = Ok s -> money_Sub s x = Ok m.
Proof.
  unfold money_Add, money_Sub, money_ok. intros Hm Hs.
  case_bool_decide as Hc; simplify_eq; simpl.
  rewrite bool_decide_true by done.
  rewrite <-Z.add_opp_r, wrap64_add_l, <-Z.add_assoc, Z.add_opp_diag_r, Z.add_0_r.
  rewrite wrap64_id by done. by destruct m.
Qed.

Lemma money_New_ok amt cur m :
  money_New amt cur = Ok m <-> cur <> "" /\ m = mkMoney amt cur.
Proof.
  unfold money_New. destruct (is_empty cur) eqn:E; autorewrite with gostr in E.
  - naive_solver.
  - naive_solver.
Qed.
