(* ===== verification/EventStore.v ===== *)
(** * The event store ([src/pkg/eventstore], [src/pkg/eventstore/postgres/store.go])

    The tables [event_store_events] and [event_store_snapshots] with their
    constraints, and the operations of [postgres.Store] over a [Queryer] (a
    transaction or the pool) of any database that holds the two tables. *)
From S2P Require Import Prelude GoStrings.
#[local] Open Scope Z_scope.
#[local] Open Scope go_scope.

(** ** Data *)
Record Event : Type := mkEvent {
  ev_ID : string;
  ev_AggregateID : string;
  ev_AggregateType : string;
  ev_Version : Z;
  ev_Type : string;
  ev_OccurredAt : Z;
  ev_Data : bytes;
  ev_Metadata : option bytes;
}.

Record Snapshot : Type := mkSnapshot {
  sn_AggregateID : string;
  sn_AggregateType : string;
  sn_Version : Z;
  sn_CreatedAt : Z;
  sn_Data : bytes;
}.

(** A row of [event_store_events]: the event and its identity column. *)
Record event_row : Type := mkRow {
  er_sequence : Z;
  er_event : Event;
}.

Record EventTables : Type := mkEventTables {
  events : list event_row;
  snapshots : list Snapshot;
}.

(** ** Statements *)
Definition same_id (e : Event) (r : event_row) : bool :=
  bool_decide (ev_ID (er_event r) = ev_ID e).
Definition same_stream_version (e : Event) (r : event_row) : bool :=
  bool_decide (ev_AggregateID (er_event r) = ev_AggregateID e) &&
  (ev_Version (er_event r) =? ev_Version e).

(** The insert fails on the primary key [id] and on the unique index
    [(aggregate_id, version)]. *)
Definition insert_event (e : Event) : stmt EventTables unit := fun _ seq t =>
  if existsb (same_id e) (events t)
  then Err (ESql "event_store_events_pkey")
  else if existsb (same_stream_version e) (events t)
  then Err (ESql "event_store_events_agg_ver_uidx")
  else Ok (tt, mkEventTables (events t ++ [mkRow seq e]) (snapshots t)).

Definition in_stream (agg : string) (from : Z) (e : Event) : bool :=
  bool_decide (ev_AggregateID e = agg) && (from <? ev_Version e).

Definition select_stream (agg : string) (from limit : Z) : stmt EventTables (list Event) :=
  fun _ _ t =>
  Ok (take (Z.to_nat limit)
        (order_by ev_Version (List.filter (in_stream agg from) (map er_event (events t)))), t).

Definition select_after (from limit : Z) : stmt EventTables (list event_row) :=
  fun _ _ t =>
  Ok (take (Z.to_nat limit)
        (order_by er_sequence (List.filter (fun r => from <? er_sequence r) (events t))), t).

Definition same_snapshot (s s' : Snapshot) : bool :=
  bool_decide (sn_AggregateID s' = sn_AggregateID s) && (sn_Version s' =? sn_Version s).

Definition insert_snapshot (s : Snapshot) : stmt EventTables unit := fun _ _ t =>
  if existsb (same_snapshot s) (snapshots t)
  then Err (ESql "event_store_snapshots_pkey")
  else Ok (tt, mkEventTables (events t) (snapshots t ++ [s])).

Definition select_latest_snapshot (agg : string) : stmt EventTables (option Snapshot) :=
  fun _ _ t =>
  Ok (head (order_by (fun s => - sn_Version s)
              (List.filter (fun s => bool_decide (sn_AggregateID s = agg)) (snapshots t))), t).

(** ** [postgres.Store]

    [Queryer] runs statements: [exec] for a transaction, [autoexec] for the
    pool. *)
Definition Queryer (DB : Type) : Type := forall A, stmt DB A -> M DB A.

Section store.
Context {DB : Type} `{Lens DB EventTables} (q : Queryer DB).

Definition Append (evs : list Event) : M DB unit :=
  forM evs (fun e => q _ (on (insert_event e))).

Definition default_limit (limit : Z) : Z := if limit <=? 0 then 1000 else limit.

Definition Read (agg : string) (fromVersionExclusive limit : Z) : M DB (list Event) :=
  q _ (on (select_stream agg fromVersionExclusive (default_limit limit))).

Definition last_sequence (from : Z) (rows : list event_row) : Z :=
  fold_left (fun _ r => er_sequence r) rows from.

Definition ReadAll (fromSequenceExclusive limit : Z) : M DB (list Event * Z) :=
  let! rows := q _ (on (select_after fromSequenceExclusive (default_limit limit))) in
  retM (map er_event rows, last_sequence fromSequenceExclusive rows).

Definition SaveSnapshot (s : Snapshot) : M DB unit := q _ (on (insert_snapshot s)).

Definition LoadLatestSnapshot (agg : string) : M DB (option Snapshot) :=
  q _ (on (select_latest_snapshot agg)).
End store.

(** The cursor loop of the projection workers: read a page, continue from the
    sequence number [ReadAll] returned, stop at an empty page. *)
Fixpoint read_pages `{Env} {DB : Type} `{Lens DB EventTables}
    (fuel : nat) (from limit : Z) : M DB (list Event) :=
  match fuel with
  | O => retM []
  | S fuel' =>
      let! '(evs, next) := ReadAll (@autoexec _ DB) from limit in
      match evs with
      | [] => retM []
      | _ => let! rest := read_pages fuel' next limit in retM (evs ++ rest)
      end
  end.

(** ** Well-formed tables

    [tables_wf seq t]: ids and [(aggregate_id, version)] pairs are unique,
    sequence numbers grow along the table and stay below the next value. *)
Definition stream_key (r : event_row) : string * Z :=
  (ev_AggregateID (er_event r), ev_Version (er_event r)).
Definition snapshot_key (s : Snapshot) : string * Z := (sn_AggregateID s, sn_Version s).

Record tables_wf (seq : Z) (t : EventTables) : Prop := {
  wf_ids : NoDup (map (fun r => ev_ID (er_event r)) (events t));
  wf_versions : NoDup (map stream_key (events t));
  wf_sequence : StronglySorted (fun r r' => er_sequence r < er_sequence r') (events t);
  wf_below : Forall (fun r => er_sequence r < seq) (events t);
  wf_snapshots : NoDup (map snapshot_key (snapshots t));
}.

(** The stream of an aggregate after a version, in version order. *)
Definition stream (agg : string) (from : Z) (t : EventTables) : list Event :=
  order_by ev_Version (List.filter (in_stream agg from) (map er_event (events t))).

(** The log after a sequence number. *)
Definition log_after (from : Z) (t : EventTables) : list event_row :=
  List.filter (fun r => from <? er_sequence r) (events t).

(** ** Lemmas *)
Lemma tables_wf_mono seq seq' t : seq <= seq' -> tables_wf seq t -> tables_wf seq' t.
Proof.
  intros Hle [? ? ? Hb ?]. split; try done.
  eapply Forall_impl; [exact Hb|]. simpl; lia.
Qed.

Lemma insert_event_ok e now seq t r :
  insert_event e now seq t = Ok r <->
  (forall x, x ∈ events t -> ev_ID (er_event x) <> ev_ID e /\
                             stream_key x <> (ev_AggregateID e, ev_Version e)) /\
  r = (tt, mkEventTables (events t ++ [mkRow seq e]) (snapshots t)).
Proof.
  unfold insert_event.
  destruct (existsb (same_id e) (events t)) eqn:Hid.
  { split; [done|]. intros [Hx _]. apply existsb_true_list in Hid as (x & Hin & Hs).
    unfold same_id in Hs. apply bool_decide_eq_true in Hs. by destruct (Hx x Hin). }
  destruct (existsb (same_stream_version e) (events t)) eqn:Hv.
  { split; [done|]. intros [Hx _]. apply existsb_true_list in Hv as (x & Hin & Hs).
    unfold same_stream_version in Hs. destruct (Hx x Hin) as [_ Hk]. destruct Hk.
    unfold stream_key. apply andb_true_iff in Hs as [Ha Hb].
    apply bool_decide_eq_true in Ha. apply Z.eqb_eq in Hb. by rewrite Ha, Hb. }
  rewrite existsb_false_list in Hid, Hv.
  split; [intros [= <-]|by intros [_ ->]]. split; [|done].
  intros x Hin. specialize (Hid x Hin). specialize (Hv x Hin).
  unfold same_id in Hid. apply bool_decide_eq_false in Hid. split; [done|].
  unfold stream_key. intros [= Ha Hb]. unfold same_stream_version in Hv.
  rewrite bool_decide_true in Hv by done. simpl in Hv. lia.
Qed.

Lemma insert_event_wf e now seq t t' u :
  tables_wf seq t -> insert_event e now seq t = Ok (u, t') -> tables_wf (seq + 1) t'.
Proof.
  intros [Hids Hvers Hseq Hbel Hsn] [Hf Heq]%insert_event_ok. simplify_eq.
  split; simpl; [..|done].
  - apply NoDup_map_snoc; [done|]. simpl. intros y Hy. by apply Hf.
  - apply NoDup_map_snoc; [done|]. intros y Hy. by apply Hf.
  - by apply StronglySorted_snoc.
  - apply Forall_app. split; [|by repeat constructor; simpl; lia].
    eapply Forall_impl; [exact Hbel|]. simpl; lia.
Qed.

Lemma insert_snapshot_wf s now seq t t' u :
  tables_wf seq t -> insert_snapshot s now seq t = Ok (u, t') -> tables_wf (seq + 1) t'.
Proof.
  unfold insert_snapshot. destruct (existsb _ _) eqn:He; intros Hwf Heq; simplify_eq.
  rewrite existsb_false_list in He.
  apply (tables_wf_mono seq); [lia|]. destruct Hwf as [? ? ? ? Hsn]. split; simpl; try done.
  apply NoDup_map_snoc; [done|]. intros y Hy Hk. specialize (He y Hy).
  unfold same_snapshot in He. unfold snapshot_key in Hk. simplify_eq.
  rewrite bool_decide_true in He by done. simpl in He. lia.
Qed.

(** The log is in sequence order, so [order by sequence] is the identity. *)
Lemma log_after_sorted seq from t :
  tables_wf seq t -> StronglySorted (fun r r' => er_sequence r < er_sequence r') (log_after from t).
Proof. intros [? ? ? ? ?]. by apply StronglySorted_filter_list. Qed.

Lemma log_after_order seq from t :
  tables_wf seq t -> order_by er_sequence (log_after from t) = log_after from t.
Proof.
  intros Hwf. apply order_by_id.
  eapply StronglySorted_weaken; [|by eapply log_after_sorted]. simpl; lia.
Qed.

Lemma log_after_skip from seq x t :
  tables_wf seq t -> from <= er_sequence x ->
  log_after (er_sequence x) t =
  List.filter (fun r => er_sequence x <? er_sequence r) (log_after from t).
Proof.
  intros Hwf Hle. unfold log_after. symmetry. apply filter_list_filter. intros r _ Hr. lia.
Qed.

Lemma last_sequence_snoc from rows x : last_sequence from (rows ++ [x]) = er_sequence x.
Proof. unfold last_sequence. by rewrite fold_left_app. Qed.

(** Reading on from the last row of a page continues right after the page. *)
Lemma log_after_page seq from n t :
  tables_wf seq t ->
  log_after (last_sequence from (take n (log_after from t))) t = drop n (log_after from t).
Proof.
  intros Hwf. pose proof (log_after_sorted seq from t Hwf) as Hs.
  pose proof (take_drop n (log_after from t)) as Htd.
  remember (take n (log_after from t)) as l1 eqn:El1. remember (drop n (log_after from t)) as l2 eqn:El2.
  destruct l1 as [|x l1 _] using rev_ind; simpl.
  { by rewrite <-Htd. }
  rewrite last_sequence_snoc.
  assert (from < er_sequence x) as Hfx.
  { assert (x ∈ log_after from t) as Hx by (rewrite <-Htd; set_solver).
    apply elem_of_filter_list in Hx as [_ Hx]. lia. }
  rewrite (log_after_skip from seq) by (done || lia).
  rewrite <-Htd in Hs |- *. rewrite <-app_assoc in Hs |- *. simpl in Hs |- *.
  apply StronglySorted_app_inv_l in Hs as [Hl1 Hl2].
  rewrite Forall_forall in Hl1, Hl2.
  rewrite filter_list_app. simpl. rewrite Z.ltb_irrefl.
  rewrite (filter_list_none _ l1) by (intros y Hy; specialize (Hl1 y Hy); lia).
  simpl. apply filter_list_all. intros y Hy. specialize (Hl2 y Hy). lia.
Qed.

(** ** Properties *)
Section properties.
Context `{Hev : Env} `{Henv : !EnvOk} {DB : Type} `{Hln : Lens DB EventTables} `{Hlens : !LensOk DB EventTables}.
Implicit Types w : World DB.

Definition world_wf (w : World DB) : Prop := tables_wf (w_seq w) (view (w_db w)).

Lemma exec_insert_event_wf e w :
  world_wf w ->
  wpm (exec (on (insert_event e)))
    (fun _ w' => world_wf w' /\ events (view (w_db w)) `prefix_of` events (view (w_db w'))) w.
Proof.
  destruct w as [db sq u t tx fl sn]. unfold world_wf; simpl. intros Hwf.
  apply wpm_exec; simpl; [done|]. rewrite on_run.
  destruct (insert_event e tx sq (view db)) as [[[] t']|err] eqn:E.
  - simpl. rewrite view_upd. split; [by eapply insert_event_wf|].
    apply insert_event_ok in E as [_ ?]; simplify_eq. simpl. by eexists.
  - simpl. split; [|done]. eapply tables_wf_mono; [|done]. lia.
Qed.

(** The event has the identifier, or the aggregate and version, of a stored
    row. *)
Definition clashes (e : Event) (rows : list event_row) : Prop :=
  exists x, x ∈ rows /\ (ev_ID (er_event x) = ev_ID e \/ stream_key x = (ev_AggregateID e, ev_Version e)).

Lemma insert_event_clash e now seq t err : insert_event e now seq t = Err err -> clashes e (events t).
Proof.
  unfold insert_event. destruct (existsb (same_id e) _) eqn:Hid; [|destruct (existsb (same_stream_version e) _) eqn:Hv; [|done]].
  - intros _. apply existsb_true_list in Hid as (x & Hin & Hs). exists x. split; [done|]. left. by apply bool_decide_eq_true in Hs.
  - intros _. apply existsb_true_list in Hv as (x & Hin & Hs). exists x. split; [done|]. right.
    apply andb_prop in Hs as [Ha%bool_decide_eq_true Hv%Z.eqb_eq]. unfold stream_key. congruence.
Qed.

(** One insert: a row more, and one outcome of the schedule used up; or a
    failure for a reason, with the tables as they were. *)
Lemma exec_insert_event_cases e w :
  let '(r, w') := exec (on (insert_event e)) w in
  w_faults w' = tail (w_faults w) /\
  match r with
  | Ok _ => view (w_db w') = mkEventTables (events (view (w_db w)) ++ [mkRow (w_seq w) e]) (snapshots (view (w_db w)))
  | Err err => view (w_db w') = view (w_db w) /\
      ((exists f, w_faults w !! 0%nat = Some f /\ f <> FOk) \/ clashes e (events (view (w_db w))))
  end.
Proof.
  destruct w as [db sq u t tx fl sn]. unfold exec, next_fault, run_stmt.
  assert (forall fl', let '(r, w') := run_stmt (on (insert_event e)) (mkWorld db sq u t tx fl' sn) in
    w_faults w' = fl' /\
    match r with
    | Ok _ => view (w_db w') = mkEventTables (events (view db) ++ [mkRow sq e]) (snapshots (view db))
    | Err err => view (w_db w') = view db /\ clashes e (events (view db))
    end) as Hrun.
  { intros fl'. unfold run_stmt. simpl. rewrite on_run. destruct (insert_event e tx sq (view db)) as [[[] t']|err] eqn:E; simpl.
    - rewrite view_upd. apply insert_event_ok in E as [_ ?]. by simplify_eq.
    - split_and!; [done..|by eapply insert_event_clash]. }
  destruct fl as [|[] fl]; simpl.
  - specialize (Hrun []). unfold run_stmt in Hrun. simpl in Hrun.
    destruct (on (insert_event e) tx sq db) as [[? ?]|?]; simpl in *; destruct Hrun as [? Hr]; (split; [done|]); [done|].
    destruct Hr. auto.
  - specialize (Hrun fl). unfold run_stmt in Hrun. simpl in Hrun.
    destruct (on (insert_event e) tx sq db) as [[? ?]|?]; simpl in *; destruct Hrun as [? Hr]; (split; [done|]); [done|].
    destruct Hr. auto.
  - split_and!; [done..|]. left. by exists FErr.
  - split_and!; [done..|]. left. by exists FLostAck.
Qed.

(** The rows [Append] adds, and why it stops before the end of the batch. *)
Lemma Append_rows evs w r w' : Append (@exec DB) evs w = (r, w') ->
  exists k rows, let before := events (view (w_db w)) in
    view (w_db w') = mkEventTables (before ++ rows) (snapshots (view (w_db w))) /\ map er_event rows = take k evs /\
    match r with
    | Ok _ => k = length evs
    | Err _ => exists e, evs !! k = Some e /\
        ((exists f, w_faults w !! k = Some f /\ f <> FOk) \/ clashes e (before ++ rows))
    end.
Proof.
  revert w. induction evs as [|e evs IH]; intros w; unfold Append; simpl.
  - intros [= <- <-]. exists 0%nat, []. rewrite app_nil_r. by destruct (view (w_db w)).
  - pose proof (exec_insert_event_cases e w) as Hc. unfold bindM.
    destruct (exec (on (insert_event e)) w) as [[[]|err] w1]; destruct Hc as [Hf Hc].
    + intros (k & rows & Hv & Hm & Hr)%IH. rewrite Hc in Hv, Hr. simpl in Hv, Hr.
      exists (S k), (mkRow (w_seq w) e :: rows). rewrite Hv, <-app_assoc. split_and!; [done|simpl; by rewrite Hm|].
      destruct r; [by rewrite Hr|]. destruct Hr as (e' & He & Hr). exists e'. split; [done|].
      rewrite Hf, lookup_tail, <-app_assoc in Hr. exact Hr.
    + intros [= <- <-]. destruct Hc as [Hv Hc]. exists 0%nat, []. rewrite app_nil_r, Hv.
      split_and!; [by destruct (view (w_db w))|done|]. by exists e.
Qed.

Lemma Append_wf evs w : world_wf w -> world_wf (Append (@exec DB) evs w).2.
Proof.
  intros Hwf. unfold Append.
  apply (wpm_forM_inv (fun w1 => world_wf w1)); [|done].
  intros e w1 _ Hwf1. eapply wpm_mono; [|by apply exec_insert_event_wf]. by intros _ w2 [? _].
Qed.

(** C40. Appending a batch to the event store appends it. When [Append]
    succeeds the table holds one row more per event of the batch, in the order
    of the batch, after the rows that were there, unchanged; snapshots stay.
    When it fails, the rows added are those of the events before the one it
    failed at (for the transaction around it to roll back), and it failed for
    a reason: the environment failed that very statement, or that event has
    the identifier, or the aggregate and version, of a row stored before or of
    an earlier event of the batch. In either case identifiers and (aggregate,
    version) pairs stay unique and sequence numbers grow along the table. *)
Theorem Append_append_only evs w r w' :
  world_wf w -> Append (@exec DB) evs w = (r, w') ->
  world_wf w' /\
  exists k rows, let before := events (view (w_db w)) in
    events (view (w_db w')) = before ++ rows /\ snapshots (view (w_db w')) = snapshots (view (w_db w)) /\
    map er_event rows = take k evs /\
    match r with
    | Ok _ => k = length evs
    | Err _ => exists e, evs !! k = Some e /\
        ((exists f, w_faults w !! k = Some f /\ f <> FOk) \/ clashes e (before ++ rows))
    end.
Proof.
  intros Hwf Hr. pose proof (Append_wf evs w Hwf) as Hwf'. rewrite Hr in Hwf'. split; [done|].
  apply Append_rows in Hr as (k & rows & Hv & Hm & Hc). exists k, rows. cbv zeta. by rewrite Hv.
Qed.

(** Optimistic concurrency: once an event has been appended, appending
    another one under the same aggregate and version fails and changes
    nothing. *)
Theorem Append_version_conflict e e' w w1 r w2 :
  Append (@exec DB) [e] w = (Ok tt, w1) ->
  ev_AggregateID e' = ev_AggregateID e -> ev_Version e' = ev_Version e ->
  Append (@exec DB) [e'] w1 = (r, w2) ->
  is_ok r = false /\ w_db w2 = w_db w1.
Proof.
  destruct w as [db sq u t tx fl sn]. intros Hr1 Ha Hv Hr2.
  assert (wpm (Append (@exec DB) [e]) (fun r w1 =>
    r = Ok tt -> exists x, x ∈ events (view (w_db w1)) /\
      stream_key x = (ev_AggregateID e, ev_Version e)) (mkWorld db sq u t tx fl sn)) as Hw.
  { unfold Append; simpl. wp_step. apply wpm_exec; [done|]. rewrite on_run.
    destruct (insert_event e tx sq (view db)) as [[[] t']|err] eqn:E; [|done].
    wp_steps. intros _. simpl. rewrite view_upd.
    apply insert_event_ok in E as [_ ?]; simplify_eq. simpl.
    exists (mkRow sq e). split; [set_solver|done]. }
  eapply wpm_run in Hw; [|exact Hr1]. destruct (Hw eq_refl) as (x & Hx & Hk). clear Hw Hr1.
  destruct w1 as [db1 sq1 u1 t1 tx1 fl1 sn1]; simpl in *.
  assert (wpm (Append (@exec DB) [e']) (fun r w2 => is_ok r = false /\ w_db w2 = db1)
            (mkWorld db1 sq1 u1 t1 tx1 fl1 sn1)) as Hw.
  { unfold Append; simpl. wp_step. apply wpm_exec; [done|]. rewrite on_run.
    destruct (insert_event e' tx1 sq1 (view db1)) as [[[] t']|err] eqn:E; [|done].
    apply insert_event_ok in E as [Hf _]. destruct (Hf x Hx) as [_ []].
    by rewrite Hk, Ha, Hv. }
  eapply wpm_run in Hw; [|exact Hr2]. done.
Qed.

Lemma ReadAll_page from limit w :
  world_wf w -> w_faults w = [] ->
  let page := take (Z.to_nat (default_limit limit)) (log_after from (view (w_db w))) in
  exists w', ReadAll (@autoexec _ DB) from limit w =
             (Ok (map er_event page, last_sequence from page), w') /\
             w_db w' = w_db w /\ world_wf w' /\ w_faults w' = [].
Proof.
  destruct w as [db sq u t tx fl sn]. unfold world_wf; simpl. intros Hwf ->.
  unfold ReadAll, bindM, autoexec, next_fault, run_stmt; simpl.
  fold (log_after from (view db)). rewrite (log_after_order sq) by done. rewrite upd_view.
  eexists. split; [done|]. simpl. split; [done|]. split; [|done].
  eapply tables_wf_mono; [|done]. lia.
Qed.

(** The cursor of [ReadAll] neither skips nor repeats an event: on a
    well-formed table, reading pages of any size from sequence [from] until
    an empty page returns exactly the events after [from], in sequence
    order. *)
Theorem ReadAll_pages_complete fuel from limit w :
  world_wf w -> w_faults w = [] ->
  (length (log_after from (view (w_db w))) < fuel)%nat ->
  (read_pages fuel from limit w).1 = Ok (map er_event (log_after from (view (w_db w)))).
Proof.
  revert from w. induction fuel as [|fuel IH]; intros from w Hwf Hfl Hfuel; [lia|].
  destruct (ReadAll_page from limit w Hwf Hfl) as (w' & Hrun & Hdb & Hwf' & Hfl').
  remember (Z.to_nat (default_limit limit)) as n eqn:En.
  assert (0 < n)%nat as Hn.
  { unfold default_limit in En. destruct (Z.leb_spec limit 0); lia. }
  pose proof (log_after_page (w_seq w) from n (view (w_db w)) Hwf) as Hpage.
  remember (log_after from (view (w_db w))) as L eqn:HL. clear HL En.
  simpl. unfold bindM at 1. rewrite Hrun. clear Hrun.
  destruct L as [|x L]; [by rewrite take_nil|].
  destruct n as [|n]; [lia|].
  specialize (IH (last_sequence from (take (S n) (x :: L))) w' Hwf' Hfl').
  rewrite Hdb, Hpage in IH.
  specialize (IH ltac:(rewrite length_drop; simpl in *; lia)).
  remember (last_sequence from (take (S n) (x :: L))) as from'. clear Heqfrom' Hpage.
  cbn [take map]. unfold bindM.
  destruct (read_pages fuel from' limit w') as [[rest|e] w''] eqn:Er; simpl in IH |- *; simplify_eq.
  by rewrite <-map_app, take_drop.
Qed.
End properties.
