(* ===== verification/Streams.v ===== *)
(** * Aggregate streams in the event tables

    Both event-sourced services keep one stream per aggregate: the rows of an
    aggregate carry the versions 1, 2, ..., n and decode to its domain
    events. This file states that once, for any event type, with the lemmas
    on [Append] and [Read] that the account and payment services share. *)
From S2P Require Import Prelude GoStrings EventStore.
#[local] Open Scope Z_scope.

Section streams.
Context {E : Type} (decode : Event -> result E).

(** [encodes v rows ds]: the rows carry the versions from [v] on and decode to
    [ds]. *)
Fixpoint encodes (v : Z) (rows : list Event) (ds : list E) : Prop :=
  match rows, ds with
  | [], [] => True
  | e :: rows', d :: ds' => ev_Version e = v /\ decode e = Ok d /\ encodes (v + 1) rows' ds'
  | _, _ => False
  end.

Definition rows_for (agg : string) (t : EventTables) : list Event :=
  List.filter (fun e => bool_decide (ev_AggregateID e = agg)) (map er_event (events t)).

Definition events_of (st : gmap string (list E)) (agg : string) : list E := default [] (st !! agg).

Definition streams (t : EventTables) (st : gmap string (list E)) : Prop :=
  forall agg, encodes 1 (rows_for agg t) (events_of st agg).

Lemma encodes_length v rows ds : encodes v rows ds -> length rows = length ds.
Proof.
  revert v ds. induction rows as [|e rows IH]; intros v [|d ds]; simpl; try done.
  intros (_ & _ & Hr). f_equal. by eapply IH.
Qed.

Lemma encodes_snoc v rows ds e d :
  encodes v rows ds -> ev_Version e = v + Z.of_nat (length ds) -> decode e = Ok d ->
  encodes v (rows ++ [e]) (ds ++ [d]).
Proof.
  revert v ds. induction rows as [|e' rows IH]; intros v [|d' ds]; simpl; try done.
  - intros _ Hv Hd. split_and!; [lia|done|done].
  - intros (Hv' & Hd' & Hr) Hv Hd. split_and!; [done|done|]. apply IH; [done|lia|done].
Qed.

Lemma encodes_range v rows ds e :
  encodes v rows ds -> e ∈ rows -> v <= ev_Version e < v + Z.of_nat (length ds).
Proof.
  revert v ds. induction rows as [|e' rows IH]; intros v [|d ds]; simpl; try done.
  - intros _ He. by apply not_elem_of_nil in He.
  - intros (Hv & _ & Hr) [->|He]%elem_of_cons; [lia|].
    specialize (IH _ _ Hr He). lia.
Qed.

Lemma encodes_sorted v rows ds : encodes v rows ds -> key_sorted ev_Version rows.
Proof.
  revert v ds. induction rows as [|e rows IH]; intros v [|d ds]; simpl; try done; [constructor|].
  intros (Hv & _ & Hr). constructor; [by eapply IH|].
  apply Forall_forall. intros e' He'. pose proof (encodes_range _ _ _ _ Hr He'). lia.
Qed.

(** The rows after a version are the rest of the stream. *)
Lemma encodes_after v rows ds n :
  encodes v rows ds ->
  encodes (v + Z.of_nat n) (List.filter (fun e => v + Z.of_nat n - 1 <? ev_Version e) rows) (drop n ds).
Proof.
  revert v ds n. induction rows as [|e rows IH]; intros v [|d ds] n; simpl; try done.
  { by rewrite drop_nil. }
  intros (Hv & Hd & Hr). destruct n as [|n].
  - rewrite (proj2 (Z.ltb_lt _ _)) by lia. simpl. rewrite Z.add_0_r. split_and!; [done..|].
    rewrite filter_list_all; [done|]. intros e' He'.
    pose proof (encodes_range _ _ _ _ Hr He'). lia.
  - rewrite (proj2 (Z.ltb_ge _ _)) by lia.
    replace (v + Z.of_nat (S n)) with (v + 1 + Z.of_nat n) by lia. cbn [drop]. by apply IH.
Qed.

(** The rows [Read] selects. *)
Lemma in_stream_rows agg from t :
  List.filter (in_stream agg from) (map er_event (events t)) =
  List.filter (fun e => from <? ev_Version e) (rows_for agg t).
Proof.
  unfold rows_for, in_stream. induction (map er_event (events t)) as [|e l IH]; simpl; [done|].
  case_bool_decide; simpl; by rewrite IH.
Qed.

Lemma select_stream_run agg n limit now sq t st :
  streams t st ->
  (length (drop n (events_of st agg)) <= Z.to_nat limit)%nat ->
  exists rows, select_stream agg (Z.of_nat n) limit now sq t = Ok (rows, t) /\
    encodes (1 + Z.of_nat n) rows (drop n (events_of st agg)).
Proof.
  intros Hst Hlim. unfold select_stream. rewrite in_stream_rows.
  pose proof (encodes_after _ _ _ n (Hst agg)) as He.
  replace (1 + Z.of_nat n - 1) with (Z.of_nat n) in He by lia.
  rewrite order_by_id by (by eapply encodes_sorted).
  eexists. split; [done|]. rewrite take_ge; [done|]. by rewrite (encodes_length _ _ _ He).
Qed.

Lemma rows_for_snoc agg t sq e sn :
  rows_for agg (mkEventTables (events t ++ [mkRow sq e]) sn) =
  rows_for agg t ++ (if bool_decide (ev_AggregateID e = agg) then [e] else []).
Proof. unfold rows_for. simpl. rewrite map_app, filter_list_app. simpl. by case_bool_decide. Qed.

(** Appending the next event of one aggregate extends its stream alone. *)
Lemma streams_append t st sq e d sn :
  streams t st -> decode e = Ok d ->
  ev_Version e = 1 + Z.of_nat (length (events_of st (ev_AggregateID e))) ->
  streams (mkEventTables (events t ++ [mkRow sq e]) sn)
    (<[ev_AggregateID e := events_of st (ev_AggregateID e) ++ [d]]> st).
Proof.
  intros Hst Hd Hv agg. rewrite rows_for_snoc. unfold events_of at 1. case_bool_decide as Ha.
  - subst agg. rewrite lookup_insert_eq. simpl. by apply encodes_snoc.
  - rewrite lookup_insert_ne by done. rewrite app_nil_r. apply Hst.
Qed.

(** The next version is free. *)
Lemma streams_version_free t st e x :
  streams t st -> ev_Version e = 1 + Z.of_nat (length (events_of st (ev_AggregateID e))) ->
  x ∈ events t -> stream_key x <> (ev_AggregateID e, ev_Version e).
Proof.
  intros Hst Hv Hx [= Ha Hv'].
  assert (er_event x ∈ rows_for (ev_AggregateID e) t) as Hr.
  { unfold rows_for. apply elem_of_filter_list. split; [by apply list_elem_of_fmap_2|].
    by apply bool_decide_eq_true. }
  pose proof (encodes_range _ _ _ _ (Hst _) Hr). lia.
Qed.

(** The rows of a piece of a stream *)
Lemma encodes_mid v l1 e l2 ds :
  encodes v (l1 ++ e :: l2) ds ->
  exists d, ds !! length l1 = Some d /\ decode e = Ok d /\ ev_Version e = v + Z.of_nat (length l1).
Proof.
  revert v ds. induction l1 as [|e' l1 IH]; intros v [|d ds]; simpl; try done.
  - intros (Hv & Hd & _). exists d. split_and!; [done|done|lia].
  - intros (_ & _ & He). destruct (IH _ _ He) as (d' & ? & ? & ?). exists d'. split_and!; [done|done|lia].
Qed.

Lemma encodes_prefix v l1 l2 ds :
  encodes v (l1 ++ l2) ds -> encodes v l1 (take (length l1) ds).
Proof.
  revert v ds. induction l1 as [|e l1 IH]; intros v [|d ds]; simpl; try done.
  intros (Hv & Hd & He). split_and!; [done|done|by apply IH].
Qed.

(** A version that is taken is refused by the unique index. *)
Lemma streams_version_taken t st e k now sq :
  streams t st -> (k < length (events_of st (ev_AggregateID e)))%nat -> ev_Version e = 1 + Z.of_nat k ->
  exists err, insert_event e now sq t = Err err.
Proof.
  intros Hst Hk Hv. specialize (Hst (ev_AggregateID e)). rewrite <-(encodes_length _ _ _ Hst) in Hk.
  destruct (lookup_lt_is_Some_2 _ _ Hk) as [e' He'].
  destruct (insert_event e now sq t) as [[u t']|err] eqn:Hins; [|by exists err]. exfalso.
  apply insert_event_ok in Hins as [Hfree _].
  assert (e' ∈ rows_for (ev_AggregateID e) t) as Hin by (by eapply list_elem_of_lookup_2).
  pose proof (take_drop_middle _ _ _ He') as Hmid. rewrite <-Hmid in Hst.
  destruct (encodes_mid _ _ _ _ _ Hst) as (d & _ & _ & Hv'). rewrite length_take_le in Hv' by lia.
  unfold rows_for in Hin. apply elem_of_filter_list in Hin as [Hin Ha]. apply bool_decide_eq_true in Ha.
  apply list_elem_of_fmap in Hin as (x & -> & Hx). apply (Hfree x Hx). unfold stream_key. rewrite Ha, Hv', Hv. done.
Qed.

Lemma streams_snapshots t st sn : streams t st -> streams (mkEventTables (events t) sn) st.
Proof. done. Qed.

(** An aggregate with no events yet. *)
Lemma streams_new t st agg :
  st !! agg = None -> streams t st -> forall x, x ∈ events t -> ev_AggregateID (er_event x) <> agg.
Proof.
  intros Hnone Hst x Hx Ha. specialize (Hst agg). unfold events_of in Hst. rewrite Hnone in Hst.
  simpl in Hst. assert (er_event x ∈ rows_for agg t) as Hr.
  { unfold rows_for. apply elem_of_filter_list. split; [by apply list_elem_of_fmap_2|].
    by apply bool_decide_eq_true. }
  destruct (rows_for agg t); [by apply not_elem_of_nil in Hr|done].
Qed.
End streams.

(** Streams that have grown at their ends *)
Definition extends {E : Type} (st st' : gmap string (list E)) : Prop :=
  forall agg, events_of st agg `prefix_of` events_of st' agg.
Lemma extends_refl {E : Type} (st : gmap string (list E)) : extends st st.
Proof. by intros agg. Qed.
Lemma extends_insert {E : Type} (st : gmap string (list E)) agg ds :
  events_of st agg `prefix_of` ds -> extends st (<[agg := ds]> st).
Proof.
  intros Hp agg'. unfold events_of at 2. destruct (decide (agg = agg')) as [<-|Hne].
  - by rewrite lookup_insert_eq.
  - by rewrite lookup_insert_ne.
Qed.
Lemma extends_take {E : Type} (st st' : gmap string (list E)) agg k :
  extends st st' -> (k <= length (events_of st agg))%nat ->
  (k <= length (events_of st' agg))%nat /\ take k (events_of st agg) = take k (events_of st' agg).
Proof. intros Hg Hk. destruct (Hg agg) as [more ->]. rewrite length_app, take_app_le by lia. split; [lia|done]. Qed.
