(* ===== verification/Outbox.v ===== *)
(** * The transactional outbox ([src/pkg/outbox])

    The table [outbox_messages], the store that writes to it, the relay that
    publishes from it ([src/pkg/outbox/relay]) and the payment service's own
    publisher ([src/services/payment-service/application/workers]). *)
From S2P Require Import Prelude GoStrings EventStore.
#[local] Open Scope Z_scope.
#[local] Open Scope go_scope.

(** ** Data *)
Record Message : Type := mkMsg {
  om_ID : string;
  om_Topic : string;
  om_Key : bytes;
  om_Value : bytes;
  om_Headers : gmap string string;
  om_CreatedAt : Z;
  om_PublishedAt : option Z;
}.

(** A row; [or_processed_at] is the column some statements name. *)
Record outbox_row : Type := mkOutboxRow {
  or_id : string;
  or_topic : string;
  or_key : bytes;
  or_value : bytes;
  or_headers : gmap string string;
  or_created_at : Z;
  or_published_at : option Z;
  or_processed_at : option Z;
}.

(** The table with the columns the migrations gave it. *)
Record OutboxTable : Type := mkOutboxTable {
  ob_columns : list string;
  ob_rows : list outbox_row;
}.

(** The columns of [create table outbox_messages] in the migrations of the
    account, ledger and payment services. *)
Definition migrated_columns : list string :=
  ["id"; "topic"; "key"; "value"; "headers"; "created_at"; "published_at"].

(** ** Statements

    A statement that names a column the table does not have is an error. *)
Definition with_columns {A} (cols : list string) (s : stmt OutboxTable A) : stmt OutboxTable A :=
  fun now seq t =>
  if columns_exist (ob_columns t) cols then s now seq t else Err no_column.

Definition set_rows (rows : list outbox_row) (t : OutboxTable) : OutboxTable :=
  mkOutboxTable (ob_columns t) rows.

Definition row_of (now : Z) (m : Message) : outbox_row :=
  mkOutboxRow (om_ID m) (om_Topic m) (om_Key m) (om_Value m) (om_Headers m) now None None.

Definition insert_outbox (m : Message) : stmt OutboxTable unit :=
  with_columns ["id"; "topic"; "key"; "value"; "headers"] (fun now _ t =>
  if existsb (fun r => bool_decide (or_id r = om_ID m)) (ob_rows t)
  then Err (ESql "outbox_messages_pkey")
  else Ok (tt, set_rows (ob_rows t ++ [row_of now m]) t)).

Definition unpublished (r : outbox_row) : bool := negb (bool_decide (is_Some (or_published_at r))).
Definition unprocessed (r : outbox_row) : bool := negb (bool_decide (is_Some (or_processed_at r))).

Definition select_pending (limit : Z) : stmt OutboxTable (list outbox_row) :=
  with_columns ["id"; "topic"; "key"; "value"; "headers"; "processed_at"; "created_at"] (fun _ _ t =>
  Ok (take (Z.to_nat limit) (order_by or_created_at (List.filter unprocessed (ob_rows t))), t)).

Definition mark (set : outbox_row -> outbox_row) (ids : list string) (r : outbox_row) : outbox_row :=
  if bool_decide (or_id r ∈ ids) then set r else r.
Definition set_processed (now : Z) (r : outbox_row) : outbox_row :=
  mkOutboxRow (or_id r) (or_topic r) (or_key r) (or_value r) (or_headers r)
    (or_created_at r) (or_published_at r) (Some now).
Definition set_published (now : Z) (r : outbox_row) : outbox_row :=
  mkOutboxRow (or_id r) (or_topic r) (or_key r) (or_value r) (or_headers r)
    (or_created_at r) (Some now) (or_processed_at r).

Definition update_processed (ids : list string) : stmt OutboxTable unit :=
  with_columns ["id"; "processed_at"] (fun now _ t =>
  Ok (tt, set_rows (map (mark (set_processed now) ids) (ob_rows t)) t)).

(** [locked]: the ids other transactions hold, which [skip locked] leaves
    out. *)
Definition select_unpublished (locked : list string) (limit : Z) : stmt OutboxTable (list outbox_row) :=
  with_columns ["id"; "topic"; "key"; "value"; "headers"; "published_at"; "created_at"] (fun _ _ t =>
  Ok (take (Z.to_nat limit)
        (List.filter (fun r => negb (bool_decide (or_id r ∈ locked)))
           (order_by or_created_at (List.filter unpublished (ob_rows t)))), t)).

Definition update_published (at_ : Z) (id : string) : stmt OutboxTable unit :=
  with_columns ["id"; "published_at"] (fun _ _ t =>
  Ok (tt, set_rows (map (mark (set_published at_) [id]) (ob_rows t)) t)).

(** What a row asks the broker to carry. *)
Definition row_message (r : outbox_row) : message :=
  mkMessage (or_topic r) (or_key r) (or_value r) (or_headers r).

(** ** The store ([src/pkg/outbox/postgres/store.go]) *)
Section store.
Context {DB : Type} `{Lens DB OutboxTable} (q : Queryer DB).

Definition Enqueue (m : Message) : M DB unit := q _ (on (insert_outbox m)).
Definition GetPending (limit : Z) : M DB (list outbox_row) := q _ (on (select_pending limit)).
Definition MarkProcessed (ids : list string) : M DB unit := q _ (on (update_processed ids)).
End store.

(** ** Publishers *)
Definition Publisher (DB : Type) : Type := message -> M DB unit.

(** The broker accepts the message, refuses it, or accepts it and the
    acknowledgement is lost. *)
Definition broker_Publish {DB} : Publisher DB := fun m w =>
  match next_fault w with
  | (FOk, w1) => (Ok tt, mkWorld (w_db w1) (w_seq w1) (w_uuid w1) (w_tick w1) (w_tx w1)
                           (w_faults w1) (w_sent w1 ++ [m]))
  | (FErr, w1) => (Err ENet, w1)
  | (FLostAck, w1) => (Err ENet, mkWorld (w_db w1) (w_seq w1) (w_uuid w1) (w_tick w1) (w_tx w1)
                           (w_faults w1) (w_sent w1 ++ [m]))
  end.

Definition NopPublisher_Publish {DB} : Publisher DB := fun _ => retM tt.

(** What a publisher owes the relay: it leaves the database alone, takes
    nothing back, and success means the broker has the message. *)
Class PublisherOk {DB} (p : Publisher DB) : Prop := {
  publish_db : forall m w, w_db (p m w).2 = w_db w;
  publish_sent : forall m w, w_sent w `prefix_of` w_sent (p m w).2;
  publish_ok : forall m w, (p m w).1 = Ok tt -> m ∈ w_sent (p m w).2;
}.

(** ** The relay ([src/pkg/outbox/relay]) *)
Record Config : Type := mkConfig {
  BatchSize : Z;
  PollInterval : Z;
  LockTimeout : Z;
  PublishTimeout : Z;
}.

Definition millisecond : Z := 1000000.
Definition second : Z := 1000000000.

Definition WithDefaults (c : Config) : Config :=
  mkConfig
    (if BatchSize c <=? 0 then 100 else BatchSize c)
    (if PollInterval c <=? 0 then 250 * millisecond else PollInterval c)
    (if LockTimeout c <=? 0 then 5 * second else LockTimeout c)
    (if PublishTimeout c <=? 0 then 5 * second else PublishTimeout c).

Section relay.
Context `{Env} {DB : Type} `{Lens DB OutboxTable} (publish : Publisher DB).

Definition relay_one (now : Z) (m : outbox_row) : M DB unit :=
  publish (row_message m) ;;;
  exec (on (update_published now (or_id m))).

Definition relay_tick (locked : list string) (cfg : Config) : M DB unit :=
  with_tx (
    let! batch := exec (on (select_unpublished locked (BatchSize cfg))) in
    match batch with
    | [] => retM tt
    | _ =>
        let! now := time_Now in
        forM batch (relay_one now)
    end).

(** [Run]: one tick per tick of the clock, until one fails or the context is
    done ([ticks] is how many it got). *)
Fixpoint relay_Run (ticks : nat) (locked : list string) (cfg : Config) : M DB unit :=
  match ticks with
  | O => retM tt
  | S n => relay_tick locked (WithDefaults cfg) ;;; relay_Run n locked cfg
  end.
End relay.

(** ** The payment service's worker ([outbox_worker.go]) *)
Section worker.
Context `{Env} {DB : Type} `{Lens DB OutboxTable}.

Definition worker_batchSize : Z := 50.

(** A NATS message: the topic as subject, no key. *)
Definition nats_message (r : outbox_row) : message :=
  mkMessage (or_topic r) (BRaw "") (or_value r) (or_headers r).

(** Publish every message, keeping the ids of those that went through. *)
Fixpoint publish_all (publish : Publisher DB) (msgs : list outbox_row) : M DB (list string) :=
  match msgs with
  | [] => retM []
  | m :: msgs' =>
      let! r := tryM (publish (nats_message m)) in
      let! ids := publish_all publish msgs' in
      retM (match r with Ok _ => or_id m :: ids | Err _ => ids end)
  end.

Definition worker_processBatch (publish : Publisher DB) : M DB unit :=
  let! msgs := wrap_err "get pending" (GetPending (@autoexec _ DB) worker_batchSize) in
  match msgs with
  | [] => retM tt
  | _ =>
      let! processedIDs := publish_all publish msgs in
      match processedIDs with
      | [] => retM tt
      | _ => wrap_err "mark processed" (MarkProcessed (@autoexec _ DB) processedIDs)
      end
  end.

(** [Start]: a batch per tick; an error is logged. *)
Fixpoint worker_Start (publish : Publisher DB) (ticks : nat) : M DB unit :=
  match ticks with
  | O => retM tt
  | S n => let! _ := tryM (worker_processBatch publish) in worker_Start publish n
  end.
End worker.

(** ** Lemmas *)
#[export] Instance broker_PublisherOk {DB} : PublisherOk (@broker_Publish DB).
Proof.
  split; intros m w; unfold broker_Publish, next_fault;
    destruct (w_faults w) as [|[] fs]; simpl; try done; try (by eexists); try set_solver.
Qed.

Lemma with_columns_ok {A} cols (s : stmt OutboxTable A) now seq t :
  cols ⊆ ob_columns t -> with_columns cols s now seq t = s now seq t.
Proof.
  intros Hc. unfold with_columns. by rewrite (proj2 (columns_exist_spec _ _)).
Qed.

Lemma with_columns_inv {A} cols (s : stmt OutboxTable A) now seq t r :
  with_columns cols s now seq t = Ok r -> s now seq t = Ok r.
Proof. unfold with_columns. by destruct (columns_exist _ _). Qed.

(** The messages still to publish, oldest first. *)
Definition pending (t : OutboxTable) : list outbox_row :=
  order_by or_created_at (List.filter unpublished (ob_rows t)).

Lemma mark_message at_ ids r : row_message (mark (set_published at_) ids r) = row_message r.
Proof. unfold mark. by case_bool_decide. Qed.

Lemma mark_id at_ ids r : or_id (mark (set_published at_) ids r) = or_id r.
Proof. unfold mark. by case_bool_decide. Qed.

Lemma map_mark_messages at_ ids rows :
  map row_message (map (mark (set_published at_) ids) rows) = map row_message rows.
Proof. rewrite map_map. apply map_ext. intros r. apply mark_message. Qed.

Lemma map_mark_ids at_ ids rows :
  map or_id (map (mark (set_published at_) ids) rows) = map or_id rows.
Proof. rewrite map_map. apply map_ext. intros r. apply mark_id. Qed.

(** Marking takes exactly the marked ids out of the unpublished rows. *)
Lemma filter_unpublished_mark at_ ids rows :
  List.filter unpublished (map (mark (set_published at_) ids) rows) =
  List.filter (fun r => negb (bool_decide (or_id r ∈ ids))) (List.filter unpublished rows).
Proof.
  induction rows as [|r rows IH]; simpl; [done|].
  assert (mark (set_published at_) ids r = if bool_decide (or_id r ∈ ids) then set_published at_ r else r)
    as -> by done.
  case_bool_decide as Hin; simpl; rewrite IH; destruct (unpublished r); simpl; try done;
    by case_bool_decide.
Qed.

Lemma pending_mark at_ ids cols rows :
  pending (mkOutboxTable cols (map (mark (set_published at_) ids) rows)) =
  List.filter (fun r => negb (bool_decide (or_id r ∈ ids))) (pending (mkOutboxTable cols rows)).
Proof. unfold pending; simpl. by rewrite filter_unpublished_mark, filter_order_by. Qed.

Lemma pending_ids_NoDup t : NoDup (map or_id (ob_rows t)) -> NoDup (map or_id (pending t)).
Proof.
  intros Hnd. unfold pending.
  assert (forall l, map or_id (order_by or_created_at l) ≡ₚ map or_id l) as Hperm.
  { intros l. apply Permutation_map, order_by_perm. }
  rewrite Hperm. induction (ob_rows t) as [|r rows IH]; simpl in *; [constructor|].
  apply NoDup_cons in Hnd as [Hr Hnd]. destruct (unpublished r); simpl; [|by apply IH].
  apply NoDup_cons. split; [|by apply IH]. intros Hin. apply Hr.
  apply list_elem_of_fmap in Hin as (x & Hx & Hin). apply elem_of_filter_list in Hin as [Hin _].
  rewrite Hx. by apply list_elem_of_fmap_2.
Qed.

(** Filtering a list without the ids of its own prefix leaves the rest. *)
Lemma filter_drop_prefix (l1 l2 : list outbox_row) :
  NoDup (map or_id (l1 ++ l2)) ->
  List.filter (fun r => negb (bool_decide (or_id r ∈ map or_id l1))) (l1 ++ l2) = l2.
Proof.
  rewrite map_app. intros (_ & Hdis & _)%NoDup_app. rewrite filter_list_app.
  rewrite filter_list_none, filter_list_all; [done|..].
  - intros x Hx. rewrite bool_decide_false; [done|]. intros Hin.
    by apply (Hdis _ Hin), list_elem_of_fmap_2.
  - intros x Hx. rewrite bool_decide_true; [done|]. by apply list_elem_of_fmap_2.
Qed.

(** ** Properties of the relay *)
Section relay_properties.
Context `{Hev : Env} {DB : Type} `{Hln : Lens DB OutboxTable} `{Hlens : !LensOk DB OutboxTable}.
Implicit Types w : World DB.

Definition rows_of (w : World DB) : list outbox_row := ob_rows (view (w_db w)).
Definition row_key (r : outbox_row) : string * message := (or_id r, row_message r).

(** Every row marked as published has reached the broker. *)
Definition delivered (w : World DB) : Prop :=
  forall r, r ∈ rows_of w -> is_Some (or_published_at r) -> row_message r ∈ w_sent w.

Definition relay_inv (w0 w : World DB) : Prop :=
  delivered w /\ map row_key (rows_of w) = map row_key (rows_of w0) /\
  w_sent w0 ⊆ w_sent w.

Lemma mark_rows_keys at_ ids rows :
  map row_key (map (mark (set_published at_) ids) rows) = map row_key rows.
Proof.
  rewrite map_map. apply map_ext. intros r. unfold row_key.
  by rewrite mark_message, mark_id.
Qed.

Lemma row_key_unique rows r r' :
  NoDup (map or_id rows) -> r ∈ rows -> row_key r' ∈ map row_key rows ->
  or_id r = or_id r' -> row_message r = row_message r'.
Proof.
  intros Hnd Hr Hk Hid. apply list_elem_of_fmap in Hk as (r2 & Hk & Hr2).
  apply pair_equal_spec in Hk as [Hid2 Hm2]. rewrite Hm2. clear Hm2.
  enough (r = r2) by congruence. rewrite Hid2 in Hid. clear Hid2 r'.
  apply list_elem_of_lookup in Hr as [i Hi]. apply list_elem_of_lookup in Hr2 as [j Hj].
  assert (i = j) as ->; [|congruence].
  eapply (NoDup_lookup (map or_id rows)); [done|..]; rewrite list_lookup_fmap, ?Hi, ?Hj; simpl; [done|].
  by rewrite Hid.
Qed.

Lemma relay_one_inv (publish : Publisher DB) `{!PublisherOk publish} w0 now m w :
  NoDup (map or_id (rows_of w0)) -> row_key m ∈ map row_key (rows_of w0) ->
  relay_inv w0 w -> wpm (relay_one publish now m) (fun _ w' => relay_inv w0 w') w.
Proof.
  intros Hnd Hm (Hdel & Hkeys & Hsent). unfold relay_one. wp_step. apply wpm_intro.
  intros r [db sq u t tx fl sn] Hrun.
  pose proof (publish_db (row_message m) w) as Hdb.
  pose proof (publish_sent (row_message m) w) as Hpre.
  pose proof (publish_ok (row_message m) w) as Hok.
  rewrite Hrun in Hdb, Hpre, Hok. simpl in *. subst db.
  assert (w_sent w ⊆ sn) as Hsub by (destruct Hpre as [? ->]; set_solver).
  assert (forall sq' fl', relay_inv w0 (mkWorld (w_db w) sq' u t tx fl' sn)) as Hinv.
  { intros sq' fl'. split; [|split; [done|set_solver]]. intros x Hx Hs. simpl.
    apply Hsub. by apply Hdel. }
  destruct r as [[]|e]; [|apply Hinv]. specialize (Hok eq_refl).
  apply wpm_exec; [intros _; apply Hinv|]. rewrite on_run.
  destruct (update_published now (or_id m) tx sq (view (w_db w))) as [[[] t']|e] eqn:E;
    [|apply Hinv].
  apply with_columns_inv in E. simplify_eq.
  split; [|split; [|set_solver]]; unfold delivered, rows_of; simpl; rewrite view_upd; simpl.
  - intros r Hr Hs. apply list_elem_of_fmap in Hr as (x & -> & Hx).
    rewrite mark_message. unfold mark in Hs. case_bool_decide as Hin.
    + apply list_elem_of_singleton in Hin.
      assert (NoDup (map or_id (rows_of w))) as Hnd'.
      { replace (map or_id (rows_of w)) with (map fst (map row_key (rows_of w)))
          by (by rewrite map_map). rewrite Hkeys, map_map. done. }
      erewrite (row_key_unique (rows_of w) x m); [done|done|done|by rewrite Hkeys|done].
    + apply Hsub. by apply Hdel.
  - by rewrite mark_rows_keys.
Qed.

Lemma elem_of_select_unpublished locked limit now sq t batch t' m :
  select_unpublished locked limit now sq t = Ok (batch, t') -> m ∈ batch -> m ∈ ob_rows t.
Proof.
  intros E%with_columns_inv Hm. simplify_eq.
  apply (subseteq_take _ _) in Hm. apply elem_of_filter_list in Hm as [Hm _].
  apply elem_of_order_by, elem_of_filter_list in Hm. by destruct Hm.
Qed.

Lemma relay_tick_inv (publish : Publisher DB) `{!PublisherOk publish} locked cfg w :
  NoDup (map or_id (rows_of w)) -> delivered w ->
  wpm (relay_tick publish locked cfg) (fun _ w' => relay_inv w w') w.
Proof.
  intros Hnd Hdel.
  destruct w as [db sq u t tx fl sn]. unfold relay_tick.
  set (w0 := mkWorld db sq u t tx fl sn) in *.
  assert (forall w', w_db w' = db -> sn ⊆ w_sent w' -> relay_inv w0 w') as Hroll.
  { intros w' Hw' Hs. unfold relay_inv, delivered, rows_of. rewrite Hw'. split; [|done].
    intros r Hr Hp. apply Hs. by apply Hdel. }
  wp_step; [by apply Hroll|]. wp_step.
  apply wpm_exec; [intros _; by apply Hroll|]. rewrite on_run.
  destruct (select_unpublished locked (BatchSize cfg) (clock_Now t) sq (view db))
    as [[batch t']|e] eqn:E; [|by apply Hroll].
  pose proof E as E'. apply with_columns_inv in E'.
  assert (t' = view db) as -> by (by simplify_eq). rewrite upd_view.
  eapply (wpm_mono _ (fun _ w2 => relay_inv w0 w2)).
  { intros [a|e] w2 Hi.
    - split; [done|]. intros _ db' [->| ->]; [apply Hroll; [done|apply Hi]|apply Hi].
    - apply Hroll; [done|apply Hi]. }
  destruct batch as [|m batch]; [wp_steps; by apply Hroll|].
  wp_step. wp_step. apply (wpm_forM_inv (relay_inv w0)); [|by apply Hroll].
  intros x w' Hx Hw'. apply relay_one_inv; try done. unfold rows_of; simpl.
  apply list_elem_of_fmap_2. by eapply elem_of_select_unpublished.
Qed.

(** The relay delivers at least once: whatever fails (the connection,
    the broker, a lost acknowledgement, the commit) and whatever other relays
    have locked, a tick never marks a message as published that the broker
    does not have, and never loses or changes a message of the outbox. *)
Theorem relay_at_least_once (publish : Publisher DB) `{!PublisherOk publish} locked cfg w :
  NoDup (map or_id (rows_of w)) -> delivered w ->
  let w' := (relay_tick publish locked cfg w).2 in
  delivered w' /\ map row_key (rows_of w') = map row_key (rows_of w).
Proof. intros Hnd Hdel. by destruct (relay_tick_inv publish locked cfg w Hnd Hdel) as (? & ? & _). Qed.

(** The relay touches no other table: [relay_frame w w'] also keeps the ids
    and the contents of the messages. *)
Definition relay_frame (w w' : World DB) : Prop :=
  w_seq w <= w_seq w' /\ w_uuid w' = w_uuid w /\
  exists t, w_db w' = upd t (w_db w) /\ ob_columns t = ob_columns (view (w_db w)) /\
    map row_key (ob_rows t) = map row_key (rows_of w).

Lemma relay_frame_same w w' :
  w_db w' = w_db w -> w_seq w <= w_seq w' -> w_uuid w' = w_uuid w -> relay_frame w w'.
Proof.
  intros Hdb Hsq Hu. split_and!; [done..|]. exists (view (w_db w)). by rewrite upd_view.
Qed.

Lemma relay_frame_world w w1 w2 :
  relay_frame w w1 -> w_db w2 = w_db w1 -> w_seq w1 <= w_seq w2 -> w_uuid w2 = w_uuid w1 ->
  relay_frame w w2.
Proof.
  intros (Hsq & Hu & t & Hdb & Ht) Hdb2 Hsq2 Hu2. split_and!; [lia|congruence|].
  exists t. by rewrite Hdb2.
Qed.

Lemma broker_Publish_run m w :
  exists r fl sn, broker_Publish m w =
    (r, mkWorld (w_db w) (w_seq w) (w_uuid w) (w_tick w) (w_tx w) fl sn).
Proof.
  unfold broker_Publish, next_fault. destruct w as [? ? ? ? ? [|[] fl] ?]; simpl; by do 3 eexists.
Qed.

Lemma relay_one_frame now m w0 w :
  relay_frame w0 w -> wpm (relay_one broker_Publish now m) (fun _ w' => relay_frame w0 w') w.
Proof.
  intros Hf. unfold relay_one. wp_step. unfold wpm at 1.
  destruct (broker_Publish_run (row_message m) w) as (r & fl & sn & ->); simpl.
  destruct r as [[]|e]; [|by eapply relay_frame_world].
  apply wpm_exec; [intros _; by eapply relay_frame_world|]. rewrite on_run.
  destruct (update_published now (or_id m) (w_tx w) (w_seq w) (view (w_db w))) as [[[] t']|e] eqn:E.
  2: { eapply relay_frame_world; [exact Hf|done|simpl; lia|done]. }
  apply with_columns_inv in E. simplify_eq.
  destruct Hf as (Hsq & Hu & t & Hdb & Hcol & Hk).
  split_and!; [simpl; lia|done|]. eexists. split; [simpl; by rewrite Hdb, upd_upd|].
  rewrite view_upd. simpl. split; [done|]. by rewrite mark_rows_keys.
Qed.

Lemma relay_tick_frame locked cfg w :
  wpm (relay_tick broker_Publish locked cfg) (fun _ w' => relay_frame w w') w.
Proof.
  destruct w as [db sq u t tx fl sn]. unfold relay_tick.
  wp_step; [by apply relay_frame_same|]. wp_step.
  apply wpm_exec; [intros _; by apply relay_frame_same|]. rewrite on_run.
  destruct (select_unpublished _ _ _ _ _) as [[batch t']|e] eqn:E.
  2: { apply relay_frame_same; simpl; [done|lia|done]. }
  apply with_columns_inv in E. simplify_eq. rewrite upd_view.
  eapply (wpm_mono _ (fun _ w2 => relay_frame (mkWorld db sq u t tx fl sn) w2)).
  { intros [a|e] w2 Hf.
    - split; [by eapply relay_frame_world|]. intros _ db' [->| ->]; [|by eapply relay_frame_world].
      destruct Hf as (? & ? & _). by apply relay_frame_same.
    - destruct Hf as (? & ? & _). by apply relay_frame_same. }
  assert (forall t2, relay_frame (mkWorld db sq u t tx fl sn)
    (mkWorld db (sq + 1) u t2 (clock_Now t) (tail (tail fl)) sn)) as Hstart.
  { intros t2. apply relay_frame_same; simpl; [done|lia|done]. }
  destruct (take _ _) as [|m batch]; [wp_steps; apply Hstart|].
  wp_step. wp_step. apply wpm_forM_inv; [|apply Hstart].
  intros x w' _ Hw'. by apply relay_one_frame.
Qed.

Lemma filter_not_in_cons (a : string) ids (l : list outbox_row) :
  List.filter (fun r => negb (bool_decide (or_id r ∈ ids)))
    (List.filter (fun r => negb (bool_decide (or_id r ∈ [a]))) l) =
  List.filter (fun r => negb (bool_decide (or_id r ∈ a :: ids))) l.
Proof.
  induction l as [|r l IH]; simpl; [done|].
  destruct (decide (or_id r = a)) as [->|Hne].
  - rewrite !bool_decide_true by set_solver. done.
  - rewrite (bool_decide_false (_ ∈ [a])) by set_solver. simpl. rewrite IH.
    erewrite (bool_decide_ext (or_id r ∈ a :: ids)); [done|]. set_solver.
Qed.

(** A world in which nothing goes wrong from here on. *)
Definition quiet (w : World DB) : Prop :=
  w_faults w = [] /\ migrated_columns ⊆ ob_columns (view (w_db w)) /\
  NoDup (map or_id (rows_of w)).

Lemma relay_batch_run now ms w :
  quiet w ->
  exists w', forM ms (relay_one broker_Publish now) w = (Ok tt, w') /\ quiet w' /\
    pending (view (w_db w')) =
      List.filter (fun r => negb (bool_decide (or_id r ∈ map or_id ms))) (pending (view (w_db w))) /\
    w_sent w' = w_sent w ++ map row_message ms.
Proof.
  revert w. induction ms as [|m ms IH]; intros [db sq u t tx fl sn] (Hfl & Hcol & Hnd); simpl in *.
  - eexists. split; [done|]. split; [done|]. simpl. rewrite app_nil_r. split; [|done].
    symmetry. by apply filter_list_all.
  - subst fl. unfold bindM at 1, relay_one at 1, bindM, broker_Publish, exec, next_fault, run_stmt.
    simpl. rewrite on_run. unfold update_published.
    rewrite with_columns_ok by (etrans; [|exact Hcol]; unfold migrated_columns; set_solver).
    destruct (view db) as [cols rows] eqn:Hview; simpl.
    edestruct IH as (w' & Hrun & Hq' & Hpend & Hs).
    2:{ rewrite Hrun. eexists. split; [done|]. split; [done|]. split.
        - rewrite Hpend. simpl. rewrite view_upd. unfold set_rows; simpl. rewrite pending_mark. apply filter_not_in_cons.
        - rewrite Hs. simpl. by rewrite <-app_assoc. }
    unfold quiet, rows_of in *. simpl in *. rewrite view_upd. rewrite Hview in Hnd. simpl in *.
    by rewrite map_mark_ids.
Qed.

Lemma relay_tick_run cfg w :
  quiet w ->
  let n := Z.to_nat (BatchSize cfg) in
  exists w', relay_tick broker_Publish [] cfg w = (Ok tt, w') /\ quiet w' /\
    pending (view (w_db w')) = drop n (pending (view (w_db w))) /\
    w_sent w' = w_sent w ++ map row_message (take n (pending (view (w_db w)))).
Proof.
  destruct w as [db sq u t tx fl sn]. intros (Hfl & Hcol & Hnd). simpl in *. subst fl.
  set (n := Z.to_nat (BatchSize cfg)).
  unfold relay_tick, with_tx, next_fault, bindM, exec, run_stmt, start_tx. simpl.
  rewrite on_run. unfold select_unpublished.
  rewrite with_columns_ok by (etrans; [|exact Hcol]; unfold migrated_columns; set_solver).
  fold (pending (view db)). rewrite filter_list_all by done.
  fold n. simpl. rewrite upd_view.
  pose proof (pending_ids_NoDup _ Hnd) as HndP.
  assert (quiet (mkWorld db (sq + 1) u (S t) (clock_Now t) [] sn)) as Hq by done.
  remember (pending (view db)) as P eqn:HP.
  destruct (take n P) as [|m batch] eqn:Hb.
  - eexists. split; [done|]. split; [done|]. simpl. rewrite app_nil_r. split; [|done].
    rewrite <-HP, <-(take_drop n P) at 1. by rewrite Hb.
  - unfold time_Now. simpl.
    destruct (relay_batch_run (clock_Now (S t)) (m :: batch)
                (mkWorld db (sq + 1) u (S (S t)) (clock_Now t) [] sn)) as (w' & Hrun & Hq' & Hpend & Hs);
      [done|].
    simpl in Hrun. rewrite Hrun. destruct Hq' as (Hfl' & Hcol' & Hnd'). rewrite Hfl'.
    eexists. split; [done|]. split; [done|]. simpl in *. rewrite <-HP in Hpend. split; [|done].
    rewrite Hpend, <-(take_drop n P) at 1. rewrite Hb.
    apply (filter_drop_prefix (m :: batch)). by rewrite <-Hb, take_drop, HP.
Qed.

(** C39. The outbox drains: when nothing fails, enough ticks publish every
    pending message exactly once, oldest first, and leave nothing pending. *)
Theorem relay_drains ticks cfg w :
  quiet w ->
  (length (pending (view (w_db w))) <= ticks * Z.to_nat (BatchSize (WithDefaults cfg)))%nat ->
  let '(r, w') := relay_Run broker_Publish ticks [] cfg w in
  r = Ok tt /\ pending (view (w_db w')) = [] /\
  w_sent w' = w_sent w ++ map row_message (pending (view (w_db w))).
Proof.
  revert w. induction ticks as [|ticks IH]; intros w Hq Hlen.
  - simpl in *. destruct (pending (view (w_db w))); simpl in *; [|lia].
    by rewrite app_nil_r.
  - destruct (relay_tick_run (WithDefaults cfg) w Hq) as (w1 & Hrun & Hq1 & Hp1 & Hs1).
    cbn [relay_Run]. unfold bindM. rewrite Hrun.
    specialize (IH w1 Hq1). rewrite Hp1, length_drop in IH. specialize (IH ltac:(lia)).
    destruct (relay_Run broker_Publish ticks [] cfg w1) as [r w']. destruct IH as (-> & Hp & Hs).
    split; [done|]. split; [done|].
    rewrite Hs, Hs1, <-app_assoc, <-map_app, take_drop. done.
Qed.

Lemma worker_batch_stuck (publish : Publisher DB) w :
  ob_columns (view (w_db w)) = migrated_columns ->
  let '(r, w') := worker_processBatch publish w in
  is_ok r = false /\ w_db w' = w_db w /\ w_sent w' = w_sent w.
Proof.
  destruct w as [db sq u t tx fl sn]; simpl. intros Hcol.
  assert (forall now sq', on (select_pending worker_batchSize) now sq' db =
            Err no_column) as Hsel.
  { intros now sq'. rewrite on_run. unfold select_pending, with_columns. rewrite Hcol. done. }
  unfold worker_processBatch, bindM, wrap_err, GetPending, autoexec, next_fault, run_stmt.
  destruct fl as [|[] fl]; simpl; rewrite ?Hsel; done.
Qed.

(** The payment service's publisher cannot run on the migrated schema:
    its statements name a column [processed_at] no migration creates, so
    every batch ends in an error, and however long the worker runs nothing
    reaches the broker and the outbox stays as it is, whatever it holds. *)
Theorem worker_Start_stuck (publish : Publisher DB) ticks w :
  ob_columns (view (w_db w)) = migrated_columns ->
  is_ok (worker_processBatch publish w).1 = false /\
  let w' := (worker_Start publish ticks w).2 in w_db w' = w_db w /\ w_sent w' = w_sent w.
Proof.
  intros Hcol. split.
  { pose proof (worker_batch_stuck publish w Hcol) as Hb. by destruct (worker_processBatch publish w) as [r w'], Hb. }
  revert w Hcol. induction ticks as [|n IH]; intros w Hcol; [done|]. simpl. unfold bindM, tryM.
  pose proof (worker_batch_stuck publish w Hcol) as Hb. destruct (worker_processBatch publish w) as [r w1].
  destruct Hb as (_ & Hdb & Hsent). rewrite <-Hdb, <-Hsent. apply IH. by rewrite Hdb.
Qed.
End relay_properties.
