(* ===== verification/Ledger.v ===== *)
(** * The ledger service ([src/services/ledger-service])

    The [Entry] aggregate, the Postgres repositories, the command handler
    that posts an entry, the projection worker and the gRPC server. The
    database of the service is [LedgerDB]. *)
From S2P Require Import Prelude GoStrings Json Money EventStore Outbox.
#[local] Open Scope Z_scope.
#[local] Open Scope go_scope.

(** ** Domain ([domain/entry.go], [domain/events.go], [domain/errors.go]) *)
Definition EntryTypeDeposit : string := "DEPOSIT".
Definition EntryTypeWithdrawal : string := "WITHDRAWAL".

Definition ErrInvalidAmount : error := ENew "invalid amount".
Definition ErrCurrencyNotNGN : error := ENew "currency must be NGN".
Definition ErrInsufficientFunds : error := ENew "insufficient funds".

Record EntryPosted : Type := mkEntryPosted {
  ep_EntryID : string;
  ep_AccountID : string;
  ep_EntryType : string;
  ep_AmountKobo : Z;
  ep_Currency : string;
  ep_Narration : string;
  ep_OccurredAt : Z;
}.

Definition EntryPosted_EventType : string := "ledger.entry_posted.v1".

#[export] Instance EntryPosted_Json : Json EntryPosted := {|
  Marshal e := JObj [
    ("EntryID", JStr (ep_EntryID e));
    ("AccountID", JStr (ep_AccountID e));
    ("EntryType", JStr (ep_EntryType e));
    ("AmountKobo", JInt (ep_AmountKobo e));
    ("Currency", JStr (ep_Currency e));
    ("Narration", JStr (ep_Narration e));
    ("OccurredAt", JTime (ep_OccurredAt e))];
  Unmarshal b :=
    let? fs := json_members b in
    let? id := json_string (json_member "EntryID" fs) in
    let? acc := json_string (json_member "AccountID" fs) in
    let? typ := json_string (json_member "EntryType" fs) in
    let? amt := json_int64 (json_member "AmountKobo" fs) in
    let? cur := json_string (json_member "Currency" fs) in
    let? narr := json_string (json_member "Narration" fs) in
    let? occ := json_time (json_member "OccurredAt" fs) in
    Ok (mkEntryPosted id acc typ amt cur narr occ);
|}.

Record Entry : Type := mkEntry {
  e_id : string;
  e_accountID : string;
  e_entryType : string;
  e_amount : Money;
  e_narration : string;
  e_occurredAtUTC : Z;
  e_version : Z;
  e_changes : list EntryPosted;
}.

(** [&Entry{}] *)
Definition Entry_zero : Entry := mkEntry "" "" "" Money_zero "" 0 0 [].

Definition Entry_apply (ev : EntryPosted) (e : Entry) : result Entry :=
  let? amt := money_MustNew (ep_AmountKobo ev) (ep_Currency ev) in
  Ok (mkEntry (ep_EntryID ev) (ep_AccountID ev) (ep_EntryType ev) amt
        (ep_Narration ev) (ep_OccurredAt ev) (e_version e) (e_changes e)).

Definition Entry_bump (e : Entry) : Entry :=
  mkEntry (e_id e) (e_accountID e) (e_entryType e) (e_amount e) (e_narration e)
    (e_occurredAtUTC e) (wrap64 (e_version e + 1)) (e_changes e).

Definition Entry_raise (ev : EntryPosted) (e : Entry) : result Entry :=
  let e1 := mkEntry (e_id e) (e_accountID e) (e_entryType e) (e_amount e) (e_narration e)
              (e_occurredAtUTC e) (e_version e) (e_changes e ++ [ev]) in
  result_map Entry_bump (Entry_apply ev e1).

Definition Entry_PullChanges (e : Entry) : list EntryPosted * Entry :=
  (e_changes e,
   mkEntry (e_id e) (e_accountID e) (e_entryType e) (e_amount e) (e_narration e)
     (e_occurredAtUTC e) (e_version e) []).

Definition entry_validateAmount (amt : Money) : result unit :=
  if negb (bool_decide (Currency amt = NGN)) then Err ErrCurrencyNotNGN
  else if IsNegativeOrZero amt then Err ErrInvalidAmount
  else Ok tt.

Section new_entry.
Context `{Env} {DB : Type}.

Definition NewEntry (accountID typ : string) (amt : Money) (narration : string)
    (occurredAtUTC : Z) : M DB Entry :=
  fail_if (is_empty accountID) (ENew "account id required") ;;;
  liftR (entry_validateAmount amt) ;;;
  let! occ := (if occurredAtUTC =? 0 then time_Now else retM occurredAtUTC) in
  let! id := ids_New in
  liftR (Entry_raise (mkEntryPosted id accountID typ (AmountKobo amt) (Currency amt) narration occ)
           Entry_zero).
End new_entry.

(** [e.apply(ev); e.version++] over a list of events. *)
Fixpoint Entry_replay (evs : list EntryPosted) (e : Entry) : result Entry :=
  match evs with
  | [] => Ok e
  | ev :: evs' =>
      let? e' := Entry_apply ev e in
      Entry_replay evs' (Entry_bump e')
  end.

Definition Entry_Rehydrate (evs : list EntryPosted) : result Entry := Entry_replay evs Entry_zero.

Record EntrySnapshot : Type := mkEntrySnapshot {
  es_EntryID : string;
  es_AccountID : string;
  es_EntryType : string;
  es_AmountKobo : Z;
  es_Currency : string;
  es_Narration : string;
  es_OccurredAtUTC : Z;
  es_Version : Z;
}.

Definition Entry_Snapshot (e : Entry) : EntrySnapshot :=
  mkEntrySnapshot (e_id e) (e_accountID e) (e_entryType e) (AmountKobo (e_amount e))
    (Currency (e_amount e)) (e_narration e) (e_occurredAtUTC e) (e_version e).

Definition Entry_RehydrateFromSnapshot (s : EntrySnapshot) (evs : list EntryPosted) : result Entry :=
  let? amt := money_MustNew (es_AmountKobo s) (es_Currency s) in
  Entry_replay evs (mkEntry (es_EntryID s) (es_AccountID s) (es_EntryType s) amt
                      (es_Narration s) (es_OccurredAtUTC s) (es_Version s) []).

Definition EntrySnapshot_Marshal (s : EntrySnapshot) : json := JObj [
  ("EntryID", JStr (es_EntryID s));
  ("AccountID", JStr (es_AccountID s));
  ("EntryType", JStr (es_EntryType s));
  ("AmountKobo", JInt (es_AmountKobo s));
  ("Currency", JStr (es_Currency s));
  ("Narration", JStr (es_Narration s));
  ("OccurredAtUTC", JTime (es_OccurredAtUTC s));
  ("Version", JInt (es_Version s))].

(** ** Database ([infrastructure/postgres])

    [ledger_account_balances] by (account_id, projection_version), with the
    columns the migrations gave it, and [ledger_idempotency] by key. *)
Record LedgerDB : Type := mkLedgerDB {
  l_events : EventTables;
  l_columns : list string;
  l_balances : gmap (string * Z) Z;
  l_idem : gmap string string;
  l_outbox : OutboxTable;
}.

#[export] Instance LedgerDB_events : Lens LedgerDB EventTables := {|
  view := l_events;
  upd t db := mkLedgerDB t (l_columns db) (l_balances db) (l_idem db) (l_outbox db);
|}.
#[export] Instance LedgerDB_outbox : Lens LedgerDB OutboxTable := {|
  view := l_outbox;
  upd t db := mkLedgerDB (l_events db) (l_columns db) (l_balances db) (l_idem db) t;
|}.

Definition balance (db : LedgerDB) (accountID : string) (version : Z) : Z :=
  default 0 (l_balances db !! (accountID, version)).

Definition select_balance (accountID : string) (version : Z) : stmt LedgerDB Z :=
  fun _ _ db => Ok (balance db accountID version, db).

(** The columns of [ledger_account_balances] after the service's migrations,
    and the columns the upsert names. *)
Definition migrated_balance_columns : list string :=
  ["account_id"; "balance_kobo"; "projection_version"].
Definition upsert_columns : list string :=
  ["account_id"; "balance_kobo"; "projection_version"; "updated_at"].

(** [insert ... on conflict do update set balance_kobo = balance_kobo + $2];
    the sum of two [bigint]s is checked. *)
Definition upsert_delta (accountID : string) (deltaKobo version : Z) : stmt LedgerDB unit :=
  fun _ _ db =>
  let new := balance db accountID version + deltaKobo in
  if negb (columns_exist (l_columns db) upsert_columns) then Err no_column
  else if in_int64b new
  then Ok (tt, mkLedgerDB (l_events db) (l_columns db) (<[(accountID, version) := new]> (l_balances db))
                 (l_idem db) (l_outbox db))
  else Err (ESql "bigint out of range").

Definition select_idem (key : string) : stmt LedgerDB (option string) :=
  fun _ _ db => Ok (l_idem db !! key, db).

Definition insert_idem (key entryID : string) : stmt LedgerDB unit := fun _ _ db =>
  match l_idem db !! key with
  | Some _ => Err (ESql "ledger_idempotency_pkey")
  | None => Ok (tt, mkLedgerDB (l_events db) (l_columns db) (l_balances db) (<[key := entryID]> (l_idem db)) (l_outbox db))
  end.

Definition BalanceRepo_GetBalanceKobo (q : Queryer LedgerDB) (accountID : string) (version : Z)
  : M LedgerDB Z := q _ (select_balance accountID version).
Definition BalanceRepo_ApplyDelta (q : Queryer LedgerDB) (accountID : string) (deltaKobo version : Z)
  : M LedgerDB unit := q _ (upsert_delta accountID deltaKobo version).
Definition IdempotencyRepo_GetByKey (key : string) : M LedgerDB (option string) :=
  exec (select_idem key).
Definition IdempotencyRepo_Save (key entryID : string) : M LedgerDB unit :=
  exec (insert_idem key entryID).

(** ** The command ([application/commands/post_entry.go]) *)
Definition ledgerEventsTopicV1 : string := "banking.ledger.v1".

Record PostEntry : Type := mkPostEntry {
  pe_IdempotencyKey : string;
  pe_AccountID : string;
  pe_Type : string;
  pe_Amount : Money;
  pe_Narration : string;
  pe_OccurredAtUTC : Z;
}.

Definition validateMoney (m : Money) : result unit :=
  if negb (bool_decide (Currency m = NGN)) then Err ErrCurrencyNotNGN
  else if IsNegativeOrZero m then Err ErrInvalidAmount
  else Ok tt.

Definition entry_saveSnapshot `{Env} (entry : Entry) : M LedgerDB unit :=
  let s := Entry_Snapshot entry in
  let! now := time_Now in
  SaveSnapshot (@exec LedgerDB)
    (mkSnapshot (e_id entry) "ledger_entry" (es_Version s) now (BJson (EntrySnapshot_Marshal s))).

(** The events of the aggregate as rows to append, versions from 1. *)
Fixpoint entry_toAppend `{Env} (entryID : string) (i : Z) (evs : list EntryPosted)
  : M LedgerDB (list Event) :=
  match evs with
  | [] => retM []
  | e :: evs' =>
      let! id := ids_New in
      let! rest := entry_toAppend entryID (i + 1) evs' in
      retM (mkEvent id entryID "ledger_entry" (i + 1) EntryPosted_EventType (ep_OccurredAt e)
              (BJson (Marshal e)) None :: rest)
  end.

Definition entry_payload (entryID accountID : string) (delta occurredAtUTC : Z) : json := JObj [
  ("account_id", JStr accountID);
  ("aggregate_id", JStr entryID);
  ("aggregate_type", JStr "ledger_entry");
  ("delta_kobo", JInt delta);
  ("event_type", JStr "ledger.entry_posted.v1");
  ("occurred_at_utc", JTime occurredAtUTC)].

(** [delta := amount; if withdrawal { delta = -delta }] *)
Definition entry_delta (typ : string) (amt : Money) : Z :=
  if bool_decide (typ = EntryTypeWithdrawal) then wrap64 (- AmountKobo amt) else AmountKobo amt.

(** The part of the transaction after the balance check: the entry, its
    event, the balance, the idempotency record and the outbox message. *)
Definition PostEntry_write `{Env} (cmd : PostEntry) (delta : Z) : M LedgerDB string :=
  let! entry := NewEntry (pe_AccountID cmd) (pe_Type cmd) (pe_Amount cmd) (pe_Narration cmd)
                  (pe_OccurredAtUTC cmd) in
  let '(events, entry) := Entry_PullChanges entry in
  let! toAppend := entry_toAppend (e_id entry) 0 events in
  Append (@exec LedgerDB) toAppend ;;;
  (if Z.rem (e_version entry) 50 =? 0 then entry_saveSnapshot entry else retM tt) ;;;
  BalanceRepo_ApplyDelta (@exec LedgerDB) (pe_AccountID cmd) delta 1 ;;;
  IdempotencyRepo_Save (pe_IdempotencyKey cmd) (e_id entry) ;;;
  let! id := ids_New in
  let! now := time_Now in
  Enqueue (@exec LedgerDB)
    (mkMsg id ledgerEventsTopicV1 (BRaw (pe_AccountID cmd))
       (BJson (entry_payload (e_id entry) (pe_AccountID cmd) delta (e_occurredAtUTC entry)))
       {["schema" := "json.v1"]} now None) ;;;
  retM (e_id entry).

(** The part of the transaction after the idempotency check. *)
Definition PostEntry_record `{Env} (cmd : PostEntry) : M LedgerDB string :=
  let! currentBal := BalanceRepo_GetBalanceKobo (@exec LedgerDB) (pe_AccountID cmd) 1 in
  let delta := entry_delta (pe_Type cmd) (pe_Amount cmd) in
  fail_if (bool_decide (pe_Type cmd = EntryTypeWithdrawal) && (wrap64 (currentBal + delta) <? 0))
    ErrInsufficientFunds ;;;
  PostEntry_write cmd delta.

Definition PostEntry_tx `{Env} (cmd : PostEntry) : M LedgerDB string :=
  let! found := IdempotencyRepo_GetByKey (pe_IdempotencyKey cmd) in
  match found with
  | Some entryID => retM entryID
  | None => PostEntry_record cmd
  end.

Definition PostEntry_validate (cmd : PostEntry) : M LedgerDB unit :=
  fail_if (is_empty (pe_IdempotencyKey cmd)) (ENew "idempotency key required") ;;;
  fail_if (is_empty (pe_AccountID cmd)) (ENew "account id required") ;;;
  fail_if (negb (bool_decide (pe_Type cmd = EntryTypeDeposit)) &&
           negb (bool_decide (pe_Type cmd = EntryTypeWithdrawal))) (ENew "entry type required") ;;;
  liftR (validateMoney (pe_Amount cmd)).

Definition PostEntryHandler_Handle `{Env} (cmd : PostEntry) : M LedgerDB string :=
  PostEntry_validate cmd ;;;
  with_tx (PostEntry_tx cmd).

(** ** The projection worker ([application/workers/projection_worker.go]) *)
Definition worker_delta (ev : EntryPosted) : Z :=
  if bool_decide (ep_EntryType ev = EntryTypeWithdrawal)
  then wrap64 (- ep_AmountKobo ev) else ep_AmountKobo ev.

Definition ledger_project (projectionVersion : Z) `{Env} (e : Event) : M LedgerDB unit :=
  if negb (bool_decide (ev_AggregateType e = "ledger_entry")) then retM tt
  else if negb (bool_decide (ev_Type e = "ledger.entry_posted.v1")) then retM tt
  else
    let! ev := liftR (Unmarshal (ev_Data e)) in
    BalanceRepo_ApplyDelta (@autoexec _ LedgerDB) (ep_AccountID ev) (worker_delta ev) projectionVersion.

Definition ledger_worker_batch : Z := 100.

Definition ledger_processNextBatch `{Env} (projectionVersion lastSeq : Z) : M LedgerDB (Z * Z) :=
  let! '(events, nextSeq) := ReadAll (@autoexec _ LedgerDB) lastSeq ledger_worker_batch in
  forM events (ledger_project projectionVersion) ;;;
  retM (Z.of_nat (length events), nextSeq).

(** [Start]: one batch per tick; the cursor lives in memory, from 0. *)
Fixpoint ledger_worker_run `{Env} (ticks : nat) (projectionVersion lastSeq : Z) : M LedgerDB Z :=
  match ticks with
  | O => retM lastSeq
  | S n =>
      let! r := tryM (ledger_processNextBatch projectionVersion lastSeq) in
      ledger_worker_run n projectionVersion
        (match r with
         | Ok (processed, nextSeq) => if 0 <? processed then nextSeq else lastSeq
         | Err _ => lastSeq
         end)
  end.

Definition ledger_worker_Start `{Env} (ticks : nat) (projectionVersion : Z) : M LedgerDB Z :=
  ledger_worker_run ticks projectionVersion 0.

(** The version [cmd/ledger-service/main.go] starts the worker with. *)
Definition main_projectionVersion : Z := 1.

(** ** The balance query with causal consistency ([balance_query.go])

    [lsn] is the value of [security.LSNContextKey] in the context, 0 when
    absent. Between two polls other transactions change the database:
    [others] has one entry per poll that happens before the timeout. *)
Definition select_max_sequence : stmt LedgerDB Z := fun _ _ db =>
  Ok (match reverse (order_by er_sequence (events (l_events db))) with
      | [] => 0
      | r :: _ => er_sequence r
      end, db).

Fixpoint await_lsn `{Env} (others : list (LedgerDB -> LedgerDB)) (requiredLSN : Z) : M LedgerDB unit :=
  match others with
  | [] => failM (ENew "timeout waiting for causal consistency")
  | f :: others' =>
      (fun w => (Ok tt, set_db (f (w_db w)) w)) ;;;
      let! currentLSN := autoexec select_max_sequence in
      if requiredLSN <=? currentLSN `mod` 2 ^ 64 then retM tt
      else await_lsn others' requiredLSN
  end.

Definition BalanceQuery_GetBalanceKobo `{Env} (others : list (LedgerDB -> LedgerDB))
    (lsn : Z) (accountID : string) (version : Z) : M LedgerDB Z :=
  (if lsn =? 0 then retM tt else await_lsn others lsn) ;;;
  autoexec (select_balance accountID version).

(** ** The gRPC server ([infrastructure/grpc/server.go]) *)
Inductive proto_EntryType : Type :=
| ENTRY_TYPE_UNSPECIFIED
| ENTRY_TYPE_DEPOSIT
| ENTRY_TYPE_WITHDRAWAL
| ENTRY_TYPE_unknown (n : Z).

Record proto_Money : Type := mkProtoMoney {
  pm_Currency : string;
  pm_AmountKobo : Z;
}.

Record PostEntryRequest : Type := mkPostEntryRequest {
  pr_IdempotencyKey : string;
  pr_EntryType : proto_EntryType;
  pr_Account : option string;
  pr_Amount : option proto_Money;
  pr_Narration : string;
}.

Definition blank_account (a : option string) : bool :=
  match a with None => true | Some id => is_empty (TrimSpace id) end.

Definition server_PostEntry `{Env} (req : option PostEntryRequest) : M LedgerDB string :=
  match req with
  | None => failM (ENew "request required")
  | Some req =>
      fail_if (blank_account (pr_Account req)) (ENew "account_id required") ;;;
      match pr_Account req, pr_Amount req with
      | Some accountID, Some pm =>
          let! amt := liftR (money_New (pm_AmountKobo pm) (pm_Currency pm)) in
          let! typ := (match pr_EntryType req with
                       | ENTRY_TYPE_DEPOSIT => retM EntryTypeDeposit
                       | ENTRY_TYPE_WITHDRAWAL => retM EntryTypeWithdrawal
                       | _ => failM (ENew "unsupported entry type")
                       end) in
          PostEntryHandler_Handle
            (mkPostEntry (pr_IdempotencyKey req) accountID typ amt (pr_Narration req) 0)
      | _, _ => failM (ENew "amount required")
      end
  end.

Definition server_GetBalance `{Env} (others : list (LedgerDB -> LedgerDB)) (lsn : Z)
    (req : option (option string)) : M LedgerDB proto_Money :=
  match req with
  | None => failM (ENew "request required")
  | Some account =>
      fail_if (blank_account account) (ENew "account_id required") ;;;
      let! bal := BalanceQuery_GetBalanceKobo others lsn (default "" account) 1 in
      retM (mkProtoMoney "NGN" bal)
  end.

#[export] Instance LedgerDB_events_ok : LensOk LedgerDB EventTables.
Proof. by split; intros; try destruct s. Qed.
#[export] Instance LedgerDB_outbox_ok : LensOk LedgerDB OutboxTable.
Proof. by split; intros; try destruct s. Qed.
