(* ===== verification/LedgerSpec.v ===== *)
(** * What the ledger promises, and that the ledger service keeps it

    The abstract ledger is a log of postings, each under its idempotency key;
    a balance is the sum of an account's deltas. The refinement theorems say
    that [PostEntryHandler.Handle] implements posting to that log on every
    branch and under every schedule of database failures, and the later
    sections derive what clients of the ledger rely on. *)
From S2P Require Import Prelude GoStrings Json Money EventStore Outbox Ledger.
#[local] Open Scope Z_scope.
#[local] Open Scope go_scope.

(** ** The abstract ledger *)
Record posting : Type := mkPosting {
  p_key : string;
  p_entry : string;
  p_account : string;
  p_delta : Z;
}.

Definition spec_find (key : string) (s : list posting) : option posting :=
  find (fun p => bool_decide (p_key p = key)) s.

Fixpoint spec_balance (s : list posting) (acc : string) : Z :=
  match s with
  | [] => 0
  | p :: s' => (if bool_decide (p_account p = acc) then p_delta p else 0) + spec_balance s' acc
  end.

Definition spec_delta (typ : string) (amountKobo : Z) : Z :=
  if bool_decide (typ = EntryTypeWithdrawal) then - amountKobo else amountKobo.

(** The argument checks, in the order the handler makes them. *)
Definition spec_check (cmd : PostEntry) : option error :=
  if bool_decide (pe_IdempotencyKey cmd = "") then Some (ENew "idempotency key required")
  else if bool_decide (pe_AccountID cmd = "") then Some (ENew "account id required")
  else if bool_decide (pe_Type cmd ∉ [EntryTypeDeposit; EntryTypeWithdrawal])
  then Some (ENew "entry type required")
  else if bool_decide (Currency (pe_Amount cmd) <> NGN) then Some ErrCurrencyNotNGN
  else if bool_decide (AmountKobo (pe_Amount cmd) <= 0) then Some ErrInvalidAmount
  else None.

(** Posting an entry: a key seen before returns its entry; otherwise the
    entry is logged unless it would take the balance below zero or past the
    largest [bigint]. *)
Definition spec_post (id : string) (cmd : PostEntry) (s : list posting) : result string * list posting :=
  match spec_check cmd with
  | Some e => (Err e, s)
  | None =>
      match spec_find (pe_IdempotencyKey cmd) s with
      | Some p => (Ok (p_entry p), s)
      | None =>
          let delta := spec_delta (pe_Type cmd) (AmountKobo (pe_Amount cmd)) in
          let new := spec_balance s (pe_AccountID cmd) + delta in
          if bool_decide (new < 0) then (Err ErrInsufficientFunds, s)
          else if bool_decide (max_int64 < new) then (Err (ESql "bigint out of range"), s)
          else (Ok id, s ++ [mkPosting (pe_IdempotencyKey cmd) id (pe_AccountID cmd) delta])
      end
  end.

(** ** The simulation relation *)

(** The event row of a posting: the first event of its own stream, whose
    payload reads back as the posting. *)
Definition row_posting (r : event_row) (p : posting) : Prop :=
  ev_AggregateID (er_event r) = p_entry p /\
  ev_AggregateType (er_event r) = "ledger_entry" /\
  ev_Version (er_event r) = 1 /\
  ev_Type (er_event r) = EntryPosted_EventType /\
  exists ev, Unmarshal (ev_Data (er_event r)) = Ok ev /\
    ep_EntryID ev = p_entry p /\ ep_AccountID ev = p_account p /\ worker_delta ev = p_delta p.

(** The outbox message of a posting. *)
Definition msg_posting (r : outbox_row) (p : posting) : Prop :=
  or_topic r = ledgerEventsTopicV1 /\ or_key r = BRaw (p_account p) /\
  exists occ, or_value r = BJson (entry_payload (p_entry p) (p_account p) (p_delta p) occ).

Definition fresh_from `{Env} (n : nat) (id : string) : Prop :=
  forall m, (n <= m)%nat -> id <> uuid_NewString m.

(** The tables are those of the log [s], whose balances never fell below
    [lo]: below zero they do not fall while entries are posted one at a
    time. *)
Record refines_from `{Env} (lo : Z) (w : World LedgerDB) (s : list posting) : Prop := {
  rf_wf : tables_wf (w_seq w) (l_events (w_db w));
  rf_seq : 0 < w_seq w;
  rf_positive : Forall (fun r => 0 < er_sequence r) (events (l_events (w_db w)));
  rf_events : Forall2 row_posting (events (l_events (w_db w))) s;
  rf_event_ids : Forall (fun r => fresh_from (w_uuid w) (ev_ID (er_event r))) (events (l_events (w_db w)));
  rf_entries : Forall (fun p => fresh_from (w_uuid w) (p_entry p)) s;
  rf_keys : NoDup (map p_key s);
  rf_idem : forall k, l_idem (w_db w) !! k = p_entry <$> spec_find k s;
  rf_balance : forall acc, balance (w_db w) acc 1 = spec_balance s acc;
  rf_range : forall s' acc, s' `prefix_of` s -> lo <= spec_balance s' acc <= max_int64;
  rf_upsert : upsert_columns ⊆ l_columns (w_db w);
  rf_columns : ob_columns (l_outbox (w_db w)) = migrated_columns;
  rf_outbox : Forall2 msg_posting (ob_rows (l_outbox (w_db w))) s;
  rf_outbox_ids : Forall (fun r => fresh_from (w_uuid w) (or_id r)) (ob_rows (l_outbox (w_db w)));
}.
Arguments rf_wf {_ lo} w s _.
Arguments rf_seq {_ lo} w s _.
Arguments rf_positive {_ lo} w s _.
Arguments rf_events {_ lo} w s _.
Arguments rf_event_ids {_ lo} w s _.
Arguments rf_entries {_ lo} w s _.
Arguments rf_keys {_ lo} w s _.
Arguments rf_idem {_ lo} w s _.
Arguments rf_balance {_ lo} w s _.
Arguments rf_outbox {_ lo} w s _.
Arguments rf_upsert {_ lo} w s _.
Arguments rf_columns {_ lo} w s _.
Arguments rf_outbox_ids {_ lo} w s _.
Arguments rf_range {_ lo} w s _.
Abbreviation refines := (refines_from 0).

(** ** Lemmas on the abstract ledger *)
Lemma spec_balance_app s s' acc :
  spec_balance (s ++ s') acc = spec_balance s acc + spec_balance s' acc.
Proof. induction s as [|p s IH]; simpl; [done|]. rewrite IH. lia. Qed.

Lemma spec_find_snoc k s p :
  spec_find k (s ++ [p]) =
  match spec_find k s with
  | Some q => Some q
  | None => if bool_decide (p_key p = k) then Some p else None
  end.
Proof. unfold spec_find. induction s as [|q s IH]; simpl; [done|].
  by destruct (bool_decide (p_key q = k)).
Qed.

Lemma prefix_snoc {A} (l l' : list A) x : l `prefix_of` l' ++ [x] -> l = l' ++ [x] \/ l `prefix_of` l'.
Proof.
  intros [k Hk]. destruct k as [|y k _] using rev_ind; [left; by rewrite app_nil_r in Hk|right].
  rewrite app_assoc in Hk. apply app_inj_tail in Hk as [-> _]. by eexists.
Qed.

Lemma spec_find_elem k s p : spec_find k s = Some p -> p ∈ s /\ p_key p = k.
Proof.
  unfold spec_find. intros Hf. apply find_some in Hf as [Hin Hk].
  apply bool_decide_eq_true in Hk. by rewrite list_elem_of_In.
Qed.

Lemma spec_find_none k s p : spec_find k s = None -> p ∈ s -> p_key p <> k.
Proof.
  unfold spec_find. intros Hf Hp Hk. apply list_elem_of_In in Hp.
  pose proof (find_none _ _ Hf p Hp) as Hn. apply bool_decide_eq_false in Hn. done.
Qed.

Lemma spec_find_self s p : NoDup (map p_key s) -> p ∈ s -> spec_find (p_key p) s = Some p.
Proof.
  unfold spec_find. induction s as [|q s IH]; simpl; intros Hnd Hp; [by apply not_elem_of_nil in Hp|].
  apply NoDup_cons in Hnd as [Hq Hnd]. apply elem_of_cons in Hp as [->|Hp].
  - by rewrite bool_decide_true.
  - rewrite bool_decide_false; [by apply IH|]. intros Hk. apply Hq. rewrite Hk.
    by apply (list_elem_of_fmap_2 p_key).
Qed.

Lemma spec_check_ok cmd :
  spec_check cmd = None ->
  pe_IdempotencyKey cmd <> "" /\ pe_AccountID cmd <> "" /\
  (pe_Type cmd = EntryTypeDeposit \/ pe_Type cmd = EntryTypeWithdrawal) /\
  Currency (pe_Amount cmd) = NGN /\ 0 < AmountKobo (pe_Amount cmd).
Proof.
  unfold spec_check. repeat case_bool_decide; try done. intros _.
  split_and!; [done|done|set_solver|tauto|lia].
Qed.

(** ** Lemmas on the code *)
#[export] Instance EntryPosted_RoundTrip :
  JsonRoundTrip EntryPosted (fun e => in_int64 (ep_AmountKobo e)).
Proof.
  split. intros [id acc typ amt cur narr occ] Hamt. simpl in Hamt.
  unfold Unmarshal, EntryPosted_Json, Marshal. simpl.
  by rewrite (proj2 (in_int64b_spec amt)).
Qed.

Lemma PostEntry_validate_run cmd w :
  PostEntry_validate cmd w = (match spec_check cmd with Some e => Err e | None => Ok tt end, w).
Proof.
  unfold PostEntry_validate, spec_check, bindM, fail_if, liftR, validateMoney, is_empty,
    IsNegativeOrZero, AmountKobo.
  case_bool_decide; [done|]. case_bool_decide; [done|]. simpl.
  assert (negb (bool_decide (pe_Type cmd = EntryTypeDeposit)) &&
          negb (bool_decide (pe_Type cmd = EntryTypeWithdrawal)) =
          bool_decide (pe_Type cmd ∉ [EntryTypeDeposit; EntryTypeWithdrawal])) as ->.
  { repeat case_bool_decide; try done; set_solver. }
  case_bool_decide; [done|]. simpl.
  destruct (decide (Currency (pe_Amount cmd) = NGN)) as [Hc|Hc].
  - rewrite (bool_decide_true _ Hc), bool_decide_false by (by intros []). simpl.
    destruct (Z.leb_spec (amountKobo (pe_Amount cmd)) 0);
      [rewrite bool_decide_true by done|rewrite bool_decide_false by lia]; done.
  - by rewrite (bool_decide_false _ Hc), bool_decide_true.
Qed.

Section refinement.
Context `{Hev : Env} `{Henv : !EnvOk}.
Implicit Types (w : World LedgerDB) (s : list posting).

Lemma fresh_from_mono n m id : (n <= m)%nat -> fresh_from n id -> fresh_from m id.
Proof. intros Hle Hf k Hk. apply Hf. lia. Qed.

Lemma fresh_from_uuid n m : (n < m)%nat -> fresh_from m (uuid_NewString n).
Proof. intros Hlt k Hk Heq. apply (inj uuid_NewString) in Heq. lia. Qed.

Lemma refines_mono {lo} w w' s :
  w_db w' = w_db w -> w_seq w <= w_seq w' -> (w_uuid w <= w_uuid w')%nat ->
  refines_from lo w s -> refines_from lo w' s.
Proof.
  intros Hdb Hsq Hu []. rewrite <-Hdb in *. split; try done.
  - by eapply tables_wf_mono.
  - lia.
  - eapply Forall_impl; [done|]. intros ?; simpl. by apply fresh_from_mono.
  - eapply Forall_impl; [done|]. intros ?; simpl. by apply fresh_from_mono.
  - eapply Forall_impl; [done|]. intros ?; simpl. by apply fresh_from_mono.
Qed.

(** What a committed posting leaves in the tables. *)
Definition posted_db (db : LedgerDB) (r : event_row) (o : outbox_row) (p : posting) : LedgerDB :=
  mkLedgerDB (mkEventTables (events (l_events db) ++ [r]) (snapshots (l_events db)))
    (l_columns db) (<[(p_account p, 1) := balance db (p_account p) 1 + p_delta p]> (l_balances db))
    (<[p_key p := p_entry p]> (l_idem db))
    (mkOutboxTable (ob_columns (l_outbox db)) (ob_rows (l_outbox db) ++ [o])).

Lemma balance_insert db ev cols idem ob acc v new acc' v' :
  balance (mkLedgerDB ev cols (<[(acc, v) := new]> (l_balances db)) idem ob) acc' v' =
  if bool_decide ((acc, v) = (acc', v')) then new else balance db acc' v'.
Proof.
  unfold balance; simpl. case_bool_decide as Heq; simplify_eq.
  - by rewrite lookup_insert_eq.
  - by rewrite lookup_insert_ne.
Qed.

Lemma balance_same db db' acc v : l_balances db = l_balances db' -> balance db acc v = balance db' acc v.
Proof. unfold balance. by intros ->. Qed.

Lemma refines_posted {lo} w s r o p sq' u' t' tx' fl' sn' :
  refines_from lo w s -> spec_find (p_key p) s = None ->
  lo <= spec_balance s (p_account p) + p_delta p <= max_int64 ->
  row_posting r p -> msg_posting o p ->
  tables_wf sq' (mkEventTables (events (l_events (w_db w)) ++ [r]) (snapshots (l_events (w_db w)))) ->
  (w_uuid w <= u')%nat -> fresh_from u' (ev_ID (er_event r)) -> fresh_from u' (p_entry p) ->
  fresh_from u' (or_id o) -> 0 < er_sequence r -> 0 < sq' ->
  refines_from lo (mkWorld (posted_db (w_db w) r o p) sq' u' t' tx' fl' sn') (s ++ [p]).
Proof.
  intros [] Hnew Hrange Hr Ho Hwf Hu Hfr Hfp Hfo Hs0 Hs1.
  assert (forall id, fresh_from (w_uuid w) id -> fresh_from u' id) as Hmono
    by (intros id; by apply fresh_from_mono).
  split; simpl; try done.
  - apply Forall_app. by split; [|constructor].
  - by apply Forall2_app; [|constructor].
  - apply Forall_app. split; [|by constructor]. eapply Forall_impl; [done|]. simpl; auto.
  - apply Forall_app. split; [|by constructor]. eapply Forall_impl; [done|]. simpl; auto.
  - apply NoDup_map_snoc; [done|]. intros q Hq. by eapply spec_find_none.
  - intros k. rewrite spec_find_snoc. case_bool_decide as Hk.
    + subst k. by rewrite lookup_insert_eq, Hnew.
    + rewrite lookup_insert_ne by done. rewrite rf_idem0. by destruct (spec_find k s).
  - intros acc. rewrite spec_balance_app. simpl. unfold posted_db. rewrite balance_insert, !rf_balance0.
    repeat case_bool_decide; simplify_eq; lia.
  - intros s' acc [->|Hp]%prefix_snoc; [|by apply rf_range0].
    rewrite spec_balance_app. simpl. specialize (rf_range0 s acc (reflexivity _)).
    case_bool_decide; subst; lia.
  - by apply Forall2_app; [|constructor].
  - apply Forall_app. split; [|by constructor]. eapply Forall_impl; [done|]. simpl; auto.
Qed.

Lemma NewEntry_run {DB} acc typ amt narr occ (w : World DB) :
  acc <> "" -> Currency amt = NGN -> 0 < AmountKobo amt ->
  exists occ' t' ev, NewEntry acc typ amt narr occ w =
    (Ok (mkEntry (uuid_NewString (w_uuid w)) acc typ (mkMoney (AmountKobo amt) NGN) narr occ' 1 [ev]),
     mkWorld (w_db w) (w_seq w) (S (w_uuid w)) t' (w_tx w) (w_faults w) (w_sent w)) /\
    ev = mkEntryPosted (uuid_NewString (w_uuid w)) acc typ (AmountKobo amt) NGN narr occ'.
Proof.
  intros Ha Hc Hpos. apply is_empty_false in Ha.
  unfold NewEntry, bindM, fail_if. rewrite Ha. simpl.
  unfold liftR, entry_validateAmount, IsNegativeOrZero.
  rewrite Hc, bool_decide_true by done. simpl.
  unfold AmountKobo in Hpos. destruct (Z.leb_spec (amountKobo amt) 0); [lia|].
  unfold Entry_raise.
  destruct (occ =? 0); simpl; by do 3 eexists.
Qed.

Lemma insert_event_fresh e now seq t :
  (forall x, x ∈ events t -> ev_ID (er_event x) <> ev_ID e /\ ev_AggregateID (er_event x) <> ev_AggregateID e) ->
  insert_event e now seq t = Ok (tt, mkEventTables (events t ++ [mkRow seq e]) (snapshots t)).
Proof.
  intros Hf. apply insert_event_ok. split; [|done]. intros x Hx. destruct (Hf x Hx).
  split; [done|]. unfold stream_key. naive_solver.
Qed.

Lemma insert_outbox_fresh m now seq t :
  ob_columns t = migrated_columns -> (forall x, x ∈ ob_rows t -> or_id x <> om_ID m) ->
  insert_outbox m now seq t = Ok (tt, mkOutboxTable (ob_columns t) (ob_rows t ++ [row_of now m])).
Proof.
  intros Hc Hf. unfold insert_outbox. rewrite with_columns_ok.
  - rewrite (proj2 (existsb_false_list _ _)); [done|]. intros x Hx. by apply bool_decide_false, Hf.
  - rewrite Hc. unfold migrated_columns. set_solver.
Qed.

(** The outcome of one run of the transaction body. *)
Definition body_post (cmd : PostEntry) w s (r : result string) w2 : Prop :=
  w_seq w <= w_seq w2 /\ (w_uuid w <= w_uuid w2)%nat /\
  (w_faults w = [] -> w_faults w2 = []) /\
  let '(r0, s0) := spec_post (uuid_NewString (w_uuid w)) cmd s in
  match r with
  | Ok _ => r = r0 /\ refines w2 s0
  | Err e => r = r0 \/ (w_faults w <> [] /\ e = ENet)
  end.

Lemma body_net cmd w s w2 :
  w_faults w <> [] -> w_seq w <= w_seq w2 -> (w_uuid w <= w_uuid w2)%nat ->
  body_post cmd w s (Err ENet) w2.
Proof.
  intros Hfl Hsq Hu. unfold body_post. split_and!; [done|done|done|].
  destruct (spec_post _ _ _). auto.
Qed.

(** A statement of the body that the connection loses. *)
Local Ltac net :=
  let Hfl := fresh in
  intros Hfl; apply body_net; simpl;
  [repeat apply tail_nonempty in Hfl; exact Hfl|lia|lia].

Lemma entry_delta_spec typ amt :
  0 < AmountKobo amt <= max_int64 -> entry_delta typ amt = spec_delta typ (AmountKobo amt).
Proof.
  unfold entry_delta, spec_delta, max_int64. intros Hpos. case_bool_decide; [|done].
  apply wrap64_id. unfold in_int64, min_int64, max_int64. lia.
Qed.

(** The overdraft check does not wrap and rejects exactly the negative
    balances. *)
Lemma overdraft_check typ amt bal :
  0 < amt <= max_int64 -> 0 <= bal <= max_int64 ->
  bool_decide (typ = EntryTypeWithdrawal) && (wrap64 (bal + spec_delta typ amt) <? 0) =
  bool_decide (bal + spec_delta typ amt < 0).
Proof.
  unfold spec_delta, max_int64. intros Ha Hb. case_bool_decide; simpl.
  - rewrite wrap64_id by (unfold in_int64, min_int64, max_int64; lia).
    destruct (Z.ltb_spec (bal + - amt) 0);
      [by rewrite bool_decide_true|rewrite bool_decide_false by lia; done].
  - rewrite bool_decide_false by lia. done.
Qed.

(** The outcome of the writes of an entry, whatever the balance was when the
    caller looked: a posting more, unless the connection fails, the new
    balance is no [bigint] or the key has been used. *)
Definition write_post (lo : Z) (cmd : PostEntry) (d : Z) w s (r : result string) w2 : Prop :=
  let new := spec_balance s (pe_AccountID cmd) + d in
  w_seq w <= w_seq w2 /\ (w_uuid w <= w_uuid w2)%nat /\ (w_faults w = [] -> w_faults w2 = []) /\
  match r with
  | Ok id => id = uuid_NewString (w_uuid w) /\ spec_find (pe_IdempotencyKey cmd) s = None /\ new <= max_int64 /\
             refines_from lo w2 (s ++ [mkPosting (pe_IdempotencyKey cmd) id (pe_AccountID cmd) d])
  | Err e => (w_faults w <> [] /\ e = ENet) \/ (e = ESql "bigint out of range" /\ in_int64b new = false) \/
             spec_find (pe_IdempotencyKey cmd) s <> None
  end.

(** A write that the connection loses. *)
Local Ltac net_write :=
  let Hfl := fresh in
  intros Hfl; unfold write_post; simpl;
  (split_and!; [lia|lia|by intros ->|left; split; [repeat apply tail_nonempty in Hfl; exact Hfl|done]]).

Lemma PostEntry_write_gen lo cmd w s d :
  refines_from lo w s -> money_ok (pe_Amount cmd) -> spec_check cmd = None ->
  d = spec_delta (pe_Type cmd) (AmountKobo (pe_Amount cmd)) ->
  lo <= spec_balance s (pe_AccountID cmd) + d ->
  wpm (PostEntry_write cmd d) (write_post lo cmd d w s) w.
Proof.
  intros Hrf Hmon Hck Hd Hnonneg. pose proof Hrf as [].
  destruct (spec_check_ok cmd Hck) as (Hkey & Hacc & Htyp & Hcur & Hpos).
  destruct w as [db sq u t tx fl sn]; simpl in *.
  unfold PostEntry_write. wp_step.
  destruct (NewEntry_run (pe_AccountID cmd) (pe_Type cmd) (pe_Amount cmd) (pe_Narration cmd)
    (pe_OccurredAtUTC cmd) (mkWorld db sq u t tx fl sn)) as (occ & t' & ev & Hrun & Hev'); [done..|].
  unfold wpm at 1. rewrite Hrun. simpl. wp_steps. simpl. wp_steps.
  set (e := mkEvent _ _ _ _ _ _ _ _).
  assert (forall x, x ∈ events (l_events db) ->
    ev_ID (er_event x) <> ev_ID e /\ ev_AggregateID (er_event x) <> ev_AggregateID e) as Hfresh.
  { intros x Hx. rewrite Forall_forall in rf_event_ids0. rewrite Forall_forall in rf_entries0. split.
    - apply rf_event_ids0; [done|lia].
    - destruct (Forall2_elem_l _ _ _ _ rf_events0 Hx) as (p & Hp & -> & _).
      apply rf_entries0; [done|lia]. }
  assert (tables_wf (sq + 1) (mkEventTables (events (l_events db) ++ [mkRow sq e]) (snapshots (l_events db))))
    as Hwf by (eapply insert_event_wf; [exact rf_wf0|by apply (insert_event_fresh e 0)]).
  unfold Append; simpl. wp_step. apply wpm_exec; [net_write|].
  rewrite on_run, insert_event_fresh by exact Hfresh. simpl. wp_steps.
  unfold BalanceRepo_ApplyDelta. apply wpm_exec; [net_write|]. unfold upsert_delta.
  rewrite (balance_same _ db) by done. rewrite rf_balance0. cbn [l_events l_balances l_idem l_outbox upd LedgerDB_events].
  rewrite (proj2 (columns_exist_spec _ _)) by done. cbn [negb].
  destruct (in_int64b (spec_balance s (pe_AccountID cmd) + d)) eqn:Hov.
  2: { unfold write_post. simpl. split_and!; [lia|lia|by intros ->|auto]. }
  assert (spec_balance s (pe_AccountID cmd) + d <= max_int64) as Hmax
    by (unfold in_int64b in Hov; lia).
  wp_steps. unfold IdempotencyRepo_Save. apply wpm_exec; [net_write|].
  unfold insert_idem; simpl. rewrite rf_idem0.
  destruct (spec_find (pe_IdempotencyKey cmd) s) as [q|] eqn:Hfind; simpl.
  { unfold write_post. simpl. split_and!; [lia|lia|by intros ->|]. rewrite Hfind. auto. }
  wp_steps. unfold Enqueue. apply wpm_exec; [net_write|].
  rewrite on_run, insert_outbox_fresh; simpl; [|done|].
  2: { intros x Hx. rewrite Forall_forall in rf_outbox_ids0. apply rf_outbox_ids0; [done|lia]. }
  wp_steps. unfold write_post. simpl. split_and!; [lia|lia|by intros ->|done|done|done|].
  rewrite <-(rf_balance0 (pe_AccountID cmd)).
  eapply (refines_posted (mkWorld db sq u t tx fl sn) s (mkRow sq e) (row_of _ _)
            (mkPosting (pe_IdempotencyKey cmd) (uuid_NewString u) (pe_AccountID cmd) d));
    simpl; try done; try (apply fresh_from_uuid; lia).
  - unfold row_posting. simpl. split_and!; try done. exists ev. split.
    + apply Unmarshal_Marshal. subst ev. exact Hmon.
    + subst ev. split_and!; [done..|]. subst d. rewrite <-entry_delta_spec; [done|].
      unfold money_ok, in_int64, AmountKobo in *. lia.
  - unfold msg_posting. simpl. by eauto.
  - eapply tables_wf_mono; [|done]. lia.
  - lia.
  - lia.
Qed.

Lemma PostEntry_write_post cmd w s d :
  refines w s -> money_ok (pe_Amount cmd) ->
  spec_check cmd = None -> spec_find (pe_IdempotencyKey cmd) s = None ->
  d = spec_delta (pe_Type cmd) (AmountKobo (pe_Amount cmd)) ->
  0 <= spec_balance s (pe_AccountID cmd) + d ->
  wpm (PostEntry_write cmd d) (body_post cmd w s) w.
Proof.
  intros Hrf Hmon Hck Hfind Hd Hnonneg. eapply wpm_mono; [|by apply (PostEntry_write_gen 0 cmd w s d)].
  intros r w2 (Hsq & Hu & Hfl & Hr). unfold body_post. split_and!; [done..|].
  unfold spec_post. rewrite Hck, Hfind, <-Hd, (bool_decide_false (_ < 0)) by lia.
  destruct r as [id|e].
  - destruct Hr as (-> & _ & Hmax & Hrf2). by rewrite bool_decide_false by lia.
  - destruct Hr as [?|[[-> Hov]|?]]; [case_bool_decide; by right| |done].
    rewrite bool_decide_true by (unfold in_int64b, min_int64, max_int64 in *; lia). by left.
Qed.

Lemma PostEntry_tx_post cmd w s :
  refines w s -> money_ok (pe_Amount cmd) -> spec_check cmd = None ->
  wpm (PostEntry_tx cmd) (body_post cmd w s) w.
Proof.
  intros Hrf Hmon Hck. pose proof (rf_range w s Hrf s (pe_AccountID cmd) (reflexivity _)) as Hbal.
  destruct (spec_check_ok cmd Hck) as (_ & _ & _ & _ & Hpos).
  assert (0 < AmountKobo (pe_Amount cmd) <= max_int64) as Hamt
    by (unfold money_ok, in_int64, AmountKobo in *; lia).
  destruct w as [db sq u t tx fl sn]. unfold PostEntry_tx. wp_step.
  apply wpm_exec; [net|]. unfold select_idem. rewrite (rf_idem _ _ Hrf).
  destruct (spec_find (pe_IdempotencyKey cmd) s) as [p|] eqn:Hfind; simpl.
  { wp_steps. unfold body_post, spec_post. simpl. rewrite Hck, Hfind.
    split_and!; [lia|lia|by intros ->|done|]. eapply refines_mono; [..|exact Hrf]; simpl; [done|lia|lia]. }
  unfold PostEntry_record. wp_step. apply wpm_exec; [net|]. simpl.
  rewrite (rf_balance _ _ Hrf), entry_delta_spec by done. wp_step.
  rewrite overdraft_check by done.
  set (d := spec_delta (pe_Type cmd) (AmountKobo (pe_Amount cmd))).
  wp_step.
  - unfold body_post, spec_post. simpl. rewrite Hck, Hfind. fold d. rewrite H.
    split_and!; [lia|lia|by intros ->|by left].
  - apply bool_decide_eq_false in H.
    eapply wpm_mono; [|eapply (PostEntry_write_post cmd (mkWorld db (sq + 1 + 1) u t tx (tail (tail fl)) sn) s);
      [|done..|fold d; lia]].
    + intros r w2 (Hsq & Hu & Hfl & Hr); simpl in *. unfold body_post; simpl.
      split_and!; [lia|lia|by intros Hnil; apply Hfl; rewrite Hnil|].
      destruct (spec_post _ _ _) as [r0 s0]. destruct r as [id|er]; [done|].
      destruct Hr as [Hr|[Hne ?]]; [by left|right]. split; [|done]. by do 2 apply tail_nonempty.
    + eapply refines_mono; [..|exact Hrf]; simpl; [done|lia|lia].
Qed.

(** A rejected posting leaves the log alone. *)
Lemma spec_post_err id cmd s e s0 : spec_post id cmd s = (Err e, s0) -> s0 = s.
Proof.
  unfold spec_post. intros Hp.
  destruct (spec_check cmd); simplify_eq; [done|].
  destruct (spec_find _ s); simplify_eq. repeat case_bool_decide; by simplify_eq.
Qed.

(** The refinement in one lemma: the handler does what the abstract ledger
    does; or, when the database fails, it reports a connection error and has
    either done nothing or done exactly that. *)
Lemma PostEntry_post cmd w s :
  refines w s -> money_ok (pe_Amount cmd) ->
  wpm (PostEntryHandler_Handle cmd) (fun r w' =>
    let '(r0, s0) := spec_post (uuid_NewString (w_uuid w)) cmd s in
    (r = r0 /\ refines w' s0) \/
    (w_faults w <> [] /\ r = Err ENet /\ (refines w' s \/ refines w' s0))) w.
Proof.
  intros Hrf Hmon. destruct w as [db sq u t tx fl sn]. unfold PostEntryHandler_Handle. wp_step.
  unfold wpm at 1. rewrite PostEntry_validate_run. simpl.
  destruct (spec_check cmd) as [e|] eqn:Hck; simpl.
  { unfold spec_post. rewrite Hck. by left. }
  apply wpm_with_tx.
  { intros Hfl. destruct (spec_post _ _ _). right. split_and!; [done..|]. left.
    by eapply refines_mono; [..|exact Hrf]. }
  eapply wpm_mono; [|apply (PostEntry_tx_post cmd _ s); [|done..]].
  2: { eapply refines_mono; [..|exact Hrf]; simpl; [done|lia|lia]. }
  intros r w2 (Hsq & Hu & Hfl & Hr); simpl in *.
  destruct (spec_post (uuid_NewString u) cmd s) as [r0 s0] eqn:Hsp.
  destruct r as [id|e].
  - destruct Hr as [-> Hrf2]. split.
    + left. split; [done|]. by eapply refines_mono; [..|exact Hrf2].
    + intros Hne db' Hdb'. right. split_and!; [|done|].
      { intros ->. by apply Hne, Hfl. }
      destruct Hdb' as [->| ->]; [left|right].
      * eapply refines_mono; [..|exact Hrf]; simpl; done.
      * by eapply refines_mono; [..|exact Hrf2].
  - destruct Hr as [<-|[Hne ->]].
    + apply spec_post_err in Hsp as ->. left. split; [done|].
      by eapply refines_mono; [..|exact Hrf].
    + right. split_and!; [by apply tail_nonempty|done|left].
      by eapply refines_mono; [..|exact Hrf].
Qed.

Lemma PostEntry_later cmd w s :
  refines w s -> money_ok (pe_Amount cmd) -> later w (PostEntryHandler_Handle cmd w).2.
Proof.
  intros Hrf Hmon. change (wpm (PostEntryHandler_Handle cmd) (fun _ w' => later w w') w).
  unfold PostEntryHandler_Handle. wp_step. unfold wpm at 1. rewrite PostEntry_validate_run. simpl.
  destruct (spec_check cmd) as [e|] eqn:Hck; simpl; [apply later_refl|].
  eapply wpm_mono; [|apply (with_tx_post _ (fun _ _ => True) (fun _ => True))].
  - by intros r w' [? _].
  - done.
  - eapply wpm_mono; [|apply (PostEntry_tx_post cmd (tx_world w) s); [|done..]].
    + intros r w2 (Hsq & Hu & Hfl & _). split; [by split_and!|]. destruct r; auto.
    + eapply refines_mono; [..|exact Hrf]; done.
Qed.

(** Marking messages as published keeps the relation. *)
Lemma refines_relay {lo} w w' s : refines_from lo w s -> relay_frame w w' -> refines_from lo w' s.
Proof.
  intros [] (Hsq & Hu & t & Hdb & Hcol & Hk). unfold rows_of in Hk. simpl in *.
  assert (forall P : string * message -> Prop, Forall (fun r => P (row_key r)) (ob_rows (l_outbox (w_db w))) ->
    Forall (fun r => P (row_key r)) (ob_rows t)) as Hrows.
  { intros P HP. apply (Forall_map row_key P). rewrite Hk. by apply (Forall_map row_key P). }
  split; rewrite ?Hdb, ?Hu; simpl; try done.
  - by eapply tables_wf_mono.
  - lia.
  - by rewrite Hcol.
  - clear -rf_outbox0 Hk. revert Hk. generalize (ob_rows t) as rows.
    induction rf_outbox0 as [|r p l s Hr _ IH]; intros [|r' rows] [=]; constructor; [|by apply IH].
    unfold msg_posting in *. destruct Hr as (? & ? & occ & ?).
    split_and!; [congruence..|]. exists occ. congruence.
  - by apply (Hrows (fun k => fresh_from (w_uuid w) k.1)).
Qed.

(** ** The ledger as a state machine

    Clients post entries one after the other, the relay publishes messages,
    and the environment decides which interactions fail from then on. Postings
    that overlap are in [LedgerConcurrent.v]; the projection worker that [main]
    starts at version 1, which would write the same balances, is in
    [LedgerProjection.v]. *)
Definition set_faults {DB} (fl : list fault) (w : World DB) : World DB :=
  mkWorld (w_db w) (w_seq w) (w_uuid w) (w_tick w) (w_tx w) fl (w_sent w).

Inductive ledger_step : World LedgerDB -> World LedgerDB -> Prop :=
| step_post cmd w :
    money_ok (pe_Amount cmd) -> ledger_step w (PostEntryHandler_Handle cmd w).2
| step_relay locked cfg w :
    ledger_step w (relay_tick broker_Publish locked cfg w).2
| step_faults fl w :
    ledger_step w (set_faults fl w).

(** An empty database with every column the statements name; identity columns
    count from 1. *)
Definition ledger_init (w : World LedgerDB) : Prop :=
  0 < w_seq w /\ exists cols, upsert_columns ⊆ cols /\
  w_db w = mkLedgerDB (mkEventTables [] []) cols ∅ ∅ (mkOutboxTable migrated_columns []).

Definition ledger_reachable (w : World LedgerDB) : Prop :=
  exists w0, ledger_init w0 /\ rtc ledger_step w0 w.

Lemma refines_init w : ledger_init w -> refines w [].
Proof.
  intros (Hseq & cols & Hcols & Hdb). split; rewrite ?Hdb; simpl; try done.
  - by repeat constructor.
  - constructor.
  - intros s' acc Hs. apply prefix_nil_inv in Hs as ->. unfold max_int64. simpl. lia.
Qed.

Lemma refines_step w w' s : refines w s -> ledger_step w w' -> exists s', s `prefix_of` s' /\ refines w' s'.
Proof.
  intros Hrf Hst. destruct Hst as [cmd w Hm|locked cfg w|fl w].
  - pose proof (PostEntry_post cmd w s Hrf Hm) as Hp. unfold wpm in Hp.
    destruct (spec_post _ cmd s) as [r0 s0] eqn:Hsp.
    assert (s `prefix_of` s0) as Hpre.
    { destruct r0 as [id|e]; [|by apply spec_post_err in Hsp as ->].
      unfold spec_post in Hsp. repeat (case_match; simplify_eq; try done). by eexists. }
    naive_solver.
  - exists s. split; [done|]. eapply refines_relay; [done|]. apply relay_tick_frame.
  - exists s. split; [done|]. by apply (refines_mono w).
Qed.

Lemma reachable_refines w : ledger_reachable w -> exists s, refines w s.
Proof.
  intros (w0 & Hinit & Hst). assert (exists s, refines w0 s) as Hs
    by (exists []; by apply refines_init).
  clear Hinit. induction Hst as [w|w w1 w2 Hst _ IH]; [done|].
  apply IH. destruct Hs as [s Hs]. destruct (refines_step _ _ _ Hs Hst) as (s' & _ & ?). eauto.
Qed.
End refinement.
