(* ===== verification/LedgerProps.v ===== *)
(** * Properties of the ledger service

    Consequences of the refinement of [LedgerSpec], stated on the tables of
    the service: balances, idempotency, atomicity, the outbox, the reads. *)
From S2P Require Import Prelude GoStrings Json Money EventStore Outbox Ledger LedgerSpec.
#[local] Open Scope Z_scope.
#[local] Open Scope go_scope.

(** ** What the event table says

    The balance of an account recomputed from the stored events alone. *)
Definition event_delta (acc : string) (r : event_row) : Z :=
  match Unmarshal (ev_Data (er_event r)) with
  | Ok ev => if bool_decide (ep_AccountID ev = acc) then worker_delta ev else 0
  | Err _ => 0
  end.

Fixpoint events_balance (rows : list event_row) (acc : string) : Z :=
  match rows with
  | [] => 0
  | r :: rows' => event_delta acc r + events_balance rows' acc
  end.

(** The message of an event: same entry, same account, same delta. *)
Definition event_message (r : event_row) (o : outbox_row) : Prop :=
  exists ev occ, Unmarshal (ev_Data (er_event r)) = Ok ev /\
    or_topic o = ledgerEventsTopicV1 /\
    or_value o = BJson (entry_payload (ev_AggregateID (er_event r)) (ep_AccountID ev) (worker_delta ev) occ).

Definition entries_of (id : string) (rows : list event_row) : list event_row :=
  List.filter (fun r => bool_decide (ev_AggregateID (er_event r) = id)) rows.

Section properties.
Context `{Hev : Env} `{Henv : !EnvOk}.
Implicit Types (w : World LedgerDB) (s : list posting).

(** ** Lemmas *)
Lemma events_balance_spec rows s acc :
  Forall2 row_posting rows s -> events_balance rows acc = spec_balance s acc.
Proof.
  induction 1 as [|r p rows s Hr _ IH]; simpl; [done|]. rewrite IH. f_equal.
  destruct Hr as (_ & _ & _ & _ & ev & Hu & _ & Ha & Hd). unfold event_delta. by rewrite Hu, Ha, Hd.
Qed.

Lemma spec_post_ok id cmd s a s0 :
  spec_post id cmd s = (Ok a, s0) ->
  spec_check cmd = None /\ exists p, spec_find (pe_IdempotencyKey cmd) s0 = Some p /\ p_entry p = a.
Proof.
  unfold spec_post. intros Hp. destruct (spec_check cmd); [done|]. split; [done|].
  destruct (spec_find (pe_IdempotencyKey cmd) s) as [p|] eqn:Hf; simplify_eq; [by eauto|].
  repeat case_bool_decide; simplify_eq. eexists.
  rewrite spec_find_snoc, Hf. simpl. by rewrite bool_decide_true.
Qed.

Lemma spec_post_again id id' cmd s a s0 :
  spec_post id cmd s = (Ok a, s0) -> spec_post id' cmd s0 = (Ok a, s0).
Proof. intros (Hck & p & Hf & <-)%spec_post_ok. unfold spec_post. by rewrite Hck, Hf. Qed.

Lemma PostEntry_error_unchanged cmd w e w' :
  PostEntryHandler_Handle cmd w = (Err e, w') -> e <> ENet -> w_db w' = w_db w.
Proof.
  unfold PostEntryHandler_Handle, bindM. rewrite PostEntry_validate_run.
  destruct (spec_check cmd); [by intros [= <- <-]|]. apply with_tx_error.
Qed.

Lemma PostEntry_quiet cmd w s :
  refines w s -> money_ok (pe_Amount cmd) -> w_faults w = [] ->
  exists w', PostEntryHandler_Handle cmd w = ((spec_post (uuid_NewString (w_uuid w)) cmd s).1, w') /\
    refines w' (spec_post (uuid_NewString (w_uuid w)) cmd s).2 /\ later w w'.
Proof.
  intros Hrf Hm Hfl. pose proof (PostEntry_post cmd w s Hrf Hm) as Hp. unfold wpm in Hp.
  pose proof (PostEntry_later cmd w s Hrf Hm) as Hl.
  destruct (PostEntryHandler_Handle cmd w) as [r w'], (spec_post _ cmd s) as [r0 s0]; simpl in *.
  destruct Hp as [[-> ?]|[? _]]; [eauto|done].
Qed.

(** ** Theorems *)

(** C1. The posting handler refines the abstract ledger. From related states,
    whatever the command and whatever fails, the handler returns what the
    abstract ledger returns and leaves a related state; only when the
    database fails may it return a connection error instead, and then it has
    either done nothing or done exactly what the abstract ledger does. *)
Theorem PostEntry_refines cmd w s r w' :
  refines w s -> money_ok (pe_Amount cmd) -> PostEntryHandler_Handle cmd w = (r, w') ->
  let '(r0, s0) := spec_post (uuid_NewString (w_uuid w)) cmd s in
  (r = r0 /\ refines w' s0) \/
  (w_faults w <> [] /\ r = Err ENet /\ (refines w' s \/ refines w' s0)).
Proof. intros Hrf Hm Hrun. eapply wpm_run in Hrun; [|by apply PostEntry_post]. exact Hrun. Qed.

(** C2. When postings are handled one after the other, and nothing but them
    writes the balances, then whatever commands come, whatever fails and
    whatever the relay does, every balance lies between zero and the largest
    [bigint] and equals the sum of the deltas of the stored events of that
    account. Both conditions matter: interleaved postings can overdraw an
    account ([ledger_overdraft_race]; [ledger_concurrent_books] is what is left
    of this property then), and the projection worker that [main] starts at
    version 1 adds each event a second time ([ledger_worker_doubles]). *)
Theorem ledger_balances_sound w acc :
  ledger_reachable w ->
  0 <= balance (w_db w) acc 1 <= max_int64 /\
  balance (w_db w) acc 1 = events_balance (events (l_events (w_db w))) acc.
Proof.
  intros [s Hrf]%reachable_refines. rewrite (rf_balance _ _ Hrf).
  erewrite events_balance_spec by (by apply (rf_events _ _ Hrf)).
  split; [|done]. by apply (rf_range _ _ Hrf).
Qed.

(** C4. A retry posts exactly once. After any first attempt, with any
    failures, a second attempt under the same command on a working database
    leaves the ledger as one attempt would have, returns that attempt's
    result, and agrees with the first attempt's entry when that had
    succeeded. *)
Theorem PostEntry_retry_exactly_once cmd w s r1 w1 r2 w2 :
  refines w s -> money_ok (pe_Amount cmd) ->
  PostEntryHandler_Handle cmd w = (r1, w1) ->
  PostEntryHandler_Handle cmd (set_faults [] w1) = (r2, w2) ->
  exists id s', spec_post id cmd s = (r2, s') /\ refines w2 s' /\ (is_ok r1 = true -> r1 = r2).
Proof.
  intros Hrf Hm Hrun1 Hrun2.
  eapply wpm_run in Hrun1; [|by apply PostEntry_post].
  destruct (spec_post (uuid_NewString (w_uuid w)) cmd s) as [r0 s0] eqn:Hsp.
  assert (forall s1, refines w1 s1 -> exists id, spec_post id cmd s1 = (r2, (spec_post id cmd s1).2) /\
            refines w2 (spec_post id cmd s1).2) as Hsecond.
  { intros s1 Hrf1. destruct (PostEntry_quiet cmd (set_faults [] w1) s1) as (w' & Hrun & Hr2 & _);
      [by apply (refines_mono w1)|done..|].
    rewrite Hrun in Hrun2. simplify_eq. eexists. split; [apply surjective_pairing|done]. }
  assert (refines w1 s0 -> exists id s', spec_post id cmd s = (r2, s') /\ refines w2 s' /\
            (is_ok r0 = true -> r0 = r2)) as Hdone.
  { intros Hrf1. destruct (Hsecond s0 Hrf1) as (id & Hr2 & Hrf2). destruct r0 as [a|e].
    - rewrite (spec_post_again _ id _ _ _ _ Hsp) in Hr2, Hrf2. simplify_eq/=. by eauto 10.
    - apply spec_post_err in Hsp as ->. eexists id, _. split_and!; [exact Hr2|done|done]. }
  destruct Hrun1 as [[-> Hrf1]|(_ & -> & [Hrf1|Hrf1])]; [by apply Hdone|..].
  - destruct (Hsecond s Hrf1) as (id & ? & ?). by eexists id, _.
  - destruct (Hdone Hrf1) as (id & s' & ? & ? & _). by eexists id, s'.
Qed.

(** Posting succeeds when it should: on a working database a well-formed
    command under a new key, whose delta keeps the balance in range, returns
    a new entry, moves the account's balance by exactly the delta and leaves
    every other balance alone. *)
Theorem PostEntry_succeeds cmd w s :
  refines w s -> money_ok (pe_Amount cmd) -> w_faults w = [] ->
  spec_check cmd = None -> l_idem (w_db w) !! pe_IdempotencyKey cmd = None ->
  0 <= balance (w_db w) (pe_AccountID cmd) 1 + spec_delta (pe_Type cmd) (AmountKobo (pe_Amount cmd)) <= max_int64 ->
  exists w', PostEntryHandler_Handle cmd w = (Ok (uuid_NewString (w_uuid w)), w') /\
    forall acc, balance (w_db w') acc 1 = balance (w_db w) acc 1 +
      (if bool_decide (acc = pe_AccountID cmd) then spec_delta (pe_Type cmd) (AmountKobo (pe_Amount cmd)) else 0).
Proof.
  intros Hrf Hm Hfl Hck Hkey Hb. destruct (PostEntry_quiet cmd w s Hrf Hm Hfl) as (w' & Hrun & Hrf' & _).
  rewrite (rf_idem _ _ Hrf) in Hkey. apply fmap_None in Hkey.
  rewrite (rf_balance _ _ Hrf) in Hb.
  unfold spec_post in Hrun, Hrf'. rewrite Hck, Hkey in Hrun, Hrf'.
  rewrite !bool_decide_false in Hrun by lia. rewrite !bool_decide_false in Hrf' by lia. simpl in *.
  exists w'. split; [done|]. intros acc.
  rewrite (rf_balance _ _ Hrf'), (rf_balance _ _ Hrf), spec_balance_app. simpl.
  repeat case_bool_decide; simplify_eq; lia.
Qed.

(** An overdraft is refused: on a working database a withdrawal of more
    than the balance returns the insufficient-funds error and leaves the
    database exactly as it was. *)
Theorem PostEntry_overdraft_refused cmd w s :
  refines w s -> money_ok (pe_Amount cmd) -> w_faults w = [] ->
  spec_check cmd = None -> l_idem (w_db w) !! pe_IdempotencyKey cmd = None ->
  pe_Type cmd = EntryTypeWithdrawal ->
  balance (w_db w) (pe_AccountID cmd) 1 < AmountKobo (pe_Amount cmd) ->
  exists w', PostEntryHandler_Handle cmd w = (Err ErrInsufficientFunds, w') /\ w_db w' = w_db w.
Proof.
  intros Hrf Hm Hfl Hck Hkey Hty Hb. destruct (PostEntry_quiet cmd w s Hrf Hm Hfl) as (w' & Hrun & _).
  rewrite (rf_idem _ _ Hrf) in Hkey. apply fmap_None in Hkey.
  rewrite (rf_balance _ _ Hrf) in Hb.
  unfold spec_post in Hrun. rewrite Hck, Hkey in Hrun.
  rewrite bool_decide_true in Hrun
    by (unfold spec_delta; rewrite bool_decide_true by done; lia).
  exists w'. split; [done|]. by eapply PostEntry_error_unchanged.
Qed.

(** Posting is all or nothing: an error other than a lost connection
    leaves every table of the ledger exactly as it was, from any state. *)
Theorem PostEntry_all_or_nothing cmd w e w' :
  PostEntryHandler_Handle cmd w = (Err e, w') -> e <> ENet -> w_db w' = w_db w.
Proof. apply PostEntry_error_unchanged. Qed.

(** Entries and postings correspond one to one. *)
Lemma refines_aggregates {lo} w s :
  refines_from lo w s ->
  map (fun r => ev_AggregateID (er_event r)) (events (l_events (w_db w))) = map p_entry s /\
  NoDup (map p_entry s).
Proof.
  intros Hrf. destruct (rf_wf _ _ Hrf) as [_ Hvers _ _ _]. revert Hvers.
  pose proof (rf_events _ _ Hrf) as Hev'. clear Hrf.
  assert (map stream_key (events (l_events (w_db w))) = map (fun e => (e, 1)) (map p_entry s)) as ->.
  { clear -Hev'. induction Hev' as [|r p rows s (Ha & _ & Hv & _) _ IH]; simpl; [done|].
    unfold stream_key at 1. by rewrite Ha, Hv, IH. }
  intros Hnd%NoDup_fmap_1. split; [|done].
  clear -Hev'. induction Hev' as [|r p rows s (Ha & _) _ IH]; simpl; [done|]. by rewrite Ha, IH.
Qed.

(** Each recorded key names an entry with exactly one stored event, and each
    stored event belongs to exactly one key. *)
Definition keys_once (db : LedgerDB) : Prop :=
  (forall key id, l_idem db !! key = Some id -> length (entries_of id (events (l_events db))) = 1%nat) /\
  (forall r, r ∈ events (l_events db) -> exists! key, l_idem db !! key = Some (ev_AggregateID (er_event r))).

Lemma refines_keys_once {lo} w s : refines_from lo w s -> keys_once (w_db w).
Proof.
  intros Hrf. unfold keys_once.
  assert (forall key id, l_idem (w_db w) !! key = Some id ->
            exists p, p ∈ s /\ p_key p = key /\ p_entry p = id) as Hidem.
  { intros key id. rewrite (rf_idem _ _ Hrf). intros (p & [Hp Hk]%spec_find_elem & ->)%fmap_Some_1. eauto. }
  destruct (refines_aggregates w s Hrf) as [Hagg Hnd]. split.
  - intros key id (p & Hp & _ & <-)%Hidem. apply (list_elem_of_fmap_2 p_entry) in Hp.
    change (map p_entry s) with (p_entry <$> s) in Hagg. rewrite <-Hagg in Hp.
    apply list_elem_of_fmap in Hp as (r & -> & Hr). unfold entries_of.
    rewrite (filter_unique (fun r => ev_AggregateID (er_event r))); [done| |done]. by rewrite Hagg.
  - intros r Hr. destruct (Forall2_elem_l _ _ _ _ (rf_events _ _ Hrf) Hr) as (p & Hp & -> & _).
    exists (p_key p). split.
    + rewrite (rf_idem _ _ Hrf), spec_find_self; [done|apply (rf_keys _ _ Hrf)|done].
    + intros key (q & Hq & <- & He)%Hidem. f_equal. by apply (NoDup_map_inj p_entry s).
Qed.

(** C3. At most one posting per idempotency key, in every reachable state:
    each recorded key names an entry with exactly one stored event, and each
    stored event belongs to exactly one key. *)
Theorem ledger_at_most_once w :
  ledger_reachable w ->
  (forall key id, l_idem (w_db w) !! key = Some id ->
     length (entries_of id (events (l_events (w_db w)))) = 1%nat) /\
  (forall r, r ∈ events (l_events (w_db w)) ->
     exists! key, l_idem (w_db w) !! key = Some (ev_AggregateID (er_event r))).
Proof. intros [s Hrf]%reachable_refines. exact (refines_keys_once w s Hrf). Qed.

Lemma refines_outbox {lo} w s : refines_from lo w s ->
  Forall2 event_message (events (l_events (w_db w))) (ob_rows (l_outbox (w_db w))).
Proof.
  intros Hrf.
  pose proof (rf_events _ _ Hrf) as Hev'. pose proof (rf_outbox _ _ Hrf) as Hob.
  clear Hrf. revert Hob. generalize (ob_rows (l_outbox (w_db w))).
  induction Hev' as [|r p rows s Hr _ IH]; intros ob Hob; inversion Hob as [|o p' ob' s' Ho Hob']; subst; [done|].
  constructor; [|by apply IH].
  destruct Hr as (Ha & _ & _ & _ & ev & Hu & _ & Hacc & Hd). destruct Ho as (Ht & _ & occ & Hv).
  exists ev, occ. by rewrite Ha, Hacc, Hd.
Qed.

(** No event without its message and no message without its event, in
    every reachable state: the outbox holds, in order, exactly one message
    per stored event, with that event's entry, account and delta. *)
Theorem ledger_outbox_complete w :
  ledger_reachable w ->
  Forall2 event_message (events (l_events (w_db w))) (ob_rows (l_outbox (w_db w))).
Proof. intros [s Hrf]%reachable_refines. exact (refines_outbox w s Hrf). Qed.

Lemma PostEntry_write_migrated cmd d w :
  l_columns (w_db w) = migrated_balance_columns -> spec_check cmd = None ->
  wpm (PostEntry_write cmd d) (fun r _ => is_ok r = false) w.
Proof.
  destruct w as [db sq u t tx fl sn]; simpl. intros Hcol Hck.
  destruct (spec_check_ok cmd Hck) as (_ & Hacc & _ & Hcur & Hpos).
  unfold PostEntry_write. wp_step.
  destruct (NewEntry_run (pe_AccountID cmd) (pe_Type cmd) (pe_Amount cmd) (pe_Narration cmd)
    (pe_OccurredAtUTC cmd) (mkWorld db sq u t tx fl sn)) as (occ & t' & ev & Hrun & _); [done..|].
  unfold wpm at 1. rewrite Hrun. simpl. wp_steps. simpl. wp_steps.
  unfold Append; simpl. wp_step. apply wpm_exec; [done|]. rewrite on_run.
  destruct (insert_event _ _ _ _) as [[[] t2]|e]; [|done]. simpl. wp_steps.
  unfold BalanceRepo_ApplyDelta. apply wpm_exec; [done|]. unfold upsert_delta; simpl. by rewrite Hcol.
Qed.

(** On the schema the migrations create no posting ever succeeds: the
    balance upsert names a column [updated_at] the table does not have, so
    every posting under a new key ends in an error, with the database as it
    was. *)
Theorem PostEntry_migrated_schema_fails cmd w r w' :
  l_columns (w_db w) = migrated_balance_columns ->
  l_idem (w_db w) !! pe_IdempotencyKey cmd = None ->
  PostEntryHandler_Handle cmd w = (r, w') -> is_ok r = false /\ w_db w' = w_db w.
Proof.
  intros Hcol Hkey Hrun. refine (wpm_run _ (fun r w' => is_ok r = false /\ w_db w' = _) _ _ _ Hrun _).
  destruct w as [db sq u t tx fl sn]. unfold PostEntryHandler_Handle. wp_step.
  unfold wpm at 1. rewrite PostEntry_validate_run. simpl.
  destruct (spec_check cmd) as [e|] eqn:Hck; simpl; [done|].
  apply wpm_with_tx; [done|].
  apply (wpm_mono _ (fun r _ => is_ok r = false)); [by intros []|].
  unfold PostEntry_tx. wp_step. apply wpm_exec; [done|]. unfold select_idem. simpl in *. rewrite Hkey.
  unfold PostEntry_record. wp_step. apply wpm_exec; [done|]. simpl. wp_step. wp_step; [done|].
  by apply PostEntry_write_migrated.
Qed.

(** An entry is its event: what [NewEntry] raised, marshalled and read
    back, replays to the very entry that was built, and so does a snapshot of
    it. *)
Theorem entry_event_sourcing {DB} acc typ amt narr occ (w w' : World DB) e :
  money_ok amt -> NewEntry acc typ amt narr occ w = (Ok e, w') ->
  let '(evs, e') := Entry_PullChanges e in
  Forall (fun ev => Unmarshal (BJson (Marshal ev)) = Ok ev) evs /\
  Entry_Rehydrate evs = Ok e' /\ Entry_RehydrateFromSnapshot (Entry_Snapshot e) [] = Ok e'.
Proof.
  intros Hm Hrun. unfold NewEntry, bindM, fail_if, liftR, entry_validateAmount in Hrun.
  destruct (is_empty acc); [done|]. simpl in Hrun.
  destruct (decide (Currency amt = NGN)) as [Hc|Hc];
    [rewrite bool_decide_true in Hrun by done|by rewrite bool_decide_false in Hrun].
  simpl in Hrun. destruct (IsNegativeOrZero amt); [done|]. rewrite Hc in Hrun.
  assert (exists occ', e = mkEntry (uuid_NewString (w_uuid w)) acc typ (mkMoney (AmountKobo amt) NGN) narr occ' 1
    [mkEntryPosted (uuid_NewString (w_uuid w)) acc typ (AmountKobo amt) NGN narr occ']) as [occ' ->].
  { destruct (occ =? 0); inversion Hrun; by eexists. }
  simpl. split; [|done]. constructor; [|done]. by apply Unmarshal_Marshal.
Qed.
End properties.
