(* ===== verification/LedgerProjection.v ===== *)
(** * The projection worker and the reads of the ledger service

    What [LedgerProjectionWorker] does to the balance table when it replays
    the event log, at the version [main.go] gives it and at a fresh version,
    and what a read that waits for a log sequence number sees. *)
From S2P Require Import Prelude GoStrings Json Money EventStore Outbox Ledger LedgerSpec LedgerProps.
#[local] Open Scope Z_scope.
#[local] Open Scope go_scope.

Section projection.
Context `{Hev : Env} `{Henv : !EnvOk}.
Implicit Types (w : World LedgerDB) (s : list posting).

(** A database on which nothing fails and the upsert finds its columns. *)
Definition calm w : Prop :=
  w_faults w = [] /\ tables_wf (w_seq w) (l_events (w_db w)) /\
  upsert_columns ⊆ l_columns (w_db w).

(** [applied v s w w']: the deltas of [s] were added at version [v] and
    nothing else changed. *)
Definition applied (v : Z) s w w' : Prop :=
  calm w' /\ l_events (w_db w') = l_events (w_db w) /\ l_idem (w_db w') = l_idem (w_db w) /\
  l_outbox (w_db w') = l_outbox (w_db w) /\
  (forall acc, balance (w_db w') acc v = balance (w_db w) acc v + spec_balance s acc) /\
  (forall acc v', v' <> v -> balance (w_db w') acc v' = balance (w_db w) acc v').

(** Every partial sum fits the column. *)
Definition fits (v : Z) s w : Prop :=
  forall s' acc, s' `prefix_of` s -> in_int64 (balance (w_db w) acc v + spec_balance s' acc).

Lemma applied_trans v s1 s2 w1 w2 w3 :
  applied v s1 w1 w2 -> applied v s2 w2 w3 -> applied v (s1 ++ s2) w1 w3.
Proof.
  intros (_ & He & Hi & Ho & Hb & Hb') (Hc & He2 & Hi2 & Ho2 & Hb2 & Hb2').
  split_and!; [done|congruence..| |].
  - intros acc. rewrite Hb2, Hb, spec_balance_app. lia.
  - intros acc v' Hv. by rewrite Hb2', Hb'.
Qed.

Lemma fits_applied v s1 s2 w1 w2 : fits v (s1 ++ s2) w1 -> applied v s1 w1 w2 -> fits v s2 w2.
Proof.
  intros Hf (_ & _ & _ & _ & Hb & _) s' acc Hp. rewrite Hb.
  specialize (Hf (s1 ++ s') acc ltac:(by apply prefix_app)).
  rewrite spec_balance_app in Hf. by rewrite <-Z.add_assoc.
Qed.

Lemma ledger_project_run v r p w :
  calm w -> row_posting r p -> fits v [p] w ->
  exists w', ledger_project v (er_event r) w = (Ok tt, w') /\ applied v [p] w w'.
Proof.
  destruct w as [db sq u t tx fl sn]. intros (Hfl & Hwf & Hcol) Hr Hfit. simpl in *. subst fl.
  destruct Hr as (_ & Hty & _ & Hev' & ev & Hu & _ & Ha & Hd).
  specialize (Hfit [p] (p_account p) (reflexivity _)). simpl in Hfit.
  rewrite bool_decide_true, Z.add_0_r in Hfit by done.
  unfold ledger_project. rewrite Hty, Hev'. simpl. unfold bindM, liftR. rewrite Hu.
  unfold BalanceRepo_ApplyDelta, autoexec, next_fault, run_stmt, start_tx. simpl.
  unfold upsert_delta. rewrite (proj2 (columns_exist_spec _ _)) by done.
  rewrite Ha, Hd. rewrite (proj2 (in_int64b_spec _)) by exact Hfit. simpl.
  eexists. split; [done|]. split_and!; simpl; try done.
  - split_and!; [done| |done]. eapply tables_wf_mono; [|done]. simpl; lia.
  - intros acc. rewrite balance_insert. repeat case_bool_decide; simplify_eq; lia.
  - intros acc v' Hv. rewrite balance_insert, bool_decide_false by congruence. done.
Qed.

Lemma applied_nil v w : calm w -> applied v [] w w.
Proof. intros Hc. split_and!; try done. intros acc. simpl. lia. Qed.

Lemma ledger_project_all v rows s w :
  calm w -> Forall2 row_posting rows s -> fits v s w ->
  exists w', forM (map er_event rows) (ledger_project v) w = (Ok tt, w') /\ applied v s w w'.
Proof.
  intros Hc Hr. revert w Hc. induction Hr as [|r p rows s Hr _ IH]; intros w Hc Hf; simpl.
  - eexists. split; [done|]. by apply applied_nil.
  - destruct (ledger_project_run v r p w Hc Hr) as (w1 & Hrun & Ha).
    { intros s' acc Hp. apply Hf. etrans; [exact Hp|]. by exists s. }
    unfold bindM. rewrite Hrun. destruct (IH w1) as (w2 & Hrun2 & Ha2); [by destruct Ha| |].
    { by eapply (fits_applied v [p]). }
    rewrite Hrun2. eexists. split; [done|]. by eapply (applied_trans v [p]).
Qed.

Definition worker_page : nat := Z.to_nat (default_limit ledger_worker_batch).

(** One tick of the worker: the next page is applied and the cursor moves past
    it. *)
Lemma ledger_batch_run v from rows s w :
  calm w -> rows = take worker_page (log_after from (l_events (w_db w))) ->
  Forall2 row_posting rows s -> fits v s w ->
  exists w', ledger_processNextBatch v from w =
    (Ok (Z.of_nat (length rows), last_sequence from rows), w') /\ applied v s w w'.
Proof.
  intros Hc Hrows Hr Hf. unfold ledger_processNextBatch, bindM.
  destruct (ReadAll_page from ledger_worker_batch w) as (w1 & Hrun & Hdb & Hwf & Hfl); [apply Hc..|].
  rewrite Hrun. fold worker_page. simpl (view _). rewrite <-Hrows.
  assert (calm w1) as Hc1 by (split; [done|]; split; [exact Hwf|]; rewrite Hdb; apply Hc).
  destruct (ledger_project_all v rows s w1 Hc1 Hr) as (w2 & Hrun2 & Ha).
  { intros s' acc Hp. rewrite Hdb. by apply Hf. }
  rewrite Hrun2. eexists. split; [by rewrite length_map|].
  unfold applied in *. rewrite Hdb in Ha. exact Ha.
Qed.

Lemma ledger_worker_run_all ticks v from s w :
  calm w -> Forall2 row_posting (log_after from (l_events (w_db w))) s -> fits v s w ->
  (length (log_after from (l_events (w_db w))) <= ticks * worker_page)%nat ->
  exists seq w', ledger_worker_run ticks v from w = (Ok seq, w') /\ applied v s w w' /\
    log_after seq (l_events (w_db w')) = [].
Proof.
  revert from s w. induction ticks as [|ticks IH]; intros from s w Hc Hr Hf Hlen.
  - simpl in *. destruct (log_after _ _) eqn:Hl; simpl in *; [|lia].
    apply Forall2_nil_inv_l in Hr as ->. do 2 eexists. split; [done|]. split; [by apply applied_nil|done].
  - remember (log_after from (l_events (w_db w))) as rows eqn:Hrows.
    rewrite <-(take_drop worker_page rows) in Hr.
    apply Forall2_app_inv_l in Hr as (s1 & s2 & Hr1 & Hr2 & ->).
    destruct (ledger_batch_run v from (take worker_page rows) s1 w) as (w1 & Hrun & Ha); [done|by rewrite Hrows|done| |].
    { intros s' acc Hp. apply Hf. by apply prefix_app_r. }
    assert (log_after (last_sequence from (take worker_page rows)) (l_events (w_db w)) = drop worker_page rows)
      as Hnext by (rewrite Hrows; eapply log_after_page; apply Hc).
    simpl. unfold bindM, tryM. rewrite Hrun.
    set (from' := if _ <? _ then _ else _).
    assert (from' = last_sequence from (take worker_page rows)) as ->.
    { subst from'. by destruct (take worker_page rows). }
    pose proof Ha as (Hc1 & He1 & _).
    destruct (IH (last_sequence from (take worker_page rows)) s2 w1) as (seq & w2 & Hrun2 & Ha2 & Hend).
    + done.
    + by rewrite He1, Hnext.
    + by eapply fits_applied.
    + rewrite He1, Hnext, length_drop. lia.
    + rewrite Hrun2. do 2 eexists. split; [done|]. split; [by eapply applied_trans|done].
Qed.

Lemma refines_calm w s : refines w s -> w_faults w = [] -> calm w.
Proof. by intros [] Hfl. Qed.

Lemma refines_log w s : refines w s -> log_after 0 (l_events (w_db w)) = events (l_events (w_db w)).
Proof.
  intros Hrf. apply filter_list_all. intros r Hr. pose proof (rf_positive _ _ Hrf) as Hpos.
  rewrite Forall_forall in Hpos. apply Z.ltb_lt. by apply Hpos.
Qed.

(** The worker as a whole, from a state of the ledger. *)
Lemma ledger_worker_Start_all ticks v s w :
  refines w s -> w_faults w = [] -> fits v s w ->
  (length (events (l_events (w_db w))) <= ticks * worker_page)%nat ->
  exists seq w', ledger_worker_Start ticks v w = (Ok seq, w') /\ applied v s w w'.
Proof.
  intros Hrf Hfl Hf Hlen. pose proof (refines_log w s Hrf) as Hlog.
  destruct (ledger_worker_run_all ticks v 0 s w) as (seq & w' & Hrun & Ha & _).
  - by eapply refines_calm.
  - rewrite Hlog. apply Hrf.
  - done.
  - by rewrite Hlog.
  - by exists seq, w'.
Qed.

(** Rebuilding the balances: started at a projection version with no
    balances yet, the worker gives every account, in as many ticks as the log
    has pages, exactly the balance the postings maintain at version 1, and
    leaves version 1, the events, the keys and the outbox alone. *)
Theorem ledger_worker_rebuilds ticks v w :
  ledger_reachable w -> w_faults w = [] -> v <> 1 ->
  (forall acc, balance (w_db w) acc v = 0) ->
  (length (events (l_events (w_db w))) <= ticks * worker_page)%nat ->
  exists seq w', ledger_worker_Start ticks v w = (Ok seq, w') /\
    (forall acc, balance (w_db w') acc v = balance (w_db w) acc 1) /\
    (forall acc, balance (w_db w') acc 1 = balance (w_db w) acc 1) /\
    l_events (w_db w') = l_events (w_db w) /\ l_idem (w_db w') = l_idem (w_db w) /\
    l_outbox (w_db w') = l_outbox (w_db w).
Proof.
  intros [s Hrf]%reachable_refines Hfl Hv Hzero Hlen.
  destruct (ledger_worker_Start_all ticks v s w) as (seq & w' & Hrun & (_ & He & Hi & Ho & Hb & Hb')); [done..| |done|].
  { intros s' acc Hp. rewrite Hzero. pose proof (rf_range _ _ Hrf s' acc Hp).
    unfold in_int64, min_int64, max_int64 in *. lia. }
  exists seq, w'. split_and!; try done.
  - intros acc. rewrite Hb, Hzero, (rf_balance _ _ Hrf). lia.
  - intros acc. by apply Hb'.
Qed.

(** As the service starts it, the worker corrupts the balances: run at
    the version the command side maintains ([main.go] passes 1), one pass
    over the log doubles the balance of every account. *)
Theorem ledger_worker_doubles ticks w :
  ledger_reachable w -> w_faults w = [] ->
  (forall n acc, balance (w_db w) acc 1 +
     events_balance (take n (events (l_events (w_db w)))) acc <= max_int64) ->
  (length (events (l_events (w_db w))) <= ticks * worker_page)%nat ->
  exists seq w', ledger_worker_Start ticks main_projectionVersion w = (Ok seq, w') /\
    forall acc, balance (w_db w') acc 1 = 2 * balance (w_db w) acc 1.
Proof.
  intros [s Hrf]%reachable_refines Hfl Hmax Hlen. unfold main_projectionVersion.
  destruct (ledger_worker_Start_all ticks 1 s w) as (seq & w' & Hrun & (_ & _ & _ & _ & Hb & _)); [done..| |done|].
  { intros s' acc Hp. specialize (Hmax (length s') acc).
    pose proof (rf_range _ _ Hrf s' acc Hp) as Hs'.
    pose proof (rf_range _ _ Hrf s acc (reflexivity _)) as Hs. rewrite (rf_balance _ _ Hrf) in *.
    rewrite (events_balance_spec _ (take (length s') s)) in Hmax
      by (apply Forall2_take, (rf_events _ _ Hrf)).
    destruct Hp as [k ->]. rewrite take_app_length in Hmax.
    unfold in_int64, min_int64 in *. lia. }
  exists seq, w'. split; [done|]. intros acc. rewrite Hb, (rf_balance _ _ Hrf). lia.
Qed.

(** The largest sequence number of the log, 0 when it is empty. *)
Definition max_sequence (db : LedgerDB) : Z :=
  match reverse (order_by er_sequence (events (l_events db))) with
  | [] => 0
  | r :: _ => er_sequence r
  end.

Lemma max_sequence_in db : 0 < max_sequence db -> exists r, r ∈ events (l_events db) /\ er_sequence r = max_sequence db.
Proof.
  unfold max_sequence. destruct (reverse _) as [|r l] eqn:Hr; [lia|]. intros _. exists r. split; [|done].
  apply (elem_of_order_by er_sequence), elem_of_reverse. rewrite Hr. by left.
Qed.

Lemma await_lsn_post others lsn w :
  wpm (await_lsn others lsn) (fun r w' => r = Ok tt -> lsn <= max_sequence (w_db w') `mod` 2 ^ 64) w.
Proof.
  revert w. induction others as [|f others IH]; intros [db sq u t tx fl sn]; simpl; [done|].
  wp_step. unfold wpm at 1. simpl. wp_step. apply wpm_autoexec; [done|]. simpl. split; [|done].
  fold (max_sequence (f db)). destruct (Z.leb_spec lsn (max_sequence (f db) `mod` 2 ^ 64)) as [Hle|Hlt].
  - wp_steps. intros _. exact Hle.
  - apply IH.
Qed.

(** A read that carries a log sequence number returns a balance only
    from a database that has reached it: the value is the balance in a state
    whose log holds an event at that sequence number or later; otherwise the
    read times out with an error. *)
Theorem GetBalance_waits_for_lsn others lsn acc v w b w' :
  0 < lsn -> Forall (fun r => 0 <= er_sequence r <= max_int64) (events (l_events (w_db w'))) ->
  BalanceQuery_GetBalanceKobo others lsn acc v w = (Ok b, w') ->
  b = balance (w_db w') acc v /\ exists r, r ∈ events (l_events (w_db w')) /\ lsn <= er_sequence r.
Proof.
  intros Hlsn Hrange Hrun.
  assert (wpm (BalanceQuery_GetBalanceKobo others lsn acc v)
    (fun r w' => forall b, r = Ok b -> b = balance (w_db w') acc v /\ lsn <= max_sequence (w_db w') `mod` 2 ^ 64) w) as Hw.
  { unfold BalanceQuery_GetBalanceKobo. wp_step. destruct (Z.eqb_spec lsn 0); [lia|].
    eapply wpm_mono; [|apply await_lsn_post]. intros [[]|e] [db sq u t tx fl sn] Hm; [|done].
    apply wpm_autoexec; [done|]. simpl. split; [|done]. intros b' [= <-]. auto. }
  eapply wpm_run in Hw; [|exact Hrun]. destruct (Hw b eq_refl) as [Hb Hle]. split; [done|].
  rewrite Forall_forall in Hrange.
  destruct (decide (0 < max_sequence (w_db w'))) as [Hpos|Hneg].
  - destruct (max_sequence_in _ Hpos) as (r & Hr & Heq). exists r. split; [done|].
    specialize (Hrange r Hr). rewrite Z.mod_small in Hle; unfold max_int64 in *; lia.
  - exfalso. unfold max_sequence in *. destruct (reverse _) as [|r l] eqn:Hr; [rewrite Z.mod_0_l in Hle; lia|].
    assert (r ∈ events (l_events (w_db w'))) as Hin.
    { apply (elem_of_order_by er_sequence), elem_of_reverse. rewrite Hr. by left. }
    specialize (Hrange r Hin). replace (er_sequence r) with 0 in Hle by lia. rewrite Z.mod_0_l in Hle; lia.
Qed.
End projection.
