(* ===== verification/LedgerGaps.v ===== *)
(** * Events the projection worker never sees

    The identity column gives an event its number when it is inserted, the
    worker reads committed rows after its cursor. A posting that drew its
    number earlier and commits later than another can appear behind the
    cursor. *)
From S2P Require Import Prelude GoStrings Json Money EventStore Streams Outbox Ledger.
#[local] Open Scope Z_scope.
#[local] Open Scope go_scope.

Section gaps.
Context `{Hev : Env}.
Implicit Types (w : World LedgerDB) (t : EventTables).

(** The same world with another event table *)
Definition with_events t w : World LedgerDB := set_db (upd t (w_db w)) w.

(** A computation that does not look at the events *)
Definition blind {A} (m : M LedgerDB A) : Prop := forall t w,
  m (with_events t w) = let '(r, w') := m w in (r, with_events t w').

Lemma blind_autoexec {A} (s : stmt LedgerDB A) :
  (forall t now sq db, s now sq (upd t db) = result_map (fun '(a, db') => (a, upd t db')) (s now sq db)) ->
  blind (autoexec s).
Proof.
  intros Hs t [db sq u tk tx fl sn]. unfold autoexec, next_fault, run_stmt, with_events, start_tx, set_db.
  cbn [w_db w_seq w_uuid w_tick w_tx w_faults w_sent]. destruct fl as [|[] fl];
    cbn [w_db w_seq w_uuid w_tick w_tx w_faults w_sent]; rewrite ?Hs; try done.
  all: by destruct (s _ _ db) as [[a db']|e].
Qed.
Lemma blind_bind {A B} (m : M LedgerDB A) (k : A -> M LedgerDB B) : blind m -> (forall a, blind (k a)) -> blind (bindM m k).
Proof. intros Hm Hk t w. unfold bindM. rewrite Hm. destruct (m w) as [[a|e] w']; [apply Hk|done]. Qed.
Lemma blind_project v e : blind (ledger_project v e).
Proof.
  unfold ledger_project. destruct (negb _); [by intros t w|]. destruct (negb _); [by intros t w|].
  apply blind_bind; [by intros t w|]. intros ev. apply blind_autoexec. intros t now sq [evs cols bal idem ob].
  unfold upsert_delta, balance. simpl. destruct (negb _); [done|]. by destruct (in_int64b _).
Qed.
Lemma blind_forM {A} (l : list A) (f : A -> M LedgerDB unit) : (forall a, blind (f a)) -> blind (forM l f).
Proof. intros Hf. induction l as [|a l IH]; simpl; [by intros t w|]. by apply blind_bind. Qed.

(** ** The worker *)
Lemma last_sequence_after from rows : Forall (fun r => from < er_sequence r) rows -> from <= last_sequence from rows.
Proof.
  intros Hr. destruct rows as [|r rows _] using rev_ind; [done|]. rewrite last_sequence_snoc.
  apply Forall_app in Hr as [_ Hr]. inversion Hr; subst. lia.
Qed.
Lemma log_after_later from from' t t' : from <= from' -> log_after from t' = log_after from t -> log_after from' t' = log_after from' t.
Proof.
  intros Hle Heq. assert (forall t, log_after from' t = List.filter (fun r => from' <? er_sequence r) (log_after from t)) as Hf.
  { intros t0. unfold log_after. symmetry. apply filter_list_filter. intros r _ Hr. lia. }
  by rewrite !Hf, Heq.
Qed.

(** A read behind which the tables differ reads the same. *)
Lemma ReadAll_after from limit t w : log_after from t = log_after from (l_events (w_db w)) ->
  let '(r, w') := ReadAll (@autoexec _ LedgerDB) from limit w in
  ReadAll (@autoexec _ LedgerDB) from limit (with_events t w) = (r, with_events t w') /\
  l_events (w_db w') = l_events (w_db w) /\ (forall evs next, r = Ok (evs, next) -> from <= next).
Proof.
  intros Ht. destruct w as [db sq u tk tx fl sn]. set (rows := take (Z.to_nat (default_limit limit)) (order_by er_sequence (log_after from (l_events db)))).
  assert (forall now sq', on (select_after from (default_limit limit)) now sq' db = Ok (rows, db)) as H1
    by (intros; rewrite on_run; unfold select_after; simpl; by destruct db).
  assert (forall now sq', on (select_after from (default_limit limit)) now sq' (upd t db) = Ok (rows, upd t db)) as H2.
  { intros. rewrite on_run. unfold select_after. simpl. fold (log_after from t). by rewrite Ht. }
  assert (Forall (fun r => from < er_sequence r) rows) as Hr.
  { apply Forall_take. rewrite order_by_perm. apply Forall_forall. intros r [_ Hr]%elem_of_filter_list. lia. }
  apply last_sequence_after in Hr.
  unfold ReadAll, bindM, autoexec, next_fault, run_stmt, with_events, start_tx, set_db.
  cbn [w_db w_seq w_uuid w_tick w_tx w_faults w_sent]. destruct fl as [|[] fl];
    cbn [w_db w_seq w_uuid w_tick w_tx w_faults w_sent]; rewrite ?H1, ?H2; (split_and!; [done|done|]); try done.
  all: by intros evs next [= _ <-].
Qed.

Lemma forM_events v evs w : l_events (w_db (forM evs (ledger_project v) w).2) = l_events (w_db w).
Proof.
  pose proof (blind_forM evs (ledger_project v) (blind_project v) (l_events (w_db w)) w) as Hb.
  assert (with_events (l_events (w_db w)) w = w) as Hw by (by destruct w as [[]]). rewrite Hw in Hb.
  destruct (forM _ _ w) as [r w']. by injection Hb as ->.
Qed.

Lemma batch_after v from t w : log_after from t = log_after from (l_events (w_db w)) ->
  let '(r, w') := ledger_processNextBatch v from w in
  ledger_processNextBatch v from (with_events t w) = (r, with_events t w') /\
  l_events (w_db w') = l_events (w_db w) /\ (forall n next, r = Ok (n, next) -> from <= next).
Proof.
  intros Ht. unfold ledger_processNextBatch, bindM. pose proof (ReadAll_after from ledger_worker_batch t w Ht) as Hr.
  destruct (ReadAll _ from ledger_worker_batch w) as [[[evs next]|e] w1]; destruct Hr as (-> & He & Hn); [|done].
  rewrite (blind_forM evs (ledger_project v) (blind_project v) t w1).
  pose proof (forM_events v evs w1) as He2. destruct (forM evs _ w1) as [[[]|e] w2]; simpl in *; (split_and!; [done|congruence|]); [|done].
  intros n next' [= _ <-]. by eapply Hn.
Qed.

(** C28. What commits behind the cursor is never projected: whatever the event
    table holds up to the worker's cursor, every number of ticks, whatever
    fails, ends with the same cursor and leaves the same balances. A posting
    that drew its sequence number before, and commits after, the worker has
    gone past that number stays out of the projection until the service is
    started again. *)
Theorem ledger_worker_gap ticks v from t w : log_after from t = log_after from (l_events (w_db w)) ->
  let '(r, w') := ledger_worker_run ticks v from w in
  ledger_worker_run ticks v from (with_events t w) = (r, with_events t w').
Proof.
  revert from w. induction ticks as [|n IH]; intros from w Ht; [done|]. simpl. unfold bindM, tryM.
  pose proof (batch_after v from t w Ht) as Hb.
  destruct (ledger_processNextBatch v from w) as [r1 w1]. destruct Hb as (-> & He & Hn).
  apply IH. rewrite He. destruct r1 as [[k next]|e]; [|done]. destruct (0 <? k); [|done].
  eapply log_after_later; [by eapply Hn|done].
Qed.
End gaps.
