(* ===== verification/LedgerConcurrent.v ===== *)
(** * Postings at the same time

    The ledger service serves many requests at once. The transaction of
    [PostEntryHandler.Handle] is cut after its start, after the lookup of the
    idempotency key and after the check of the balance; the writes and the
    commit are one stage. *)
From S2P Require Import Prelude Stages GoStrings Json Money EventStore Outbox Ledger LedgerSpec LedgerProps.
#[local] Open Scope Z_scope.
#[local] Open Scope go_scope.

(** ** The stages of the handler *)
Definition cmd_delta (cmd : PostEntry) : Z := entry_delta (pe_Type cmd) (pe_Amount cmd).
Definition PostEntry_check `{Env} (cmd : PostEntry) : M LedgerDB unit :=
  let! currentBal := BalanceRepo_GetBalanceKobo (@exec LedgerDB) (pe_AccountID cmd) 1 in
  fail_if (bool_decide (pe_Type cmd = EntryTypeWithdrawal) && (wrap64 (currentBal + cmd_delta cmd) <? 0))
    ErrInsufficientFunds.

(** ** Requests in flight *)
Inductive stage : Type := Started | Missed | Checked.
Record flight : Type := mkFlight {
  fl_cmd : PostEntry;
  fl_stage : stage;
  fl_now : Z;
}.
Definition advance (st : stage) (f : flight) : flight := mkFlight (fl_cmd f) st (fl_now f).

Section concurrent.
Context `{Hev : Env} `{Henv : !EnvOk}.
(** At most [k] postings of at most [A] kobo each are in flight. *)
Variables k A : Z.

Inductive conc_step : World LedgerDB * list flight -> World LedgerDB * list flight -> Prop :=
| conc_begin cmd w fs now w' :
    PostEntry_validate cmd w = (Ok tt, w) -> money_ok (pe_Amount cmd) -> AmountKobo (pe_Amount cmd) <= A ->
    Z.of_nat (length fs) < k -> tx_begin w = (Ok now, w') ->
    conc_step (w, fs) (w', fs ++ [mkFlight cmd Started now])
| conc_key f w fs1 fs2 r w' :
    fl_stage f = Started -> in_tx (fl_now f) (IdempotencyRepo_GetByKey (pe_IdempotencyKey (fl_cmd f))) w = (r, w') ->
    conc_step (w, fs1 ++ f :: fs2)
      (w', fs1 ++ (match r with Ok None => [advance Missed f] | _ => [] end) ++ fs2)
| conc_check f w fs1 fs2 r w' :
    fl_stage f = Missed -> in_tx (fl_now f) (PostEntry_check (fl_cmd f)) w = (r, w') ->
    conc_step (w, fs1 ++ f :: fs2)
      (w', fs1 ++ (match r with Ok _ => [advance Checked f] | Err _ => [] end) ++ fs2)
| conc_write f w fs1 fs2 r w' :
    fl_stage f = Checked ->
    in_tx (fl_now f) (tx_commit (PostEntry_write (fl_cmd f) (cmd_delta (fl_cmd f)))) w = (r, w') ->
    conc_step (w, fs1 ++ f :: fs2) (w', fs1 ++ fs2)
| conc_relay locked cfg w fs :
    conc_step (w, fs) ((relay_tick broker_Publish locked cfg w).2, fs)
| conc_faults fl w fs :
    conc_step (w, fs) (set_faults fl w, fs).

End concurrent.

(** The stages one after the other are the handler. *)
Lemma handler_stages `{Env} cmd w :
  PostEntryHandler_Handle cmd w =
  (PostEntry_validate cmd ;;;
   let! _ := tx_begin in
   let! found := IdempotencyRepo_GetByKey (pe_IdempotencyKey cmd) in
   match found with
   | Some entryID => tx_commit (retM entryID)
   | None => PostEntry_check cmd ;;; tx_commit (PostEntry_write cmd (cmd_delta cmd))
   end) w.
Proof.
  unfold PostEntryHandler_Handle. unfold bindM at 1 2. destruct (PostEntry_validate cmd w) as [[[]|e] w0]; [|done].
  rewrite with_tx_stages. unfold bindM at 1 2. destruct (tx_begin w0) as [[now|e] w1]; [|done].
  unfold PostEntry_tx. rewrite tx_commit_bind by (apply reads_exec; by intros ????? [= _ <-]).
  unfold bindM at 1 2. destruct (IdempotencyRepo_GetByKey _ w1) as [[[id|]|e] w2]; [done| |done].
  rewrite <-tx_commit_bind.
  - unfold tx_commit, PostEntry_record, PostEntry_check, cmd_delta, bindM.
    by destruct (BalanceRepo_GetBalanceKobo _ _ _ w2) as [[bal|e] w3].
  - apply reads_bind; [apply reads_exec; by intros ????? [= _ <-]|]. intros bal. apply reads_fail_if.
Qed.


Section bounds.
Context `{Hev : Env} `{Henv : !EnvOk}.
Variables k A : Z.
Hypothesis k_pos : 1 <= k.
Hypothesis A_pos : 0 < A.
Hypothesis no_overflow : k * A <= max_int64.










End bounds.

(** ** The race *)
Section race.
Context `{Hev : Env} `{Henv : !EnvOk}.

Lemma refines_lower lo lo' w s : lo' <= lo -> refines_from lo w s -> refines_from lo' w s.
Proof. intros Hle Hrf. destruct Hrf. split; try done. intros s' acc Hp. specialize (rf_range s' acc Hp). lia. Qed.

Lemma exec_read {B} (sel : stmt LedgerDB B) w a :
  w_faults w = [] -> sel (w_tx w) (w_seq w) (w_db w) = Ok (a, w_db w) ->
  exec sel w = (Ok a, mkWorld (w_db w) (w_seq w + 1) (w_uuid w) (w_tick w) (w_tx w) [] (w_sent w)).
Proof. intros Hf Hs. unfold exec, next_fault, run_stmt. rewrite Hf, Hs. by destruct w; simpl in *; subst. Qed.

(** A request that has nothing against it, up to the check *)
Lemma flight_checked A cmd w s fs :
  refines_from (- max_int64) w s -> w_faults w = [] -> spec_check cmd = None -> money_ok (pe_Amount cmd) ->
  AmountKobo (pe_Amount cmd) <= A -> (length fs < 2)%nat -> spec_find (pe_IdempotencyKey cmd) s = None ->
  0 <= spec_balance s (pe_AccountID cmd) + spec_delta (pe_Type cmd) (AmountKobo (pe_Amount cmd)) ->
  exists now w', rtc (conc_step 2 A) (w, fs) (w', fs ++ [mkFlight cmd Checked now]) /\
    w_db w' = w_db w /\ refines_from (- max_int64) w' s /\ w_faults w' = [].
Proof.
  intros Hrf Hf Hck Hm HA Hlen Hfind Hbal. destruct (spec_check_ok _ Hck) as (_ & _ & _ & _ & Hpos).
  assert (tx_begin w = (Ok (clock_Now (w_tick w)), start_tx w)) as Hb by (unfold tx_begin, next_fault; by rewrite Hf).
  set (now := clock_Now (w_tick w)) in *. set (w1 := set_tx now (start_tx w)).
  assert (w_faults w1 = []) as Hf1 by done.
  assert (select_idem (pe_IdempotencyKey cmd) (w_tx w1) (w_seq w1) (w_db w1) = Ok (None, w_db w1)) as Hsel1.
  { unfold select_idem. change (w_db w1) with (w_db w). by rewrite (rf_idem _ _ Hrf), Hfind. }
  pose proof (exec_read _ w1 _ Hf1 Hsel1) as Hk. set (w2 := mkWorld _ _ _ _ _ _ _) in Hk.
  assert (select_balance (pe_AccountID cmd) 1 (w_tx (set_tx now w2)) (w_seq (set_tx now w2)) (w_db (set_tx now w2)) =
    Ok (spec_balance s (pe_AccountID cmd), w_db (set_tx now w2))) as Hsel2.
  { unfold select_balance. change (w_db (set_tx now w2)) with (w_db w). by rewrite (rf_balance _ _ Hrf). }
  pose proof (exec_read _ (set_tx now w2) _ eq_refl Hsel2) as Hr. set (w3 := mkWorld _ _ _ _ _ _ _) in Hr.
  exists now, w3. split_and!; [|done| |done].
  2: { apply (refines_mono w); [done|simpl; lia|done|done]. }
  eapply rtc_l; [apply (conc_begin 2 A cmd w fs now (start_tx w)); try done; [by rewrite PostEntry_validate_run, Hck|lia]|].
  eapply rtc_l; [apply (conc_key 2 A (mkFlight cmd Started now) (start_tx w) fs [] (Ok None) w2); [done|exact Hk]|].
  eapply rtc_l; [|apply rtc_refl].
  apply (conc_check 2 A (mkFlight cmd Missed now) w2 fs [] (Ok tt) w3); [done|].
  unfold in_tx, PostEntry_check. unfold BalanceRepo_GetBalanceKobo. simpl fl_cmd. simpl fl_now. unfold bindM. rewrite Hr. unfold fail_if, cmd_delta.
  rewrite entry_delta_spec by (unfold money_ok, in_int64, AmountKobo in *; lia).
  destruct (bool_decide (pe_Type cmd = EntryTypeWithdrawal)) eqn:Hty; [|done]. simpl.
  pose proof (rf_range _ _ Hrf s (pe_AccountID cmd) (reflexivity _)) as Hrange.
  unfold spec_delta in *. rewrite Hty in *.
  rewrite wrap64_id by (unfold in_int64, min_int64, max_int64 in *; lia).
  by destruct (Z.ltb_spec (spec_balance s (pe_AccountID cmd) + - AmountKobo (pe_Amount cmd)) 0); [lia|].
Qed.

Lemma write_commits now cmd w s : let d := spec_delta (pe_Type cmd) (AmountKobo (pe_Amount cmd)) in
  refines_from (- max_int64) w s -> w_faults w = [] -> spec_check cmd = None -> money_ok (pe_Amount cmd) ->
  spec_find (pe_IdempotencyKey cmd) s = None -> - max_int64 <= spec_balance s (pe_AccountID cmd) + d <= max_int64 ->
  exists id w', in_tx now (tx_commit (PostEntry_write cmd (cmd_delta cmd))) w = (Ok id, w') /\ w_faults w' = [] /\
    refines_from (- max_int64) w' (s ++ [mkPosting (pe_IdempotencyKey cmd) id (pe_AccountID cmd) d]).
Proof.
  intros d Hrf Hf Hck Hm Hfind Hd. destruct (spec_check_ok _ Hck) as (_ & _ & _ & _ & Hpos).
  assert (cmd_delta cmd = d) as -> by (apply entry_delta_spec; unfold money_ok, in_int64, AmountKobo in *; lia).
  assert (refines_from (- max_int64) (set_tx now w) s) as Hrf0 by (by apply (refines_mono w)).
  pose proof (PostEntry_write_gen _ cmd (set_tx now w) s d Hrf0 Hm Hck eq_refl ltac:(lia)) as Hw.
  unfold wpm in Hw. unfold in_tx, tx_commit. destruct (PostEntry_write cmd d (set_tx now w)) as [r w2]. simpl in Hw.
  destruct Hw as (_ & _ & Hf2 & Hr). specialize (Hf2 Hf). destruct r as [id|e].
  - destruct Hr as (_ & _ & _ & Hrf2). exists id, w2. unfold next_fault. simpl in Hf2. by rewrite Hf2.
  - destruct Hr as [[? _]|[[_ Hov]|?]]; [done| |done]. unfold in_int64b, min_int64, max_int64 in *. lia.
Qed.

(** C6. Two withdrawals at the same time overdraw an account: if each of them
    alone is covered by the balance, there is a run in which both are posted,
    because both read the balance before either has written. Together they
    may exceed it, and then the balance is negative. *)
Theorem ledger_overdraft_race c1 c2 w s A : let acc := pe_AccountID c1 in
  let a1 := AmountKobo (pe_Amount c1) in let a2 := AmountKobo (pe_Amount c2) in
  refines w s -> w_faults w = [] -> pe_AccountID c2 = acc ->
  spec_check c1 = None -> spec_check c2 = None -> money_ok (pe_Amount c1) -> money_ok (pe_Amount c2) ->
  pe_Type c1 = EntryTypeWithdrawal -> pe_Type c2 = EntryTypeWithdrawal ->
  pe_IdempotencyKey c1 <> pe_IdempotencyKey c2 ->
  l_idem (w_db w) !! pe_IdempotencyKey c1 = None -> l_idem (w_db w) !! pe_IdempotencyKey c2 = None ->
  a1 <= balance (w_db w) acc 1 -> a2 <= balance (w_db w) acc 1 -> a1 <= A -> a2 <= A ->
  exists w', rtc (conc_step 2 A) (w, []) (w', []) /\
    balance (w_db w') acc 1 = balance (w_db w) acc 1 - a1 - a2.
Proof.
  intros acc a1 a2 Hrf Hf Hacc Hck1 Hck2 Hm1 Hm2 Ht1 Ht2 Hkey Hk1 Hk2 Hb1 Hb2 HA1 HA2.
  pose proof (refines_lower 0 (- max_int64) w s ltac:(unfold max_int64; lia) Hrf) as Hrf0.
  assert (forall key, l_idem (w_db w) !! key = None -> spec_find key s = None) as Hfind.
  { intros key Hn. rewrite (rf_idem _ _ Hrf) in Hn. by destruct (spec_find key s). }
  rewrite (rf_balance _ _ Hrf) in *. pose proof (rf_range _ _ Hrf s acc (reflexivity _)) as Hrange.
  destruct (spec_check_ok _ Hck1) as (_ & _ & _ & _ & Hp1). destruct (spec_check_ok _ Hck2) as (_ & _ & _ & _ & Hp2).
  assert (forall c, pe_Type c = EntryTypeWithdrawal -> spec_delta (pe_Type c) (AmountKobo (pe_Amount c)) = - AmountKobo (pe_Amount c))
    as Hneg by (intros c Ht; unfold spec_delta; by rewrite bool_decide_true).
  destruct (flight_checked A c1 w s []) as (n1 & w1 & Hs1 & Hd1 & Hrf1 & Hf1);
    try done; try (simpl; lia); try (by apply Hfind); [rewrite Hneg by done; fold acc a1; lia|].
  destruct (flight_checked A c2 w1 s [mkFlight c1 Checked n1]) as (n2 & w2 & Hs2 & Hd2 & Hrf2 & Hf2);
    try done; try (simpl; lia); try (by apply Hfind); [rewrite Hneg by done; rewrite Hacc; fold a2; lia|].
  destruct (write_commits n1 c1 w2 s) as (id1 & w3 & Hw1 & Hf3 & Hrf3);
    try done; try (by apply Hfind); [rewrite Hneg by done; fold acc a1; lia|].
  destruct (write_commits n2 c2 w3 _ Hrf3) as (id2 & w4 & Hw2 & Hf4 & Hrf4); try done.
  { rewrite spec_find_snoc, (Hfind _ Hk2). by rewrite bool_decide_false. }
  { rewrite spec_balance_app. simpl. rewrite Hacc, bool_decide_true, !Hneg by done. unfold max_int64 in *. lia. }
  exists w4. split.
  - etrans; [exact Hs1|]. etrans; [exact Hs2|].
    eapply rtc_l; [apply (conc_write 2 A (mkFlight c1 Checked n1) w2 [] [mkFlight c2 Checked n2] (Ok id1) w3); [done|exact Hw1]|].
    eapply rtc_l; [|apply rtc_refl]. apply (conc_write 2 A (mkFlight c2 Checked n2) w3 [] [] (Ok id2) w4); [done|exact Hw2].
  - rewrite (rf_balance _ _ Hrf4), !spec_balance_app. simpl. rewrite Hacc, !bool_decide_true, !Hneg by done. lia.
Qed.
End race.
