(* ===== verification/Account.v ===== *)
(** * The account service ([src/services/account-service])

    The [Account] aggregate, its commands, the projection and its worker, the
    gRPC server, and the ledger as the port the commands call. The database of
    the service is [AccountDB]. *)
From S2P Require Import Prelude GoStrings Json Money EventStore Outbox Ledger.
#[local] Open Scope Z_scope.
#[local] Open Scope go_scope.

(** ** Domain ([domain/account.go], [domain/events.go], [domain/transactions.go]) *)
Definition StatusPending : string := "PENDING".
Definition StatusActive : string := "ACTIVE".
Definition StatusFrozen : string := "FROZEN".
Definition StatusClosed : string := "CLOSED".

Definition ErrAccountNotActive : error := ENew "account not active".
Definition ErrAccountClosed : error := ENew "account closed".

(** [domain.Event] and the structs that implement it. *)
Inductive AccountEvent : Type :=
| AccountOpened (AccountID CustomerID : string) (OccurredAt : Z)
| AccountFrozen (AccountID : string) (OccurredAt : Z)
| AccountClosed (AccountID : string) (OccurredAt : Z)
| MoneyDeposited (AccountID : string) (Amount : Money) (EntryID : string) (OccurredAt : Z)
| MoneyWithdrawn (AccountID : string) (Amount : Money) (EntryID : string) (OccurredAt : Z).

Definition account_EventType (e : AccountEvent) : string :=
  match e with
  | AccountOpened _ _ _ => "account.opened.v1"
  | AccountFrozen _ _ => "account.frozen.v1"
  | AccountClosed _ _ => "account.closed.v1"
  | MoneyDeposited _ _ _ _ => "account.money_deposited.v1"
  | MoneyWithdrawn _ _ _ _ => "account.money_withdrawn.v1"
  end.

Definition account_OccurredAtUTC (e : AccountEvent) : Z :=
  match e with
  | AccountOpened _ _ t | AccountFrozen _ t | AccountClosed _ t
  | MoneyDeposited _ _ _ t | MoneyWithdrawn _ _ _ t => t
  end.

(** [json.Marshal] of an event struct. *)
Definition AccountEvent_Marshal (e : AccountEvent) : json :=
  match e with
  | AccountOpened a c t =>
      JObj [("AccountID", JStr a); ("CustomerID", JStr c); ("OccurredAt", JTime t)]
  | AccountFrozen a t | AccountClosed a t =>
      JObj [("AccountID", JStr a); ("OccurredAt", JTime t)]
  | MoneyDeposited a m i t | MoneyWithdrawn a m i t =>
      JObj [("AccountID", JStr a); ("Amount", Money_Marshal m); ("EntryID", JStr i); ("OccurredAt", JTime t)]
  end.

Record Account : Type := mkAccount {
  a_id : string;
  a_customerID : string;
  a_status : string;
  a_version : Z;
  a_changes : list AccountEvent;
}.

(** [&Account{}] *)
Definition Account_zero : Account := mkAccount "" "" "" 0 [].

Record AccountSnapshot : Type := mkAccountSnapshot {
  as_AccountID : string;
  as_CustomerID : string;
  as_Status : string;
  as_Version : Z;
}.

#[export] Instance AccountSnapshot_Json : Json AccountSnapshot := {|
  Marshal s := JObj [
    ("AccountID", JStr (as_AccountID s));
    ("CustomerID", JStr (as_CustomerID s));
    ("Status", JStr (as_Status s));
    ("Version", JInt (as_Version s))];
  Unmarshal b :=
    let? fs := json_members b in
    let? id := json_string (json_member "AccountID" fs) in
    let? cust := json_string (json_member "CustomerID" fs) in
    let? st := json_string (json_member "Status" fs) in
    let? ver := json_int64 (json_member "Version" fs) in
    Ok (mkAccountSnapshot id cust st ver);
|}.

Definition Account_apply (e : AccountEvent) (a : Account) : Account :=
  match e with
  | AccountOpened id cust _ => mkAccount id cust StatusActive (a_version a) (a_changes a)
  | AccountFrozen _ _ => mkAccount (a_id a) (a_customerID a) StatusFrozen (a_version a) (a_changes a)
  | AccountClosed _ _ => mkAccount (a_id a) (a_customerID a) StatusClosed (a_version a) (a_changes a)
  | MoneyDeposited _ _ _ _ => a
  | MoneyWithdrawn _ _ _ _ => a
  end.

Definition Account_bump (a : Account) : Account :=
  mkAccount (a_id a) (a_customerID a) (a_status a) (wrap64 (a_version a + 1)) (a_changes a).

Definition Account_raise (e : AccountEvent) (a : Account) : Account :=
  Account_bump (Account_apply e
    (mkAccount (a_id a) (a_customerID a) (a_status a) (a_version a) (a_changes a ++ [e]))).

Definition Account_PullChanges (a : Account) : list AccountEvent * Account :=
  (a_changes a, mkAccount (a_id a) (a_customerID a) (a_status a) (a_version a) []).

Definition Account_Snapshot (a : Account) : AccountSnapshot :=
  mkAccountSnapshot (a_id a) (a_customerID a) (a_status a) (a_version a).

(** [a.apply(e); a.version++] over a list of events. *)
Definition Account_replay (evs : list AccountEvent) (a : Account) : Account :=
  fold_left (fun a e => Account_bump (Account_apply e a)) evs a.

Definition Account_Rehydrate (evs : list AccountEvent) : Account := Account_replay evs Account_zero.

Definition Account_RehydrateFromSnapshot (s : AccountSnapshot) (evs : list AccountEvent) : Account :=
  Account_replay evs (mkAccount (as_AccountID s) (as_CustomerID s) (as_Status s) (as_Version s) []).

Definition ValidateNGNAmountPositive (amt : Money) : result unit :=
  if negb (bool_decide (Currency amt = NGN)) then Err ErrCurrencyNotNGN
  else if IsNegativeOrZero amt then Err ErrInvalidAmount
  else Ok tt.

Section domain.
Context `{Env} {DB : Type}.

Definition NewAccount (customerID : string) : M DB Account :=
  fail_if (is_empty customerID) (ENew "customer id required") ;;;
  let! id := ids_New in
  let! now := time_Now in
  retM (Account_raise (AccountOpened id customerID now) Account_zero).

Definition Account_Freeze (a : Account) : M DB Account :=
  fail_if (bool_decide (a_status a = StatusClosed)) ErrAccountClosed ;;;
  fail_if (negb (bool_decide (a_status a = StatusActive))) ErrAccountNotActive ;;;
  let! now := time_Now in
  retM (Account_raise (AccountFrozen (a_id a) now) a).

Definition Account_Close (a : Account) : M DB Account :=
  if bool_decide (a_status a = StatusClosed) then retM a
  else
    fail_if (negb (bool_decide (a_status a = StatusActive))) ErrAccountNotActive ;;;
    let! now := time_Now in
    retM (Account_raise (AccountClosed (a_id a) now) a).
End domain.

(** ** Database ([infrastructure/postgres])

    [accounts_projection] by account_id. *)
Record AccountProjection : Type := mkAccountProjection {
  ap_AccountID : string;
  ap_CustomerID : string;
  ap_Status : string;
  ap_Version : Z;
}.

Record AccountDB : Type := mkAccountDB {
  ac_events : EventTables;
  ac_outbox : OutboxTable;
  ac_projection : gmap string AccountProjection;
}.

#[export] Instance AccountDB_events : Lens AccountDB EventTables := {|
  view := ac_events;
  upd t db := mkAccountDB t (ac_outbox db) (ac_projection db);
|}.
#[export] Instance AccountDB_outbox : Lens AccountDB OutboxTable := {|
  view := ac_outbox;
  upd t db := mkAccountDB (ac_events db) t (ac_projection db);
|}.
#[export] Instance AccountDB_events_ok : LensOk AccountDB EventTables.
Proof. by split; intros; try destruct s. Qed.
#[export] Instance AccountDB_outbox_ok : LensOk AccountDB OutboxTable.
Proof. by split; intros; try destruct s. Qed.

Definition upsert_account (p : AccountProjection) : stmt AccountDB unit := fun _ _ db =>
  Ok (tt, mkAccountDB (ac_events db) (ac_outbox db) (<[ap_AccountID p := p]> (ac_projection db))).

Definition select_account (accountID : string) : stmt AccountDB (option AccountProjection) :=
  fun _ _ db => Ok (ac_projection db !! accountID, db).

Definition AccountProjectionRepo_Upsert (q : Queryer AccountDB) (p : AccountProjection) : M AccountDB unit :=
  q _ (upsert_account p).
Definition AccountProjectionRepo_GetByID (q : Queryer AccountDB) (accountID : string)
  : M AccountDB (option AccountProjection) := q _ (select_account accountID).

(** ** Reading events back ([UnmarshalAccountEvent]) *)
Definition UnmarshalAccountEvent (typ : string) (data : bytes) : result AccountEvent :=
  if bool_decide (typ = "account.opened.v1") then
    let? fs := json_members data in
    let? a := json_string (json_member "AccountID" fs) in
    let? c := json_string (json_member "CustomerID" fs) in
    let? t := json_time (json_member "OccurredAt" fs) in
    Ok (AccountOpened a c t)
  else if bool_decide (typ = "account.frozen.v1") then
    let? fs := json_members data in
    let? a := json_string (json_member "AccountID" fs) in
    let? t := json_time (json_member "OccurredAt" fs) in
    Ok (AccountFrozen a t)
  else if bool_decide (typ = "account.closed.v1") then
    let? fs := json_members data in
    let? a := json_string (json_member "AccountID" fs) in
    let? t := json_time (json_member "OccurredAt" fs) in
    Ok (AccountClosed a t)
  else if bool_decide (typ = "account.money_deposited.v1") then
    let? fs := json_members data in
    let? a := json_string (json_member "AccountID" fs) in
    let? m := json_money (json_member "Amount" fs) in
    let? i := json_string (json_member "EntryID" fs) in
    let? t := json_time (json_member "OccurredAt" fs) in
    Ok (MoneyDeposited a m i t)
  else if bool_decide (typ = "account.money_withdrawn.v1") then
    let? fs := json_members data in
    let? a := json_string (json_member "AccountID" fs) in
    let? m := json_money (json_member "Amount" fs) in
    let? i := json_string (json_member "EntryID" fs) in
    let? t := json_time (json_member "OccurredAt" fs) in
    Ok (MoneyWithdrawn a m i t)
  else Err (ENew ("unknown account event type: " +:+ typ)).

Fixpoint unmarshal_account_events (evs : list Event) : result (list AccountEvent) :=
  match evs with
  | [] => Ok []
  | se :: evs' =>
      let? ev := UnmarshalAccountEvent (ev_Type se) (ev_Data se) in
      let? des := unmarshal_account_events evs' in
      Ok (ev :: des)
  end.

(** ** Commands ([application/commands]) *)
Definition accountEventsTopicV1 : string := "banking.accounts.v1".

(** [LoadAccount]: the latest snapshot, then the events after it. *)
Definition LoadAccount (accountID : string) : M AccountDB Account :=
  let! snap := LoadLatestSnapshot (@exec AccountDB) accountID in
  let! snapState := (match snap with
                     | None => retM None
                     | Some sn =>
                         let! s := liftR (Unmarshal (sn_Data sn)) in
                         retM (Some (s : AccountSnapshot))
                     end) in
  let fromVer := match snap with None => 0 | Some sn => sn_Version sn end in
  let! events := Read (@exec AccountDB) accountID fromVer 10000 in
  let! des := liftR (unmarshal_account_events events) in
  retM (match snapState with
        | Some s => Account_RehydrateFromSnapshot s des
        | None => Account_Rehydrate des
        end).

Definition account_saveSnapshot `{Env} (ag : Account) (aggregateID : string) (version : Z) : M AccountDB unit :=
  let s := Account_Snapshot ag in
  let s := mkAccountSnapshot (as_AccountID s) (as_CustomerID s) (as_Status s) version in
  let! now := time_Now in
  SaveSnapshot (@exec AccountDB) (mkSnapshot aggregateID "account" version now (BJson (Marshal s))).

(** [outboxEventEnvelope]; [data] is a [[]byte], base64 in JSON. *)
Definition outboxEventEnvelope (eventType aggregateID aggregateType : string)
    (version occurredAtUTC : Z) (data : json) : json := JObj [
  ("event_type", JStr eventType);
  ("aggregate_id", JStr aggregateID);
  ("aggregate_type", JStr aggregateType);
  ("version", JInt version);
  ("occurred_at_utc", JTime occurredAtUTC);
  ("data", JB64 data)].

Definition envelope_headers (eventType aggregateID aggregateType : string) : gmap string string :=
  <["event_type" := eventType]> (<["aggregate_id" := aggregateID]>
    (<["aggregate_type" := aggregateType]> {["schema" := "json-envelope.v1"]})).

Section account_tx.
Context `{Env}.

Definition account_enqueue (accountID : string) (ver : Z) (ev : AccountEvent) : M AccountDB unit :=
  let! id := ids_New in
  let! now := time_Now in
  Enqueue (@exec AccountDB)
    (mkMsg id accountEventsTopicV1 (BRaw accountID)
       (BJson (outboxEventEnvelope (account_EventType ev) accountID "account" ver
                 (account_OccurredAtUTC ev) (AccountEvent_Marshal ev)))
       (envelope_headers (account_EventType ev) accountID "account") now None).

Definition account_event (id accountID : string) (ver : Z) (ev : AccountEvent) : Event :=
  mkEvent id accountID "account" ver (account_EventType ev) (account_OccurredAtUTC ev)
    (BJson (AccountEvent_Marshal ev)) None.

(** The loop of [OpenAccount] over the new events, versions from [i + 1]. *)
Fixpoint open_toAppend (accountID : string) (i : Z) (evs : list AccountEvent) : M AccountDB (list Event) :=
  match evs with
  | [] => retM []
  | ev :: evs' =>
      let! id := ids_New in
      wrap_err "enqueue outbox" (account_enqueue accountID (i + 1) ev) ;;;
      let! rest := open_toAppend accountID (i + 1) evs' in
      retM (account_event id accountID (i + 1) ev :: rest)
  end.

Definition OpenAccount_tx (customerID : string) : M AccountDB (string * Z) :=
  let! ag := NewAccount customerID in
  let '(events, ag) := Account_PullChanges ag in
  let! toAppend := open_toAppend (a_id ag) 0 events in
  wrap_err "append events" (Append (@exec AccountDB) toAppend) ;;;
  AccountProjectionRepo_Upsert (@exec AccountDB)
    (mkAccountProjection (a_id ag) (a_customerID ag) (a_status ag) (a_version ag)) ;;;
  retM (a_id ag, a_version ag).

Definition OpenAccountHandler_Handle (customerID idempotencyKey : string) : M AccountDB (string * Z) :=
  fail_if (is_empty customerID) (ENew "customer id required") ;;;
  fail_if (is_empty idempotencyKey) (ENew "idempotency key required") ;;;
  with_tx (OpenAccount_tx customerID).

(** The transaction of a deposit or a withdrawal; [mk] builds the event from
    the account id and the instant. *)
Definition account_record (accountID : string) (mk : string -> Z -> AccountEvent) : M AccountDB unit :=
  let! ag := LoadAccount accountID in
  fail_if (negb (bool_decide (a_status ag = StatusActive))) ErrAccountNotActive ;;;
  let! now := time_Now in
  let ev := mk accountID now in
  let ver := wrap64 (a_version ag + 1) in
  let! id := ids_New in
  wrap_err "append account event" (Append (@exec AccountDB) [account_event id accountID ver ev]) ;;;
  (if Z.rem ver 50 =? 0 then account_saveSnapshot ag accountID ver else retM tt) ;;;
  AccountProjectionRepo_Upsert (@exec AccountDB)
    (mkAccountProjection accountID (a_customerID ag) (a_status ag) ver) ;;;
  account_enqueue accountID ver ev.
End account_tx.

(** ** The ledger as the account service sees it ([ports/ledger_client.go]) *)
Definition LedgerEntryTypeDeposit : string := "DEPOSIT".
Definition LedgerEntryTypeWithdrawal : string := "WITHDRAWAL".

Class LedgerClient (DB : Type) := {
  ledger_PostEntry (idempotencyKey accountID typ : string) (amount : Money) (narration : string) : M DB string;
  ledger_GetBalance (accountID : string) : M DB Money;
}.

Record MoneyCommand : Type := mkMoneyCommand {
  mc_AccountID : string;
  mc_Amount : Money;
  mc_IdempotencyKey : string;
  mc_Narration : string;
}.

(** Two structs in the source, with the same fields. *)
Definition DepositMoney : Type := MoneyCommand.
Definition WithdrawMoney : Type := MoneyCommand.

(** ** Request messages and projections of the gRPC server *)
Record MoneyRequest : Type := mkMoneyRequest {
  mr_AccountId : string;
  mr_Amount : option proto_Money;
  mr_IdempotencyKey : string;
  mr_Narration : string;
}.

Record GetAccountResponse : Type := mkGetAccountResponse {
  ga_AccountId : string;
  ga_CustomerId : string;
  ga_Status : string;
  ga_AvailableBalance : proto_Money;
}.

Section handlers.
Context `{Env} {DB : Type} `{Lens DB AccountDB} `{LedgerClient DB}.

Definition money_command_check (cmd : MoneyCommand) : M DB unit :=
  fail_if (is_empty (mc_AccountID cmd)) (ENew "account id required") ;;;
  fail_if (is_empty (mc_IdempotencyKey cmd)) (ENew "idempotency key required") ;;;
  liftR (ValidateNGNAmountPositive (mc_Amount cmd)).

Definition DepositMoneyHandler_Handle (cmd : DepositMoney) : M DB (string * string) :=
  money_command_check cmd ;;;
  let! entryID := ledger_PostEntry (mc_IdempotencyKey cmd) (mc_AccountID cmd) LedgerEntryTypeDeposit
                    (mc_Amount cmd) (mc_Narration cmd) in
  zoom (with_tx (account_record (mc_AccountID cmd)
                   (fun acc now => MoneyDeposited acc (mc_Amount cmd) entryID now))) ;;;
  retM (mc_AccountID cmd, entryID).

Definition WithdrawMoneyHandler_Handle (cmd : WithdrawMoney) : M DB (string * string) :=
  money_command_check cmd ;;;
  let! entryID := ledger_PostEntry (mc_IdempotencyKey cmd) (mc_AccountID cmd) LedgerEntryTypeWithdrawal
                    (mc_Amount cmd) (mc_Narration cmd) in
  zoom (with_tx (account_record (mc_AccountID cmd)
                   (fun acc now => MoneyWithdrawn acc (mc_Amount cmd) entryID now))) ;;;
  retM (mc_AccountID cmd, entryID).

(** ** The gRPC server ([infrastructure/grpc/server.go]) *)
Definition account_server_OpenAccount (customerId idempotencyKey : string) : M DB string :=
  fail_if (is_empty customerId) (ENew "customer_id required") ;;;
  let! '(id, _) := zoom (OpenAccountHandler_Handle customerId idempotencyKey) in
  retM id.

Definition account_server_Deposit (req : MoneyRequest) : M DB string :=
  match mr_Amount req with
  | None => failM (ENew "amount required")
  | Some pm =>
      let! amt := liftR (money_New (pm_AmountKobo pm) (pm_Currency pm)) in
      let! '(_, entryID) := DepositMoneyHandler_Handle
        (mkMoneyCommand (mr_AccountId req) amt (mr_IdempotencyKey req) (mr_Narration req)) in
      retM entryID
  end.

Definition account_server_Withdraw (req : MoneyRequest) : M DB string :=
  match mr_Amount req with
  | None => failM (ENew "amount required")
  | Some pm =>
      let! amt := liftR (money_New (pm_AmountKobo pm) (pm_Currency pm)) in
      let! '(_, entryID) := WithdrawMoneyHandler_Handle
        (mkMoneyCommand (mr_AccountId req) amt (mr_IdempotencyKey req) (mr_Narration req)) in
      retM entryID
  end.

Definition account_server_GetAccount (accountId : string) : M DB GetAccountResponse :=
  fail_if (is_empty accountId) (ENew "account_id required") ;;;
  let! p := zoom (with_tx (
              let! o := AccountProjectionRepo_GetByID (@exec AccountDB) accountId in
              match o with
              | None => failM (ENew "account not found")
              | Some p => retM p
              end)) in
  let! bal := ledger_GetBalance accountId in
  retM (mkGetAccountResponse accountId (ap_CustomerID p) (ap_Status p)
          (mkProtoMoney (Currency bal) (AmountKobo bal))).
End handlers.

(** ** The ledger client ([infrastructure/grpc/ledger_client.go])

    [call] and [call_balance] are the generated stubs: the calls on the
    wire. *)
Section ledger_client.
Context {DB : Type}.
Variable call : option PostEntryRequest -> M DB string.
Variable call_balance : option (option string) -> M DB (option proto_Money).

Definition LedgerClient_PostEntry (idempotencyKey accountID typ : string) (amount : Money)
    (narration : string) : M DB string :=
  let! et := (if bool_decide (typ = LedgerEntryTypeDeposit) then retM ENTRY_TYPE_DEPOSIT
              else if bool_decide (typ = LedgerEntryTypeWithdrawal) then retM ENTRY_TYPE_WITHDRAWAL
              else failM (ENew "unsupported entry type")) in
  call (Some (mkPostEntryRequest idempotencyKey et (Some accountID)
                (Some (mkProtoMoney (Currency amount) (AmountKobo amount))) narration)).

Definition LedgerClient_GetBalance (accountID : string) : M DB Money :=
  let! resp := call_balance (Some (Some accountID)) in
  match resp with
  | None => liftR (money_New 0 NGN)
  | Some pm => liftR (money_New (pm_AmountKobo pm) (pm_Currency pm))
  end.
End ledger_client.

(** ** The projection worker ([application/workers/projection_worker.go]) *)
Section worker.
Context `{Env}.

(** The fields after an event; [None]: the event type is not one of the
    account's. *)
Definition account_project_fields (e : Event) (p : AccountProjection) : result (option AccountProjection) :=
  if bool_decide (ev_Type e = "account.opened.v1") then
    let? fs := json_members (ev_Data e) in
    let? _ := json_string (json_member "AccountID" fs) in
    let? c := json_string (json_member "CustomerID" fs) in
    let? _ := json_time (json_member "OccurredAt" fs) in
    Ok (Some (mkAccountProjection (ap_AccountID p) c StatusActive (ap_Version p)))
  else if bool_decide (ev_Type e = "account.frozen.v1") then
    Ok (Some (mkAccountProjection (ap_AccountID p) (ap_CustomerID p) StatusFrozen (ap_Version p)))
  else if bool_decide (ev_Type e = "account.closed.v1") then
    Ok (Some (mkAccountProjection (ap_AccountID p) (ap_CustomerID p) StatusClosed (ap_Version p)))
  else if bool_decide (ev_Type e = "account.money_deposited.v1") then Ok (Some p)
  else if bool_decide (ev_Type e = "account.money_withdrawn.v1") then Ok (Some p)
  else Ok None.

Definition account_project (e : Event) : M AccountDB unit :=
  if negb (bool_decide (ev_AggregateType e = "account")) then retM tt
  else
    let! o := AccountProjectionRepo_GetByID (@autoexec _ AccountDB) (ev_AggregateID e) in
    let p := default (mkAccountProjection (ev_AggregateID e) "" "" 0) o in
    let! o' := liftR (account_project_fields e p) in
    match o' with
    | None => retM tt
    | Some p =>
        let p := mkAccountProjection (ap_AccountID p) (ap_CustomerID p) (ap_Status p) (ev_Version e) in
        if is_empty (ap_CustomerID p) then retM tt
        else
          let p := if is_empty (ap_Status p)
                   then mkAccountProjection (ap_AccountID p) (ap_CustomerID p) StatusActive (ap_Version p)
                   else p in
          AccountProjectionRepo_Upsert (@autoexec _ AccountDB) p
    end.

Definition account_worker_batch : Z := 100.

Definition account_processNextBatch (lastSeq : Z) : M AccountDB (Z * Z) :=
  let! '(events, nextSeq) := ReadAll (@autoexec _ AccountDB) lastSeq account_worker_batch in
  forM events account_project ;;;
  retM (Z.of_nat (length events), nextSeq).

(** [Start]: one batch per tick; the cursor lives in memory, from 0. *)
Fixpoint account_worker_run (ticks : nat) (lastSeq : Z) : M AccountDB Z :=
  match ticks with
  | O => retM lastSeq
  | S n =>
      let! r := tryM (account_processNextBatch lastSeq) in
      account_worker_run n
        (match r with
         | Ok (processed, nextSeq) => if 0 <? processed then nextSeq else lastSeq
         | Err _ => lastSeq
         end)
  end.
End worker.
