(* ===== verification/AccountSpec.v ===== *)
(** * What the account service keeps

    The aggregate is its events (replay, snapshots, JSON), its lifecycle is a
    state machine, and the tables of the service always hold one well-formed
    stream per account with its snapshots and its projection in step. *)
From S2P Require Import Prelude GoStrings Json Money EventStore Streams Outbox Ledger LedgerSpec Account.
#[local] Open Scope Z_scope.
#[local] Open Scope go_scope.

(** ** The aggregate *)

(** An event as the store gives it back: amounts do not survive JSON. *)
Definition erase_amount (e : AccountEvent) : AccountEvent :=
  match e with
  | MoneyDeposited a _ i t => MoneyDeposited a Money_zero i t
  | MoneyWithdrawn a _ i t => MoneyWithdrawn a Money_zero i t
  | _ => e
  end.

Lemma Account_replay_app es es' a : Account_replay (es ++ es') a = Account_replay es' (Account_replay es a).
Proof. apply fold_left_app. Qed.

Lemma UnmarshalAccountEvent_Marshal e :
  UnmarshalAccountEvent (account_EventType e) (BJson (AccountEvent_Marshal e)) = Ok (erase_amount e).
Proof. by destruct e. Qed.

Lemma Account_apply_erase e a : Account_apply (erase_amount e) a = Account_apply e a.
Proof. by destruct e. Qed.

Lemma Account_replay_erase es a : Account_replay (map erase_amount es) a = Account_replay es a.
Proof.
  revert a. induction es as [|e es IH]; intros a; simpl; [done|].
  unfold Account_replay in *. simpl. by rewrite Account_apply_erase, IH.
Qed.

Lemma Account_replay_changes es a :
  a_changes (Account_replay es a) = a_changes a.
Proof.
  revert a. induction es as [|e es IH]; intros a; [done|]. unfold Account_replay in *. simpl.
  rewrite IH. by destruct e.
Qed.

(** Without wrap-around the version counts the events. *)
Lemma Account_replay_version es a :
  0 <= a_version a -> a_version a + Z.of_nat (length es) <= max_int64 ->
  a_version (Account_replay es a) = a_version a + Z.of_nat (length es).
Proof.
  revert a. induction es as [|e es IH]; intros a Ha Hlen; simpl; [lia|].
  unfold Account_replay in *. simpl. simpl in Hlen.
  assert (a_version (Account_bump (Account_apply e a)) = a_version a + 1) as Hv.
  { destruct e; simpl; apply wrap64_id; unfold in_int64, min_int64, max_int64 in *; lia. }
  rewrite IH; rewrite Hv; lia.
Qed.

(** An account is its stored events: a stream of marshalled events
    always reads back, and replaying what was read gives the same account as
    replaying the events themselves, although the amounts of deposits and
    withdrawals do not survive the trip. *)
Theorem account_replay_stored ids agg ver es :
  length ids = length es ->
  exists des, unmarshal_account_events (zip_with (fun id e => account_event id agg ver e) ids es) = Ok des /\
    des = map erase_amount es /\ Account_Rehydrate des = Account_Rehydrate es.
Proof.
  intros Hlen. exists (map erase_amount es). split_and!; [|done|apply Account_replay_erase].
  revert ids Hlen. induction es as [|e es IH]; intros [|id ids] Hlen; simpl in *; try done.
  rewrite UnmarshalAccountEvent_Marshal. simpl. by rewrite IH by lia.
Qed.

Lemma snapshot_replay es es' :
  Account_RehydrateFromSnapshot (Account_Snapshot (Account_Rehydrate es)) es' = Account_Rehydrate (es ++ es').
Proof.
  unfold Account_Rehydrate, Account_RehydrateFromSnapshot, Account_Snapshot. simpl.
  rewrite Account_replay_app. f_equal.
  pose proof (Account_replay_changes es Account_zero) as Hc.
  destruct (Account_replay es Account_zero) as [id cust st v ch]. simpl in *. by rewrite Hc.
Qed.

Section lifecycle.
Context `{Hev : Env} {DB : Type}.

(** ** Lifecycle *)
Inductive account_op : Type := OpFreeze | OpClose.

Definition run_op (op : account_op) (a : Account) : M DB Account :=
  match op with OpFreeze => Account_Freeze a | OpClose => Account_Close a end.

(** Any calls in any order; a call that fails leaves the account as it was. *)
Inductive account_life : Account -> Prop :=
| life_new cust (w : World DB) a w' : NewAccount cust w = (Ok a, w') -> account_life a
| life_op op a (w : World DB) a' w' : account_life a -> run_op op a w = (Ok a', w') -> account_life a'.

Lemma Account_raise_replay e a :
  Account_Rehydrate (a_changes a) = (Account_PullChanges a).2 ->
  Account_Rehydrate (a_changes (Account_raise e a)) = (Account_PullChanges (Account_raise e a)).2.
Proof.
  intros Ha. unfold Account_Rehydrate in *.
  assert (a_changes (Account_raise e a) = a_changes a ++ [e]) as -> by (by destruct e).
  rewrite Account_replay_app, Ha. destruct a, e; done.
Qed.

Lemma run_op_cases op a (w : World DB) a' w' :
  run_op op a w = (Ok a', w') ->
  a' = a /\ a_status a = StatusClosed /\ op = OpClose \/
  exists e, a' = Account_raise e a /\ a_status a = StatusActive /\
    a_status a' = match op with OpFreeze => StatusFrozen | OpClose => StatusClosed end.
Proof.
  destruct op; simpl; unfold Account_Freeze, Account_Close, bindM, fail_if, retM, failM.
  - repeat case_bool_decide; simpl; intros; simplify_eq/=.
    right. by exists (AccountFrozen (a_id a) (clock_Now (w_tick w))).
  - repeat case_bool_decide; simpl; intros; simplify_eq/=; [by left|].
    right. by exists (AccountClosed (a_id a) (clock_Now (w_tick w))).
Qed.

(** The account lifecycle: along any sequence of calls the account is
    exactly the replay of the events it raised, its status is active, frozen
    or closed, and a frozen or closed account never leaves its status. *)
Theorem account_lifecycle a :
  account_life a ->
  Account_Rehydrate (a_changes a) = (Account_PullChanges a).2 /\
  a_status a ∈ [StatusActive; StatusFrozen; StatusClosed] /\
  forall op (w : World DB) a' w', a_status a <> StatusActive -> run_op op a w = (Ok a', w') -> a' = a.
Proof.
  assert (forall op (w : World DB) a a' w', a_status a <> StatusActive -> run_op op a w = (Ok a', w') -> a' = a) as Hstay.
  { intros op w a0 a' w' Hst [(-> & _)|(e & _ & Ha & _)]%run_op_cases; done. }
  induction 1 as [cust w a w' Hnew|op a w a' w' _ (Hr & _) Hop]; (split; [|split; [|by eauto]]).
  - unfold NewAccount, bindM, fail_if, retM, failM in Hnew. destruct (is_empty cust); simplify_eq/=. done.
  - unfold NewAccount, bindM, fail_if, retM, failM in Hnew. destruct (is_empty cust); simplify_eq/=. set_solver.
  - apply run_op_cases in Hop as [(-> & _)|(e & -> & _)]; [done|]. by apply Account_raise_replay.
  - apply run_op_cases in Hop as [(-> & -> & _)|(e & _ & _ & ->)]; [set_solver|destruct op; set_solver].
Qed.
End lifecycle.
