(* ===== verification/AccountStore.v ===== *)
(** * The tables of the account service stay consistent

    The invariant of the service's database and the proof that opening an
    account and recording a deposit or a withdrawal keep it; loading an
    account is replaying its whole stream. *)
From S2P Require Import Prelude GoStrings Json Money EventStore Streams Outbox Ledger LedgerSpec Account.
From S2P Require Import AccountSpec.
#[local] Open Scope Z_scope.
#[local] Open Scope go_scope.

Definition account_decode (e : Event) : result AccountEvent := UnmarshalAccountEvent (ev_Type e) (ev_Data e).

Definition is_money (e : AccountEvent) : bool :=
  match e with MoneyDeposited _ _ _ _ | MoneyWithdrawn _ _ _ _ => true | _ => false end.

(** The state of an account after its first events. *)
Definition account_at (ds : list AccountEvent) : Account := Account_Rehydrate ds.

Definition projection_of (agg : string) (ds : list AccountEvent) : AccountProjection :=
  mkAccountProjection agg (a_customerID (account_at ds)) (a_status (account_at ds)) (Z.of_nat (length ds)).

(** A stream opens with the opening of its account and holds deposits and
    withdrawals after it. *)
Definition stream_shape (agg : string) (ds : list AccountEvent) : Prop :=
  exists cust t rest, ds = AccountOpened agg cust t :: rest /\ cust <> "" /\ Forall (fun e => is_money e = true) rest.

(** A snapshot is the state at its version; there is one every 50 events. *)
Definition snapshot_ok (st : gmap string (list AccountEvent)) (s : Snapshot) : Prop :=
  exists k, sn_Version s = Z.of_nat k /\ (0 < k <= length (events_of st (sn_AggregateID s)))%nat /\
    Unmarshal (sn_Data s) = Ok (Account_Snapshot (account_at (take k (events_of st (sn_AggregateID s))))).

Definition snapshots_complete (st : gmap string (list AccountEvent)) (ss : list Snapshot) : Prop :=
  forall agg k, (0 < k)%nat -> (50 * k <= length (events_of st agg))%nat ->
    exists s, s ∈ ss /\ sn_AggregateID s = agg /\ sn_Version s = Z.of_nat (50 * k).

Record account_inv `{Env} (w : World AccountDB) (st : gmap string (list AccountEvent)) : Prop := {
  ai_wf : tables_wf (w_seq w) (ac_events (w_db w));
  ai_seq : 0 < w_seq w;
  ai_log : Forall (fun r => 0 < er_sequence r /\ ev_AggregateType (er_event r) = "account") (events (ac_events (w_db w)));
  ai_ids : Forall (fun r => fresh_from (w_uuid w) (ev_ID (er_event r))) (events (ac_events (w_db w)));
  ai_streams : streams account_decode (ac_events (w_db w)) st;
  ai_shape : map_Forall stream_shape st;
  ai_aggs : forall agg ds, st !! agg = Some ds -> fresh_from (w_uuid w) agg;
  ai_snapshots : Forall (snapshot_ok st) (snapshots (ac_events (w_db w)));
  ai_complete : snapshots_complete st (snapshots (ac_events (w_db w)));
  ai_projection : forall agg, ac_projection (w_db w) !! agg = projection_of agg <$> st !! agg;
  ai_columns : ob_columns (ac_outbox (w_db w)) = migrated_columns;
  ai_outbox : Forall (fun r => fresh_from (w_uuid w) (or_id r)) (ob_rows (ac_outbox (w_db w)));
}.

(** Fewer events than the largest version number. *)
Definition roomy (st : gmap string (list AccountEvent)) (agg : string) : Prop :=
  Z.of_nat (length (events_of st agg)) < max_int64.

#[export] Instance AccountSnapshot_RoundTrip :
  JsonRoundTrip AccountSnapshot (fun s => in_int64 (as_Version s)).
Proof.
  split. intros [id cust st ver] Hv. simpl in Hv.
  unfold Unmarshal, AccountSnapshot_Json, Marshal. simpl. by rewrite (proj2 (in_int64b_spec ver)).
Qed.

Section store.
Context `{Hev : Env} `{Henv : !EnvOk}.
Implicit Types (w : World AccountDB) (st : gmap string (list AccountEvent)).

Lemma account_inv_later w w' st : w_db w' = w_db w -> later w w' -> account_inv w st -> account_inv w' st.
Proof.
  intros Hdb (Hsq & Hu & _) []. rewrite <-Hdb in *. split; try done.
  - by eapply tables_wf_mono.
  - lia.
  - eapply Forall_impl; [done|]. intros ?; simpl. by apply fresh_from_mono.
  - intros agg ds Hagg. eapply fresh_from_mono; [done|]. by eapply ai_aggs0.
  - eapply Forall_impl; [done|]. intros ?; simpl. by apply fresh_from_mono.
Qed.

Lemma account_inv_same w w' st :
  w_db w' = w_db w -> w_seq w' = w_seq w -> w_uuid w' = w_uuid w -> account_inv w st -> account_inv w' st.
Proof. destruct w, w'; simpl. intros -> -> -> []. by split. Qed.

Lemma unmarshal_encodes v rows ds :
  encodes account_decode v rows ds -> unmarshal_account_events rows = Ok ds.
Proof.
  revert v ds. induction rows as [|e rows IH]; intros v [|d ds]; simpl; try done.
  intros (_ & Hd & Hr). unfold account_decode in Hd. rewrite Hd. simpl. by rewrite (IH _ _ Hr).
Qed.

Lemma account_version ds :
  Z.of_nat (length ds) <= max_int64 -> a_version (account_at ds) = Z.of_nat (length ds).
Proof. intros Hl. unfold account_at, Account_Rehydrate. rewrite Account_replay_version; simpl; lia. Qed.

Lemma account_at_money ds e :
  is_money e = true -> a_customerID (account_at (ds ++ [e])) = a_customerID (account_at ds) /\
  a_status (account_at (ds ++ [e])) = a_status (account_at ds) /\ a_id (account_at (ds ++ [e])) = a_id (account_at ds).
Proof.
  intros Hm. unfold account_at, Account_Rehydrate. rewrite Account_replay_app.
  destruct e; try done.
Qed.

(** The latest snapshot leaves fewer than 50 events to replay. *)
Lemma latest_snapshot_post st ss agg :
  Forall (snapshot_ok st) ss -> snapshots_complete st ss ->
  let o := head (order_by (fun s => - sn_Version s) (List.filter (fun s => bool_decide (sn_AggregateID s = agg)) ss)) in
  match o with
  | Some s => exists k, sn_Version s = Z.of_nat k /\ (k <= length (events_of st agg))%nat /\
      (length (events_of st agg) < k + 50)%nat /\
      Unmarshal (sn_Data s) = Ok (Account_Snapshot (account_at (take k (events_of st agg))))
  | None => (length (events_of st agg) < 50)%nat
  end.
Proof.
  intros Hok Hall. rewrite Forall_forall in Hok. simpl.
  set (n := length (events_of st agg)).
  assert (n = 50 * (n / 50) + n mod 50 /\ n mod 50 < 50)%nat as [Hn Hm]
    by (split; [apply Nat.div_mod_eq|apply Nat.mod_upper_bound; lia]).
  pose proof (head_order_by (fun s => - sn_Version s)
    (List.filter (fun s => bool_decide (sn_AggregateID s = agg)) ss)) as Hhead.
  destruct (head _) as [s|].
  - destruct Hhead as [[Hin Hagg]%elem_of_filter_list Hmax]. apply bool_decide_eq_true in Hagg.
    destruct (Hok s Hin) as (k & Hk & Hle & Hu). rewrite Hagg in *. exists k. split_and!; [done|lia| |done].
    destruct (decide (n / 50 = 0)%nat) as [Hz|Hz]; [unfold n in *; lia|].
    destruct (Hall agg (n / 50)%nat) as (s' & Hs' & Ha' & Hv'); [lia|unfold n in *; lia|].
    specialize (Hmax s'). rewrite elem_of_filter_list in Hmax.
    specialize (Hmax (conj Hs' (bool_decide_eq_true_2 _ Ha'))). unfold n in *. lia.
  - destruct (decide (n / 50 = 0)%nat) as [Hz|Hz]; [lia|].
    destruct (Hall agg (n / 50)%nat) as (s' & Hs' & Ha' & Hv'); [lia|unfold n in *; lia|].
    assert (s' ∈ List.filter (fun s => bool_decide (sn_AggregateID s = agg)) ss) as Hin
      by (apply elem_of_filter_list; split; [done|by apply bool_decide_eq_true]).
    rewrite Hhead in Hin. by apply not_elem_of_nil in Hin.
Qed.

Lemma latest_is_snapshot st ss agg s :
  Forall (snapshot_ok st) ss ->
  head (order_by (fun s => - sn_Version s) (List.filter (fun s => bool_decide (sn_AggregateID s = agg)) ss)) = Some s ->
  sn_AggregateID s = agg /\ snapshot_ok st s.
Proof.
  intros Hok Hh. pose proof (head_order_by (fun s => - sn_Version s)
    (List.filter (fun s => bool_decide (sn_AggregateID s = agg)) ss)) as Ho. rewrite Hh in Ho.
  destruct Ho as [[Hin Ha%bool_decide_eq_true]%elem_of_filter_list _]. rewrite Forall_forall in Hok. auto.
Qed.

Definition load_post w st agg (r : result Account) w' : Prop :=
  w_db w' = w_db w /\ later w w' /\
  (r = Ok (account_at (events_of st agg)) \/ (w_faults w <> [] /\ r = Err ENet)).

Definition snap_version (snap : option Snapshot) : Z := match snap with None => 0 | Some sn => sn_Version sn end.
(** The rest of [LoadAccount] once the snapshot is read *)
Definition load_events (accountID : string) (snap : option Snapshot) : M AccountDB Account :=
  let! snapState := (match snap with
                     | None => retM None
                     | Some sn =>
                         let! s := liftR (Unmarshal (sn_Data sn)) in
                         retM (Some (s : AccountSnapshot))
                     end) in
  let! events := Read (@exec AccountDB) accountID (snap_version snap) 10000 in
  let! des := liftR (unmarshal_account_events events) in
  retM (match snapState with
        | Some s => Account_RehydrateFromSnapshot s des
        | None => Account_Rehydrate des
        end).

(** A snapshot of the account, also one that has been overtaken, and the
    events after it give the account. *)
Lemma load_events_post w st agg snap :
  account_inv w st ->
  match snap with Some s => sn_AggregateID s = agg /\ snapshot_ok st s | None => True end ->
  Z.of_nat (length (events_of st agg)) <= snap_version snap + 10000 ->
  wpm (load_events agg snap) (load_post w st agg) w.
Proof.
  intros [] Hsnap Hlen. destruct w as [[evs ob pr] sq u t tx fl sn]; simpl in *.
  assert (exists k ss, snap_version snap = Z.of_nat k /\ (k <= length (events_of st agg))%nat /\
    (forall des, match ss with Some s => Account_RehydrateFromSnapshot s des | None => Account_Rehydrate des end =
       account_at (take k (events_of st agg) ++ des)) /\
    forall Q w0, Q (Ok ss) w0 -> wpm (match snap with
       | None => retM None
       | Some sn => let! s := liftR (Unmarshal (sn_Data sn)) in retM (Some (s : AccountSnapshot))
       end) Q w0) as (k & ss & Hk & Hle & Hre & Hrun).
  { destruct snap as [s|]; [|exists 0%nat, None; split_and!; [done|lia|done|]; intros Q w0 HQ; by wp_step].
    destruct Hsnap as (<- & k & Hk & Hle & Hu). exists k, (Some (Account_Snapshot (account_at (take k (events_of st (sn_AggregateID s)))))).
    split_and!; [done|lia|intros des; apply snapshot_replay|]. intros Q w0 HQ. wp_step. wp_step. rewrite Hu. by wp_step. }
  unfold load_events. wp_step. apply Hrun. wp_step. rewrite Hk. unfold Read. apply wpm_exec.
  { intros Hfl. split_and!; [done| |by right]. split_and!; simpl; [lia|lia|by intros ->]. }
  rewrite on_run. destruct (select_stream_run account_decode agg k (default_limit 10000) tx sq evs st)
    as (rows & Hrows & Henc); [done|rewrite length_drop; unfold default_limit; simpl; lia|].
  simpl (view _). rewrite Hrows. wp_steps. rewrite (unmarshal_encodes _ _ _ Henc). wp_steps.
  split; [done|]; split; [split_and!; simpl; [lia|lia|by intros ->]|left]. by rewrite Hre, take_drop.
Qed.

Lemma LoadAccount_post w st agg :
  account_inv w st -> wpm (LoadAccount agg) (load_post w st agg) w.
Proof.
  intros Hinv. pose proof Hinv as []. destruct w as [[evs ob pr] sq u t tx fl sn]; simpl in *.
  change (LoadAccount agg) with (let! snap := LoadLatestSnapshot (@exec AccountDB) agg in load_events agg snap).
  wp_step. unfold LoadLatestSnapshot. apply wpm_exec.
  { intros Hfl. split_and!; [done| |by right]. split_and!; simpl; [lia|lia|by intros ->]. }
  rewrite on_run. unfold select_latest_snapshot. simpl (view _).
  pose proof (latest_snapshot_post st _ agg ai_snapshots0 ai_complete0) as Hlatest. cbv zeta in Hlatest.
  pose proof (latest_is_snapshot st (snapshots evs) agg) as His.
  set (snap := head _) in *. simpl (upd _ _).
  set (w1 := mkWorld _ (sq + 1) _ _ _ _ _). assert (later (mkWorld (mkAccountDB evs ob pr) sq u t tx fl sn) w1) as Hl
    by (split_and!; simpl; [lia|lia|by intros ->]).
  eapply wpm_mono; [|apply (load_events_post w1 st agg snap)].
  - intros r w2 (Hdb & Hl2 & Hr). split_and!; [done|by eapply later_trans|]. destruct Hr as [?|[Hne ?]]; [by left|right].
    split; [|done]. intros Hnil. by apply Hne, Hl.
  - by apply (account_inv_later (mkWorld (mkAccountDB evs ob pr) sq u t tx fl sn)).
  - destruct snap as [s|]; [|done]. by apply His.
  - destruct snap as [s|]; simpl; [destruct Hlatest as (k & -> & _ & Hlt & _)|]; lia.
Qed.

(** ** One more event *)
Lemma events_of_insert st agg ds agg' :
  events_of (<[agg := ds]> st) agg' = if bool_decide (agg' = agg) then ds else events_of st agg'.
Proof.
  unfold events_of. case_bool_decide; subst; [by rewrite lookup_insert_eq|by rewrite lookup_insert_ne].
Qed.

Lemma snapshot_ok_extend st agg d s :
  snapshot_ok st s -> snapshot_ok (<[agg := events_of st agg ++ [d]]> st) s.
Proof.
  intros (k & Hk & Hle & Hu). exists k. rewrite events_of_insert. case_bool_decide as Ha; [|done].
  rewrite Ha in *. rewrite length_app, take_app_le by lia. simpl. split_and!; [done|lia|lia|done].
Qed.

Lemma account_inv_extend w st agg ev id snaps o sq0 sq' u' t' tx' fl' sn' :
  account_inv w st ->
  let ds := events_of st agg ++ [erase_amount ev] in
  let t1 := mkEventTables (events (ac_events (w_db w)) ++
              [mkRow sq0 (account_event id agg (1 + Z.of_nat (length (events_of st agg))) ev)]) snaps in
  tables_wf sq' t1 -> w_seq w <= sq0 -> (w_uuid w <= u')%nat ->
  fresh_from u' id -> fresh_from u' agg -> fresh_from u' (or_id o) -> stream_shape agg ds ->
  Forall (snapshot_ok (<[agg := ds]> st)) snaps -> snapshots_complete (<[agg := ds]> st) snaps ->
  account_inv (mkWorld (mkAccountDB t1
      (mkOutboxTable (ob_columns (ac_outbox (w_db w))) (ob_rows (ac_outbox (w_db w)) ++ [o]))
      (<[agg := projection_of agg ds]> (ac_projection (w_db w)))) sq' u' t' tx' fl' sn') (<[agg := ds]> st).
Proof.
  intros [] ds t1 Hwf Hsq0 Hu Hid Hagg Ho Hshape Hok Hall.
  assert (forall x, fresh_from (w_uuid w) x -> fresh_from u' x) as Hmono by (intros x; by apply fresh_from_mono).
  split; simpl; try done.
  - pose proof (wf_below _ _ Hwf) as Hb. apply Forall_app in Hb as [_ Hb]. inversion Hb; simpl in *; lia.
  - apply Forall_app. split; [done|]. constructor; [|done]. simpl. split; [lia|done].
  - apply Forall_app. split; [|by constructor]. eapply Forall_impl; [done|]. simpl; auto.
  - apply (streams_append account_decode _ st sq0
      (account_event id agg (1 + Z.of_nat (length (events_of st agg))) ev) (erase_amount ev)); [done| |done].
    apply UnmarshalAccountEvent_Marshal.
  - by apply map_Forall_insert_2.
  - intros agg' ds' Hl. destruct (decide (agg' = agg)) as [->|Hne]; [done|].
    rewrite lookup_insert_ne in Hl by done. eauto.
  - intros agg'. destruct (decide (agg' = agg)) as [->|Hne]; [by rewrite !lookup_insert_eq|].
    rewrite !lookup_insert_ne by done. apply ai_projection0.
  - apply Forall_app. split; [|by constructor]. eapply Forall_impl; [done|]. simpl; auto.
Qed.

(** A new identifier and the next version never collide. *)
Lemma insert_account_event_run w st agg n ev now :
  account_inv w st -> (w_uuid w <= n)%nat ->
  let e := account_event (uuid_NewString n) agg (1 + Z.of_nat (length (events_of st agg))) ev in
  forall sq, insert_event e now sq (ac_events (w_db w)) =
    Ok (tt, mkEventTables (events (ac_events (w_db w)) ++ [mkRow sq e]) (snapshots (ac_events (w_db w)))).
Proof.
  intros [] Hn e sq. apply insert_event_ok. split; [|done]. intros x Hx. split.
  - rewrite Forall_forall in ai_ids0. by apply (ai_ids0 x Hx).
  - by eapply (streams_version_free account_decode).
Qed.

Lemma insert_snapshot_run st ss s now sq evs :
  Forall (snapshot_ok st) ss -> Z.of_nat (length (events_of st (sn_AggregateID s))) < sn_Version s ->
  insert_snapshot s now sq (mkEventTables evs ss) = Ok (tt, mkEventTables evs (ss ++ [s])).
Proof.
  intros Hok Hv. unfold insert_snapshot. simpl. rewrite (proj2 (existsb_false_list _ _)); [done|].
  intros s' Hs'. rewrite Forall_forall in Hok. destruct (Hok s' Hs') as (k & Hk & Hle & _).
  unfold same_snapshot. case_bool_decide as Ha; [|done]. simpl. rewrite Ha in Hle.
  apply Z.eqb_neq. lia.
Qed.

(** The snapshot [saveSnapshot] takes is the state after the new event. *)
Lemma saved_snapshot_ok st agg ev now t :
  is_money ev = true -> Z.of_nat (length (events_of st agg)) < max_int64 ->
  let ds := events_of st agg ++ [ev] in
  let s := Account_Snapshot (account_at (events_of st agg)) in
  snapshot_ok (<[agg := ds]> st)
    (mkSnapshot agg t (1 + Z.of_nat (length (events_of st agg))) now
       (BJson (Marshal (mkAccountSnapshot (as_AccountID s) (as_CustomerID s) (as_Status s)
                          (1 + Z.of_nat (length (events_of st agg))))))).
Proof.
  intros Hm Hlen ds s. destruct (account_at_money (events_of st agg) ev Hm) as (Hc & Hs & Hi).
  exists (length ds). simpl. rewrite events_of_insert, bool_decide_true by done.
  subst ds. rewrite take_ge by done. rewrite length_app. simpl.
  split_and!; [lia|lia|lia|].
  rewrite Unmarshal_Marshal by (simpl; unfold in_int64, min_int64, max_int64 in *; lia).
  f_equal. unfold Account_Snapshot. rewrite Hc, Hs, Hi, account_version.
  - rewrite length_app. simpl. f_equal. lia.
  - rewrite length_app. simpl. lia.
Qed.

Lemma complete_extend st agg d ss :
  snapshots_complete st ss -> (S (length (events_of st agg)) mod 50 <> 0)%nat ->
  snapshots_complete (<[agg := events_of st agg ++ [d]]> st) ss.
Proof.
  intros Hall Hmod agg' k Hk. rewrite events_of_insert. case_bool_decide as Ha; [|by apply Hall].
  subst agg'. rewrite length_app. simpl. intros Hle. apply Hall; [done|].
  destruct (decide (50 * k = S (length (events_of st agg)))%nat) as [Heq|Hne]; [|lia].
  exfalso. apply Hmod. rewrite <-Heq, Nat.mul_comm. by apply Nat.Div0.mod_mul.
Qed.

Lemma complete_snoc st agg d ss s :
  snapshots_complete st ss -> sn_AggregateID s = agg ->
  sn_Version s = 1 + Z.of_nat (length (events_of st agg)) ->
  snapshots_complete (<[agg := events_of st agg ++ [d]]> st) (ss ++ [s]).
Proof.
  intros Hall Hs Hv agg' k Hk. rewrite events_of_insert. case_bool_decide as Ha.
  - subst agg'. rewrite length_app. simpl. intros Hle.
    destruct (decide (50 * k = S (length (events_of st agg)))%nat) as [Heq|Hne].
    + exists s. split_and!; [set_solver|done|lia].
    + destruct (Hall agg k) as (s' & Hs' & ?); [done|lia|]. exists s'. set_solver.
  - intros Hle. destruct (Hall agg' k) as (s' & Hs' & ?); [done|done|]. exists s'. set_solver.
Qed.

Lemma rem_50 n : (Z.rem (1 + Z.of_nat n) 50 =? 0) = true <-> (S n mod 50 = 0)%nat.
Proof.
  rewrite Z.eqb_eq. rewrite Z.rem_mod_nonneg by lia.
  replace (1 + Z.of_nat n) with (Z.of_nat (S n)) by lia. rewrite <-(Nat2Z.inj_mod _ 50). lia.
Qed.

(** ** Recording a deposit or a withdrawal *)
Definition record_post (agg : string) (mk : string -> Z -> AccountEvent) w st (r : result unit) w2 : Prop :=
  later w w2 /\
  match r with
  | Ok _ => a_status (account_at (events_of st agg)) = StatusActive /\
      exists now, account_inv w2 (<[agg := events_of st agg ++ [erase_amount (mk agg now)]]> st)
  | Err e => (a_status (account_at (events_of st agg)) <> StatusActive /\ e = ErrAccountNotActive) \/
      w_faults w <> []
  end.

Lemma record_net agg mk w st e w2 :
  w_faults w <> [] -> w_seq w <= w_seq w2 -> (w_uuid w <= w_uuid w2)%nat -> record_post agg mk w st (Err e) w2.
Proof. intros Hfl Hsq Hu. split; [by split_and!|by right]. Qed.

Local Ltac net :=
  let Hfl := fresh in
  intros Hfl; apply record_net; simpl; [repeat apply tail_nonempty in Hfl; exact Hfl|lia|lia].

Lemma account_enqueue_post agg ver ev db sq u t tx fl sn (Q : result unit -> World AccountDB -> Prop) :
  ob_columns (ac_outbox db) = migrated_columns ->
  Forall (fun r => fresh_from u (or_id r)) (ob_rows (ac_outbox db)) ->
  (fl <> [] -> Q (Err ENet) (mkWorld db sq (S u) (S t) tx (tail fl) sn)) ->
  (forall o, or_id o = uuid_NewString u ->
     Q (Ok tt) (mkWorld (mkAccountDB (ac_events db)
       (mkOutboxTable (ob_columns (ac_outbox db)) (ob_rows (ac_outbox db) ++ [o])) (ac_projection db))
       (sq + 1) (S u) (S t) tx (tail fl) sn)) ->
  wpm (account_enqueue agg ver ev) Q (mkWorld db sq u t tx fl sn).
Proof.
  intros Hcol Hids He Hq. unfold account_enqueue. wp_steps. unfold Enqueue. apply wpm_exec; [done|].
  rewrite on_run, insert_outbox_fresh; simpl; [by apply Hq|done|].
  intros x Hx. rewrite Forall_forall in Hids. by apply (Hids x Hx).
Qed.

(** The writes of the transaction, from the snapshot on. *)
Definition account_record_rest (ag : Account) (agg : string) (ver : Z) (ev : AccountEvent) : M AccountDB unit :=
  (if Z.rem ver 50 =? 0 then account_saveSnapshot ag agg ver else retM tt) ;;;
  AccountProjectionRepo_Upsert (@exec AccountDB) (mkAccountProjection agg (a_customerID ag) (a_status ag) ver) ;;;
  account_enqueue agg ver ev.

Lemma stream_shape_snoc agg ds e :
  stream_shape agg ds -> is_money e = true -> stream_shape agg (ds ++ [e]).
Proof.
  intros (cust & t & rest & -> & Hc & Hr) Hm. exists cust, t, (rest ++ [e]).
  split_and!; [done|done|]. apply Forall_app. by split; [|constructor].
Qed.

Lemma account_at_active st agg :
  a_status (account_at (events_of st agg)) = StatusActive -> st !! agg = Some (events_of st agg).
Proof. unfold events_of. by destruct (st !! agg). Qed.

Lemma account_record_rest_post agg mk now w st db1 fl1 t1 tx1 sn1 n sq0 :
  account_inv w st -> roomy st agg -> is_money (mk agg now) = true ->
  a_status (account_at (events_of st agg)) = StatusActive -> (w_uuid w <= n)%nat -> w_seq w <= sq0 ->
  let ver := 1 + Z.of_nat (length (events_of st agg)) in
  let e := account_event (uuid_NewString n) agg ver (mk agg now) in
  db1 = mkAccountDB (mkEventTables (events (ac_events (w_db w)) ++ [mkRow sq0 e]) (snapshots (ac_events (w_db w))))
          (ac_outbox (w_db w)) (ac_projection (w_db w)) ->
  tables_wf (sq0 + 1) (ac_events db1) -> (fl1 <> [] -> w_faults w <> []) ->
  wpm (account_record_rest (account_at (events_of st agg)) agg ver (mk agg now)) (record_post agg mk w st)
    (mkWorld db1 (sq0 + 1) (S n) t1 tx1 fl1 sn1).
Proof.
  intros Hinv Hroom Hmon Hact Hn Hsq ver e Hdb1 Hwf1 Hfl1. pose proof Hinv as [].
  set (ds := events_of st agg) in *. unfold roomy in Hroom. fold ds in Hroom.
  assert (is_money (erase_amount (mk agg now)) = true) as Hmon' by (by destruct (mk agg now)).
  assert (stream_shape agg (ds ++ [erase_amount (mk agg now)])) as Hshape.
  { apply stream_shape_snoc; [|done]. apply (ai_shape0 agg). by apply account_at_active. }
  destruct (account_at_money ds _ Hmon') as (Hc & Hs & _).
  assert (mkAccountProjection agg (a_customerID (account_at ds)) (a_status (account_at ds)) ver =
          projection_of agg (ds ++ [erase_amount (mk agg now)])) as Hproj.
  { unfold projection_of. rewrite Hc, Hs, length_app. simpl. f_equal. lia. }
  assert (forall snaps sq2 t2 fl2, (fl2 <> [] -> w_faults w <> []) -> sq0 + 1 <= sq2 ->
    tables_wf sq2 (mkEventTables (events (ac_events db1)) snaps) ->
    Forall (snapshot_ok (<[agg := ds ++ [erase_amount (mk agg now)]]> st)) snaps ->
    snapshots_complete (<[agg := ds ++ [erase_amount (mk agg now)]]> st) snaps ->
    wpm (let! _ := AccountProjectionRepo_Upsert (@exec AccountDB)
           (mkAccountProjection agg (a_customerID (account_at ds)) (a_status (account_at ds)) ver) in
         account_enqueue agg ver (mk agg now)) (record_post agg mk w st)
      (mkWorld (mkAccountDB (mkEventTables (events (ac_events db1)) snaps) (ac_outbox (w_db w))
         (ac_projection (w_db w))) sq2 (S n) t2 tx1 fl2 sn1)) as Hrest.
  { intros snaps sq2 t2 fl2 Hfl2 Hsq2 Hwf2 Hok Hall. rewrite Hproj.
    wp_step. apply wpm_exec; [intros Hne; apply record_net; simpl; [auto|lia|lia]|]. simpl.
    apply account_enqueue_post; simpl; [done| | |].
    - eapply Forall_impl; [exact ai_outbox0|]. intros x; simpl. apply fresh_from_mono. lia.
    - intros Hne%tail_nonempty. apply record_net; simpl; [auto|lia|lia].
    - intros o Ho. split.
      { split_and!; simpl; [lia|lia|]. intros Hnil. destruct fl2; [done|]. by destruct (Hfl2 ltac:(done)). }
      split; [done|]. exists now. subst db1.
      apply (account_inv_extend w st agg (mk agg now) (uuid_NewString n) snaps o sq0); try done.
      + simpl. eapply tables_wf_mono; [|exact Hwf2]. lia.
      + lia.
      + apply fresh_from_uuid. lia.
      + eapply fresh_from_mono; [|eapply ai_aggs0; by apply account_at_active]. lia.
      + rewrite Ho. apply fresh_from_uuid. lia. }
  unfold account_record_rest. wp_step.
  destruct (Z.rem ver 50 =? 0) eqn:Hrem.
  - unfold account_saveSnapshot. wp_steps. unfold SaveSnapshot. apply wpm_exec.
    { intros Hne. apply record_net; simpl; [auto|lia|lia]. }
    rewrite on_run. subst db1. simpl (view _).
    rewrite (insert_snapshot_run st) by (done || (simpl; fold ds; lia)). simpl.
    apply Hrest; [by intros Hne%tail_nonempty; auto|lia| | |].
    + eapply (insert_snapshot_wf _ 0); [exact Hwf1|].
      apply (insert_snapshot_run st); [done|simpl; fold ds; lia].
    + apply Forall_app. split.
      * eapply Forall_impl; [exact ai_snapshots0|]. intros s0. apply snapshot_ok_extend.
      * constructor; [|done]. apply saved_snapshot_ok; [done|exact Hroom].
    + by apply complete_snoc.
  - wp_step. subst db1. apply Hrest; [done|lia|done| |].
    + eapply Forall_impl; [exact ai_snapshots0|]. intros s0. apply snapshot_ok_extend.
    + apply complete_extend; [done|]. intros Hmod%rem_50. fold ds in Hmod. unfold ver in Hrem. congruence.
Qed.

(** What the transaction does with the account it has loaded *)
Definition account_apply (agg : string) (mk : string -> Z -> AccountEvent) (ag : Account) : M AccountDB unit :=
  fail_if (negb (bool_decide (a_status ag = StatusActive))) ErrAccountNotActive ;;;
  let! now := time_Now in
  let ver := wrap64 (a_version ag + 1) in
  let! id := ids_New in
  wrap_err "append account event" (Append (@exec AccountDB) [account_event id agg ver (mk agg now)]) ;;;
  account_record_rest ag agg ver (mk agg now).

Lemma account_apply_post agg mk w st :
  account_inv w st -> roomy st agg -> (forall now, is_money (mk agg now) = true) ->
  wpm (account_apply agg mk (account_at (events_of st agg))) (record_post agg mk w st) w.
Proof.
  intros Hinv Hroom Hmon. pose proof Hinv as []. destruct w as [db sq u t tx fl sn]; simpl in *.
  unfold account_apply. wp_step. wp_step.
  { split; [apply later_refl|]. left. split; [|done]. by apply negb_true_iff, bool_decide_eq_false in H. }
  apply negb_false_iff, bool_decide_eq_true in H. wp_steps.
  rewrite account_version by (unfold roomy in Hroom; lia). rewrite wrap64_id by (unfold roomy, in_int64, min_int64, max_int64 in *; lia).
  rewrite Z.add_comm. unfold Append; simpl. wp_step. apply wpm_exec.
  { intros Hne. apply record_net; simpl; [auto|lia|lia]. }
  rewrite on_run. simpl (view _).
  pose proof (insert_account_event_run _ st agg u (mk agg (clock_Now t)) tx Hinv (le_n u) sq) as Hins.
  simpl in Hins. rewrite Hins. wp_step. cbv beta iota.
  eapply (account_record_rest_post agg mk (clock_Now t) _ st _ _ _ _ _ u sq); try done.
  - by eapply insert_event_wf; [|exact Hins].
  - by intros Hne%tail_nonempty.
Qed.

Lemma account_record_post agg mk w st :
  account_inv w st -> roomy st agg -> (forall now, is_money (mk agg now) = true) ->
  wpm (account_record agg mk) (record_post agg mk w st) w.
Proof.
  intros Hinv Hroom Hmon. change (account_record agg mk) with (let! ag := LoadAccount agg in account_apply agg mk ag).
  wp_step. eapply wpm_mono; [|by apply LoadAccount_post]. intros r w1 (Hdb & Hl & Hr).
  destruct Hr as [->|[Hne ->]]; [|by apply record_net; [|apply Hl..]].
  eapply wpm_mono; [|apply (account_apply_post agg mk w1 st); [by apply (account_inv_later w)|done|done]].
  intros r w2 [Hl2 Hr]. split; [by eapply later_trans|]. destruct r as [|e]; [done|].
  destruct Hr as [?|Hne]; [by left|right]. intros Hnil. by apply Hne, Hl.
Qed.

(** A transaction that records an event either commits a longer stream or
    leaves the database as it was. *)
Lemma account_record_tx agg mk w st :
  account_inv w st -> roomy st agg -> (forall now, is_money (mk agg now) = true) ->
  wpm (with_tx (account_record agg mk)) (fun r w' =>
    later w w' /\
    let active := a_status (account_at (events_of st agg)) = StatusActive in
    let grown := exists now, account_inv w' (<[agg := events_of st agg ++ [erase_amount (mk agg now)]]> st) in
    match r with
    | Ok _ => active /\ grown
    | Err e => (~ active /\ e = ErrAccountNotActive /\ w_db w' = w_db w) \/
        (w_faults w <> [] /\ (w_db w' = w_db w \/ (active /\ grown)))
    end) w.
Proof.
  intros Hinv Hroom Hmon. set (active := a_status (account_at (events_of st agg)) = StatusActive).
  eapply wpm_mono; [|apply (with_tx_post _
    (fun _ w' => active /\ exists now, account_inv w' (<[agg := events_of st agg ++ [erase_amount (mk agg now)]]> st))
    (fun e => ~ active /\ e = ErrAccountNotActive))].
  - intros [[]|e] w' [Hl Hr]; (split; [done|]); [done|].
    destruct Hr as [[[??] ?]|(? & [?|[_ ?]])]; auto.
  - intros _ w1 w2 Hdb Hsq Hu [Hact [now Hi]]. split; [done|]. exists now.
    by apply (account_inv_same w1).
  - assert (account_inv (tx_world w) st) as Hinv1
      by (apply (account_inv_later w); [done|apply later_tx|done]).
    eapply wpm_mono; [|by apply (account_record_post agg mk (tx_world w) st)].
    intros [[]|e] w2 [Hl Hr]; (split; [done|]); [done|].
    destruct Hr as [?|Hne]; [by left|right]. by apply tail_nonempty.
Qed.

(** ** Opening an account *)
Definition open_post (cust : string) w st (r : result (string * Z)) w2 : Prop :=
  later w w2 /\
  match r with
  | Ok (id, v) => id = uuid_NewString (w_uuid w) /\ v = 1 /\ st !! id = None /\
      exists now, account_inv w2 (<[id := [AccountOpened id cust now]]> st)
  | Err _ => w_faults w <> []
  end.

Lemma open_net cust w st e w2 :
  w_faults w <> [] -> w_seq w <= w_seq w2 -> (w_uuid w <= w_uuid w2)%nat -> open_post cust w st (Err e) w2.
Proof. intros Hfl Hsq Hu. split; [by split_and!|done]. Qed.

Lemma snapshot_ok_new st agg ds s : st !! agg = None -> snapshot_ok st s -> snapshot_ok (<[agg := ds]> st) s.
Proof.
  intros Hnew (k & Hk & Hle & Hu). exists k. rewrite events_of_insert. case_bool_decide as Ha; [|done].
  rewrite Ha in Hle. unfold events_of in Hle. rewrite Hnew in Hle. simpl in Hle. lia.
Qed.

Lemma OpenAccount_tx_post cust w st :
  account_inv w st -> cust <> "" -> wpm (OpenAccount_tx cust) (open_post cust w st) w.
Proof.
  intros Hinv Hcust. pose proof Hinv as []. destruct w as [db sq u t tx fl sn]; simpl in *.
  assert (st !! uuid_NewString u = None) as Hnew.
  { destruct (st !! uuid_NewString u) as [ds|] eqn:Hl; [|done]. by destruct (ai_aggs0 _ _ Hl u). }
  assert (events_of st (uuid_NewString u) = []) as Hnil by (unfold events_of; by rewrite Hnew).
  unfold OpenAccount_tx. wp_step. unfold NewAccount. wp_step. wp_step; [by apply is_empty_true in H|].
  wp_steps. simpl. wp_steps.
  apply account_enqueue_post; simpl; [done| |intros Hne; apply open_net; simpl; [done|lia|lia]|].
  { eapply Forall_impl; [exact ai_outbox0|]. intros x; simpl. apply fresh_from_mono. lia. }
  intros o Ho. wp_steps. unfold Append; simpl. wp_step. apply wpm_exec.
  { intros Hne%tail_nonempty. apply open_net; simpl; [done|lia|lia]. }
  rewrite on_run. simpl (view _).
  pose proof (insert_account_event_run (mkWorld db sq u t tx fl sn) st (uuid_NewString u) (S u)
    (AccountOpened (uuid_NewString u) cust (clock_Now t)) tx Hinv ltac:(simpl; lia) (sq + 1)) as Hins.
  rewrite Hnil in Hins. change (1 + Z.of_nat (length [])) with 1 in Hins. cbn [w_db] in Hins. cbv zeta in Hins.
  change (0 + 1) with 1. rewrite Hins. wp_step. wp_step.
  apply wpm_exec; [intros Hne; do 2 apply tail_nonempty in Hne; apply open_net; simpl; [done|lia|lia]|].
  simpl. wp_steps. split; [split_and!; simpl; [lia|lia|by intros ->]|]. simpl.
  split; [done|]. split; [done|]. split; [done|]. exists (clock_Now t).
  pose proof (account_inv_extend (mkWorld db sq u t tx fl sn) st (uuid_NewString u)
    (AccountOpened (uuid_NewString u) cust (clock_Now t)) (uuid_NewString (S u)) (snapshots (ac_events db)) o (sq + 1)) as Hext.
  rewrite Hnil in Hext. apply Hext; try done; simpl.
  - eapply tables_wf_mono; [|eapply insert_event_wf; [|exact Hins]]; [lia|]. eapply tables_wf_mono; [|done]. lia.
  - lia.
  - lia.
  - apply fresh_from_uuid. lia.
  - apply fresh_from_uuid. lia.
  - rewrite Ho. apply fresh_from_uuid. lia.
  - exists cust, (clock_Now t), []. split_and!; done.
  - eapply Forall_impl; [exact ai_snapshots0|]. intros s0. by apply snapshot_ok_new.
  - intros agg k Hk. rewrite events_of_insert. case_bool_decide as Ha; [simpl; lia|by apply ai_complete0].
Qed.

Lemma OpenAccount_post cust key w st :
  account_inv w st ->
  wpm (OpenAccountHandler_Handle cust key) (fun r w' => later w w' /\
    let opened := exists now, account_inv w' (<[uuid_NewString (w_uuid w) := [AccountOpened (uuid_NewString (w_uuid w)) cust now]]> st) in
    match r with
    | Ok (id, v) => id = uuid_NewString (w_uuid w) /\ v = 1 /\ opened
    | Err e => w_db w' = w_db w \/ (w_faults w <> [] /\ opened)
    end) w.
Proof.
  intros Hinv. unfold OpenAccountHandler_Handle. wp_step. wp_step.
  { split; [apply later_refl|by left]. }
  wp_step. wp_step; [split; [apply later_refl|by left]|].
  apply is_empty_false in H.
  assert (account_inv (tx_world w) st) as Hinv1
    by (apply (account_inv_later w); [done|apply later_tx|done]).
  eapply wpm_mono; [|apply (with_tx_post _ (fun '(id, v) w' => id = uuid_NewString (w_uuid w) /\ v = 1 /\
    exists now, account_inv w' (<[uuid_NewString (w_uuid w) :=
      [AccountOpened (uuid_NewString (w_uuid w)) cust now]]> st)) (fun _ => False))].
  - intros [[id v]|e] w' [Hl Hr]; (split; [done|]); [done|].
    destruct Hr as [[[] _]|(? & [?|([id v] & _ & _ & ?)])]; auto.
  - intros [id v] w1 w2 Hdb Hsq Hu (-> & -> & now & Hi). split_and!; [done|done|]. exists now.
    by apply (account_inv_same w1).
  - eapply wpm_mono; [|by apply (OpenAccount_tx_post cust (tx_world w) st)].
    intros [[id v]|e] w2 [Hl Hr]; (split; [done|]).
    + by destruct Hr as (-> & -> & _ & now & ?); eauto.
    + right. by apply tail_nonempty.
Qed.
End store.
