(* ===== verification/AccountProps.v ===== *)
(** * Properties of the account service *)
From S2P Require Import Prelude GoStrings Json Money EventStore Streams Outbox Ledger LedgerSpec Account.
From S2P Require Import AccountSpec AccountStore.
#[local] Open Scope Z_scope.
#[local] Open Scope go_scope.

Section properties.
Context `{Hev : Env} `{Henv : !EnvOk}.
Implicit Types (w : World AccountDB) (st : gmap string (list AccountEvent)).

(** ** The service as a state machine

    Accounts are opened, deposits and withdrawals are recorded (whatever
    entry the ledger returned), and the environment decides what fails from
    then on. *)
Inductive account_step : World AccountDB -> World AccountDB -> Prop :=
| step_open cust key w :
    account_step w (OpenAccountHandler_Handle cust key w).2
| step_deposit agg amt entry w :
    Z.of_nat (length (rows_for agg (ac_events (w_db w)))) < max_int64 ->
    account_step w (with_tx (account_record agg (fun acc now => MoneyDeposited acc amt entry now)) w).2
| step_withdraw agg amt entry w :
    Z.of_nat (length (rows_for agg (ac_events (w_db w)))) < max_int64 ->
    account_step w (with_tx (account_record agg (fun acc now => MoneyWithdrawn acc amt entry now)) w).2
| step_account_faults fl w :
    account_step w (set_faults fl w).

Definition account_init w : Prop :=
  0 < w_seq w /\ w_db w = mkAccountDB (mkEventTables [] []) (mkOutboxTable migrated_columns []) ∅.

Definition account_reachable w : Prop := exists w0, account_init w0 /\ rtc account_step w0 w.

Lemma account_inv_init w : account_init w -> account_inv w ∅.
Proof.
  intros [Hsq Hdb]. split; rewrite ?Hdb; simpl; try done.
  - by repeat constructor.
  - intros agg k Hk. unfold events_of. rewrite lookup_empty. simpl. lia.
Qed.

Lemma roomy_rows w st agg :
  account_inv w st -> Z.of_nat (length (rows_for agg (ac_events (w_db w)))) < max_int64 -> roomy st agg.
Proof. intros Hinv Hlen. unfold roomy. by rewrite <-(encodes_length _ _ _ _ (ai_streams _ _ Hinv agg)). Qed.

Lemma account_inv_step w w' st : account_inv w st -> account_step w w' -> exists st', account_inv w' st'.
Proof.
  assert (forall agg mk w st, account_inv w st ->
    Z.of_nat (length (rows_for agg (ac_events (w_db w)))) < max_int64 -> (forall now, is_money (mk agg now) = true) ->
    exists st', account_inv (with_tx (account_record agg mk) w).2 st') as Hrec.
  { intros agg mk w0 st0 Hinv Hlen Hm.
    pose proof (account_record_tx agg mk w0 st0 Hinv (roomy_rows _ _ _ Hinv Hlen) Hm) as Hp. unfold wpm in Hp.
    destruct Hp as [Hl Hp]. destruct (with_tx _ w0) as [r w1]; simpl in *.
    destruct r as [[]|e]; [destruct Hp as [_ [now ?]]; eauto|].
    destruct Hp as [(_ & _ & Hdb)|(_ & [Hdb|[_ [now ?]]])]; [| |by eauto];
      exists st0; by eapply account_inv_later. }
  intros Hinv Hst. destruct Hst as [cust key w|agg amt entry w Hlen|agg amt entry w Hlen|fl w].
  - pose proof (OpenAccount_post cust key w st Hinv) as Hp. unfold wpm in Hp. destruct Hp as [Hl Hp].
    destruct (OpenAccountHandler_Handle cust key w) as [[[id v]|e] w1]; simpl in *.
    + destruct Hp as (_ & _ & now & ?). eauto.
    + destruct Hp as [Hdb|[_ [now ?]]]; [|by eauto]. exists st. by eapply account_inv_later.
  - by apply (Hrec agg _ w st).
  - by apply (Hrec agg _ w st).
  - exists st. by destruct Hinv.
Qed.

Lemma account_reachable_inv w : account_reachable w -> exists st, account_inv w st.
Proof.
  intros (w0 & Hinit & Hst). assert (exists st, account_inv w0 st) as Hs
    by (exists ∅; by apply account_inv_init).
  clear Hinit. induction Hst as [w|w w1 w2 Hst _ IH]; [done|].
  apply IH. destruct Hs as [st Hs]. by eapply account_inv_step.
Qed.

(** ** Theorems *)

(** Loading an account replays all of it: in every reachable state (any
    number of deposits and withdrawals, any failures in between) loading any
    account through its latest snapshot gives exactly the replay of all its
    stored events, and the projection the service reads from shows that
    account's customer, status and number of events. *)
Theorem account_load_is_replay w agg :
  account_reachable w -> w_faults w = [] ->
  exists ds, unmarshal_account_events (rows_for agg (ac_events (w_db w))) = Ok ds /\
    (LoadAccount agg w).1 = Ok (Account_Rehydrate ds) /\
    ac_projection (w_db w) !! agg =
      (if decide (ds = []) then None
       else Some (mkAccountProjection agg (a_customerID (Account_Rehydrate ds)) (a_status (Account_Rehydrate ds))
                    (Z.of_nat (length ds)))).
Proof.
  intros [st Hinv]%account_reachable_inv Hfl. exists (events_of st agg). split_and!.
  - eapply unmarshal_encodes, (ai_streams _ _ Hinv).
  - pose proof (LoadAccount_post w st agg Hinv) as Hp. unfold wpm in Hp.
    by destruct Hp as (_ & _ & [Hr|[Hne _]]).
  - rewrite (ai_projection _ _ Hinv). unfold events_of. destruct (st !! agg) as [ds|] eqn:Hst; simpl; [|done].
    destruct (ai_shape _ _ Hinv agg ds Hst) as (cust & t & rest & -> & _). by rewrite decide_False.
Qed.

(** The versions of a stream have no gap and no repetition, in every
    reachable state: the stored events of an account carry 1, 2, ..., n in
    the order they were stored, starting with the opening of the account. *)
Theorem account_versions_contiguous w agg :
  account_reachable w ->
  map ev_Version (rows_for agg (ac_events (w_db w))) =
    seqZ 1 (Z.of_nat (length (rows_for agg (ac_events (w_db w))))) /\
  forall e, head (rows_for agg (ac_events (w_db w))) = Some e -> ev_Type e = "account.opened.v1".
Proof.
  intros [st Hinv]%account_reachable_inv. pose proof (ai_streams _ _ Hinv agg) as He. split.
  - revert He. generalize (events_of st agg). generalize 1.
    induction (rows_for agg (ac_events (w_db w))) as [|e rows IH]; intros v [|d ds]; simpl; try done.
    intros (Hv & _ & Hr). rewrite seqZ_cons by lia. rewrite Hv. f_equal.
    rewrite (IH _ _ Hr). f_equal; lia.
  - intros e Hh. destruct (rows_for agg (ac_events (w_db w))) as [|e' rows]; [done|]. simpl in Hh. simplify_eq.
    unfold events_of in He. destruct (st !! agg) as [ds|] eqn:Hst; [|done].
    destruct (ai_shape _ _ Hinv agg ds Hst) as (cust & t & rest & -> & _).
    destruct He as (_ & Hd & _). unfold account_decode, UnmarshalAccountEvent in Hd.
    case_bool_decide as Ht; [done|].
    repeat case_bool_decide; try done;
      repeat (match type of Hd with context [result_bind ?r _] => destruct r; simpl in Hd end); simplify_eq.
Qed.
End properties.
