(* ===== verification/AccountConcurrent.v ===== *)
(** * Accounts changed at the same time

    A deposit or a withdrawal reads the latest snapshot of the account, then
    the events after it, and appends an event with the next version; the
    unique index over account and version is the optimistic lock between
    commands. Under READ COMMITTED others can commit between the two reads of
    a load as well as between the load and the writes. *)
From S2P Require Import Prelude Stages GoStrings Json Money EventStore Streams Outbox Ledger LedgerSpec Account.
From S2P Require Import AccountSpec AccountStore AccountProps.
#[local] Open Scope Z_scope.
#[local] Open Scope go_scope.

(** ** Requests in flight

    What a command records: a deposit or a withdrawal with the entry the
    ledger returned for it. *)
Inductive money_op : Type :=
| OpDeposit (amt : Money) (entry : string)
| OpWithdraw (amt : Money) (entry : string).
Definition money_event (op : money_op) (acc : string) (now : Z) : AccountEvent :=
  match op with
  | OpDeposit amt entry => MoneyDeposited acc amt entry now
  | OpWithdraw amt entry => MoneyWithdrawn acc amt entry now
  end.

Inductive acc_flight : Type :=
| Loading (op : money_op) (agg : string) (snap : option Snapshot) (now : Z)
| Recording (op : money_op) (agg : string) (ag : Account) (now : Z).

Section requests.
Context `{Hev : Env}.

(** The stages of a command: the snapshot, the events, the writes *)
Definition record_begin (op : money_op) (agg : string) : M AccountDB acc_flight :=
  let! now := tx_begin in
  let! snap := LoadLatestSnapshot (@exec AccountDB) agg in
  retM (Loading op agg snap now).
Definition record_load (op : money_op) (agg : string) (snap : option Snapshot) (now : Z) : M AccountDB acc_flight :=
  in_tx now (let! ag := load_events agg snap in retM (Recording op agg ag now)).
Definition record_write (op : money_op) (agg : string) (ag : Account) (now : Z) : M AccountDB unit :=
  in_tx now (tx_commit (account_apply agg (money_event op) ag)).

Definition in_flight (r : result acc_flight) : list acc_flight := match r with Ok f => [f] | Err _ => [] end.

(** Between the two reads of one load at most 10000 events of the account
    are recorded. *)
Inductive acc_step : World AccountDB * list acc_flight -> World AccountDB * list acc_flight -> Prop :=
| acc_open cust key w fs r w' :
    OpenAccountHandler_Handle cust key w = (r, w') -> acc_step (w, fs) (w', fs)
| acc_begin op agg w fs r w' :
    record_begin op agg w = (r, w') -> acc_step (w, fs) (w', fs ++ in_flight r)
| acc_load op agg snap now w fs1 fs2 r w' :
    Z.of_nat (length (rows_for agg (ac_events (w_db w)))) <= snap_version snap + 10000 ->
    record_load op agg snap now w = (r, w') ->
    acc_step (w, fs1 ++ Loading op agg snap now :: fs2) (w', fs1 ++ in_flight r ++ fs2)
| acc_write op agg ag now w fs1 fs2 r w' :
    Z.of_nat (length (rows_for agg (ac_events (w_db w)))) < max_int64 ->
    record_write op agg ag now w = (r, w') -> acc_step (w, fs1 ++ Recording op agg ag now :: fs2) (w', fs1 ++ fs2)
| acc_faults fl w fs :
    acc_step (w, fs) (set_faults fl w, fs).

Definition acc_reachable (c : World AccountDB * list acc_flight) : Prop :=
  exists w0, account_init w0 /\ rtc acc_step (w0, []) c.

(** The stages one after the other are the transaction of the handler. *)
Lemma record_stages op agg w :
  with_tx (account_record agg (money_event op)) w =
  (let! now := tx_begin in let! snap := LoadLatestSnapshot (@exec AccountDB) agg in
   let! ag := load_events agg snap in tx_commit (account_apply agg (money_event op) ag)) w.
Proof.
  rewrite with_tx_stages. unfold bindM at 1 2. destruct (tx_begin w) as [[now|e] w1]; [|done].
  change (account_record agg (money_event op)) with
    (let! ag := (let! snap := LoadLatestSnapshot (@exec AccountDB) agg in load_events agg snap) in
     account_apply agg (money_event op) ag).
  assert (reads (LoadLatestSnapshot (@exec AccountDB) agg)) as Hr1.
  { apply reads_exec. intros tm sq db a db'. rewrite on_run. simpl. intros [= _ <-]. by destruct db. }
  assert (forall snap, reads (load_events agg snap)) as Hr2.
  { intros snap. apply reads_bind.
    - destruct snap as [sn|]; [|by intros ??? [= _ <-]]. apply reads_bind; [apply reads_liftR|by intros ???? [= _ <-]].
    - intros ss. apply reads_bind; [|intros rows; apply reads_bind; [apply reads_liftR|by intros ???? [= _ <-]]].
      apply reads_exec. intros tm sq db a db'. rewrite on_run. simpl. intros [= _ <-]. by destruct db. }
  rewrite tx_commit_bind by (by apply reads_bind). unfold bindM.
  by destruct (LoadLatestSnapshot _ agg w1) as [[snap|e] w2].
Qed.
End requests.

(** ** What a request has read is a past of its account *)
Definition past_account (st : gmap string (list AccountEvent)) (f : acc_flight) : Prop :=
  match f with
  | Loading _ agg snap _ => match snap with Some s => sn_AggregateID s = agg /\ snapshot_ok st s | None => True end
  | Recording _ agg ag _ => exists k, (k <= length (events_of st agg))%nat /\ ag = account_at (take k (events_of st agg))
  end.

Lemma snapshot_ok_extends st st' s : extends st st' -> snapshot_ok st s -> snapshot_ok st' s.
Proof.
  intros Hg (k & Hk & [Hpos Hle] & Hu). destruct (extends_take _ _ (sn_AggregateID s) k Hg Hle) as [Hle' Ht].
  exists k. rewrite <-Ht. split_and!; [done|lia|lia|done].
Qed.
Lemma past_extends st st' f : extends st st' -> past_account st f -> past_account st' f.
Proof.
  intros Hg. destruct f as [op agg [s|] now|op agg ag now]; simpl; [|done|].
  - intros [Ha Hs]. split; [done|]. by eapply snapshot_ok_extends.
  - intros (k & Hk & ->). destruct (extends_take _ _ agg k Hg Hk) as [? ->]. by exists k.
Qed.

(** ** The abstract service

    Accounts are histories; opening an account and recording a deposit or a
    withdrawal on an active one are single steps. The amount is not part of
    what can be read back of an event. *)
Inductive account_spec_step : gmap string (list AccountEvent) -> gmap string (list AccountEvent) -> Prop :=
| spec_open id cust now st :
    st !! id = None -> cust <> "" -> account_spec_step st (<[id := [AccountOpened id cust now]]> st)
| spec_record op agg now st :
    a_status (account_at (events_of st agg)) = StatusActive ->
    account_spec_step st (<[agg := events_of st agg ++ [erase_amount (money_event op agg now)]]> st).

Lemma spec_step_extends st st' : account_spec_step st st' -> extends st st'.
Proof.
  intros [id cust now st0 Hnew _|op agg now st0 _]; apply extends_insert; [|by eexists].
  unfold events_of. rewrite Hnew. apply prefix_nil.
Qed.

Section invariant.
Context `{Hev : Env} `{Henv : !EnvOk}.
Implicit Types (w : World AccountDB) (st : gmap string (list AccountEvent)).

Lemma money_event_money op agg now : is_money (money_event op agg now) = true.
Proof. by destruct op. Qed.

(** The simulation relation, and a step that is at most one abstract step *)
Definition acc_rel w (fs : list acc_flight) st : Prop := account_inv w st /\ Forall (past_account st) fs.
Definition acc_sim st w' (fs : list acc_flight) : Prop := exists st', acc_rel w' fs st' /\ (st' = st \/ account_spec_step st st').

Lemma acc_sim_step st fs st' w' :
  Forall (past_account st) fs -> account_spec_step st st' -> account_inv w' st' -> acc_sim st w' fs.
Proof.
  intros Hn Hs Hi. exists st'. split; [|by right]. split; [done|]. eapply Forall_impl; [exact Hn|]. intros f.
  by apply past_extends, spec_step_extends.
Qed.
Lemma acc_sim_later w st fs w' :
  account_inv w st -> Forall (past_account st) fs -> w_db w' = w_db w -> later w w' -> acc_sim st w' fs.
Proof. intros Hi Hn Hdb Hl. exists st. split; [|by left]. split; [by apply (account_inv_later w)|done]. Qed.

Lemma open_sim cust key w fs r w' st : acc_rel w fs st -> OpenAccountHandler_Handle cust key w = (r, w') -> acc_sim st w' fs.
Proof.
  intros [Hinv Hn] Hrun. pose proof (OpenAccount_post cust key w st Hinv) as Hp.
  apply (wpm_run _ _ _ _ _ Hrun) in Hp as [Hl Hp]. cbv zeta in Hp. set (id := uuid_NewString (w_uuid w)) in *.
  assert ((exists now, account_inv w' (<[id := [AccountOpened id cust now]]> st)) -> acc_sim st w' fs) as Hopen.
  { intros [now Hi]. eapply acc_sim_step; [exact Hn| |exact Hi]. apply spec_open.
    - destruct (st !! id) as [ds|] eqn:Hst; [|done]. by destruct (ai_aggs _ _ Hinv _ _ Hst (w_uuid w)).
    - destruct (ai_shape _ _ Hi id _ (lookup_insert_eq _ _ _)) as (c & t & rest & [= <- _ _] & Hc & _). done. }
  destruct r as [[i v]|e]; [apply Hopen, Hp|]. destruct Hp as [Hdb|[_ Hi]]; [by eapply acc_sim_later|by apply Hopen].
Qed.

(** The snapshot a command has read, and that the events after it are few *)
Lemma record_begin_post op agg w st : account_inv w st ->
  wpm (record_begin op agg) (fun r w' => w_db w' = w_db w /\ later w w' /\
    match r with
    | Ok f => exists snap now, f = Loading op agg snap now /\ past_account st f /\
        Z.of_nat (length (events_of st agg)) <= snap_version snap + 10000
    | Err _ => w_faults w <> []
    end) w.
Proof.
  intros Hinv. unfold record_begin. wp_step. eapply wpm_mono; [|apply tx_begin_post].
  intros [now|e] w1 (Hdb1 & Hl1 & He); [|split_and!; [done|done|apply He]]. wp_step. unfold LoadLatestSnapshot.
  eapply wpm_mono; [|apply (exec_select_post _ (fun db => head (order_by (fun s => - sn_Version s)
    (List.filter (fun s => bool_decide (sn_AggregateID s = agg)) (snapshots (ac_events db))))))].
  2: { intros tm sq db. rewrite on_run. simpl. by destruct db. }
  intros [o|e] w2 (Hdb2 & Hl2 & Hr); [wp_step|]; (split_and!; [congruence|by eapply later_trans|]).
  2: { intros Hnil. by apply Hr, Hl1. }
  rewrite Hdb1 in Hr. exists o, now. split; [done|].
  pose proof (latest_snapshot_post st _ agg (ai_snapshots _ _ Hinv) (ai_complete _ _ Hinv)) as Hlast.
  pose proof (fun s => latest_is_snapshot st _ agg s (ai_snapshots _ _ Hinv)) as His. cbv zeta in Hlast. rewrite <-Hr in Hlast, His.
  destruct o as [s|]; simpl; [|split; [done|lia]]. destruct Hlast as (k & -> & _ & Hlt & _). split; [by apply His|lia].
Qed.
Lemma begin_sim op agg w fs r w' st : acc_rel w fs st -> record_begin op agg w = (r, w') -> acc_sim st w' (fs ++ in_flight r).
Proof.
  intros [Hinv Hn] Hrun. pose proof (record_begin_post op agg w st Hinv) as Hp.
  apply (wpm_run _ _ _ _ _ Hrun) in Hp as (Hdb & Hl & Hr). eapply acc_sim_later; [exact Hinv| |done|done].
  apply Forall_app. split; [done|]. destruct r as [f|e]; [|done]. destruct Hr as (snap & now & _ & Hf & _). by repeat constructor.
Qed.

Lemma load_sim op agg snap now w fs1 fs2 r w' st : acc_rel w (fs1 ++ Loading op agg snap now :: fs2) st ->
  Z.of_nat (length (rows_for agg (ac_events (w_db w)))) <= snap_version snap + 10000 ->
  record_load op agg snap now w = (r, w') -> acc_sim st w' (fs1 ++ in_flight r ++ fs2).
Proof.
  intros [Hinv Hn] Hlen Hrun. apply Forall_app in Hn as [Hn1 [Hf Hn2]%Forall_cons].
  rewrite (encodes_length _ _ _ _ (ai_streams _ _ Hinv agg)) in Hlen.
  assert (account_inv (set_tx now w) st) as Hinv0 by (by apply (account_inv_later w)).
  assert (wpm (let! ag := load_events agg snap in retM (Recording op agg ag now)) (fun r w' =>
    w_db w' = w_db w /\ later w w' /\ Forall (past_account st) (in_flight r)) (set_tx now w)) as Hp.
  { wp_step. eapply wpm_mono; [|apply (load_events_post (set_tx now w) st agg snap Hinv0 Hf Hlen)].
    intros r1 w1 (Hdb & Hl & [->|[_ ->]]); [wp_step|]; (split_and!; [done|done|]); [|done].
    constructor; [|done]. exists (length (events_of st agg)). split; [done|by rewrite take_ge]. }
  unfold record_load, in_tx in Hrun. apply (wpm_run _ _ _ _ _ Hrun) in Hp as (Hdb & Hl & Hr).
  eapply acc_sim_later; [exact Hinv| |done|done]. by repeat (apply Forall_app; split).
Qed.

(** A command that decides on an old state appends nothing: the version it
    wants is taken. *)
Lemma account_apply_stale op agg w st k :
  account_inv w st -> (k < length (events_of st agg))%nat -> roomy st agg ->
  wpm (account_apply agg (money_event op) (account_at (take k (events_of st agg))))
    (fun r w2 => later w w2 /\ is_ok r = false) w.
Proof.
  intros Hinv Hk Hroom. destruct w as [db sq u t tx fl sn]. unfold roomy in Hroom.
  assert (length (take k (events_of st agg)) = k) as Hlen by (apply length_take_le; lia).
  unfold account_apply. wp_step. wp_step; [by split; [apply later_refl|]|]. wp_steps.
  rewrite account_version, Hlen by (rewrite Hlen; lia).
  rewrite wrap64_id by (unfold in_int64, min_int64, max_int64 in *; lia).
  rewrite Z.add_comm. unfold Append; simpl. wp_step. apply wpm_exec.
  { intros Hne. split; [|done]. split_and!; simpl; [lia|lia|by intros ->]. }
  rewrite on_run. simpl (view _).
  destruct (streams_version_taken account_decode (ac_events db) st
    (account_event (uuid_NewString u) agg (1 + Z.of_nat k) (money_event op agg (clock_Now t)))
    k tx sq (ai_streams _ _ Hinv) Hk eq_refl) as [err ->].
  split; [|done]. split_and!; simpl; [lia|lia|by intros ->].
Qed.

(** What the writes of a command leave: the event at the end of the stream,
    or the tables as they were; with an old account always the latter. *)
Definition recorded op agg st w' : Prop :=
  exists now, account_inv w' (<[agg := events_of st agg ++ [erase_amount (money_event op agg now)]]> st).
Lemma record_write_post op agg now w st k :
  account_inv w st -> (k <= length (events_of st agg))%nat -> roomy st agg ->
  wpm (record_write op agg (account_at (take k (events_of st agg))) now) (fun r w' => later w w' /\
    let current := k = length (events_of st agg) /\ a_status (account_at (events_of st agg)) = StatusActive in
    match r with
    | Ok _ => current /\ recorded op agg st w'
    | Err _ => (w_db w' = w_db w \/ (current /\ recorded op agg st w')) /\ (~ current \/ w_faults w <> [])
    end) w.
Proof.
  intros Hinv Hk Hroom. assert (account_inv (set_tx now w) st) as Hinv0 by (by apply (account_inv_later w)).
  set (current := k = _ /\ _). unfold record_write, in_tx, wpm at 1.
  assert (wpm (tx_commit (account_apply agg (money_event op) (account_at (take k (events_of st agg)))))
    (fun r w' => later (set_tx now w) w' /\
      match r with
      | Ok _ => current /\ recorded op agg st w'
      | Err _ => (w_db w' = w_db (set_tx now w) \/ exists _ : unit, current /\ recorded op agg st w') /\
                 (~ current \/ w_faults (set_tx now w) <> [])
      end) (set_tx now w)) as Hp.
  { apply (tx_commit_post _ (fun _ w' => current /\ recorded op agg st w')).
    - intros _ w1 w2 Hdb Hsq Hu [Hc [tm Hi]]. split; [done|]. exists tm. by apply (account_inv_same w1).
    - destruct (decide (k = length (events_of st agg))) as [->|Hne].
      + rewrite take_ge by lia. eapply wpm_mono; [|apply account_apply_post; [exact Hinv0|done|apply money_event_money]].
        intros [[]|e] w2 [Hl Hr]; (split; [done|]).
        * destruct Hr as [Ha [tm Hi]]. split; [by split|by exists tm].
        * destruct Hr as [[Ha _]|Hne]; [left; by intros [_ ?]|by right].
      + eapply wpm_mono; [|apply (account_apply_stale op agg (set_tx now w) st k); [done|lia|done]].
        intros [[]|e] w2 [Hl Hr]; (split; [done|]); [done|]. left. by intros [? _]. }
  unfold wpm in Hp. destruct (tx_commit _ _) as [[[]|e] w']; simpl in *; destruct Hp as [Hl Hr]; (split; [done|]); [done|].
  destruct Hr as [[Hdb|[_ Hc]] He]; auto.
Qed.
Lemma write_sim op agg ag now w fs1 fs2 r w' st : acc_rel w (fs1 ++ Recording op agg ag now :: fs2) st ->
  Z.of_nat (length (rows_for agg (ac_events (w_db w)))) < max_int64 ->
  record_write op agg ag now w = (r, w') -> acc_sim st w' (fs1 ++ fs2).
Proof.
  intros [Hinv Hn] Hlen Hrun. apply Forall_app in Hn as [Hn1 [Hf Hn2]%Forall_cons].
  assert (Forall (past_account st) (fs1 ++ fs2)) as Hn by (by apply Forall_app). destruct Hf as (k & Hk & ->).
  pose proof (record_write_post op agg now w st k Hinv Hk (roomy_rows _ _ _ Hinv Hlen)) as Hp.
  apply (wpm_run _ _ _ _ _ Hrun) in Hp as [Hl Hr]. cbv zeta in Hr.
  assert (a_status (account_at (events_of st agg)) = StatusActive -> recorded op agg st w' -> acc_sim st w' (fs1 ++ fs2)) as Hrec.
  { intros Ha [tm Hi]. eapply acc_sim_step; [exact Hn| |exact Hi]. by apply spec_record. }
  destruct r as [[]|e]; [apply Hrec; apply Hr|].
  destruct Hr as [[Hdb|[[_ Ha] Hi]] _]; [by eapply acc_sim_later|by apply Hrec].
Qed.

Lemma acc_step_sim w fs w' fs' st : acc_rel w fs st -> acc_step (w, fs) (w', fs') -> acc_sim st w' fs'.
Proof.
  intros Hi Hst. inversion Hst; subst.
  - by eapply open_sim.
  - by eapply begin_sim.
  - by eapply load_sim.
  - by eapply write_sim.
  - destruct Hi as [Hi Hn]. exists st. split; [|by left]. split; [|done]. by apply (account_inv_same w).
Qed.
Lemma acc_rtc_sim c c' st : rtc acc_step c c' -> acc_rel c.1 c.2 st ->
  exists st', acc_rel c'.1 c'.2 st' /\ rtc account_spec_step st st'.
Proof.
  intros Hst. revert st. induction Hst as [[w fs]|[w fs] [w1 fs1] c2 Hs _ IH]; intros st Hi; [by exists st|].
  destruct (acc_step_sim _ _ _ _ st Hi Hs) as (st1 & Hi1 & H1). destruct (IH st1 Hi1) as (st2 & Hi2 & H2).
  exists st2. split; [done|]. etrans; [|exact H2]. destruct H1 as [->|H1]; [done|by apply rtc_once].
Qed.
Lemma acc_reachable_sim w fs : acc_reachable (w, fs) -> exists st, acc_rel w fs st /\ rtc account_spec_step ∅ st.
Proof.
  intros (w0 & Hinit & Hst). apply (acc_rtc_sim _ _ ∅ Hst). split; [by apply account_inv_init|done].
Qed.

(** C25. Commands on accounts take effect one at a time: however openings,
    deposits and withdrawals interleave at their reads and writes, and whatever
    fails, there is a run of the abstract service, whose steps are whole
    commands, with the same result. Every account's stored events read back as
    its abstract history with the versions 1, 2, ..., n, loading it from its
    latest snapshot and the events after it gives the replay of that history,
    and its row shows exactly that replay. *)
Theorem account_linearizable w fs : acc_reachable (w, fs) ->
  exists st, rtc account_spec_step ∅ st /\ forall agg,
    encodes account_decode 1 (rows_for agg (ac_events (w_db w))) (events_of st agg) /\
    (w_faults w = [] -> (LoadAccount agg w).1 = Ok (Account_Rehydrate (events_of st agg))) /\
    ac_projection (w_db w) !! agg = (fun ds => mkAccountProjection agg (a_customerID (Account_Rehydrate ds))
      (a_status (Account_Rehydrate ds)) (Z.of_nat (length ds))) <$> st !! agg.
Proof.
  intros (st & [Hinv _] & Hst)%acc_reachable_sim. exists st. split; [done|]. intros agg. split_and!.
  - apply (ai_streams _ _ Hinv).
  - intros Hfl. pose proof (LoadAccount_post w st agg Hinv) as Hp. unfold wpm in Hp.
    by destruct Hp as (_ & _ & [Hr|[Hne _]]).
  - apply (ai_projection _ _ Hinv).
Qed.
End invariant.

(** ** The race *)
Section race.
Context `{Hev : Env} `{Henv : !EnvOk}.
Implicit Types (w : World AccountDB) (st : gmap string (list AccountEvent)).

(** The reads of a command on a working database *)
Lemma begin_quiet op agg w st : w_faults w = [] -> account_inv w st ->
  exists snap now w1, record_begin op agg w = (Ok (Loading op agg snap now), w1) /\ w_db w1 = w_db w /\ later w w1 /\
    past_account st (Loading op agg snap now) /\ Z.of_nat (length (events_of st agg)) <= snap_version snap + 10000.
Proof.
  intros Hf Hinv. pose proof (record_begin_post op agg w st Hinv) as Hp. unfold wpm in Hp.
  destruct (record_begin op agg w) as [[f|e] w1]; destruct Hp as (Hdb & Hl & Hr); simpl in Hr; [|done].
  destruct Hr as (snap & now & -> & Hpast & Hlen). by exists snap, now, w1.
Qed.
Lemma load_quiet op agg snap now w st : w_faults w = [] -> account_inv w st -> past_account st (Loading op agg snap now) ->
  Z.of_nat (length (events_of st agg)) <= snap_version snap + 10000 ->
  exists w1, record_load op agg snap now w = (Ok (Recording op agg (account_at (events_of st agg)) now), w1) /\
    w_db w1 = w_db w /\ later w w1.
Proof.
  intros Hf Hinv Hpast Hlen. assert (account_inv (set_tx now w) st) as Hinv0 by (by apply (account_inv_later w)).
  pose proof (load_events_post (set_tx now w) st agg snap Hinv0 Hpast Hlen) as Hp. unfold wpm in Hp.
  unfold record_load, in_tx, bindM. destruct (load_events agg snap (set_tx now w)) as [r w1].
  destruct Hp as (Hdb & Hl & [Hr|[Hne _]]); [|done]. simpl in Hr. subst r. by exists w1.
Qed.

(** A command in flight has read the account as it is. *)
Lemma reach_recording op agg w st fs : w_faults w = [] -> account_inv w st ->
  exists now w1, rtc acc_step (w, fs) (w1, fs ++ [Recording op agg (account_at (events_of st agg)) now]) /\
    w_db w1 = w_db w /\ later w w1.
Proof.
  intros Hf Hinv. destruct (begin_quiet op agg w st Hf Hinv) as (snap & now & w1 & Hr1 & Hdb1 & Hl1 & Hpast & Hlen).
  assert (account_inv w1 st) as Hinv1 by (by apply (account_inv_later w)).
  destruct (load_quiet op agg snap now w1 st (proj2 (proj2 Hl1) Hf) Hinv1 Hpast Hlen) as (w2 & Hr2 & Hdb2 & Hl2).
  exists now, w2. split_and!; [|congruence|by eapply later_trans].
  eapply rtc_l; [apply (acc_begin op agg w fs _ w1 Hr1)|]. apply rtc_once. simpl.
  rewrite <-(app_nil_r (fs ++ [Recording _ _ _ _])), <-app_assoc.
  apply (acc_load op agg snap now w1 fs [] (Ok (Recording op agg (account_at (events_of st agg)) now)) w2); [|done].
  by rewrite (encodes_length _ _ _ _ (ai_streams _ _ Hinv1 agg)).
Qed.

(** The writes: with the account as it is, and with an old one *)
Lemma write_current op agg now w st : w_faults w = [] -> account_inv w st -> roomy st agg ->
  a_status (account_at (events_of st agg)) = StatusActive ->
  exists w' tm, record_write op agg (account_at (events_of st agg)) now w = (Ok tt, w') /\ later w w' /\
    account_inv w' (<[agg := events_of st agg ++ [erase_amount (money_event op agg tm)]]> st).
Proof.
  intros Hf Hinv Hroom Hst. pose proof (record_write_post op agg now w st _ Hinv (le_n _) Hroom) as Hw.
  rewrite take_ge in Hw by done. unfold wpm in Hw.
  destruct (record_write _ _ _ _ w) as [[[]|e] w']; destruct Hw as [Hl Hw]; simpl in Hw.
  - destruct Hw as [_ [tm Hi]]. by exists w', tm.
  - destruct Hw as [_ [Hc|Hne]]; [by destruct Hc|done].
Qed.
Lemma write_old op agg now w st k : account_inv w st -> roomy st agg -> (k < length (events_of st agg))%nat ->
  exists e w', record_write op agg (account_at (take k (events_of st agg))) now w = (Err e, w') /\ later w w' /\ w_db w' = w_db w.
Proof.
  intros Hinv Hroom Hk. pose proof (record_write_post op agg now w st k Hinv ltac:(lia) Hroom) as Hw. unfold wpm in Hw.
  destruct (record_write _ _ _ _ w) as [[[]|e] w']; destruct Hw as [Hl Hw]; simpl in Hw.
  - destruct Hw as [[? _] _]. lia.
  - exists e, w'. split_and!; [done|done|]. destruct Hw as [[?|[[? _] _]] _]; [done|lia].
Qed.
Lemma record_quiet op agg w st : w_faults w = [] -> account_inv w st -> roomy st agg ->
  a_status (account_at (events_of st agg)) = StatusActive ->
  exists w' tm, with_tx (account_record agg (money_event op)) w = (Ok tt, w') /\
    account_inv w' (<[agg := events_of st agg ++ [erase_amount (money_event op agg tm)]]> st).
Proof.
  intros Hf Hinv Hroom Hst. pose proof (account_record_tx agg (money_event op) w st Hinv Hroom (money_event_money op agg)) as Hw.
  unfold wpm in Hw. destruct (with_tx _ w) as [[[]|e] w']; destruct Hw as [Hl Hw]; simpl in Hw.
  - destruct Hw as [_ [tm Hi]]. by exists w', tm.
  - by destruct Hw as [(Hna & _)|[Hne _]].
Qed.
Lemma rows_length w st agg : account_inv w st -> length (rows_for agg (ac_events (w_db w))) = length (events_of st agg).
Proof. intros Hinv. apply (encodes_length _ _ _ _ (ai_streams _ _ Hinv agg)). Qed.

(** C26. Of two commands that have read the same state of an active account
    the first to write is recorded and the second fails and changes nothing,
    although the ledger has already posted both; sent again, the second is
    recorded as well. *)
Theorem account_race o1 o2 agg w p :
  account_reachable w -> w_faults w = [] -> Z.of_nat (length (rows_for agg (ac_events (w_db w)))) + 2 < max_int64 ->
  ac_projection (w_db w) !! agg = Some p -> ap_Status p = StatusActive ->
  exists ag now1 now2 w2 w3 w4 w5 e,
    rtc acc_step (w, []) (w2, [Recording o1 agg ag now1; Recording o2 agg ag now2]) /\
    record_write o1 agg ag now1 w2 = (Ok tt, w3) /\
    record_write o2 agg ag now2 w3 = (Err e, w4) /\ w_db w4 = w_db w3 /\
    length (rows_for agg (ac_events (w_db w4))) = S (length (rows_for agg (ac_events (w_db w)))) /\
    with_tx (account_record agg (money_event o2)) w4 = (Ok tt, w5) /\
    length (rows_for agg (ac_events (w_db w5))) = S (S (length (rows_for agg (ac_events (w_db w))))).
Proof.
  intros [st Hinv]%account_reachable_inv Hf Hlen Hp Hact. rewrite (rows_length w st agg Hinv) in *.
  set (ds := events_of st agg) in *. assert (roomy st agg) as Hroom by (unfold roomy; fold ds; lia).
  assert (a_status (account_at ds) = StatusActive) as Hst.
  { rewrite (ai_projection _ _ Hinv) in Hp. unfold ds, events_of. destruct (st !! agg); [|done]. by injection Hp as <-. }
  destruct (reach_recording o1 agg w st [] Hf Hinv) as (now1 & w1 & Hs1 & Hdb1 & Hl1).
  assert (account_inv w1 st) as Hinv1 by (by apply (account_inv_later w)).
  destruct (reach_recording o2 agg w1 st [Recording o1 agg (account_at ds) now1] (proj2 (proj2 Hl1) Hf) Hinv1)
    as (now2 & w2 & Hs2 & Hdb2 & Hl2).
  assert (later w w2) as Hl12 by (by eapply later_trans). assert (account_inv w2 st) as Hinv2 by (by apply (account_inv_later w1)).
  destruct (write_current o1 agg now1 w2 st (proj2 (proj2 Hl12) Hf) Hinv2 Hroom Hst) as (w3 & tm & Hr1 & Hl3 & Hinv3).
  fold ds in Hr1, Hinv3. set (d1 := erase_amount _) in Hinv3. set (st3 := <[agg := _]> st) in *.
  assert (events_of st3 agg = ds ++ [d1]) as He3 by (unfold st3; by rewrite events_of_insert, bool_decide_true).
  assert (length (events_of st3 agg) = S (length ds)) as Hlen3 by (rewrite He3, length_app; simpl; lia).
  assert (roomy st3 agg) as Hroom3 by (unfold roomy; lia).
  destruct (write_old o2 agg now2 w3 st3 (length ds) Hinv3 Hroom3 ltac:(lia)) as (e & w4 & Hr2 & Hl4 & Hdb4).
  rewrite He3, take_app_length in Hr2. assert (account_inv w4 st3) as Hinv4 by (by apply (account_inv_later w3)).
  destruct (record_quiet o2 agg w4 st3) as (w5 & tm5 & Hr3 & Hinv5); [by apply Hl4, Hl3, Hl12|done|done| |].
  { rewrite He3. destruct (account_at_money ds d1) as (_ & -> & _); [by destruct o1|done]. }
  exists (account_at ds), now1, now2, w2, w3, w4, w5, e. split_and!; try done.
  - by etrans.
  - by rewrite (rows_length w4 st3 agg Hinv4).
  - rewrite (rows_length w5 _ agg Hinv5), events_of_insert, bool_decide_true, length_app, Hlen3 by done. simpl. lia.
Qed.
End race.
