(* ===== verification/AccountWorker.v ===== *)
(** * The projection worker of the account service

    What the accounts table shows after any number of ticks of the worker,
    whatever it showed before: the worker replays the log page by page from
    its start. *)
From S2P Require Import Prelude GoStrings Json Money EventStore Streams Outbox Ledger LedgerSpec Account.
From S2P Require Import AccountSpec AccountStore AccountProps.
#[local] Open Scope Z_scope.
#[local] Open Scope go_scope.

(** The rows of an account in a piece of the log *)
Definition rows_in (agg : string) (rows : list event_row) : list Event :=
  List.filter (fun e => bool_decide (ev_AggregateID e = agg)) (map er_event rows).

Lemma rows_in_app agg rows rows' : rows_in agg (rows ++ rows') = rows_in agg rows ++ rows_in agg rows'.
Proof. unfold rows_in. by rewrite map_app, List.filter_app. Qed.

Lemma rows_in_cons agg r rows : rows_in agg (r :: rows) =
  if bool_decide (ev_AggregateID (er_event r) = agg) then er_event r :: rows_in agg rows else rows_in agg rows.
Proof. done. Qed.

(** ** One event *)
Definition projected (d : AccountEvent) (p : AccountProjection) : AccountProjection :=
  match d with
  | AccountOpened _ c _ => mkAccountProjection (ap_AccountID p) c StatusActive (ap_Version p)
  | AccountFrozen _ _ => mkAccountProjection (ap_AccountID p) (ap_CustomerID p) StatusFrozen (ap_Version p)
  | AccountClosed _ _ => mkAccountProjection (ap_AccountID p) (ap_CustomerID p) StatusClosed (ap_Version p)
  | _ => p
  end.
Lemma account_project_fields_ok e d p :
  account_decode e = Ok d -> account_project_fields e p = Ok (Some (projected d p)).
Proof.
  unfold account_decode, UnmarshalAccountEvent, account_project_fields.
  repeat case_bool_decide; try done; intros Hd;
    repeat (match type of Hd with context [result_bind ?r _] => destruct r; simpl in Hd |- * end); by simplify_eq.
Qed.

(** An account that has only been opened and used is active and has its
    customer. *)
Lemma account_at_opened agg cust t rest : Forall (fun e => is_money e = true) rest ->
  a_customerID (account_at (AccountOpened agg cust t :: rest)) = cust /\
  a_status (account_at (AccountOpened agg cust t :: rest)) = StatusActive.
Proof.
  induction rest as [|e rest IH] using rev_ind; [done|]. intros [Hr He]%Forall_app.
  apply Forall_inv in He. rewrite app_comm_cons.
  destruct (account_at_money (AccountOpened agg cust t :: rest) e He) as (-> & -> & _). by apply IH.
Qed.

Section worker.
Context `{Hev : Env} `{Henv : !EnvOk}.
Variables (t : EventTables) (o : OutboxTable) (st : gmap string (list AccountEvent)) (P : gmap string AccountProjection).
Hypothesis t_streams : streams account_decode t st.
Hypothesis t_shape : map_Forall stream_shape st.
Hypothesis t_log : Forall (fun r => 0 < er_sequence r /\ ev_AggregateType (er_event r) = "account") (events t).
Hypothesis P_keyed : map_Forall (fun agg p => ap_AccountID p = agg) P.
Implicit Types (w : World AccountDB).

(** What the table shows of an account when [rows] have been replayed *)
Definition shown (rows : list event_row) (agg : string) : option AccountProjection :=
  let ds := take (length (rows_in agg rows)) (events_of st agg) in
  if decide (ds = []) then P !! agg else Some (projection_of agg ds).

Definition replayed (rows : list event_row) w : Prop :=
  w_faults w = [] /\ tables_wf (w_seq w) t /\ ac_events (w_db w) = t /\ ac_outbox (w_db w) = o /\
  forall agg, ac_projection (w_db w) !! agg = shown rows agg.

Lemma shown_other rows r agg : ev_AggregateID (er_event r) <> agg -> shown (rows ++ [r]) agg = shown rows agg.
Proof. intros Hne. unfold shown. rewrite rows_in_app, rows_in_cons, bool_decide_false by done. by rewrite app_nil_r. Qed.

(** The event, the row before and the row after it *)
Lemma next_row rows r rest : let e := er_event r in let agg := ev_AggregateID e in
  rows ++ r :: rest = events t ->
  exists d, account_decode e = Ok d /\
    let p := default (mkAccountProjection agg "" "" 0) (shown rows agg) in
    let p' := projected d p in
    ap_AccountID p' = agg /\ ap_CustomerID p' <> "" /\ ap_Status p' = StatusActive /\
    shown (rows ++ [r]) agg = Some (mkAccountProjection (ap_AccountID p') (ap_CustomerID p') (ap_Status p') (ev_Version e)).
Proof.
  intros e agg Hlog. pose proof (t_streams agg) as Hs. unfold rows_for in Hs. rewrite <-Hlog in Hs.
  fold (rows_in agg (rows ++ r :: rest)) in Hs. rewrite rows_in_app, rows_in_cons, bool_decide_true in Hs by done.
  destruct (encodes_mid _ _ _ _ _ _ Hs) as (d & Hd & Hdec & Hv). exists d. split; [done|]. intros p p'.
  assert (shown (rows ++ [r]) agg = Some (projection_of agg (take (length (rows_in agg rows)) (events_of st agg) ++ [d]))) as ->.
  { unfold shown. rewrite rows_in_app, rows_in_cons, bool_decide_true by done.
    rewrite length_app. simpl. rewrite Nat.add_1_r. rewrite (take_S_r _ _ _ Hd). rewrite decide_False; [done|]. by destruct (take _ _). }
  assert (length (take (length (rows_in agg rows)) (events_of st agg)) = length (rows_in agg rows)) as Hlen
    by (apply length_take_le; apply lookup_lt_Some in Hd; lia).
  assert (stream_shape agg (events_of st agg)) as (cust & tm & money & Hds & Hcust & Hmoney).
  { unfold events_of in Hd |- *. destruct (st !! agg) eqn:Hst; [by apply (t_shape agg)|done]. }
  unfold projection_of. rewrite length_app, Hlen. simpl.
  assert (a_customerID (account_at (take (length (rows_in agg rows)) (events_of st agg) ++ [d])) = cust /\
          a_status (account_at (take (length (rows_in agg rows)) (events_of st agg) ++ [d])) = StatusActive) as [-> ->].
  { rewrite <-(take_S_r _ _ _ Hd), Hds. simpl. apply account_at_opened. by apply Forall_take. }
  assert (ap_AccountID p' = agg /\ ap_CustomerID p' = cust /\ ap_Status p' = StatusActive) as (-> & -> & ->).
  2: { split_and!; [done|done|done|]. do 2 f_equal. unfold e. lia. }
  subst p' p. unfold shown. rewrite Hds in Hd |- *. destruct (length (rows_in agg rows)) as [|k] eqn:Hk; simpl in *.
  - simplify_eq. simpl. split_and!; [|done|done]. destruct (P !! agg) as [p|] eqn:HP; [|done]. simpl. by apply (P_keyed agg).
  - assert (is_money d = true) as Hm by (exact (Forall_lookup_1 _ _ _ _ Hmoney Hd)).
    destruct (account_at_opened agg cust tm (take k money)) as [Hc Hst]; [by apply Forall_take|].
    destruct d; try done; simpl; by rewrite Hc, Hst.
Qed.

Lemma account_project_run rows r rest w : rows ++ r :: rest = events t -> replayed rows w ->
  exists w', account_project (er_event r) w = (Ok tt, w') /\ replayed (rows ++ [r]) w'.
Proof.
  intros Hlog (Hf & Hwf & Ht & Ho & Hp). destruct (next_row rows r rest Hlog) as (d & Hdec & Hid & Hcust & Hst & Hnext).
  assert (ev_AggregateType (er_event r) = "account") as Hty.
  { rewrite <-Hlog in t_log. apply Forall_app in t_log as [_ [[_ Hty] _]%Forall_cons]. done. }
  unfold account_project. rewrite Hty. simpl negb. cbv iota.
  unfold AccountProjectionRepo_GetByID, AccountProjectionRepo_Upsert, autoexec, bindM, next_fault, run_stmt, select_account.
  destruct w as [db sq u tk tx fl sn]. simpl in *. subst fl. simpl. rewrite Hp.
  unfold liftR. rewrite (account_project_fields_ok _ d) by done. simpl.
  set (p' := projected d _) in *. destruct (is_empty (ap_CustomerID p')) eqn:Hemp; [by apply is_empty_true in Hemp|].
  rewrite Hst. simpl. eexists. split; [done|]. split_and!; simpl; try done.
  - eapply tables_wf_mono; [|exact Hwf]. lia.
  - intros agg. destruct (decide (ev_AggregateID (er_event r) = agg)) as [<-|Hne].
    + rewrite Hid. by rewrite lookup_insert_eq, Hnext, Hid, Hst.
    + rewrite shown_other by done. rewrite lookup_insert_ne; [by rewrite Hp|by rewrite Hid].
Qed.

(** ** Pages and ticks *)
Lemma account_project_all rows page rest w : rows ++ page ++ rest = events t -> replayed rows w ->
  exists w', forM (map er_event page) account_project w = (Ok tt, w') /\ replayed (rows ++ page) w'.
Proof.
  revert rows w. induction page as [|r page IH]; intros rows w Hlog Hr; simpl.
  - rewrite app_nil_r. by exists w.
  - destruct (account_project_run rows r (page ++ rest) w Hlog Hr) as (w1 & Hrun & Hr1).
    unfold bindM. rewrite Hrun. destruct (IH (rows ++ [r]) w1) as (w2 & Hrun2 & Hr2); [by rewrite <-app_assoc|done|].
    exists w2. split; [done|]. by rewrite <-app_assoc in Hr2.
Qed.

Definition account_page : nat := Z.to_nat (default_limit account_worker_batch).

Lemma account_batch_run from m w :
  log_after from t = drop m (events t) -> replayed (take m (events t)) w ->
  exists w', account_processNextBatch from w =
      (Ok (Z.of_nat (length (take account_page (drop m (events t)))),
           last_sequence from (take account_page (drop m (events t)))), w') /\
    replayed (take (m + account_page) (events t)) w'.
Proof.
  intros Hafter (Hf & Hwf & Ht & Ho & Hp). unfold account_processNextBatch, bindM.
  destruct (ReadAll_page from account_worker_batch w) as (w1 & Hrun & Hdb & Hwf1 & Hfl1); [by rewrite <-Ht in Hwf|done|].
  rewrite Hrun. fold account_page. change (view (w_db w)) with (ac_events (w_db w)). rewrite Ht, Hafter.
  set (page := take account_page (drop m (events t))).
  assert (take m (events t) ++ page ++ drop account_page (drop m (events t)) = events t) as Hlog
    by (unfold page; by rewrite !take_drop).
  destruct (account_project_all _ _ _ w1 Hlog) as (w2 & Hrun2 & Hr2).
  { split_and!; [done| |by rewrite Hdb|by rewrite Hdb|intros agg; by rewrite Hdb].
    rewrite <-Ht, <-Hdb. exact Hwf1. }
  rewrite Hrun2. exists w2. split; [by rewrite length_map|].
  unfold page in Hr2. by rewrite take_take_drop in Hr2.
Qed.

Lemma account_worker_run_all ticks from m w :
  log_after from t = drop m (events t) -> replayed (take m (events t)) w ->
  exists seq w', account_worker_run ticks from w = (Ok seq, w') /\
    replayed (take (m + ticks * account_page) (events t)) w'.
Proof.
  revert from m w. induction ticks as [|ticks IH]; intros from m w Hafter Hr.
  - exists from, w. split; [done|]. by rewrite Nat.mul_0_l, Nat.add_0_r.
  - destruct (account_batch_run from m w Hafter Hr) as (w1 & Hrun & Hr1).
    assert (log_after (last_sequence from (take account_page (drop m (events t)))) t = drop (m + account_page) (events t)) as Hnext.
    { rewrite <-drop_drop, <-Hafter. destruct Hr as (_ & Hwf & _). by eapply log_after_page. }
    simpl. unfold bindM, tryM. rewrite Hrun. set (from' := if _ <? _ then _ else _).
    assert (from' = last_sequence from (take account_page (drop m (events t)))) as ->
      by (subst from'; by destruct (take account_page (drop m (events t)))).
    destruct (IH _ _ w1 Hnext Hr1) as (seq & w2 & Hrun2 & Hr2). exists seq, w2. split; [done|].
    by rewrite <-Nat.add_assoc in Hr2.
Qed.
End worker.

(** ** The worker of the service *)
Section rebuild.
Context `{Hev : Env} `{Henv : !EnvOk}.

(** C27. The worker rebuilds the accounts table: from a reachable state with
    any rows [P] in the table, and nothing failing, [ticks] ticks replay
    exactly the first 100 events per tick of the log. An account with events
    among them then shows the customer and status of their replay and their
    number as its version, every other row is as it was; events and outbox
    are untouched. Once the whole log has been read every account shows
    exactly what the commands maintain. *)
Theorem account_worker_rebuilds ticks P (w : World AccountDB) :
  account_reachable w -> w_faults w = [] -> map_Forall (fun agg p => ap_AccountID p = agg) P ->
  let log := events (ac_events (w_db w)) in
  exists seq w', account_worker_run ticks 0 (set_db (mkAccountDB (ac_events (w_db w)) (ac_outbox (w_db w)) P) w) = (Ok seq, w') /\
    ac_events (w_db w') = ac_events (w_db w) /\ ac_outbox (w_db w') = ac_outbox (w_db w) /\
    (forall agg, exists ds, unmarshal_account_events (rows_in agg (take (ticks * 100) log)) = Ok ds /\
       ac_projection (w_db w') !! agg =
         if decide (ds = []) then P !! agg
         else Some (mkAccountProjection agg (a_customerID (Account_Rehydrate ds)) (a_status (Account_Rehydrate ds))
                      (Z.of_nat (length ds)))) /\
    ((length log <= ticks * 100)%nat -> forall agg, is_Some (ac_projection (w_db w) !! agg) ->
       ac_projection (w_db w') !! agg = ac_projection (w_db w) !! agg).
Proof.
  intros [st Hinv]%account_reachable_inv Hf HP log.
  assert (log_after 0 (ac_events (w_db w)) = drop 0 log) as Hall.
  { rewrite drop_0. apply filter_list_all. intros r Hr. pose proof (ai_log _ _ Hinv) as Hl. rewrite Forall_forall in Hl.
    apply Z.ltb_lt. by apply Hl. }
  destruct (account_worker_run_all (ac_events (w_db w)) (ac_outbox (w_db w)) st P (ai_streams _ _ Hinv) (ai_shape _ _ Hinv)
    (ai_log _ _ Hinv) HP ticks 0 0 (set_db (mkAccountDB (ac_events (w_db w)) (ac_outbox (w_db w)) P) w) Hall)
    as (seq & w' & Hrun & Hr).
  { split_and!; simpl; try done. apply (ai_wf _ _ Hinv). }
  destruct Hr as (_ & _ & He & Ho & Hp). change account_page with 100%nat in Hp. rewrite Nat.add_0_l in Hp. fold log in Hp.
  exists seq, w'. split_and!; [done|done|done| |].
  - intros agg. exists (take (length (rows_in agg (take (ticks * 100) log))) (events_of st agg)).
    split; [|by rewrite Hp]. eapply unmarshal_encodes. pose proof (ai_streams _ _ Hinv agg) as Hs.
    assert (rows_for agg (ac_events (w_db w)) = rows_in agg (take (ticks * 100) log) ++ rows_in agg (drop (ticks * 100) log)) as Hrows
      by (by rewrite <-rows_in_app, take_drop).
    rewrite Hrows in Hs. by eapply encodes_prefix.
  - intros Hlen agg [p Hsome]. rewrite Hp, Hsome. rewrite take_ge by done. rewrite (ai_projection _ _ Hinv) in Hsome.
    pose proof (ai_streams _ _ Hinv agg) as Hs. apply encodes_length in Hs.
    unfold shown. change (rows_in agg log) with (rows_for agg (ac_events (w_db w))). rewrite Hs, take_ge by lia. unfold events_of. destruct (st !! agg) as [ds|] eqn:Hst; [|done].
    destruct (ai_shape _ _ Hinv agg ds Hst) as (cust & tm & rest & -> & _). rewrite decide_False by done. by injection Hsome as <-.
Qed.
End rebuild.
