(* ===== verification/Payment.v ===== *)
(** * The payment service ([src/services/payment-service])

    The [Payment] aggregate and its lifecycle, the four commands, the
    projection, the Temporal client the first command calls and the gRPC
    server. The database of the service is [PaymentDB]. *)
From S2P Require Import Prelude GoStrings Json Money EventStore Outbox Ledger Account.
#[local] Open Scope Z_scope.
#[local] Open Scope go_scope.

(** ** Domain ([domain/payment.go]) *)
Definition StatusInitiated : string := "initiated".
Definition StatusAuthorized : string := "authorized".
Definition StatusSettled : string := "settled".
Definition StatusFailed : string := "failed".

Definition EventPaymentInitiated : string := "payment.initiated.v1".
Definition EventPaymentAuthorized : string := "payment.authorized.v1".
Definition EventPaymentSettled : string := "payment.settled.v1".
Definition EventPaymentFailed : string := "payment.failed.v1".

Inductive PaymentEvent : Type :=
| PaymentInitiated (PaymentID FromAccountID ToAccountID : string) (Amount : Money)
    (Narration : string) (OccurredAt : Z)
| PaymentAuthorized (PaymentID : string) (OccurredAt : Z)
| PaymentSettled (PaymentID : string) (OccurredAt : Z)
| PaymentFailed (PaymentID Reason : string) (OccurredAt : Z).

Definition payment_EventType (e : PaymentEvent) : string :=
  match e with
  | PaymentInitiated _ _ _ _ _ _ => EventPaymentInitiated
  | PaymentAuthorized _ _ => EventPaymentAuthorized
  | PaymentSettled _ _ => EventPaymentSettled
  | PaymentFailed _ _ _ => EventPaymentFailed
  end.

Definition payment_OccurredAtUTC (e : PaymentEvent) : Z :=
  match e with
  | PaymentInitiated _ _ _ _ _ t | PaymentAuthorized _ t | PaymentSettled _ t | PaymentFailed _ _ t => t
  end.

(** [json.Marshal] of an event struct, under its field tags. *)
Definition PaymentEvent_Marshal (e : PaymentEvent) : json :=
  match e with
  | PaymentInitiated id from to m narr t =>
      JObj [("payment_id", JStr id); ("from_account_id", JStr from); ("to_account_id", JStr to);
            ("amount", Money_Marshal m); ("narration", JStr narr); ("occurred_at", JTime t)]
  | PaymentAuthorized id t | PaymentSettled id t =>
      JObj [("payment_id", JStr id); ("occurred_at", JTime t)]
  | PaymentFailed id reason t =>
      JObj [("payment_id", JStr id); ("reason", JStr reason); ("occurred_at", JTime t)]
  end.

Record Payment : Type := mkPayment {
  py_id : string;
  py_fromAccountID : string;
  py_toAccountID : string;
  py_amount : Money;
  py_narration : string;
  py_status : string;
  py_version : Z;
  py_changes : list PaymentEvent;
}.

(** [&Payment{}] *)
Definition Payment_zero : Payment := mkPayment "" "" "" Money_zero "" "" 0 [].

Definition Payment_status (st : string) (p : Payment) : Payment :=
  mkPayment (py_id p) (py_fromAccountID p) (py_toAccountID p) (py_amount p) (py_narration p)
    st (wrap64 (py_version p + 1)) (py_changes p).

Definition Payment_Apply (e : PaymentEvent) (p : Payment) : Payment :=
  match e with
  | PaymentInitiated id from to m narr _ =>
      mkPayment id from to m narr StatusInitiated (wrap64 (py_version p + 1)) (py_changes p)
  | PaymentAuthorized _ _ => Payment_status StatusAuthorized p
  | PaymentSettled _ _ => Payment_status StatusSettled p
  | PaymentFailed _ _ _ => Payment_status StatusFailed p
  end.

Definition Payment_raise (e : PaymentEvent) (p : Payment) : Payment :=
  let p := Payment_Apply e p in
  mkPayment (py_id p) (py_fromAccountID p) (py_toAccountID p) (py_amount p) (py_narration p)
    (py_status p) (py_version p) (py_changes p ++ [e]).

Definition Payment_PullChanges (p : Payment) : list PaymentEvent * Payment :=
  (py_changes p,
   mkPayment (py_id p) (py_fromAccountID p) (py_toAccountID p) (py_amount p) (py_narration p)
     (py_status p) (py_version p) []).

Definition payment_validateAmount (m : Money) : result unit :=
  if negb (bool_decide (Currency m = NGN)) then Err (ENew "unsupported currency")
  else if AmountKobo m <=? 0 then Err (ENew "amount must be positive")
  else Ok tt.

Section domain.
Context `{Env} {DB : Type}.

Definition NewPayment (from to : string) (amount : Money) (narration : string) : M DB Payment :=
  fail_if (is_empty (TrimSpace from)) (ENew "from_account_id required") ;;;
  fail_if (is_empty (TrimSpace to)) (ENew "to_account_id required") ;;;
  fail_if (bool_decide (from = to)) (ENew "from_account_id and to_account_id must differ") ;;;
  liftR (payment_validateAmount amount) ;;;
  let! id := ids_New in
  let! now := time_Now in
  retM (Payment_raise (PaymentInitiated id from to amount narration now)
          (mkPayment id from to amount narration StatusInitiated 0 [])).

Definition Payment_Authorize (p : Payment) : M DB Payment :=
  fail_if (negb (bool_decide (py_status p = StatusInitiated))) (ENew "payment not in initiated state") ;;;
  let! now := time_Now in
  retM (Payment_raise (PaymentAuthorized (py_id p) now) p).

Definition Payment_Settle (p : Payment) : M DB Payment :=
  fail_if (negb (bool_decide (py_status p = StatusAuthorized))) (ENew "payment not in authorized state") ;;;
  let! now := time_Now in
  retM (Payment_raise (PaymentSettled (py_id p) now) p).

Definition Payment_Fail (reason : string) (p : Payment) : M DB Payment :=
  fail_if (bool_decide (py_status p = StatusSettled)) (ENew "cannot fail a settled payment") ;;;
  let reason := TrimSpace reason in
  let reason := if is_empty reason then "failed" else reason in
  let! now := time_Now in
  retM (Payment_raise (PaymentFailed (py_id p) reason now) p).
End domain.

(** ** Database ([infrastructure/postgres]) *)
Record PaymentProjection : Type := mkPaymentProjection {
  pp_PaymentID : string;
  pp_FromAccountID : string;
  pp_ToAccountID : string;
  pp_Currency : string;
  pp_AmountKobo : Z;
  pp_Narration : string;
  pp_Status : string;
  pp_TemporalWorkflowID : string;
  pp_TemporalRunID : string;
  pp_Version : Z;
}.

Record PaymentDB : Type := mkPaymentDB {
  pd_events : EventTables;
  pd_outbox : OutboxTable;
  pd_projection : gmap string PaymentProjection;
}.

#[export] Instance PaymentDB_events : Lens PaymentDB EventTables := {|
  view := pd_events;
  upd t db := mkPaymentDB t (pd_outbox db) (pd_projection db);
|}.
#[export] Instance PaymentDB_outbox : Lens PaymentDB OutboxTable := {|
  view := pd_outbox;
  upd t db := mkPaymentDB (pd_events db) t (pd_projection db);
|}.
#[export] Instance PaymentDB_events_ok : LensOk PaymentDB EventTables.
Proof. by split; intros; try destruct s. Qed.
#[export] Instance PaymentDB_outbox_ok : LensOk PaymentDB OutboxTable.
Proof. by split; intros; try destruct s. Qed.

Definition upsert_payment (p : PaymentProjection) : stmt PaymentDB unit := fun _ _ db =>
  Ok (tt, mkPaymentDB (pd_events db) (pd_outbox db) (<[pp_PaymentID p := p]> (pd_projection db))).

Definition select_payment (paymentID : string) : stmt PaymentDB (option PaymentProjection) :=
  fun _ _ db => Ok (pd_projection db !! paymentID, db).

Definition PaymentProjectionRepo_Upsert (p : PaymentProjection) : M PaymentDB unit := exec (upsert_payment p).
Definition PaymentProjectionRepo_GetByID (paymentID : string) : M PaymentDB (option PaymentProjection) :=
  exec (select_payment paymentID).
Definition PaymentQuery_GetByID `{Env} (paymentID : string) : M PaymentDB (option PaymentProjection) :=
  autoexec (select_payment paymentID).

(** ** Reading events back ([application/commands/load_payment.go]) *)
Definition json_PaymentInitiated (data : bytes) : result PaymentEvent :=
  let? fs := json_members data in
  let? id := json_string (json_member "payment_id" fs) in
  let? from := json_string (json_member "from_account_id" fs) in
  let? to := json_string (json_member "to_account_id" fs) in
  let? m := json_money (json_member "amount" fs) in
  let? narr := json_string (json_member "narration" fs) in
  let? t := json_time (json_member "occurred_at" fs) in
  Ok (PaymentInitiated id from to m narr t).

Definition UnmarshalPaymentEvent (typ : string) (data : bytes) : result PaymentEvent :=
  if bool_decide (typ = EventPaymentInitiated) then json_PaymentInitiated data
  else if bool_decide (typ = EventPaymentAuthorized) then
    let? fs := json_members data in
    let? id := json_string (json_member "payment_id" fs) in
    let? t := json_time (json_member "occurred_at" fs) in
    Ok (PaymentAuthorized id t)
  else if bool_decide (typ = EventPaymentSettled) then
    let? fs := json_members data in
    let? id := json_string (json_member "payment_id" fs) in
    let? t := json_time (json_member "occurred_at" fs) in
    Ok (PaymentSettled id t)
  else if bool_decide (typ = EventPaymentFailed) then
    let? fs := json_members data in
    let? id := json_string (json_member "payment_id" fs) in
    let? reason := json_string (json_member "reason" fs) in
    let? t := json_time (json_member "occurred_at" fs) in
    Ok (PaymentFailed id reason t)
  else Err (ENew "unknown event type").

Fixpoint payment_replay (evs : list Event) (p : Payment) : result Payment :=
  match evs with
  | [] => Ok p
  | se :: evs' =>
      let? ev := UnmarshalPaymentEvent (ev_Type se) (ev_Data se) in
      payment_replay evs' (Payment_Apply ev p)
  end.

Definition LoadPayment (paymentID : string) : M PaymentDB Payment :=
  let! evs := Read (@exec PaymentDB) paymentID 0 10000 in
  liftR (payment_replay evs Payment_zero).

(** ** Commands ([application/commands]) *)
Definition paymentEventsTopicV1 : string := "banking.payments.v1".

Section payment_tx.
Context `{Env}.

Definition payment_event (id paymentID : string) (ver : Z) (ev : PaymentEvent) : Event :=
  mkEvent id paymentID "payment" ver (payment_EventType ev) (payment_OccurredAtUTC ev)
    (BJson (PaymentEvent_Marshal ev)) None.

Definition payment_enqueue (paymentID : string) (ver : Z) (ev : PaymentEvent) : M PaymentDB unit :=
  let! id := ids_New in
  let! now := time_Now in
  Enqueue (@exec PaymentDB)
    (mkMsg id paymentEventsTopicV1 (BRaw paymentID)
       (BJson (outboxEventEnvelope (payment_EventType ev) paymentID "payment" ver
                 (payment_OccurredAtUTC ev) (PaymentEvent_Marshal ev)))
       (envelope_headers (payment_EventType ev) paymentID "payment") now None).

Definition is_initiated (e : PaymentEvent) : bool :=
  match e with PaymentInitiated _ _ _ _ _ _ => true | _ => false end.

(** The loop of [InitiatePayment] over the new events, versions from
    [i + 1]. *)
Fixpoint initiate_toAppend (paymentID : string) (i : Z) (evs : list PaymentEvent) : M PaymentDB (list Event) :=
  match evs with
  | [] => retM []
  | ev :: evs' =>
      let! id := ids_New in
      wrap_err "enqueue outbox" (payment_enqueue paymentID (i + 1) ev) ;;;
      let! rest := initiate_toAppend paymentID (i + 1) evs' in
      retM (payment_event id paymentID (i + 1) ev :: rest)
  end.

Record InitiatePayment : Type := mkInitiatePayment {
  ip_FromAccountID : string;
  ip_ToAccountID : string;
  ip_Amount : Money;
  ip_Narration : string;
  ip_IdempotencyKey : string;
}.

(** Payment id, version and status: the result of every command. *)
Record PaymentResult : Type := mkPaymentResult {
  res_PaymentID : string;
  res_Version : Z;
  res_Status : string;
}.

Definition InitiatePayment_tx (cmd : InitiatePayment) : M PaymentDB (PaymentResult * PaymentProjection) :=
  let! p := NewPayment (ip_FromAccountID cmd) (ip_ToAccountID cmd) (ip_Amount cmd) (ip_Narration cmd) in
  let '(events, p) := Payment_PullChanges p in
  fail_if (negb (forallb is_initiated events)) (ENew "unsupported event") ;;;
  let! toAppend := initiate_toAppend (py_id p) 0 events in
  wrap_err "append events" (Append (@exec PaymentDB) toAppend) ;;;
  let created := mkPaymentProjection (py_id p) (ip_FromAccountID cmd) (ip_ToAccountID cmd)
    (Currency (ip_Amount cmd)) (AmountKobo (ip_Amount cmd)) (ip_Narration cmd) (py_status p) "" ""
    (py_version p) in
  PaymentProjectionRepo_Upsert created ;;;
  retM (mkPaymentResult (py_id p) (py_version p) (py_status p), created).

(** The transaction that records the workflow. *)
Definition InitiatePayment_link (paymentID wid rid : string) : M PaymentDB unit :=
  let! o := PaymentProjectionRepo_GetByID paymentID in
  match o with
  | None => failM (ENew "payment not found")
  | Some cur =>
      PaymentProjectionRepo_Upsert
        (mkPaymentProjection (pp_PaymentID cur) (pp_FromAccountID cur) (pp_ToAccountID cur)
           (pp_Currency cur) (pp_AmountKobo cur) (pp_Narration cur) (pp_Status cur) wid rid (pp_Version cur))
  end.

Definition InitiatePayment_validate (cmd : InitiatePayment) : M PaymentDB unit :=
  fail_if (is_empty (ip_FromAccountID cmd)) (ENew "from_account_id required") ;;;
  fail_if (is_empty (ip_ToAccountID cmd)) (ENew "to_account_id required") ;;;
  fail_if (is_empty (ip_IdempotencyKey cmd)) (ENew "idempotency_key required") ;;;
  fail_if (bool_decide (ip_FromAccountID cmd = ip_ToAccountID cmd))
    (ENew "from_account_id and to_account_id must differ") ;;;
  fail_if (negb (bool_decide (Currency (ip_Amount cmd) = NGN))) (ENew "unsupported currency") ;;;
  fail_if (AmountKobo (ip_Amount cmd) <=? 0) (ENew "amount must be positive").

(** *** The Temporal client ([infrastructure/temporal/client.go]) *)
Record TransferWorkflowInput : Type := mkTransferWorkflowInput {
  ti_PaymentID : string;
  ti_FromAccountID : string;
  ti_ToAccountID : string;
  ti_Currency : string;
  ti_AmountKobo : Z;
  ti_Narration : string;
  ti_IdempotencyKey : string;
}.

(** The SDK's [ExecuteWorkflow]: id, name and input to the run's id, or an
    error. *)
Definition TemporalSDK : Type := string -> TransferWorkflowInput -> result string.

(** A Go interface value holding a [*Client]: nil, a nil pointer, or a
    client. An interface that holds a nil pointer is not nil. *)
Inductive TemporalClient : Type :=
| TemporalNil
| TemporalNilPointer
| TemporalSome (sdk : TemporalSDK).

Definition StartTransferWorkflow (t : TemporalClient) (inp : TransferWorkflowInput) : result (string * string) :=
  match t with
  | TemporalNil | TemporalNilPointer => Err (EPanic "nil pointer dereference")
  | TemporalSome sdk =>
      let workflowID := "payment-transfer-" +:+ ti_PaymentID inp in
      let? run := sdk workflowID inp in
      Ok (workflowID, run)
  end.

Definition InitiatePaymentHandler_Handle (temporal : TemporalClient) (cmd : InitiatePayment)
  : M PaymentDB PaymentResult :=
  InitiatePayment_validate cmd ;;;
  let! '(res, created) := with_tx (InitiatePayment_tx cmd) in
  match temporal with
  | TemporalNil => retM res
  | _ =>
      let! '(wid, rid) := liftR (StartTransferWorkflow temporal
        (mkTransferWorkflowInput (res_PaymentID res) (pp_FromAccountID created) (pp_ToAccountID created)
           (pp_Currency created) (pp_AmountKobo created) (pp_Narration created) (ip_IdempotencyKey cmd))) in
      with_tx (InitiatePayment_link (res_PaymentID res) wid rid) ;;;
      retM res
  end.

(** What [cmd/payment-service/main.go] passes: a variable of type [*Client],
    set only when Temporal is enabled. *)
Definition main_temporal (temporalEnabled : bool) (sdk : TemporalSDK) : TemporalClient :=
  if temporalEnabled then TemporalSome sdk else TemporalNilPointer.

(** The transaction of [AuthorizePayment], [SettlePayment] and [FailPayment]:
    load, one transition, one event of the expected type. *)
Definition payment_apply (paymentID : string) (transition : Payment -> M PaymentDB Payment)
    (expected : PaymentEvent -> bool) (p : Payment) : M PaymentDB PaymentResult :=
  let! p := transition p in
  let '(changes, p) := Payment_PullChanges p in
  match changes with
  | [ev] =>
      fail_if (negb (expected ev)) (ENew "unexpected event") ;;;
      let ver := py_version p in
      let! id := ids_New in
      wrap_err "append events" (Append (@exec PaymentDB) [payment_event id paymentID ver ev]) ;;;
      let! o := PaymentProjectionRepo_GetByID paymentID in
      match o with
      | None => failM (ENew "payment not found")
      | Some cur =>
          PaymentProjectionRepo_Upsert
            (mkPaymentProjection (pp_PaymentID cur) (pp_FromAccountID cur) (pp_ToAccountID cur)
               (pp_Currency cur) (pp_AmountKobo cur) (pp_Narration cur) (py_status p)
               (pp_TemporalWorkflowID cur) (pp_TemporalRunID cur) ver) ;;;
          payment_enqueue paymentID ver ev ;;;
          retM (mkPaymentResult paymentID ver (py_status p))
      end
  | _ => failM (ENew "unexpected number of changes")
  end.
Definition payment_change (paymentID : string) (transition : Payment -> M PaymentDB Payment)
    (expected : PaymentEvent -> bool) : M PaymentDB PaymentResult :=
  let! p := LoadPayment paymentID in
  payment_apply paymentID transition expected p.

Definition is_authorized (e : PaymentEvent) : bool := match e with PaymentAuthorized _ _ => true | _ => false end.
Definition is_settled (e : PaymentEvent) : bool := match e with PaymentSettled _ _ => true | _ => false end.
Definition is_failed (e : PaymentEvent) : bool := match e with PaymentFailed _ _ _ => true | _ => false end.

Definition payment_keys_required (paymentID idempotencyKey : string) : M PaymentDB unit :=
  fail_if (is_empty paymentID) (ENew "payment_id required") ;;;
  fail_if (is_empty idempotencyKey) (ENew "idempotency_key required").

Definition AuthorizePaymentHandler_Handle (paymentID idempotencyKey : string) : M PaymentDB PaymentResult :=
  payment_keys_required paymentID idempotencyKey ;;;
  with_tx (payment_change paymentID Payment_Authorize is_authorized).

Definition SettlePaymentHandler_Handle (paymentID idempotencyKey : string) : M PaymentDB PaymentResult :=
  payment_keys_required paymentID idempotencyKey ;;;
  with_tx (payment_change paymentID Payment_Settle is_settled).

Definition FailPaymentHandler_Handle (paymentID idempotencyKey reason : string) : M PaymentDB PaymentResult :=
  payment_keys_required paymentID idempotencyKey ;;;
  with_tx (payment_change paymentID (Payment_Fail (TrimSpace reason)) is_failed).

(** ** The gRPC server ([infrastructure/grpc/server.go]) *)
Inductive PaymentStatus : Type :=
| PAYMENT_STATUS_UNSPECIFIED
| PAYMENT_STATUS_INITIATED
| PAYMENT_STATUS_AUTHORIZED
| PAYMENT_STATUS_SETTLED
| PAYMENT_STATUS_FAILED.

Definition status_switch (s : string) : PaymentStatus :=
  if bool_decide (s = "initiated") then PAYMENT_STATUS_INITIATED
  else if bool_decide (s = "authorized") then PAYMENT_STATUS_AUTHORIZED
  else if bool_decide (s = "settled") then PAYMENT_STATUS_SETTLED
  else if bool_decide (s = "failed") then PAYMENT_STATUS_FAILED
  else PAYMENT_STATUS_UNSPECIFIED.

Definition toProtoStatusString (s : string) : PaymentStatus := status_switch (TrimSpace (ToLower s)).

Record InitiatePaymentRequest : Type := mkInitiatePaymentRequest {
  ir_IdempotencyKey : string;
  ir_FromAccountId : string;
  ir_ToAccountId : string;
  ir_Amount : option proto_Money;
  ir_Narration : string;
}.

Definition payment_response (m : M PaymentDB PaymentResult) : M PaymentDB (string * PaymentStatus) :=
  let! res := m in
  retM (res_PaymentID res, toProtoStatusString (res_Status res)).

Definition payment_server_InitiatePayment (temporal : TemporalClient) (req : option InitiatePaymentRequest)
  : M PaymentDB (string * PaymentStatus) :=
  match req with
  | None => failM (ENew "request required")
  | Some req =>
      fail_if (is_empty (TrimSpace (ir_IdempotencyKey req))) (ENew "idempotency_key required") ;;;
      fail_if (is_empty (TrimSpace (ir_FromAccountId req))) (ENew "from_account_id required") ;;;
      fail_if (is_empty (TrimSpace (ir_ToAccountId req))) (ENew "to_account_id required") ;;;
      match ir_Amount req with
      | None => failM (ENew "amount required")
      | Some pm =>
          let! amt := liftR (money_New (pm_AmountKobo pm) (pm_Currency pm)) in
          payment_response (InitiatePaymentHandler_Handle temporal
            (mkInitiatePayment (ir_FromAccountId req) (ir_ToAccountId req) amt (ir_Narration req)
               (ir_IdempotencyKey req)))
      end
  end.

(** The checks the three other write methods share: payment id and
    idempotency key of a request. *)
Definition payment_server_change (req : option (string * string))
    (handle : string -> string -> M PaymentDB PaymentResult) : M PaymentDB (string * PaymentStatus) :=
  match req with
  | None => failM (ENew "request required")
  | Some (paymentId, key) =>
      fail_if (is_empty (TrimSpace paymentId)) (ENew "payment_id required") ;;;
      fail_if (is_empty (TrimSpace key)) (ENew "idempotency_key required") ;;;
      payment_response (handle paymentId key)
  end.

Definition payment_server_AuthorizePayment (req : option (string * string)) :=
  payment_server_change req AuthorizePaymentHandler_Handle.
Definition payment_server_SettlePayment (req : option (string * string)) :=
  payment_server_change req SettlePaymentHandler_Handle.
Definition payment_server_FailPayment (req : option (string * string)) (reason : string) :=
  payment_server_change req (fun id key => FailPaymentHandler_Handle id key reason).

Record GetPaymentResponse : Type := mkGetPaymentResponse {
  gp_PaymentId : string;
  gp_FromAccountId : string;
  gp_ToAccountId : string;
  gp_Amount : proto_Money;
  gp_Narration : string;
  gp_Status : PaymentStatus;
  gp_Version : Z;
}.

Definition payment_server_GetPayment (req : option string) : M PaymentDB GetPaymentResponse :=
  match req with
  | None => failM (ENew "request required")
  | Some id =>
      let pid := TrimSpace id in
      fail_if (is_empty pid) (ENew "payment_id required") ;;;
      let! o := PaymentQuery_GetByID pid in
      match o with
      | None => failM (ENew "payment not found")
      | Some p =>
          retM (mkGetPaymentResponse (pp_PaymentID p) (pp_FromAccountID p) (pp_ToAccountID p)
                  (mkProtoMoney (pp_Currency p) (pp_AmountKobo p)) (pp_Narration p)
                  (status_switch (pp_Status p)) (pp_Version p))
      end
  end.
End payment_tx.
