(* ===== verification/PaymentSpec.v ===== *)
(** * What the payment service keeps

    The lifecycle of a payment as a state machine, and the invariant of the
    service's tables with the proof that every command keeps it. *)
From S2P Require Import Prelude GoStrings Json Money EventStore Streams Outbox Ledger LedgerSpec Account.
From S2P Require Import Payment.
#[local] Open Scope Z_scope.
#[local] Open Scope go_scope.

(** ** The aggregate *)
Definition payment_at (ds : list PaymentEvent) : Payment := fold_left (fun p d => Payment_Apply d p) ds Payment_zero.

(** An event as the store gives it back. *)
Definition erase_payment (e : PaymentEvent) : PaymentEvent :=
  match e with
  | PaymentInitiated id from to _ narr t => PaymentInitiated id from to Money_zero narr t
  | _ => e
  end.

Lemma UnmarshalPaymentEvent_Marshal e :
  UnmarshalPaymentEvent (payment_EventType e) (BJson (PaymentEvent_Marshal e)) = Ok (erase_payment e).
Proof. by destruct e. Qed.

Lemma payment_at_snoc ds d : payment_at (ds ++ [d]) = Payment_Apply d (payment_at ds).
Proof. unfold payment_at. by rewrite fold_left_app. Qed.

Lemma payment_at_changes ds : py_changes (payment_at ds) = [].
Proof.
  induction ds as [|d ds IH] using rev_ind; [done|]. rewrite payment_at_snoc. by destruct d.
Qed.

Lemma payment_at_version ds :
  Z.of_nat (length ds) <= max_int64 -> py_version (payment_at ds) = Z.of_nat (length ds).
Proof.
  induction ds as [|d ds IH] using rev_ind; intros Hl; [done|].
  rewrite length_app in *. simpl in *. rewrite payment_at_snoc.
  assert (py_version (payment_at ds) = Z.of_nat (length ds)) as Hv by (apply IH; lia).
  destruct d; simpl; rewrite Hv, wrap64_id; unfold in_int64, min_int64, max_int64 in *; lia.
Qed.

(** ** The lifecycle *)
Inductive payment_op : Type := OpAuthorize | OpSettle | OpFail (reason : string).

Definition allowed (op : payment_op) (st : string) : bool :=
  match op with
  | OpAuthorize => bool_decide (st = StatusInitiated)
  | OpSettle => bool_decide (st = StatusAuthorized)
  | OpFail _ => negb (bool_decide (st = StatusSettled))
  end.

Definition refusal (op : payment_op) : error :=
  match op with
  | OpAuthorize => ENew "payment not in initiated state"
  | OpSettle => ENew "payment not in authorized state"
  | OpFail _ => ENew "cannot fail a settled payment"
  end.

Definition op_event (op : payment_op) (id : string) (now : Z) : PaymentEvent :=
  match op with
  | OpAuthorize => PaymentAuthorized id now
  | OpSettle => PaymentSettled id now
  | OpFail reason => PaymentFailed id (if is_empty (TrimSpace reason) then "failed" else TrimSpace reason) now
  end.

Definition op_target (op : payment_op) : string :=
  match op with OpAuthorize => StatusAuthorized | OpSettle => StatusSettled | OpFail _ => StatusFailed end.

Definition run_payment_op `{Env} {DB} (op : payment_op) (p : Payment) : M DB Payment :=
  match op with
  | OpAuthorize => Payment_Authorize p
  | OpSettle => Payment_Settle p
  | OpFail reason => Payment_Fail reason p
  end.

(** The statuses a payment goes through. *)
Inductive status_path : list PaymentEvent -> string -> Prop :=
| path_initiated id from to m narr t : status_path [PaymentInitiated id from to m narr t] StatusInitiated
| path_authorized es id t : status_path es StatusInitiated -> status_path (es ++ [PaymentAuthorized id t]) StatusAuthorized
| path_settled es id t : status_path es StatusAuthorized -> status_path (es ++ [PaymentSettled id t]) StatusSettled
| path_failed es st id reason t : status_path es st -> st <> StatusSettled ->
    status_path (es ++ [PaymentFailed id reason t]) StatusFailed.

Section lifecycle.
Context `{Hev : Env} {DB : Type}.

Lemma run_payment_op_run op p (w : World DB) :
  run_payment_op op p w =
  if allowed op (py_status p)
  then (Ok (Payment_raise (op_event op (py_id p) (clock_Now (w_tick w))) p),
        mkWorld (w_db w) (w_seq w) (w_uuid w) (S (w_tick w)) (w_tx w) (w_faults w) (w_sent w))
  else (Err (refusal op), w).
Proof.
  destruct op; simpl; unfold Payment_Authorize, Payment_Settle, Payment_Fail, bindM, fail_if, retM, failM;
    case_bool_decide; done.
Qed.

Inductive payment_life : Payment -> Prop :=
| plife_new from to m narr (w : World DB) p w' : NewPayment from to m narr w = (Ok p, w') -> payment_life p
| plife_op op p (w : World DB) p' w' : payment_life p -> run_payment_op op p w = (Ok p', w') -> payment_life p'.

Lemma payment_raise_changes e p :
  payment_at (py_changes p) = (Payment_PullChanges p).2 ->
  payment_at (py_changes (Payment_raise e p)) = (Payment_PullChanges (Payment_raise e p)).2.
Proof.
  intros Hp. assert (py_changes (Payment_raise e p) = py_changes p ++ [e]) as ->
    by (unfold Payment_raise; by destruct e).
  rewrite payment_at_snoc, Hp. by destruct p, e.
Qed.

(** The payment lifecycle: along any sequence of calls the payment is
    exactly the replay of the events it raised, its events follow the path
    initiated, authorized, settled with failure possible everywhere before
    settlement, and a settled payment refuses every further call. *)
Theorem payment_lifecycle p :
  payment_life p ->
  payment_at (py_changes p) = (Payment_PullChanges p).2 /\
  status_path (py_changes p) (py_status p) /\
  (py_status p = StatusSettled -> forall op (w : World DB), run_payment_op op p w = (Err (refusal op), w)).
Proof.
  induction 1 as [from to m narr w p w' Hnew|op p w p' w' _ (Hr & Hpath & _) Hop].
  - unfold NewPayment, bindM, fail_if, liftR, retM, failM in Hnew.
    destruct (is_empty (TrimSpace from)); [done|]. destruct (is_empty (TrimSpace to)); [done|].
    destruct (bool_decide (from = to)); [done|]. destruct (payment_validateAmount m); simplify_eq/=.
    split; [done|]. split; [constructor|done].
  - rewrite run_payment_op_run in Hop. destruct (allowed op (py_status p)) eqn:Ha; simplify_eq.
    split; [by apply payment_raise_changes|]. split.
    + destruct op; simpl in *; unfold Payment_raise; simpl.
      * apply bool_decide_eq_true in Ha. rewrite Ha in Hpath. by constructor.
      * apply bool_decide_eq_true in Ha. rewrite Ha in Hpath. by constructor.
      * apply negb_true_iff, bool_decide_eq_false in Ha. by econstructor.
    + intros Hs op' w0. rewrite run_payment_op_run. unfold allowed. rewrite Hs. by destruct op'.
Qed.
End lifecycle.

(** ** The tables *)
Definition payment_decode (e : Event) : result PaymentEvent := UnmarshalPaymentEvent (ev_Type e) (ev_Data e).

Definition payment_shape (agg : string) (ds : list PaymentEvent) : Prop :=
  exists from to narr t rest, ds = PaymentInitiated agg from to Money_zero narr t :: rest /\
    Forall (fun e => is_initiated e = false) rest.

(** The projection shows the status and the version of the stream. *)
Definition projection_sync (agg : string) (ds : list PaymentEvent) (p : PaymentProjection) : Prop :=
  pp_PaymentID p = agg /\ pp_Status p = py_status (payment_at ds) /\ pp_Version p = Z.of_nat (length ds).

(** The tables hold the streams [st], and a projection in the relation
    [sync] with the stream for each of them and no other. *)
Record payment_inv_at `{Env} (sync : string -> list PaymentEvent -> PaymentProjection -> Prop)
    (w : World PaymentDB) (st : gmap string (list PaymentEvent)) : Prop := {
  pi_wf : tables_wf (w_seq w) (pd_events (w_db w));
  pi_ids : Forall (fun r => fresh_from (w_uuid w) (ev_ID (er_event r))) (events (pd_events (w_db w)));
  pi_streams : streams payment_decode (pd_events (w_db w)) st;
  pi_shape : map_Forall payment_shape st;
  pi_path : map_Forall (fun _ ds => status_path ds (py_status (payment_at ds))) st;
  pi_aggs : forall agg ds, st !! agg = Some ds -> fresh_from (w_uuid w) agg;
  pi_projection : forall agg, match st !! agg, pd_projection (w_db w) !! agg with
                              | Some ds, Some p => sync agg ds p
                              | None, None => True
                              | _, _ => False
                              end;
  pi_columns : ob_columns (pd_outbox (w_db w)) = migrated_columns;
  pi_outbox : Forall (fun r => fresh_from (w_uuid w) (or_id r)) (ob_rows (pd_outbox (w_db w)));
}.
Abbreviation payment_inv := (payment_inv_at projection_sync).
Arguments pi_wf {_ sync} w st _.
Arguments pi_ids {_ sync} w st _.
Arguments pi_streams {_ sync} w st _.
Arguments pi_shape {_ sync} w st _.
Arguments pi_path {_ sync} w st _.
Arguments pi_aggs {_ sync} w st _.
Arguments pi_projection {_ sync} w st _.
Arguments pi_columns {_ sync} w st _.
Arguments pi_outbox {_ sync} w st _.

Section store.
Context `{Hev : Env} `{Henv : !EnvOk}.
Context {sync : string -> list PaymentEvent -> PaymentProjection -> Prop}.
Implicit Types (w : World PaymentDB) (st : gmap string (list PaymentEvent)).

Lemma payment_inv_later w w' st : w_db w' = w_db w -> later w w' -> payment_inv_at sync w st -> payment_inv_at sync w' st.
Proof.
  intros Hdb (Hsq & Hu & _) []. rewrite <-Hdb in *. split; try done.
  - by eapply tables_wf_mono.
  - eapply Forall_impl; [done|]. intros ?; simpl. by apply fresh_from_mono.
  - intros agg ds Hagg. eapply fresh_from_mono; [done|]. by eapply pi_aggs0.
  - eapply Forall_impl; [done|]. intros ?; simpl. by apply fresh_from_mono.
Qed.

Lemma payment_inv_same w w' st :
  w_db w' = w_db w -> w_seq w' = w_seq w -> w_uuid w' = w_uuid w -> payment_inv_at sync w st -> payment_inv_at sync w' st.
Proof. destruct w, w'; simpl. intros -> -> -> []. by split. Qed.

Lemma payment_replay_encodes v rows ds p :
  encodes payment_decode v rows ds -> payment_replay rows p = Ok (fold_left (fun p d => Payment_Apply d p) ds p).
Proof.
  revert v ds p. induction rows as [|e rows IH]; intros v [|d ds] p; simpl; try done.
  intros (_ & Hd & Hr). unfold payment_decode in Hd. rewrite Hd. simpl. by rewrite (IH _ _ _ Hr).
Qed.

Lemma payment_at_id agg ds : payment_shape agg ds -> py_id (payment_at ds) = agg.
Proof.
  intros (from & to & narr & t & rest & -> & Hr).
  induction rest as [|d rest IH] using rev_ind; [done|].
  apply Forall_app in Hr as [Hr Hd]. rewrite app_comm_cons, payment_at_snoc.
  apply Forall_inv in Hd. destruct d; try done; simpl; by apply IH.
Qed.

(** Loading a payment of at most 10000 events replays its whole stream. *)
Lemma LoadPayment_post w st agg :
  payment_inv_at sync w st -> (length (events_of st agg) <= Z.to_nat 10000)%nat ->
  wpm (LoadPayment agg) (fun r w' => w_db w' = w_db w /\ later w w' /\
    (r = Ok (payment_at (events_of st agg)) \/ (w_faults w <> [] /\ r = Err ENet))) w.
Proof.
  intros [] Hlen. destruct w as [[evs ob pr] sq u t tx fl sn]; simpl in *.
  unfold LoadPayment. wp_step. unfold Read. apply wpm_exec.
  { intros Hfl. split; [done|]. split; [split_and!; simpl; [lia|lia|by intros ->]|by right]. }
  rewrite on_run. destruct (select_stream_run payment_decode agg 0 (default_limit 10000) tx sq evs st)
    as (rows & Hrows & Henc); [done|by rewrite drop_0|].
  change (Z.of_nat 0) with 0 in Hrows. simpl (view _). rewrite Hrows. wp_steps.
  rewrite (payment_replay_encodes _ _ _ _ Henc), drop_0.
  split; [done|]. split; [split_and!; simpl; [lia|lia|by intros ->]|by left].
Qed.

Lemma payment_inv_extend w st agg ev id o p sq0 sq' u' t' tx' fl' sn' :
  payment_inv_at sync w st ->
  let ds := events_of st agg ++ [erase_payment ev] in
  let t1 := mkEventTables (events (pd_events (w_db w)) ++
              [mkRow sq0 (payment_event id agg (1 + Z.of_nat (length (events_of st agg))) ev)])
              (snapshots (pd_events (w_db w))) in
  tables_wf sq' t1 -> (w_uuid w <= u')%nat ->
  fresh_from u' id -> fresh_from u' agg -> fresh_from u' (or_id o) -> payment_shape agg ds ->
  status_path ds (py_status (payment_at ds)) -> sync agg ds p ->
  payment_inv_at sync (mkWorld (mkPaymentDB t1
      (mkOutboxTable (ob_columns (pd_outbox (w_db w))) (ob_rows (pd_outbox (w_db w)) ++ [o]))
      (<[agg := p]> (pd_projection (w_db w)))) sq' u' t' tx' fl' sn') (<[agg := ds]> st).
Proof.
  intros [] ds t1 Hwf Hu Hid Hagg Ho Hshape Hpath Hp.
  assert (forall x, fresh_from (w_uuid w) x -> fresh_from u' x) as Hmono by (intros x; by apply fresh_from_mono).
  split; simpl; try done.
  - apply Forall_app. split; [|by constructor]. eapply Forall_impl; [done|]. simpl; auto.
  - apply (streams_append payment_decode _ st sq0
      (payment_event id agg (1 + Z.of_nat (length (events_of st agg))) ev) (erase_payment ev)); [done| |done].
    apply UnmarshalPaymentEvent_Marshal.
  - by apply map_Forall_insert_2.
  - by apply map_Forall_insert_2.
  - intros agg' ds' Hl. destruct (decide (agg' = agg)) as [->|Hne]; [done|].
    rewrite lookup_insert_ne in Hl by done. eauto.
  - intros agg'. destruct (decide (agg' = agg)) as [->|Hne]; [by rewrite !lookup_insert_eq|].
    rewrite !lookup_insert_ne by done. apply pi_projection0.
  - apply Forall_app. split; [|by constructor]. eapply Forall_impl; [done|]. simpl; auto.
Qed.

Lemma insert_payment_event_run w st agg n ev now :
  payment_inv_at sync w st -> (w_uuid w <= n)%nat ->
  let e := payment_event (uuid_NewString n) agg (1 + Z.of_nat (length (events_of st agg))) ev in
  forall sq, insert_event e now sq (pd_events (w_db w)) =
    Ok (tt, mkEventTables (events (pd_events (w_db w)) ++ [mkRow sq e]) (snapshots (pd_events (w_db w)))).
Proof.
  intros [] Hn e sq. apply insert_event_ok. split; [|done]. intros x Hx. split.
  - rewrite Forall_forall in pi_ids0. by apply (pi_ids0 x Hx).
  - by eapply (streams_version_free payment_decode).
Qed.

Lemma payment_enqueue_post agg ver ev db sq u t tx fl sn (Q : result unit -> World PaymentDB -> Prop) :
  ob_columns (pd_outbox db) = migrated_columns ->
  Forall (fun r => fresh_from u (or_id r)) (ob_rows (pd_outbox db)) ->
  (fl <> [] -> Q (Err ENet) (mkWorld db sq (S u) (S t) tx (tail fl) sn)) ->
  (forall o, or_id o = uuid_NewString u ->
     Q (Ok tt) (mkWorld (mkPaymentDB (pd_events db)
       (mkOutboxTable (ob_columns (pd_outbox db)) (ob_rows (pd_outbox db) ++ [o])) (pd_projection db))
       (sq + 1) (S u) (S t) tx (tail fl) sn)) ->
  wpm (payment_enqueue agg ver ev) Q (mkWorld db sq u t tx fl sn).
Proof.
  intros Hcol Hids He Hq. unfold payment_enqueue. wp_steps. unfold Enqueue. apply wpm_exec; [done|].
  rewrite on_run, insert_outbox_fresh; simpl; [by apply Hq|done|].
  intros x Hx. rewrite Forall_forall in Hids. by apply (Hids x Hx).
Qed.
End store.
