(* ===== verification/PaymentStore.v ===== *)
(** * The tables of the payment service stay consistent

    Every command keeps the invariant of [PaymentSpec], whatever fails, and
    does what the lifecycle says. *)
From S2P Require Import Prelude GoStrings Json Money EventStore Streams Outbox Ledger LedgerSpec Account.
From S2P Require Import Payment PaymentSpec.
#[local] Open Scope Z_scope.
#[local] Open Scope go_scope.

(** How far a row of the projection may be from its stream: it is the row of
    that payment, and a row that shows the whole stream is near enough. *)
Class Sync (sync : string -> list PaymentEvent -> PaymentProjection -> Prop) : Prop := {
  sync_id : forall agg ds p, sync agg ds p -> pp_PaymentID p = agg;
  sync_full : forall agg ds p, (0 < length ds)%nat -> projection_sync agg ds p -> sync agg ds p;
}.
#[export] Instance projection_Sync : Sync projection_sync.
Proof. by split; [intros agg ds p []|]. Qed.

Section store.
Context `{Hev : Env} `{Henv : !EnvOk} {sync : string -> list PaymentEvent -> PaymentProjection -> Prop} `{Hsync : !Sync sync}.
Implicit Types (w : World PaymentDB) (st : gmap string (list PaymentEvent)).

Definition short st agg : Prop := (length (events_of st agg) <= Z.to_nat 10000)%nat.
Definition status_of st agg : string := py_status (payment_at (events_of st agg)).

(** ** A change of an existing payment *)
Definition change_post (op : payment_op) (agg : string) w st (r : result PaymentResult) w2 : Prop :=
  later w w2 /\
  match r with
  | Ok res => allowed op (status_of st agg) = true /\ is_Some (st !! agg) /\
      res = mkPaymentResult agg (1 + Z.of_nat (length (events_of st agg))) (op_target op) /\
      exists now, payment_inv_at sync w2 (<[agg := events_of st agg ++ [op_event op agg now]]> st)
  | Err e => (allowed op (status_of st agg) = false /\ e = refusal op) \/
      (allowed op (status_of st agg) = true /\ st !! agg = None /\ e = ENew "payment not found") \/ w_faults w <> []
  end.

Lemma change_net op agg w st e w2 :
  w_faults w <> [] -> w_seq w <= w_seq w2 -> (w_uuid w <= w_uuid w2)%nat -> change_post op agg w st (Err e) w2.
Proof. intros Hfl Hsq Hu. split; [by split_and!|auto]. Qed.

Lemma op_event_facts op id now :
  erase_payment (op_event op id now) = op_event op id now /\ is_initiated (op_event op id now) = false /\
  forall p, py_status (Payment_Apply (op_event op id now) p) = op_target op.
Proof. by destruct op. Qed.

Lemma Payment_raise_fields e p :
  py_changes p = [] -> py_changes (Payment_raise e p) = [e] /\
  py_version (Payment_raise e p) = py_version (Payment_Apply e p) /\
  py_status (Payment_raise e p) = py_status (Payment_Apply e p).
Proof. destruct p. simpl. intros ->. by destruct e. Qed.

Lemma payment_shape_snoc agg ds e : payment_shape agg ds -> is_initiated e = false -> payment_shape agg (ds ++ [e]).
Proof.
  intros (from & to & narr & t & rest & -> & Hr) He. exists from, to, narr, t, (rest ++ [e]).
  split; [done|]. apply Forall_app. by split; [|constructor].
Qed.

Lemma status_path_op op ds id now :
  status_path ds (py_status (payment_at ds)) -> allowed op (py_status (payment_at ds)) = true ->
  status_path (ds ++ [op_event op id now]) (op_target op).
Proof.
  intros Hp Ha. destruct op; simpl in *.
  - apply bool_decide_eq_true in Ha. rewrite Ha in Hp. by constructor.
  - apply bool_decide_eq_true in Ha. rewrite Ha in Hp. by constructor.
  - apply negb_true_iff, bool_decide_eq_false in Ha. by econstructor.
Qed.

(** The payment as it is stored now *)
Lemma payment_apply_post op expected agg w st :
  payment_inv_at sync w st -> short st agg -> (forall id now, expected (op_event op id now) = true) ->
  wpm (payment_apply agg (run_payment_op op) expected (payment_at (events_of st agg))) (change_post op agg w st) w.
Proof.
  intros Hinv Hshort Hexp. unfold payment_apply.
  pose proof Hinv as []. destruct w as [db sq u t tx fl sn]; simpl in *.
  set (ds := events_of st agg) in *. unfold short in Hshort. fold ds in Hshort.
  wp_step. unfold wpm at 1. rewrite run_payment_op_run. fold (status_of st agg).
  change (py_status (payment_at ds)) with (status_of st agg).
  destruct (allowed op (status_of st agg)) eqn:Hall; cbn [fst snd].
  2: { split; [apply later_refl|]. by left. }
  set (ev := op_event op (py_id (payment_at ds)) (clock_Now t)).
  cbn [w_tick w_db w_seq w_uuid w_tx w_faults w_sent]. fold ev.
  destruct (Payment_raise_fields ev (payment_at ds)) as (-> & -> & ->); [apply payment_at_changes|].
  wp_step. wp_step.
  { subst ev. by rewrite Hexp in H. }
  destruct (op_event_facts op (py_id (payment_at ds)) (clock_Now t)) as (Her & Hini & Htgt).
  assert (py_version (Payment_Apply ev (payment_at ds)) = 1 + Z.of_nat (length ds)) as Hver.
  { rewrite <-payment_at_snoc, payment_at_version; rewrite length_app; simpl; [lia|].
    unfold max_int64. lia. }
  rewrite Hver. wp_steps. unfold Append; simpl. wp_step. apply wpm_exec.
  { intros Hne. apply change_net; simpl; [auto|lia|lia]. }
  rewrite on_run. simpl (view _).
  pose proof (insert_payment_event_run (mkWorld db sq u t tx fl sn) st agg u ev tx Hinv ltac:(simpl; lia) sq) as Hins.
  cbv zeta in Hins. cbn [w_db] in Hins. fold ds in Hins. rewrite Hins. wp_step. cbv beta iota. wp_step. apply wpm_exec.
  { intros Hne%tail_nonempty. apply change_net; simpl; [auto|lia|lia]. }
  unfold select_payment. simpl. specialize (pi_projection agg).
  destruct (st !! agg) as [ds'|] eqn:Hst; destruct (pd_projection db !! agg) as [cur|]; try done.
  2: { wp_steps. split; [split_and!; simpl; [lia|lia|]|right; left; done].
       by intros ->. }
  assert (ds' = ds) as -> by (unfold ds, events_of; by rewrite Hst).
  apply sync_id in pi_projection as Hpid.
  pose proof (payment_at_id agg ds (pi_shape agg ds Hst)) as Hid.
  wp_step. apply wpm_exec.
  { intros Hne; do 2 apply tail_nonempty in Hne. apply change_net; simpl; [auto|lia|lia]. }
  simpl. wp_step. apply payment_enqueue_post; simpl; [done| | |].
  - eapply Forall_impl; [exact pi_outbox|]. intros x; simpl. apply fresh_from_mono. lia.
  - intros Hne. do 3 apply tail_nonempty in Hne. apply change_net; simpl; [auto|lia|lia].
  - intros o Ho. wp_steps. split.
    { split_and!; simpl; [lia|lia|]. by intros ->. }
    split; [done|]. split; [by eauto|]. split; [subst ev; by rewrite (Htgt (payment_at ds))|].
    exists (clock_Now t). subst ev. rewrite Hid in *. rewrite Hpid.
    pose proof (payment_inv_extend (sync := sync) (mkWorld db sq u t tx fl sn) st agg (op_event op agg (clock_Now t)) (uuid_NewString u) o) as Hext.
    rewrite Her in Hext. cbv zeta in Hext. fold ds in Hext. eapply (Hext _ sq); try done.
    + eapply tables_wf_mono; [|eapply insert_event_wf; [|exact Hins]]; [lia|]. by eapply tables_wf_mono.
    + simpl. lia.
    + apply fresh_from_uuid. lia.
    + eapply fresh_from_mono; [|by eapply pi_aggs]. lia.
    + rewrite Ho. apply fresh_from_uuid. lia.
    + apply payment_shape_snoc; [by apply (pi_shape agg)|done].
    + rewrite payment_at_snoc, Htgt. apply status_path_op; [|done]. by apply (pi_path agg).
    + apply sync_full; [rewrite length_app; simpl; lia|]. split_and!; simpl; [done| |rewrite length_app; simpl; lia].
      by rewrite payment_at_snoc.
Qed.

Lemma change_post_later op agg w w1 st r w2 :
  later w w1 -> change_post op agg w1 st r w2 -> change_post op agg w st r w2.
Proof.
  intros Hl [Hl1 Hr]. split; [by eapply later_trans|]. destruct r as [res|e]; [done|].
  destruct Hr as [?|[?|Hne]]; [by left|by right; left|right; right]. intros Hnil. by apply Hne, Hl.
Qed.
Lemma payment_change_post op expected agg w st :
  payment_inv_at sync w st -> short st agg -> (forall id now, expected (op_event op id now) = true) ->
  wpm (payment_change agg (run_payment_op op) expected) (change_post op agg w st) w.
Proof.
  intros Hinv Hshort Hexp. unfold payment_change. wp_step.
  eapply wpm_mono; [|by apply (LoadPayment_post (sync := sync) w st)]. intros r w1 (Hdb & Hl & Hr).
  destruct Hr as [->|[Hne ->]]; [|by apply change_net; [|apply Hl..]].
  eapply wpm_mono; [|apply payment_apply_post; [by apply (payment_inv_later w)|done|done]].
  intros r w2. by apply change_post_later.
Qed.

(** The transaction of a change. *)
Definition change_grown (op : payment_op) (agg : string) st w : Prop :=
  exists now, payment_inv_at sync w (<[agg := events_of st agg ++ [op_event op agg now]]> st).

Definition change_error (op : payment_op) (agg : string) st (e : error) : Prop :=
  (allowed op (status_of st agg) = false /\ e = refusal op) \/
  (allowed op (status_of st agg) = true /\ st !! agg = None /\ e = ENew "payment not found").

Lemma payment_change_tx op expected agg w st :
  payment_inv_at sync w st -> short st agg -> (forall id now, expected (op_event op id now) = true) ->
  wpm (with_tx (payment_change agg (run_payment_op op) expected)) (fun r w' => later w w' /\
    let done_ := allowed op (status_of st agg) = true /\ is_Some (st !! agg) /\ change_grown op agg st w' in
    match r with
    | Ok res => res = mkPaymentResult agg (1 + Z.of_nat (length (events_of st agg))) (op_target op) /\ done_
    | Err e => (change_error op agg st e /\ w_db w' = w_db w) \/ (w_faults w <> [] /\ (w_db w' = w_db w \/ done_))
    end) w.
Proof.
  intros Hinv Hshort Hexp.
  eapply wpm_mono; [|apply (with_tx_post _
    (fun res w' => res = mkPaymentResult agg (1 + Z.of_nat (length (events_of st agg))) (op_target op) /\
       allowed op (status_of st agg) = true /\ is_Some (st !! agg) /\ change_grown op agg st w')
    (change_error op agg st))].
  - intros [res|e] w' [Hl Hr]; (split; [done|]); [done|]. destruct Hr as [?|(? & [?|(? & _ & ?)])]; auto.
  - intros res w1 w2 Hdb Hsq Hu (-> & Hall & Hsome & now & Hi). split_and!; try done. exists now.
    by apply (payment_inv_same w1).
  - assert (payment_inv_at sync (tx_world w) st) as Hinv1
      by (apply (payment_inv_later w); [done|apply later_tx|done]).
    eapply wpm_mono; [|by apply (payment_change_post op expected agg (tx_world w) st)].
    intros [res|e] w2 [Hl Hr]; (split; [done|]).
    + destruct Hr as (Hall & Hsome & -> & Hg). done.
    + destruct Hr as [?|[?|Hne]]; [left; by left|left; by right|right]. by apply tail_nonempty.
Qed.

(** ** Initiating a payment *)
Definition initiated_result (id : string) : PaymentResult := mkPaymentResult id 1 StatusInitiated.

Definition initiated_projection (id : string) (cmd : InitiatePayment) : PaymentProjection :=
  mkPaymentProjection id (ip_FromAccountID cmd) (ip_ToAccountID cmd) (Currency (ip_Amount cmd))
    (AmountKobo (ip_Amount cmd)) (ip_Narration cmd) StatusInitiated "" "" 1.

Definition initiated (id : string) (cmd : InitiatePayment) st w : Prop :=
  pd_projection (w_db w) !! id = Some (initiated_projection id cmd) /\
  exists now, payment_inv_at sync w (<[id := [PaymentInitiated id (ip_FromAccountID cmd) (ip_ToAccountID cmd)
    Money_zero (ip_Narration cmd) now]]> st).

(** What the domain requires of a new payment. *)
Definition payment_check (cmd : InitiatePayment) : option error :=
  if bool_decide (TrimSpace (ip_FromAccountID cmd) = "") then Some (ENew "from_account_id required")
  else if bool_decide (TrimSpace (ip_ToAccountID cmd) = "") then Some (ENew "to_account_id required")
  else None.

Lemma InitiatePayment_validate_ok cmd w w' :
  InitiatePayment_validate cmd w = (Ok tt, w') ->
  w' = w /\ ip_FromAccountID cmd <> ip_ToAccountID cmd /\ payment_validateAmount (ip_Amount cmd) = Ok tt.
Proof.
  unfold InitiatePayment_validate, bindM, fail_if, retM, failM, payment_validateAmount. intros Hv.
  destruct (is_empty (ip_FromAccountID cmd)); simpl in Hv; [done|].
  destruct (is_empty (ip_ToAccountID cmd)); simpl in Hv; [done|].
  destruct (is_empty (ip_IdempotencyKey cmd)); simpl in Hv; [done|].
  destruct (decide (ip_FromAccountID cmd = ip_ToAccountID cmd)) as [|Hne];
    [by rewrite bool_decide_true in Hv|rewrite bool_decide_false in Hv by done]. simpl in Hv.
  destruct (bool_decide (Currency (ip_Amount cmd) = NGN)); simpl in Hv |- *; [|done].
  destruct (AmountKobo (ip_Amount cmd) <=? 0); by simplify_eq.
Qed.

Lemma InitiatePayment_tx_post cmd w st :
  payment_inv_at sync w st -> ip_FromAccountID cmd <> ip_ToAccountID cmd ->
  payment_validateAmount (ip_Amount cmd) = Ok tt ->
  wpm (InitiatePayment_tx cmd) (fun r w2 => later w w2 /\
    match r with
    | Ok (res, created) => res = initiated_result (uuid_NewString (w_uuid w)) /\
        created = initiated_projection (uuid_NewString (w_uuid w)) cmd /\
        initiated (uuid_NewString (w_uuid w)) cmd st w2
    | Err e => payment_check cmd = Some e \/ w_faults w <> []
    end) w.
Proof.
  intros Hinv Hne Hamt. pose proof Hinv as []. destruct w as [db sq u t tx fl sn]; simpl in *.
  assert (st !! uuid_NewString u = None) as Hnew.
  { destruct (st !! uuid_NewString u) as [ds|] eqn:Hl; [|done]. by destruct (pi_aggs _ _ Hl u). }
  assert (events_of st (uuid_NewString u) = []) as Hnil by (unfold events_of; by rewrite Hnew).
  assert (forall w2 e, fl <> [] -> sq <= w_seq w2 -> (u <= w_uuid w2)%nat ->
    later (mkWorld db sq u t tx fl sn) w2 /\ (payment_check cmd = Some e \/ fl <> [])) as Hnet.
  { intros w2 e Hfl Hsq Hu. split; [by split_and!|by right]. }
  unfold InitiatePayment_tx. wp_step. unfold NewPayment. wp_step. wp_step.
  { apply is_empty_true in H. split; [apply later_refl|left]. unfold payment_check.
    by rewrite bool_decide_true. }
  apply is_empty_false in H. wp_step. wp_step.
  { apply is_empty_true in H0. split; [apply later_refl|left]. unfold payment_check.
    rewrite bool_decide_false by done. by rewrite bool_decide_true. }
  wp_step. wp_step.
  { by apply bool_decide_eq_true in H1. }
  wp_steps. rewrite Hamt. wp_steps. simpl. wp_steps.
  apply payment_enqueue_post; simpl; [done| |intros Hfl; apply Hnet; simpl; [done|lia|lia]|].
  { eapply Forall_impl; [exact pi_outbox|]. intros x; simpl. apply fresh_from_mono. lia. }
  intros o Ho. wp_steps. unfold Append; simpl. wp_step. apply wpm_exec.
  { intros Hfl%tail_nonempty. apply Hnet; simpl; [done|lia|lia]. }
  rewrite on_run. simpl (view _).
  set (ev := PaymentInitiated (uuid_NewString u) (ip_FromAccountID cmd) (ip_ToAccountID cmd) (ip_Amount cmd)
               (ip_Narration cmd) (clock_Now t)).
  pose proof (insert_payment_event_run (mkWorld db sq u t tx fl sn) st (uuid_NewString u) (S u) ev tx Hinv
    ltac:(simpl; lia) (sq + 1)) as Hins.
  rewrite Hnil in Hins. change (1 + Z.of_nat (length [])) with 1 in Hins. cbn [w_db] in Hins. cbv zeta in Hins.
  change (0 + 1) with 1. rewrite Hins. wp_step. wp_step.
  apply wpm_exec; [intros Hfl; do 2 apply tail_nonempty in Hfl; apply Hnet; simpl; [done|lia|lia]|].
  simpl. wp_steps. split; [split_and!; simpl; [lia|lia|by intros ->]|]. simpl.
  split; [done|]. split; [done|]. split; [simpl; by rewrite lookup_insert_eq|]. exists (clock_Now t).
  pose proof (payment_inv_extend (sync := sync) (mkWorld db sq u t tx fl sn) st (uuid_NewString u) ev (uuid_NewString (S u)) o
    (initiated_projection (uuid_NewString u) cmd) (sq + 1)) as Hext.
  rewrite Hnil in Hext. apply Hext; try done; simpl.
  - eapply tables_wf_mono; [|eapply insert_event_wf; [|exact Hins]]; [lia|]. eapply tables_wf_mono; [|done]. lia.
  - lia.
  - apply fresh_from_uuid. lia.
  - apply fresh_from_uuid. lia.
  - rewrite Ho. apply fresh_from_uuid. lia.
  - eexists _, _, _, _, []. split; done.
  - constructor.
  - apply sync_full; [simpl; lia|done].
Qed.

(** The first transaction of the handler. *)
Lemma InitiatePayment_first cmd w st :
  payment_inv_at sync w st -> ip_FromAccountID cmd <> ip_ToAccountID cmd ->
  payment_validateAmount (ip_Amount cmd) = Ok tt ->
  let id := uuid_NewString (w_uuid w) in
  wpm (with_tx (InitiatePayment_tx cmd)) (fun r w' => later w w' /\
    match r with
    | Ok (res, created) => res = initiated_result id /\ created = initiated_projection id cmd /\
        initiated id cmd st w'
    | Err e => (payment_check cmd = Some e /\ w_db w' = w_db w) \/
        (w_faults w <> [] /\ (w_db w' = w_db w \/ initiated id cmd st w'))
    end) w.
Proof.
  intros Hinv Hne Hamt id.
  eapply wpm_mono; [|apply (with_tx_post _ (fun '(res, created) w' => res = initiated_result id /\
    created = initiated_projection id cmd /\ initiated id cmd st w') (fun e => payment_check cmd = Some e))].
  - intros [[res created]|e] w' [Hl Hr]; (split; [done|]); [done|].
    destruct Hr as [?|(? & [?|([res created] & _ & _ & ?)])]; auto.
  - intros [res created] w1 w2 Hdb Hsq Hu (-> & -> & Hp & now & Hi). split_and!; [done|done|].
    split; [by rewrite Hdb|]. exists now. by apply (payment_inv_same w1).
  - assert (payment_inv_at sync (tx_world w) st) as Hinv1
      by (apply (payment_inv_later w); [done|apply later_tx|done]).
    eapply wpm_mono; [|by apply (InitiatePayment_tx_post cmd (tx_world w) st)].
    intros [[res created]|e] w2 [Hl Hr]; (split; [done|]); [done|].
    destruct Hr as [?|Hfl]; [by left|right]. by apply tail_nonempty.
Qed.

(** A row of the projection replaced by one as near to its stream *)
Lemma payment_inv_set_row w st id ds p sq' t' tx' fl' sn' :
  payment_inv_at sync w st -> st !! id = Some ds -> sync id ds p -> w_seq w <= sq' ->
  payment_inv_at sync (mkWorld (mkPaymentDB (pd_events (w_db w)) (pd_outbox (w_db w))
    (<[id := p]> (pd_projection (w_db w)))) sq' (w_uuid w) t' tx' fl' sn') st.
Proof.
  intros [] Hst Hp Hsq. split; simpl; try done.
  - by eapply tables_wf_mono.
  - intros agg. specialize (pi_projection agg). destruct (decide (agg = id)) as [->|Hne].
    + by rewrite lookup_insert_eq, Hst.
    + by rewrite lookup_insert_ne.
Qed.
End store.
