(* ===== verification/PaymentProps.v ===== *)
(** * Properties of the payment service *)
From S2P Require Import Prelude GoStrings Json Money EventStore Streams Outbox Ledger LedgerSpec Account.
From S2P Require Import Payment PaymentSpec PaymentStore.
#[local] Open Scope Z_scope.
#[local] Open Scope go_scope.

Section properties.
Context `{Hev : Env} `{Henv : !EnvOk}.
Implicit Types (w : World PaymentDB) (st : gmap string (list PaymentEvent)).

(** ** Lemmas *)
Definition set_workflow (wid rid : string) (cur : PaymentProjection) : PaymentProjection :=
  mkPaymentProjection (pp_PaymentID cur) (pp_FromAccountID cur) (pp_ToAccountID cur) (pp_Currency cur)
    (pp_AmountKobo cur) (pp_Narration cur) (pp_Status cur) wid rid (pp_Version cur).

Lemma InitiatePayment_link_post id wid rid cur w st :
  payment_inv w st -> pd_projection (w_db w) !! id = Some cur ->
  wpm (InitiatePayment_link id wid rid) (fun r w2 => later w w2 /\
    match r with
    | Ok _ => payment_inv w2 st /\ pd_projection (w_db w2) !! id = Some (set_workflow wid rid cur)
    | Err _ => w_faults w <> []
    end) w.
Proof.
  intros Hinv Hcur. pose proof Hinv as []. destruct w as [db sq u t tx fl sn]; simpl in *.
  assert (pp_PaymentID cur = id) as Hid.
  { specialize (pi_projection id). rewrite Hcur in pi_projection. by destruct (st !! id); [apply pi_projection|]. }
  unfold InitiatePayment_link. wp_step. apply wpm_exec.
  { intros Hfl. split; [split_and!; simpl; [lia|lia|by intros ->]|done]. }
  unfold select_payment. rewrite Hcur. apply wpm_exec.
  { intros Hfl%tail_nonempty. split; [split_and!; simpl; [lia|lia|by intros ->]|done]. }
  simpl. split; [split_and!; simpl; [lia|lia|by intros ->]|].
  subst id. rewrite lookup_insert_eq. split; [|done].
  specialize (pi_projection (pp_PaymentID cur)). rewrite Hcur in pi_projection.
  destruct (st !! pp_PaymentID cur) as [ds|] eqn:Hst; [|done].
  by apply (payment_inv_set_row (mkWorld db sq u t tx fl sn) st _ ds (set_workflow wid rid cur)); [..|simpl; lia].
Qed.

Lemma InitiatePayment_validate_world cmd w : (InitiatePayment_validate cmd w).2 = w.
Proof.
  unfold InitiatePayment_validate, bindM, fail_if, retM, failM.
  repeat (match goal with |- context [if ?b then _ else _] => destruct b; simpl; [done|] end). done.
Qed.

Lemma InitiatePayment_inv temporal cmd w st :
  payment_inv w st -> exists st', payment_inv (InitiatePaymentHandler_Handle temporal cmd w).2 st'.
Proof.
  intros Hinv. cut (wpm (InitiatePaymentHandler_Handle temporal cmd) (fun _ w' => exists st', payment_inv w' st') w); [done|].
  unfold InitiatePaymentHandler_Handle. wp_step. apply wpm_intro. intros r w1 Hv.
  assert (w1 = w) as ->.
  { pose proof (InitiatePayment_validate_world cmd w) as Hw. by rewrite Hv in Hw. }
  destruct r as [[]|e]; [|by eauto]. apply InitiatePayment_validate_ok in Hv as (_ & Hne & Hamt).
  wp_step. eapply wpm_mono; [|by apply (InitiatePayment_first cmd w st)].
  intros r w1 [Hl Hr].
  assert (w_db w1 = w_db w -> exists st', payment_inv w1 st') as Hsame.
  { intros Hdb. exists st. by eapply payment_inv_later. }
  destruct r as [[res created]|e].
  2: { destruct Hr as [[_ ?]|(_ & [?|(_ & now & ?)])]; eauto. }
  destruct Hr as (-> & -> & Hp & now & Hi).
  destruct temporal as [| |sdk]; [wp_steps; by eauto|simpl; wp_steps; by eauto|].
  wp_step. wp_step. destruct (StartTransferWorkflow _ _) as [[wid rid]|e]; [|by eauto].
  remember (<[uuid_NewString (w_uuid w) := _]> st) as st1 eqn:Est1. clear Est1.
  wp_step. eapply wpm_mono; [|apply (with_tx_post _ (fun _ w' => payment_inv w' st1) (fun _ => False))].
  - intros [[]|e] w2 [Hl2 Hr]; [wp_steps; by eauto|].
    destruct Hr as [[[] _]|(_ & [Hdb|[_ ?]])]; [|by eauto]. exists st1. by eapply payment_inv_later.
  - intros _ w2 w3 Hdb Hsq Hu. by apply payment_inv_same.
  - eapply wpm_mono; [|eapply (InitiatePayment_link_post _ wid rid _ (tx_world w1) st1);
      [apply (payment_inv_later w1); [done|apply later_tx|exact Hi]|exact Hp]].
    intros [[]|e] w2 [Hl2 Hr]; (split; [done|]); [by destruct Hr|]. right. by apply tail_nonempty.
Qed.

(** ** The service as a state machine *)
Definition stream_short w (agg : string) : Prop :=
  (length (rows_for agg (pd_events (w_db w))) <= Z.to_nat 10000)%nat.

(** The three commands on an existing payment. *)
Definition payment_command (op : payment_op) (id key : string) : M PaymentDB PaymentResult :=
  match op with
  | OpAuthorize => AuthorizePaymentHandler_Handle id key
  | OpSettle => SettlePaymentHandler_Handle id key
  | OpFail reason => FailPaymentHandler_Handle id key reason
  end.

(** Commands handled one after the other; commands and workflow links that
    overlap are in [PaymentConcurrent.v]. *)
Inductive payment_step : World PaymentDB -> World PaymentDB -> Prop :=
| step_initiate temporal cmd w :
    payment_step w (InitiatePaymentHandler_Handle temporal cmd w).2
| step_change op id key w :
    stream_short w id -> payment_step w (payment_command op id key w).2
| step_payment_faults fl w :
    payment_step w (set_faults fl w).

Definition payment_init w : Prop :=
  w_db w = mkPaymentDB (mkEventTables [] []) (mkOutboxTable migrated_columns []) ∅.

Definition payment_reachable w : Prop := exists w0, payment_init w0 /\ rtc payment_step w0 w.

Lemma payment_inv_init w : payment_init w -> payment_inv w ∅.
Proof. intros Hdb. split; rewrite ?Hdb; simpl; try done. by repeat constructor. Qed.

Lemma stream_short_short w st agg : payment_inv w st -> stream_short w agg -> short st agg.
Proof.
  intros Hinv. unfold stream_short, short.
  by rewrite (encodes_length _ _ _ _ (pi_streams _ _ Hinv agg)).
Qed.

(** The normal form of a command: its argument checks, then the change. *)
Definition trimmed (op : payment_op) : payment_op :=
  match op with OpFail reason => OpFail (TrimSpace reason) | _ => op end.
Definition expects (op : payment_op) : PaymentEvent -> bool :=
  match op with OpAuthorize => is_authorized | OpSettle => is_settled | OpFail _ => is_failed end.

Lemma payment_command_run op id key :
  payment_command op id key =
  (payment_keys_required id key ;;; with_tx (payment_change id (run_payment_op (trimmed op)) (expects op))).
Proof. by destruct op. Qed.

Lemma expects_op op id now : expects op (op_event (trimmed op) id now) = true.
Proof. by destruct op. Qed.

Lemma payment_command_post op id key w st :
  payment_inv w st -> short st id -> id <> "" -> key <> "" ->
  wpm (payment_command op id key) (fun r w' => later w w' /\
    let done_ := allowed op (status_of st id) = true /\ is_Some (st !! id) /\ change_grown (sync := projection_sync) (trimmed op) id st w' in
    match r with
    | Ok res => res = mkPaymentResult id (1 + Z.of_nat (length (events_of st id))) (op_target op) /\ done_
    | Err e => (change_error op id st e /\ w_db w' = w_db w) \/ (w_faults w <> [] /\ (w_db w' = w_db w \/ done_))
    end) w.
Proof.
  intros Hinv Hshort Hid Hkey. rewrite payment_command_run. wp_step. unfold payment_keys_required.
  wp_step. wp_step; [by apply is_empty_true in H|]. wp_step; [by apply is_empty_true in H0|].
  eapply wpm_mono; [|apply (payment_change_tx (trimmed op) (expects op) id w st); [done|done|]].
  - intros [res|e] w' [Hl Hr]; (split; [done|]); by destruct op.
  - intros id' now. apply expects_op.
Qed.

Lemma payment_command_inv op id key w st :
  payment_inv w st -> short st id -> exists st', payment_inv (payment_command op id key w).2 st'.
Proof.
  intros Hinv Hshort.
  destruct (decide (id = "" \/ key = "")) as [Hbad|Hok].
  - exists st. rewrite payment_command_run. unfold payment_keys_required, bindM, fail_if, is_empty.
    destruct Hbad as [->| ->]; [done|]. by destruct (bool_decide (id = "")).
  - pose proof (payment_command_post op id key w st Hinv Hshort ltac:(tauto) ltac:(tauto)) as Hp.
    unfold wpm in Hp. destruct Hp as [Hl Hp]. destruct (payment_command op id key w) as [[res|e] w']; simpl in *.
    + destruct Hp as (_ & _ & _ & now & ?). eauto.
    + destruct Hp as [[_ Hdb]|(_ & [Hdb|(_ & _ & now & ?)])]; [| |by eauto];
        exists st; by eapply payment_inv_later.
Qed.

Lemma payment_reachable_inv w : payment_reachable w -> exists st, payment_inv w st.
Proof.
  intros (w0 & Hinit & Hst). assert (exists st, payment_inv w0 st) as Hs
    by (exists ∅; by apply payment_inv_init).
  clear Hinit. induction Hst as [w|w w1 w2 Hst _ IH]; [done|]. apply IH. destruct Hs as [st Hs].
  destruct Hst as [temporal cmd w|op id key w Hlen|fl w].
  - by eapply InitiatePayment_inv.
  - eapply payment_command_inv; [done|]. by eapply stream_short_short.
  - exists st. by destruct Hs.
Qed.

(** ** Theorems *)

(** C23. Loading a payment replays its lifecycle: in every state reached by
    commands handled one after the other, whatever fails, a payment of at most
    10000 events loads as the replay of all its stored
    events, these follow the path of the lifecycle, and the projection a
    client reads shows the same status and as version the number of events.
    (When commands overlap the row can be behind: [payment_link_race], and
    [payment_concurrent_consistent] for what holds then.) *)
Theorem payment_store_consistent w id :
  payment_reachable w -> w_faults w = [] -> stream_short w id ->
  exists p, (LoadPayment id w).1 = Ok p /\
    match pd_projection (w_db w) !! id with
    | None => p = Payment_zero
    | Some pr => pp_Status pr = py_status p /\ pp_Version pr = py_version p /\
        pp_Version pr = Z.of_nat (length (rows_for id (pd_events (w_db w)))) /\
        exists ds, payment_at ds = p /\ status_path ds (pp_Status pr)
    end.
Proof.
  intros [st Hinv]%payment_reachable_inv Hfl Hshort.
  pose proof (stream_short_short w st id Hinv Hshort) as Hs.
  exists (payment_at (events_of st id)). split.
  - pose proof (LoadPayment_post w st id Hinv Hs) as Hp. unfold wpm in Hp.
    by destruct Hp as (_ & _ & [Hr|[Hne _]]).
  - pose proof (pi_projection _ _ Hinv id) as Hp. pose proof (pi_path _ _ Hinv id) as Hpath.
    rewrite (encodes_length _ _ _ _ (pi_streams _ _ Hinv id)). unfold short in Hs.
    unfold events_of in *. destruct (st !! id) as [ds|], (pd_projection (w_db w) !! id) as [pr|]; try done.
    simpl in *. destruct Hp as (_ & Hst & Hv). rewrite payment_at_version by (unfold max_int64; lia).
    split_and!; [done|done|done|]. exists ds. split; [done|]. rewrite Hst. by apply Hpath.
Qed.

(** C22. The commands follow the lifecycle: in every reachable state, on a
    working database, a command on an existing payment succeeds exactly when
    the lifecycle allows it, returns the new status with the next version,
    and otherwise refuses with its own error and changes nothing. *)
Theorem payment_commands_follow_lifecycle op id key w pr :
  payment_reachable w -> w_faults w = [] -> stream_short w id ->
  id <> "" -> key <> "" -> pd_projection (w_db w) !! id = Some pr ->
  exists w',
    (if allowed op (pp_Status pr)
     then payment_command op id key w = (Ok (mkPaymentResult id (1 + pp_Version pr) (op_target op)), w') /\
          exists pr', pd_projection (w_db w') !! id = Some pr' /\ pp_Status pr' = op_target op /\
            pp_Version pr' = 1 + pp_Version pr
     else payment_command op id key w = (Err (refusal op), w') /\ w_db w' = w_db w).
Proof.
  intros [st Hinv]%payment_reachable_inv Hfl Hshort Hid Hkey Hpr.
  pose proof (stream_short_short w st id Hinv Hshort) as Hs.
  pose proof (payment_command_post op id key w st Hinv Hs Hid Hkey) as Hp. unfold wpm in Hp.
  pose proof (pi_projection _ _ Hinv id) as Hsync. rewrite Hpr in Hsync.
  destruct (st !! id) as [ds|] eqn:Hst; [|done].
  assert (events_of st id = ds) as Hds by (unfold events_of; by rewrite Hst).
  unfold change_grown, status_of, change_error in Hp. unfold status_of in Hp. rewrite Hds, Hst in Hp.
  destruct Hsync as (_ & -> & ->).
  destruct (payment_command op id key w) as [r w'] eqn:Hrun; simpl in Hp. exists w'.
  destruct Hp as [_ Hp]. destruct r as [res|e].
  - destruct Hp as (-> & Hall & _ & now & Hinv'). rewrite Hall. split; [done|].
    pose proof (pi_projection _ _ Hinv' id) as Hsync'. rewrite lookup_insert_eq in Hsync'.
    destruct (pd_projection (w_db w') !! id) as [pr'|]; [|done]. destruct Hsync' as (_ & Hst' & Hv').
    exists pr'. split_and!; [done| |].
    + rewrite Hst', payment_at_snoc. by destruct op.
    + rewrite Hv', length_app. simpl. lia.
  - destruct Hp as [[He Hdb]|[Hne _]]; [|done].
    destruct He as [[Hall ->]|(_ & ? & _)]; [|done]. by rewrite Hall.
Qed.

(** Settlement is final: in every reachable state, whatever fails, no
    command changes anything of a settled payment. *)
Theorem payment_settled_final op id key w pr :
  payment_reachable w -> stream_short w id -> pd_projection (w_db w) !! id = Some pr ->
  pp_Status pr = StatusSettled ->
  is_ok (payment_command op id key w).1 = false /\ w_db (payment_command op id key w).2 = w_db w.
Proof.
  intros [st Hinv]%payment_reachable_inv Hshort Hpr Hset.
  pose proof (stream_short_short w st id Hinv Hshort) as Hs.
  destruct (decide (id = "" \/ key = "")) as [Hbad|Hok].
  { rewrite payment_command_run. unfold payment_keys_required, bindM, fail_if, is_empty.
    destruct Hbad as [->| ->]; [done|]. by destruct (bool_decide (id = "")). }
  pose proof (payment_command_post op id key w st Hinv Hs ltac:(tauto) ltac:(tauto)) as Hp. unfold wpm in Hp.
  assert (allowed op (status_of st id) = false) as Hno.
  { pose proof (pi_projection _ _ Hinv id) as Hsync. rewrite Hpr in Hsync.
    unfold status_of, events_of. destruct (st !! id) as [ds|]; [|done]. destruct Hsync as (_ & Hst & _).
    simpl. rewrite <-Hst, Hset. by destruct op. }
  rewrite Hno in Hp. destruct Hp as [_ Hp]. destruct (payment_command op id key w) as [[res|e] w']; simpl in *.
  - by destruct Hp as (_ & ? & _).
  - destruct Hp as [[_ ?]|(_ & [?|(? & _)])]; done.
Qed.

(** With Temporal disabled, as [main.go] wires it, initiating a payment
    panics after committing it: the handler holds an interface around a nil
    pointer, takes it for a client, and the process dies with the payment
    stored and no transfer started. *)
Theorem initiate_panics_without_temporal cmd sdk w :
  payment_reachable w -> w_faults w = [] ->
  InitiatePayment_validate cmd w = (Ok tt, w) -> payment_check cmd = None ->
  exists w', InitiatePaymentHandler_Handle (main_temporal false sdk) cmd w =
      (Err (EPanic "nil pointer dereference"), w') /\
    pd_projection (w_db w') !! uuid_NewString (w_uuid w) =
      Some (initiated_projection (uuid_NewString (w_uuid w)) cmd).
Proof.
  intros [st Hinv]%payment_reachable_inv Hfl Hv Hck.
  unfold InitiatePaymentHandler_Handle, bindM. rewrite Hv.
  apply InitiatePayment_validate_ok in Hv as (_ & Hne & Hamt).
  pose proof (InitiatePayment_first cmd w st Hinv Hne Hamt) as Hp. unfold wpm in Hp.
  destruct (with_tx (InitiatePayment_tx cmd) w) as [[[res created]|e] w']; simpl in *; destruct Hp as [_ Hp].
  - destruct Hp as (-> & -> & Hp & _). by eexists.
  - rewrite Hck in Hp. by destruct Hp as [[? _]|[? _]].
Qed.
End properties.
