(* ===== verification/PaymentConcurrent.v ===== *)
(** * Payments changed at the same time

    Commands on a payment load it, decide, and append an event with the next
    version; the unique index over payment and version is the optimistic lock
    between them. Recording the Temporal workflow of a payment reads its row
    and writes it back, without a lock. *)
From S2P Require Import Prelude Stages GoStrings Json Money EventStore Streams Outbox Ledger LedgerSpec Account.
From S2P Require Import Payment PaymentSpec PaymentStore PaymentProps.
#[local] Open Scope Z_scope.
#[local] Open Scope go_scope.

(** ** Requests in flight *)
Inductive pay_flight : Type :=
| Changing (op : payment_op) (id : string) (p : Payment) (now : Z)
| Linking (id wid rid : string) (cur : PaymentProjection) (now : Z).

Section requests.
Context `{Hev : Env}.

(** The stages of a command: read, then decide and write *)
Definition change_read (op : payment_op) (id : string) : M PaymentDB pay_flight :=
  let! now := tx_begin in
  let! p := LoadPayment id in
  retM (Changing op id p now).
Definition change_write (op : payment_op) (id : string) (p : Payment) (now : Z) : M PaymentDB PaymentResult :=
  in_tx now (tx_commit (payment_apply id (run_payment_op (trimmed op)) (expects op) p)).
(** The stages of recording the workflow *)
Definition link_read (id wid rid : string) : M PaymentDB pay_flight :=
  let! now := tx_begin in
  let! o := PaymentProjectionRepo_GetByID id in
  match o with
  | None => failM (ENew "payment not found")
  | Some cur => retM (Linking id wid rid cur now)
  end.
Definition link_write (wid rid : string) (cur : PaymentProjection) (now : Z) : M PaymentDB unit :=
  in_tx now (tx_commit (PaymentProjectionRepo_Upsert (set_workflow wid rid cur))).

Definition started (r : result pay_flight) : list pay_flight := match r with Ok f => [f] | Err _ => [] end.

Inductive pay_step : World PaymentDB * list pay_flight -> World PaymentDB * list pay_flight -> Prop :=
| pay_initiate cmd w fs r w' :
    (InitiatePayment_validate cmd ;;; with_tx (InitiatePayment_tx cmd)) w = (r, w') -> pay_step (w, fs) (w', fs)
| pay_change_read op id w fs r w' :
    stream_short w id -> change_read op id w = (r, w') -> pay_step (w, fs) (w', fs ++ started r)
| pay_change_write op id p now w fs1 fs2 r w' :
    change_write op id p now w = (r, w') -> pay_step (w, fs1 ++ Changing op id p now :: fs2) (w', fs1 ++ fs2)
| pay_link_read id wid rid w fs r w' :
    link_read id wid rid w = (r, w') -> pay_step (w, fs) (w', fs ++ started r)
| pay_link_write id wid rid cur now w fs1 fs2 r w' :
    link_write wid rid cur now w = (r, w') -> pay_step (w, fs1 ++ Linking id wid rid cur now :: fs2) (w', fs1 ++ fs2)
| pay_faults fl w fs :
    pay_step (w, fs) (set_faults fl w, fs).

Definition pay_reachable (c : World PaymentDB * list pay_flight) : Prop :=
  exists w0, payment_init w0 /\ rtc pay_step (w0, []) c.

(** The stages one after the other are the transactions of the handlers. *)
Lemma change_stages op id w :
  with_tx (payment_change id (run_payment_op (trimmed op)) (expects op)) w =
  (let! now := tx_begin in let! p := LoadPayment id in
   tx_commit (payment_apply id (run_payment_op (trimmed op)) (expects op) p)) w.
Proof.
  rewrite with_tx_stages. unfold bindM at 1 2. destruct (tx_begin w) as [[now|e] w1]; [|done].
  unfold payment_change. rewrite tx_commit_bind; [done|]. apply reads_bind.
  - apply reads_exec. intros tm sq db a db'. rewrite on_run. simpl. intros [= _ <-]. by destruct db.
  - intros rows. apply reads_liftR.
Qed.
Lemma link_stages id wid rid w :
  with_tx (InitiatePayment_link id wid rid) w =
  (let! now := tx_begin in let! o := PaymentProjectionRepo_GetByID id in
   match o with
   | None => tx_commit (failM (ENew "payment not found"))
   | Some cur => tx_commit (PaymentProjectionRepo_Upsert (set_workflow wid rid cur))
   end) w.
Proof.
  rewrite with_tx_stages. unfold bindM at 1 2. destruct (tx_begin w) as [[now|e] w1]; [|done].
  unfold InitiatePayment_link. rewrite tx_commit_bind by (apply reads_exec; by intros ????? [= _ <-]).
  unfold bindM. by destruct (PaymentProjectionRepo_GetByID id w1) as [[[cur|]|e] w2].
Qed.
End requests.

(** ** What a row may show *)

(** The state of the payment after some of its events *)
Definition past_sync (agg : string) (ds : list PaymentEvent) (p : PaymentProjection) : Prop :=
  exists k, (0 < k <= length ds)%nat /\ projection_sync agg (take k ds) p.
#[export] Instance past_Sync : Sync past_sync.
Proof.
  split.
  - by intros agg ds p (k & _ & Hid & _).
  - intros agg ds p Hlen Hp. exists (length ds). split; [lia|]. by rewrite take_ge by lia.
Qed.
Lemma past_sync_prefix agg ds ds' p : ds `prefix_of` ds' -> past_sync agg ds p -> past_sync agg ds' p.
Proof.
  intros [more ->] (k & Hk & Hp). exists k. rewrite length_app. split; [lia|]. by rewrite take_app_le by lia.
Qed.

(** What a request in flight has read is a past of the payment. *)
Definition near (st : gmap string (list PaymentEvent)) (f : pay_flight) : Prop :=
  match f with
  | Changing _ id p _ => exists k, (k <= length (events_of st id))%nat /\ (k <= Z.to_nat 10000)%nat /\
      p = payment_at (take k (events_of st id))
  | Linking id _ _ cur _ => past_sync id (events_of st id) cur
  end.
Lemma near_grows st st' f : extends st st' -> near st f -> near st' f.
Proof.
  intros Hg. destruct f as [op id p now|id wid rid cur now]; simpl.
  - intros (k & Hk & Hs & ->). exists k. destruct (extends_take _ _ id k Hg Hk) as [? ->]. by split_and!.
  - apply past_sync_prefix, Hg.
Qed.
Section invariant.
Context `{Hev : Env} `{Henv : !EnvOk}.
Implicit Types (w : World PaymentDB) (st : gmap string (list PaymentEvent)).

(** A command that decides on an old state appends nothing: the version it
    wants is taken. *)
Lemma payment_apply_stale op expected agg w st k :
  payment_inv_at past_sync w st -> (k < length (events_of st agg))%nat -> (k <= Z.to_nat 10000)%nat ->
  (forall id now, expected (op_event op id now) = true) ->
  wpm (payment_apply agg (run_payment_op op) expected (payment_at (take k (events_of st agg))))
    (fun r w2 => later w w2 /\ is_ok r = false) w.
Proof.
  intros Hinv Hk Hs Hexp. destruct w as [db sq u t tx fl sn]. unfold payment_apply. set (ds := take k (events_of st agg)).
  assert (length ds = k) as Hlen by (apply length_take_le; lia).
  wp_step. unfold wpm at 1. rewrite run_payment_op_run. destruct (allowed op _); cbn [fst snd]; [|by split; [apply later_refl|]].
  cbn [w_tick w_db w_seq w_uuid w_tx w_faults w_sent]. set (ev := op_event op (py_id (payment_at ds)) (clock_Now t)).
  unfold Payment_PullChanges. cbn [py_version py_status].
  destruct (Payment_raise_fields ev (payment_at ds)) as (-> & -> & ->); [apply payment_at_changes|].
  wp_step. wp_step; [subst ev; by rewrite Hexp in H|].
  assert (py_version (Payment_Apply ev (payment_at ds)) = 1 + Z.of_nat k) as ->.
  { rewrite <-payment_at_snoc, payment_at_version; rewrite length_app; simpl; [lia|]. unfold max_int64. lia. }
  wp_steps. unfold Append; simpl. wp_step. apply wpm_exec.
  { intros Hne. split; [|done]. split_and!; simpl; [lia|lia|by intros ->]. }
  rewrite on_run. simpl (view _).
  destruct (streams_version_taken payment_decode (pd_events db) st (payment_event (uuid_NewString u) agg (1 + Z.of_nat k) ev)
    k tx sq (pi_streams _ _ Hinv) Hk eq_refl) as [err ->].
  split; [|done]. split_and!; simpl; [lia|lia|by intros ->].
Qed.

Definition pay_inv w (fs : list pay_flight) : Prop :=
  exists st, payment_inv_at past_sync w st /\ Forall (near st) fs.
Lemma pay_inv_grows st fs st' w' :
  Forall (near st) fs -> extends st st' -> payment_inv_at past_sync w' st' -> pay_inv w' fs.
Proof. intros Hn Hg Hi. exists st'. split; [done|]. eapply Forall_impl; [exact Hn|]. intros f. by apply near_grows. Qed.
Lemma pay_inv_later w st fs w' :
  payment_inv_at past_sync w st -> Forall (near st) fs -> w_db w' = w_db w -> later w w' -> pay_inv w' fs.
Proof. intros Hi Hn Hdb Hl. exists st. split; [by apply (payment_inv_later w)|done]. Qed.

Lemma initiate_inv cmd w fs r w' : pay_inv w fs ->
  (InitiatePayment_validate cmd ;;; with_tx (InitiatePayment_tx cmd)) w = (r, w') -> pay_inv w' fs.
Proof.
  intros (st & Hinv & Hn) Hrun. unfold bindM in Hrun. destruct (InitiatePayment_validate cmd w) as [[[]|e] w1] eqn:Hv.
  2: { pose proof (InitiatePayment_validate_world cmd w) as Hw. rewrite Hv in Hw. simpl in Hw. injection Hrun as _ <-. subst w1.
       by exists st. }
  apply InitiatePayment_validate_ok in Hv as (-> & Hne & Hamt).
  pose proof (InitiatePayment_first (sync := past_sync) cmd w st Hinv Hne Hamt) as Hp. unfold wpm in Hp. rewrite Hrun in Hp. simpl in Hp.
  destruct Hp as [Hl Hp]. set (id := uuid_NewString (w_uuid w)) in *.
  assert (initiated (sync := past_sync) id cmd st w' -> pay_inv w' fs) as Hini.
  { intros (_ & now & Hi). eapply pay_inv_grows; [exact Hn| |exact Hi]. apply extends_insert.
    unfold events_of. destruct (st !! id) as [ds|] eqn:Hst; [|by apply prefix_nil].
    by destruct (pi_aggs _ _ Hinv _ _ Hst (w_uuid w)). }
  destruct r as [[res created]|e]; [apply Hini, Hp|].
  destruct Hp as [[_ Hdb]|[_ [Hdb|Hi]]]; [by eapply pay_inv_later..|by apply Hini].
Qed.

Lemma change_read_inv op id w fs r w' : pay_inv w fs -> stream_short w id -> change_read op id w = (r, w') ->
  pay_inv w' (fs ++ started r).
Proof.
  intros (st & Hinv & Hn) Hshort Hrun.
  assert (short st id) as Hs by (unfold short; by rewrite <-(encodes_length _ _ _ _ (pi_streams _ _ Hinv id))).
  assert (wpm (change_read op id) (fun r w' => w_db w' = w_db w /\ later w w' /\ Forall (near st) (started r)) w) as Hp.
  2: { apply (wpm_run _ _ _ _ _ Hrun) in Hp as (Hdb & Hl & Hr). eapply pay_inv_later; [exact Hinv| |done|done]. by apply Forall_app. }
  unfold change_read. wp_step. eapply wpm_mono; [|apply tx_begin_post]. intros [now|e] w1 (Hdb1 & Hl1 & _); [|done].
  wp_step. eapply wpm_mono; [|apply (LoadPayment_post (sync := past_sync) w1 st id); [by apply (payment_inv_later w)|done]].
  intros r2 w2 (Hdb2 & Hl2 & Hr). destruct Hr as [->|[_ ->]].
  - wp_step. split_and!; [congruence|by eapply later_trans|]. constructor; [|done]. exists (length (events_of st id)).
    split_and!; [done|done|by rewrite take_ge by lia].
  - split_and!; [congruence|by eapply later_trans|done].
Qed.

Lemma change_write_inv op id p now w fs1 fs2 r w' : pay_inv w (fs1 ++ Changing op id p now :: fs2) ->
  change_write op id p now w = (r, w') -> pay_inv w' (fs1 ++ fs2).
Proof.
  intros (st & Hinv & Hn) Hrun. apply Forall_app in Hn as [Hn1 [Hf Hn2]%Forall_cons].
  assert (Forall (near st) (fs1 ++ fs2)) as Hn by (by apply Forall_app). destruct Hf as (k & Hk & Hs & ->).
  assert (payment_inv_at past_sync (set_tx now w) st) as Hinv0 by (by apply (payment_inv_later w)).
  set (op' := trimmed op). set (J := fun (_ : PaymentResult) w' => change_grown (sync := past_sync) op' id st w').
  assert (wpm (tx_commit (payment_apply id (run_payment_op op') (expects op) (payment_at (take k (events_of st id)))))
    (fun r w' => later (set_tx now w) w' /\
      match r with
      | Ok a => J a w'
      | Err _ => (w_db w' = w_db (set_tx now w) \/ exists a, J a w') /\ (True \/ w_faults (set_tx now w) <> [])
      end) (set_tx now w)) as Hp.
  { apply tx_commit_post.
    - intros a w1 w2 Hdb Hsq Hu [tm Hi]. exists tm. by apply (payment_inv_same w1).
    - destruct (decide (k = length (events_of st id))) as [->|Hne].
      + rewrite take_ge by lia. eapply wpm_mono; [|apply payment_apply_post; [exact Hinv0|exact Hs|apply expects_op]].
        intros [res|e] w2 [Hl Hr]; (split; [done|]); [apply Hr|by left].
      + eapply wpm_mono; [|apply (payment_apply_stale op' (expects op) id (set_tx now w) st k); [done|lia|done|apply expects_op]].
        intros [res|e] w2 [Hl Hr]; (split; [done|]); [done|by left]. }
  unfold change_write, in_tx in Hrun. apply (wpm_run _ _ _ _ _ Hrun) in Hp as [Hl Hr].
  assert (forall a, J a w' -> pay_inv w' (fs1 ++ fs2)) as HJ.
  { intros a [tm Hi]. eapply pay_inv_grows; [exact Hn| |exact Hi]. apply extends_insert. by exists [op_event op' id tm]. }
  destruct r as [res|e]; [by eapply HJ|]. destruct Hr as [[Hdb|[a Ha]] _]; [|by eapply HJ].
  by eapply pay_inv_later.
Qed.

Lemma link_read_inv id wid rid w fs r w' : pay_inv w fs -> link_read id wid rid w = (r, w') -> pay_inv w' (fs ++ started r).
Proof.
  intros (st & Hinv & Hn) Hrun.
  assert (wpm (link_read id wid rid) (fun r w' => w_db w' = w_db w /\ later w w' /\ Forall (near st) (started r)) w) as Hp.
  2: { apply (wpm_run _ _ _ _ _ Hrun) in Hp as (Hdb & Hl & Hr). eapply pay_inv_later; [exact Hinv| |done|done]. by apply Forall_app. }
  unfold link_read. wp_step. eapply wpm_mono; [|apply tx_begin_post]. intros [now|e] w1 (Hdb1 & Hl1 & _); [|done].
  wp_step. eapply wpm_mono; [|apply (exec_select_post _ (fun db => pd_projection db !! id)); done].
  intros [o|e] w2 (Hdb2 & Hl2 & Hr); [|split_and!; [congruence|by eapply later_trans|done]].
  pose proof (pi_projection _ _ Hinv id) as Hpr. rewrite Hdb1 in Hr. rewrite <-Hr in Hpr.
  destruct o as [cur|]; wp_step; (split_and!; [congruence|by eapply later_trans|]); [|done].
  constructor; [|done]. simpl. unfold events_of. by destruct (st !! id).
Qed.

Lemma link_write_inv id wid rid cur now w fs1 fs2 r w' : pay_inv w (fs1 ++ Linking id wid rid cur now :: fs2) ->
  link_write wid rid cur now w = (r, w') -> pay_inv w' (fs1 ++ fs2).
Proof.
  intros (st & Hinv & Hn) Hrun. apply Forall_app in Hn as [Hn1 [Hf Hn2]%Forall_cons].
  assert (Forall (near st) (fs1 ++ fs2)) as Hn by (by apply Forall_app). simpl in Hf.
  assert (exists ds, st !! id = Some ds /\ past_sync id ds (set_workflow wid rid cur)) as (ds & Hst & Hp).
  { destruct Hf as (k & Hk & Hf). unfold events_of in *. destruct (st !! id) as [ds|] eqn:Hst; [|simpl in Hk; lia].
    exists ds. split; [done|]. by exists k. }
  assert (payment_inv_at past_sync (set_tx now w) st) as Hinv0 by (by apply (payment_inv_later w)).
  assert (wpm (tx_commit (PaymentProjectionRepo_Upsert (set_workflow wid rid cur)))
    (fun r w' => later (set_tx now w) w' /\
      match r with
      | Ok _ => payment_inv_at past_sync w' st
      | Err _ => (w_db w' = w_db (set_tx now w) \/ exists _ : unit, payment_inv_at past_sync w' st) /\ (True \/ w_faults (set_tx now w) <> [])
      end) (set_tx now w)) as Hw.
  { apply (tx_commit_post _ (fun _ w' => payment_inv_at past_sync w' st)).
    - intros _ w1 w2 Hdb Hsq Hu. by apply payment_inv_same.
    - destruct (set_tx now w) as [db sq u t tx fl sn]. apply wpm_exec.
      + intros Hne. split; [|by left]. split_and!; simpl; [lia|lia|by intros ->].
      + unfold upsert_payment. split; [split_and!; simpl; [lia|lia|by intros ->]|].
        rewrite (sync_id _ _ _ Hp). by apply (payment_inv_set_row (mkWorld db sq u t tx fl sn) st id ds); [..|simpl; lia]. }
  unfold link_write, in_tx in Hrun. apply (wpm_run _ _ _ _ _ Hrun) in Hw as [Hl Hr].
  destruct r as [res|e]; [by exists st|]. destruct Hr as [[Hdb|[_ Hi]] _]; [by eapply pay_inv_later|by exists st].
Qed.

Lemma pay_inv_step w fs w' fs' : pay_inv w fs -> pay_step (w, fs) (w', fs') -> pay_inv w' fs'.
Proof.
  intros Hi Hst. inversion Hst; subst.
  - by eapply initiate_inv.
  - by eapply change_read_inv.
  - by eapply change_write_inv.
  - by eapply link_read_inv.
  - by eapply link_write_inv.
  - destruct Hi as (st & Hi & Hn). exists st. split; [|done]. by apply (payment_inv_same w).
Qed.
Lemma pay_inv_rtc c c' : rtc pay_step c c' -> pay_inv c.1 c.2 -> pay_inv c'.1 c'.2.
Proof. induction 1 as [|[w fs] [w1 fs1] c2 Hs _ IH]; [done|]. intros Hi. apply IH. by eapply pay_inv_step. Qed.
Lemma payment_inv_weaken w st : payment_inv w st -> payment_inv_at past_sync w st.
Proof.
  intros []. split; try done. intros agg. specialize (pi_projection agg).
  destruct (st !! agg) as [ds|] eqn:Hst, (pd_projection (w_db w) !! agg) as [p|]; try done.
  apply sync_full; [|done]. destruct (pi_shape _ _ Hst) as (from & to & narr & t & rest & -> & _). simpl. lia.
Qed.
Lemma pay_reachable_inv w fs : pay_reachable (w, fs) -> pay_inv w fs.
Proof.
  intros (w0 & Hinit & Hst). apply (pay_inv_rtc _ _ Hst). exists ∅. split; [|done]. by apply payment_inv_weaken, payment_inv_init.
Qed.

(** C24. Commands on payments may run at the same time: however initiations,
    commands and the recording of workflows interleave, and whatever fails,
    the stored events of every payment carry the versions 1, 2, ..., n and
    follow the lifecycle, so of the commands that decide on one state at most
    one takes effect. The row a client reads exists exactly for the payments
    with events and shows the payment as it is or as it was after some of its
    events. *)
Theorem payment_concurrent_consistent w fs id : pay_reachable (w, fs) ->
  exists ds, encodes payment_decode 1 (rows_for id (pd_events (w_db w))) ds /\
    match pd_projection (w_db w) !! id with
    | None => ds = []
    | Some pr => status_path ds (py_status (payment_at ds)) /\
        exists k, (0 < k <= length ds)%nat /\ pp_Status pr = py_status (payment_at (take k ds)) /\
          pp_Version pr = Z.of_nat k
    end.
Proof.
  intros (st & Hinv & _)%pay_reachable_inv. exists (events_of st id). split; [apply (pi_streams _ _ Hinv)|].
  pose proof (pi_projection _ _ Hinv id) as Hp. pose proof (pi_path _ _ Hinv id) as Hpath. unfold events_of.
  destruct (st !! id) as [ds|], (pd_projection (w_db w) !! id) as [pr|]; try done. simpl.
  split; [by apply Hpath|]. destruct Hp as (k & Hk & _ & Hs & Hv). exists k. split_and!; [lia|lia|done|].
  by rewrite length_take_le in Hv by lia.
Qed.
End invariant.

(** ** The race *)
Section race.
Context `{Hev : Env} `{Henv : !EnvOk}.
Implicit Types (w : World PaymentDB) (st : gmap string (list PaymentEvent)).

(** The stages on a working database *)
Lemma link_read_quiet id wid rid pr w : w_faults w = [] -> pd_projection (w_db w) !! id = Some pr ->
  exists now w', link_read id wid rid w = (Ok (Linking id wid rid pr now), w') /\ w_db w' = w_db w /\ later w w'.
Proof.
  intros Hf Hpr.
  assert (wpm (link_read id wid rid) (fun r w' => (exists now, r = Ok (Linking id wid rid pr now)) /\ w_db w' = w_db w /\ later w w') w) as Hp.
  { unfold link_read. wp_step. eapply wpm_mono; [|apply tx_begin_post]. intros [now|e] w1 (Hdb1 & Hl1 & He); [|by destruct He].
    wp_step. eapply wpm_mono; [|apply (exec_select_post _ (fun db => pd_projection db !! id)); done].
    intros [o|e] w2 (Hdb2 & Hl2 & Hr); [|by destruct Hr; apply Hl1]. rewrite Hr, Hdb1, Hpr. wp_step.
    split_and!; [by exists now|congruence|by eapply later_trans]. }
  unfold wpm in Hp. destruct (link_read id wid rid w) as [r w']. destruct Hp as ([now Hr] & Hdb & Hl). simpl in *. subst r.
  by exists now, w'.
Qed.
Lemma change_read_quiet op id w st : w_faults w = [] -> payment_inv w st -> short st id ->
  exists now w', change_read op id w = (Ok (Changing op id (payment_at (events_of st id)) now), w') /\ w_db w' = w_db w /\ later w w'.
Proof.
  intros Hf Hinv Hs.
  assert (wpm (change_read op id) (fun r w' =>
    (exists now, r = Ok (Changing op id (payment_at (events_of st id)) now)) /\ w_db w' = w_db w /\ later w w') w) as Hp.
  { unfold change_read. wp_step. eapply wpm_mono; [|apply tx_begin_post]. intros [now|e] w1 (Hdb1 & Hl1 & He); [|by destruct He].
    wp_step. eapply wpm_mono; [|apply (LoadPayment_post (sync := projection_sync) w1 st id); [by apply (payment_inv_later w)|done]].
    intros r2 w2 (Hdb2 & Hl2 & [->|[Hne _]]); [|by destruct Hne; apply Hl1].
    wp_step. split_and!; [by exists now|congruence|by eapply later_trans]. }
  unfold wpm in Hp. destruct (change_read op id w) as [r w']. destruct Hp as ([now Hr] & Hdb & Hl). simpl in *. subst r.
  by exists now, w'.
Qed.
Lemma change_write_quiet op id now w st : w_faults w = [] -> payment_inv w st -> short st id ->
  is_Some (st !! id) -> allowed (trimmed op) (status_of st id) = true ->
  exists res w' tm, change_write op id (payment_at (events_of st id)) now w = (Ok res, w') /\ later w w' /\
    payment_inv w' (<[id := events_of st id ++ [op_event (trimmed op) id tm]]> st).
Proof.
  intros Hf Hinv Hs [ds Hst] Hall.
  assert (payment_inv (set_tx now w) st) as Hinv0 by (by apply (payment_inv_later w)).
  assert (wpm (tx_commit (payment_apply id (run_payment_op (trimmed op)) (expects op) (payment_at (events_of st id))))
    (fun r w' => later (set_tx now w) w' /\
      match r with
      | Ok _ => change_grown (sync := projection_sync) (trimmed op) id st w'
      | Err _ => (w_db w' = w_db (set_tx now w) \/ exists _ : PaymentResult, change_grown (sync := projection_sync) (trimmed op) id st w') /\
                 (False \/ w_faults (set_tx now w) <> [])
      end) (set_tx now w)) as Hp.
  { apply (tx_commit_post _ (fun _ w' => change_grown (sync := projection_sync) (trimmed op) id st w')).
    - intros _ w1 w2 Hdb Hsq Hu [tm Hi]. exists tm. by apply (payment_inv_same w1).
    - eapply wpm_mono; [|apply (payment_apply_post (sync := projection_sync)); [exact Hinv0|exact Hs|apply expects_op]].
      intros [res|e] w2 [Hl Hr]; (split; [done|]); [apply Hr|]. destruct Hr as [[? _]|[(_ & ? & _)|?]]; [congruence..|by right]. }
  unfold wpm in Hp. unfold change_write, in_tx. destruct (tx_commit _ _) as [[res|e] w']; simpl in Hp.
  - destruct Hp as [Hl [tm Hi]]. by exists res, w', tm.
  - by destruct Hp as (_ & _ & [[]|Hne]).
Qed.
Lemma link_write_quiet id wid rid pr now w : w_faults w = [] -> pp_PaymentID pr = id ->
  exists w', link_write wid rid pr now w = (Ok tt, w') /\ later w w' /\ w_uuid w' = w_uuid w /\
    w_db w' = mkPaymentDB (pd_events (w_db w)) (pd_outbox (w_db w)) (<[id := set_workflow wid rid pr]> (pd_projection (w_db w))).
Proof.
  intros Hf Hid. unfold link_write, in_tx, tx_commit, PaymentProjectionRepo_Upsert, exec, next_fault, run_stmt, upsert_payment.
  destruct w as [db sq u t tx fl sn]. simpl in *. subst fl id. simpl. eexists. split; [done|]. split_and!; simpl; try done. split_and!; simpl; [lia|done|done].
Qed.

(** Recording the workflow of a payment can undo what its row shows: if a
    command that the lifecycle allows runs between the read and the write of
    the row, the command succeeds and its event is stored, but the row goes
    back to the old status and version. *)
Theorem payment_link_race op id wid rid w pr :
  payment_reachable w -> w_faults w = [] -> (length (rows_for id (pd_events (w_db w))) < Z.to_nat 10000)%nat ->
  pd_projection (w_db w) !! id = Some pr -> allowed op (pp_Status pr) = true ->
  exists w' p, rtc pay_step (w, []) (w', []) /\
    pd_projection (w_db w') !! id = Some (set_workflow wid rid pr) /\
    (LoadPayment id w').1 = Ok p /\ py_status p = op_target op /\ py_version p = 1 + pp_Version pr.
Proof.
  intros [st Hinv]%payment_reachable_inv Hf Hlen Hpr Hall.
  rewrite (encodes_length _ _ _ _ (pi_streams _ _ Hinv id)) in Hlen.
  assert (short st id) as Hs by (unfold short; lia).
  pose proof (pi_projection _ _ Hinv id) as Hsync. rewrite Hpr in Hsync.
  destruct (st !! id) as [ds|] eqn:Hst; [|done]. destruct Hsync as (Hid & Hstat & Hver).
  assert (events_of st id = ds) as Hds by (unfold events_of; by rewrite Hst).
  assert (allowed (trimmed op) (status_of st id) = true) as Hall'.
  { unfold status_of. rewrite Hds, <-Hstat. by destruct op. }
  destruct (link_read_quiet id wid rid pr w Hf Hpr) as (now1 & w1 & Hr1 & Hd1 & Hl1).
  assert (payment_inv w1 st) as Hinv1 by (by apply (payment_inv_later w)).
  destruct (change_read_quiet op id w1 st (proj2 (proj2 Hl1) Hf) Hinv1 Hs) as (now2 & w2 & Hr2 & Hd2 & Hl2).
  assert (later w w2) as Hl12 by (by eapply later_trans).
  assert (payment_inv w2 st) as Hinv2 by (by apply (payment_inv_later w1)).
  destruct (change_write_quiet op id now2 w2 st (proj2 (proj2 Hl12) Hf) Hinv2 Hs) as (res & w3 & tm & Hr3 & Hl3 & Hinv3); [by rewrite Hst|done|].
  assert (later w w3) as Hl13 by (by eapply later_trans).
  destruct (link_write_quiet id wid rid pr now1 w3 (proj2 (proj2 Hl13) Hf) Hid) as (w4 & Hr4 & Hl4 & Hu4 & Hd4).
  rewrite Hds in Hinv3. set (st' := <[id := ds ++ [op_event (trimmed op) id tm]]> st) in *.
  assert (events_of st' id = ds ++ [op_event (trimmed op) id tm]) as Hds' by (unfold events_of, st'; by rewrite lookup_insert_eq).
  assert (payment_inv_at past_sync w4 st') as Hinv4.
  { pose proof (payment_inv_set_row (sync := past_sync) w3 st' id (ds ++ [op_event (trimmed op) id tm]) (set_workflow wid rid pr)
      (w_seq w4) (w_tick w4) (w_tx w4) (w_faults w4) (w_sent w4) (payment_inv_weaken _ _ Hinv3)) as Hset.
    eapply payment_inv_same; [..|apply Hset]; simpl; [done|done|done|by unfold st'; rewrite lookup_insert_eq| |apply Hl4].
    apply (past_sync_prefix _ ds); [by eexists|]. apply sync_full; [|done].
    destruct (pi_shape _ _ Hinv id ds Hst) as (? & ? & ? & ? & rest & -> & _). simpl. lia. }
  exists w4, (payment_at (events_of st' id)). split_and!.
  - eapply rtc_l; [apply (pay_link_read id wid rid w [] _ w1 Hr1)|]. simpl.
    eapply rtc_l; [apply (pay_change_read op id w1 [Linking id wid rid pr now1] (Ok (Changing op id (payment_at (events_of st id)) now2)) w2);
      [unfold stream_short; rewrite Hd1, (encodes_length _ _ _ _ (pi_streams _ _ Hinv id)); exact Hs|exact Hr2]|]. simpl.
    eapply rtc_l; [apply (pay_change_write op id (payment_at (events_of st id)) now2 w2 [Linking id wid rid pr now1] [] _ w3 Hr3)|].
    eapply rtc_l; [apply (pay_link_write id wid rid pr now1 w3 [] [] _ w4 Hr4)|]. apply rtc_refl.
  - by rewrite Hd4; simpl; rewrite lookup_insert_eq.
  - pose proof (LoadPayment_post (sync := past_sync) w4 st' id Hinv4) as Hload. rewrite Hds', length_app in Hload.
    assert (w_faults w4 = []) as Hf4 by (by apply Hl4, Hl13). unfold wpm in Hload. rewrite <-Hds' in Hload.
    destruct Hload as (_ & _ & [Hr|[Hne _]]); [rewrite <-Hds; simpl; lia|done|done].
  - rewrite Hds', payment_at_snoc. by destruct op.
  - rewrite Hds', payment_at_version, length_app; [simpl; lia|]. rewrite length_app. simpl. unfold max_int64. rewrite <-Hds. lia.
Qed.
End race.
