(* ===== verification/Transfer.v ===== *)
(** * Moving the money of a payment ([src/services/payment-service])

    The two drivers of a transfer, the event-driven saga
    ([application/saga/transfer_saga.go]) and the Temporal workflow
    ([application/workflows/transfer_workflow.go]), over the ports they call
    ([application/ports]), the gRPC clients behind the ports and the NATS
    consumer. *)
From S2P Require Import Prelude GoStrings Json Money EventStore Outbox Ledger Account Payment.
#[local] Open Scope Z_scope.
#[local] Open Scope go_scope.

(** ** Ports *)
Class TransferLedger (DB : Type) := {
  tl_PostEntry (accountID : string) (amount : Money) (entryType idempotencyKey narration : string) : M DB string;
}.

Class TransferAccount (DB : Type) := {
  ta_Deposit (accountID : string) (amount : Money) (idempotencyKey narration : string) : M DB string;
  ta_Withdraw (accountID : string) (amount : Money) (idempotencyKey narration : string) : M DB string;
}.

(** ** The gRPC clients ([infrastructure/grpc/ledger_client.go],
    [infrastructure/grpc/account_client.go])

    The variables are the generated stubs: the calls on the wire. *)
Section clients.
Context {DB : Type}.
Variable call_ledger : option PostEntryRequest -> M DB string.
Variables call_deposit call_withdraw : MoneyRequest -> M DB string.

Definition ledgerClient_PostEntry (accountID : string) (amount : Money)
    (entryType idempotencyKey narration : string) : M DB string :=
  let! et := (if bool_decide (entryType = "deposit") then retM ENTRY_TYPE_DEPOSIT
              else if bool_decide (entryType = "withdrawal") then retM ENTRY_TYPE_WITHDRAWAL
              else failM (ENew ("invalid entry type: " +:+ entryType))) in
  wrap_err "ledger post entry"
    (call_ledger (Some (mkPostEntryRequest idempotencyKey et (Some accountID)
                          (Some (mkProtoMoney (Currency amount) (AmountKobo amount))) narration))).

Definition accountClient_Deposit (accountID : string) (amount : Money)
    (idempotencyKey narration : string) : M DB string :=
  wrap_err "account deposit"
    (call_deposit (mkMoneyRequest accountID (Some (mkProtoMoney (Currency amount) (AmountKobo amount)))
                     idempotencyKey narration)).

Definition accountClient_Withdraw (accountID : string) (amount : Money)
    (idempotencyKey narration : string) : M DB string :=
  wrap_err "account withdraw"
    (call_withdraw (mkMoneyRequest accountID (Some (mkProtoMoney (Currency amount) (AmountKobo amount)))
                      idempotencyKey narration)).
End clients.

(** ** The saga ([application/saga/transfer_saga.go]) *)
Section saga.
Context `{Env} {DB : Type} `{Lens DB PaymentDB} `{TransferLedger DB} `{TransferAccount DB}.

(** Both helpers drop the error of the call they make. *)
Definition bestEffortFailPayment (paymentID idempotencyKey reason : string) : M DB unit :=
  let! _ := tryM (zoom (FailPaymentHandler_Handle paymentID idempotencyKey reason)) in
  retM tt.

Definition bestEffortRefund (accountID : string) (amount : Money) (idempotencyKey narration : string) : M DB unit :=
  let! _ := tryM (ta_Deposit accountID amount idempotencyKey narration) in
  retM tt.

(** A step of the saga: [compensate err] runs when it fails, and the error is
    returned. *)
Definition saga_step {A} (step : M DB A) (compensate : error -> M DB unit) : M DB unit :=
  let! r := tryM step in
  match r with
  | Ok _ => retM tt
  | Err err => compensate err ;;; failM err
  end.

Definition saga_transfer (id from to : string) (amount : Money) (narration : string) : M DB unit :=
  let refund (what : string) := bestEffortRefund from amount ("refund-" +:+ what +:+ "-" +:+ id) narration in
  let fail (what reason : string) (err : error) :=
    bestEffortFailPayment id ("fail-" +:+ what +:+ "-" +:+ id) (reason +:+ ": " +:+ Error err) in
  saga_step (ta_Withdraw from amount ("wdr-" +:+ id) narration)
    (fun err => fail "wdr" "withdrawal failed" err) ;;;
  saga_step (tl_PostEntry from amount "withdrawal" ("ldg-wdr-" +:+ id) narration)
    (fun err => refund "ledger-wdr" ;;; fail "ledger-wdr" "ledger withdrawal entry failed" err) ;;;
  saga_step (ta_Deposit to amount ("dep-" +:+ id) narration)
    (fun err => refund "dep" ;;; fail "dep" "deposit failed" err) ;;;
  saga_step (tl_PostEntry to amount "deposit" ("ldg-dep-" +:+ id) narration)
    (fun err => refund "ledger-dep" ;;; fail "ledger-dep" "ledger deposit entry failed" err) ;;;
  saga_step (zoom (AuthorizePaymentHandler_Handle id ("auth-" +:+ id)))
    (fun err => refund "auth" ;;; fail "auth" "authorize failed" err) ;;;
  saga_step (zoom (SettlePaymentHandler_Handle id ("settle-" +:+ id)))
    (fun err => refund "settle" ;;; fail "settle" "settle failed" err).

Definition handlePaymentInitiated (payload : bytes) : M DB unit :=
  let! ev := liftR (json_PaymentInitiated payload) in
  match ev with
  | PaymentInitiated id from to amount narration _ => saga_transfer id from to amount narration
  | _ => retM tt
  end.

Definition handleLedgerRecorded (payload : bytes) : M DB unit := retM tt.
Definition handleAccountUpdated (payload : bytes) : M DB unit := retM tt.

Definition ProcessEvent (eventType : string) (payload : bytes) : M DB unit :=
  if bool_decide (eventType = EventPaymentInitiated) then handlePaymentInitiated payload
  else if bool_decide (eventType = "ledger.v1.TransactionRecorded") then handleLedgerRecorded payload
  else if bool_decide (eventType = "account.v1.BalanceUpdated") then handleAccountUpdated payload
  else retM tt.

(** *** The consumer ([infrastructure/messaging/consumer.go])

    A message reaches the handler of the subscription whose subject it was
    published on; the handler logs an error and goes on. *)
Definition consumer_subjects : list string := ["payment.initiated.v1"].

Definition EventConsumer_receive (m : message) : M DB unit :=
  if bool_decide (msg_topic m ∈ consumer_subjects)
  then let! _ := tryM (ProcessEvent (msg_topic m) (msg_value m)) in retM tt
  else retM tt.
End saga.

(** ** The workflow ([application/workflows/transfer_workflow.go]) *)
Section workflow.
Context `{Env} {DB : Type} `{Lens DB PaymentDB} `{TransferLedger DB} `{TransferAccount DB}.

(** *** Activities *)
Definition with_amount (inp : TransferWorkflowInput) (k : Money -> M DB unit) : M DB unit :=
  let! amt := liftR (money_New (ti_AmountKobo inp) (ti_Currency inp)) in
  k amt.

Definition Activity_Withdraw (inp : TransferWorkflowInput) : M DB unit :=
  with_amount inp (fun amt =>
    ta_Withdraw (ti_FromAccountID inp) amt ("wdr-" +:+ ti_PaymentID inp) (ti_Narration inp) ;;; retM tt).

Definition Activity_LedgerPostWithdraw (inp : TransferWorkflowInput) : M DB unit :=
  with_amount inp (fun amt =>
    tl_PostEntry (ti_FromAccountID inp) amt "withdrawal" ("ldg-wdr-" +:+ ti_PaymentID inp) (ti_Narration inp) ;;;
    retM tt).

Definition Activity_Deposit (inp : TransferWorkflowInput) : M DB unit :=
  with_amount inp (fun amt =>
    ta_Deposit (ti_ToAccountID inp) amt ("dep-" +:+ ti_PaymentID inp) (ti_Narration inp) ;;; retM tt).

Definition Activity_LedgerPostDeposit (inp : TransferWorkflowInput) : M DB unit :=
  with_amount inp (fun amt =>
    tl_PostEntry (ti_ToAccountID inp) amt "deposit" ("ldg-dep-" +:+ ti_PaymentID inp) (ti_Narration inp) ;;;
    retM tt).

Definition Activity_Refund (inp : TransferWorkflowInput) : M DB unit :=
  with_amount inp (fun amt =>
    ta_Deposit (ti_FromAccountID inp) amt ("refund-" +:+ ti_PaymentID inp) (ti_Narration inp) ;;; retM tt).

Definition Activity_AuthorizePayment (inp : TransferWorkflowInput) : M DB unit :=
  zoom (AuthorizePaymentHandler_Handle (ti_PaymentID inp) ("auth-" +:+ ti_PaymentID inp)) ;;; retM tt.

Definition Activity_SettlePayment (inp : TransferWorkflowInput) : M DB unit :=
  zoom (SettlePaymentHandler_Handle (ti_PaymentID inp) ("settle-" +:+ ti_PaymentID inp)) ;;; retM tt.

Definition Activity_FailPayment (paymentID reason : string) : M DB unit :=
  zoom (FailPaymentHandler_Handle paymentID ("fail-" +:+ paymentID) reason) ;;; retM tt.

(** *** Running an activity

    [RetryPolicy.MaximumAttempts]; an attempt is a call to a worker whose
    completion can be lost, in which case the next attempt runs the activity
    again. *)
Definition MaximumAttempts : nat := 5.

Fixpoint attempts (n : nat) (act : M DB unit) : M DB unit :=
  match n with
  | O => failM (ENew "no attempts")
  | S O => rpc act
  | S n' =>
      let! r := tryM (rpc act) in
      match r with
      | Ok _ => retM tt
      | Err _ => attempts n' act
      end
  end.

Definition ExecuteActivity (act : M DB unit) : M DB unit := attempts MaximumAttempts act.

(** The text of the SDK's activity error, which only ends up in the reason of
    a failed payment. *)
Variable activity_error : error -> string.

(** [if err := exec(name); err != nil { refund; fail; return err }] *)
Definition workflow_step (recordedWithdraw : bool) (inp : TransferWorkflowInput)
    (act : M DB unit) (reason : string) : M DB unit :=
  let! r := tryM (ExecuteActivity act) in
  match r with
  | Ok _ => retM tt
  | Err err =>
      (if recordedWithdraw then let! _ := tryM (ExecuteActivity (Activity_Refund inp)) in retM tt
       else retM tt) ;;;
      let! _ := tryM (ExecuteActivity
                  (Activity_FailPayment (ti_PaymentID inp) (reason +:+ ": " +:+ activity_error err))) in
      failM err
  end.

Definition TransferWorkflow (inp : TransferWorkflowInput) : M DB unit :=
  workflow_step false inp (Activity_Withdraw inp) "withdrawal failed" ;;;
  workflow_step true inp (Activity_LedgerPostWithdraw inp) "ledger withdrawal entry failed" ;;;
  workflow_step true inp (Activity_Deposit inp) "deposit failed" ;;;
  workflow_step true inp (Activity_LedgerPostDeposit inp) "ledger deposit entry failed" ;;;
  workflow_step true inp (Activity_AuthorizePayment inp) "authorize failed" ;;;
  workflow_step true inp (Activity_SettlePayment inp) "settle failed".
End workflow.
