(* ===== verification/Authz.v ===== *)
(** * Authorization of gRPC calls ([src/pkg/security/middleware/grpc.go])

    The interceptor the ledger, account and payment services install.
    [VerifyToken] is the token maker of the service, [spiffe] the SPIFFE
    library's parser. *)
From S2P Require Import Prelude GoStrings.
From Stdlib Require Import Ascii String.
#[local] Open Scope Z_scope.
#[local] Open Scope go_scope.

(** ** Metadata

    Keys are in lower case; [md.Get] lowers the key it is given. *)
Definition metadata : Type := gmap string (list string).
Definition md_Get (md : metadata) (k : string) : list string := default [] (md !! ToLower k).

Fixpoint firstMDValue (md : metadata) (keys : list string) : string :=
  match keys with
  | [] => ""
  | k :: keys' => match md_Get md k with v :: _ => v | [] => firstMDValue md keys' end
  end.

Definition splitCSV (v : string) : list string :=
  let v := TrimSpace v in
  if is_empty v then []
  else List.filter (fun p => negb (is_empty p)) (map TrimSpace (Split ","%char v)).

(** ** Payloads *)
Record TokenPayload : Type := mkTokenPayload {
  tp_UserID : string;
  tp_Roles : list string;
  tp_Permissions : list string;
  tp_LSN : Z;
  tp_IssuedAt : Z;
  tp_ExpiredAt : Z;
}.

(** The TLS peer: the URIs of the leaf certificate, a nil URI as [None]; no
    peer certificate at all as [None]. *)
Definition peer : Type := option (list (option string)).

Section authz.
Variable spiffe : string -> option string.
Variable VerifyToken : string -> result TokenPayload.
Variable GATEWAY_SPIFFE_ID : string.

Definition gatewaySpiffeIDFromEnv : string :=
  let v := TrimSpace GATEWAY_SPIFFE_ID in
  if is_empty v then "spiffe://fincore.local/ns/default/sa/api-gateway" else v.

Fixpoint spiffeIDFromLeafCert (uris : list (option string)) : option string :=
  match uris with
  | [] => None
  | None :: uris' => spiffeIDFromLeafCert uris'
  | Some uri :: uris' =>
      match spiffe uri with Some id => Some id | None => spiffeIDFromLeafCert uris' end
  end.

Definition peerSpiffeIDFromContext (p : peer) : option string :=
  match p with None => None | Some uris => spiffeIDFromLeafCert uris end.

Definition payloadFromGatewayHeaders (md : metadata) (p : peer) : option TokenPayload :=
  let subject := TrimSpace (firstMDValue md ["x-fincore-subject"; "X-Fincore-Subject"]) in
  if is_empty subject then None
  else
    match peerSpiffeIDFromContext p, spiffe gatewaySpiffeIDFromEnv with
    | Some peerID, Some allowed =>
        if bool_decide (peerID = allowed) then
          let roles := splitCSV (firstMDValue md ["x-fincore-roles"; "X-Fincore-Roles"]) in
          let perms := splitCSV (firstMDValue md ["x-fincore-permissions"; "X-Fincore-Permissions"]) in
          let lsnStr := firstMDValue md ["x-fincore-lsn"; "X-Fincore-LSN"] in
          Some (mkTokenPayload subject roles perms (default 0 (ParseUint64 lsnStr)) 0 0)
        else None
    | _, _ => None
    end.

Definition Unauthenticated (msg : string) : error := EStatus "Unauthenticated" msg.
Definition PermissionDenied (msg : string) : error := EStatus "PermissionDenied" msg.

(** [strings.TrimPrefix(v, "Bearer ")] after [HasPrefix] *)
Definition bearer_token (v : string) : option string :=
  match prefix_tail "Bearer " v with
  | Some rest => let tok := TrimSpace rest in if is_empty tok then None else Some tok
  | None => None
  end.

(** The payload the call is made with. *)
Definition call_payload (md : metadata) (p : peer) : result TokenPayload :=
  match md_Get md "authorization" with
  | [] =>
      match payloadFromGatewayHeaders md p with
      | Some payload => Ok payload
      | None => Err (Unauthenticated "missing authorization")
      end
  | v :: _ =>
      match bearer_token (TrimSpace v) with
      | None => Err (Unauthenticated "invalid authorization")
      | Some tok =>
          match VerifyToken tok with
          | Ok payload => Ok payload
          | Err _ => Err (Unauthenticated "invalid token")
          end
      end
  end.

(** [suffixToRequiredPerm] in the order the map is ranged over. *)
Fixpoint required_perm (perms : list (string * string)) (fullMethod : string) : option string :=
  match perms with
  | [] => None
  | (suffix, perm) :: perms' =>
      if HasSuffix fullMethod suffix then Some perm else required_perm perms' fullMethod
  end.

(** [md] is [None] when the context carries no metadata; the handler gets the
    log sequence number of the payload, 0 for none. *)
Definition UnaryAuthzInterceptor {DB A} (perms : list (string * string)) (fullMethod : string)
    (md : option metadata) (p : peer) (handler : Z -> M DB A) : M DB A :=
  match required_perm perms fullMethod with
  | None => handler 0
  | Some requiredPerm =>
      match md with
      | None => failM (Unauthenticated "missing auth metadata")
      | Some md =>
          let! payload := liftR (call_payload md p) in
          fail_if (negb (is_empty requiredPerm) &&
                   negb (existsb (fun p => bool_decide (p = requiredPerm)) (tp_Permissions payload)))
            (PermissionDenied "forbidden") ;;;
          handler (tp_LSN payload)
      end
  end.
End authz.

(** ** Properties *)
Section properties.
Variable spiffe : string -> option string.
Variable VerifyToken : string -> result TokenPayload.
Variable gateway : string.

(** The gateway is the TLS peer. *)
Definition from_gateway (p : peer) : Prop :=
  exists id, peerSpiffeIDFromContext spiffe p = Some id /\ spiffe (gatewaySpiffeIDFromEnv gateway) = Some id.

(** Where the payload of a call comes from: a bearer token that verifies, or
    the headers of the gateway. *)
Definition authenticated (md : metadata) (p : peer) (payload : TokenPayload) : Prop :=
  (exists v vs tok, md_Get md "authorization" = v :: vs /\ bearer_token (TrimSpace v) = Some tok /\
     VerifyToken tok = Ok payload) \/
  (md_Get md "authorization" = [] /\ from_gateway p /\ payloadFromGatewayHeaders spiffe gateway md p = Some payload).

Lemma gateway_headers_peer md p payload :
  payloadFromGatewayHeaders spiffe gateway md p = Some payload -> from_gateway p.
Proof.
  unfold payloadFromGatewayHeaders, from_gateway. destruct (is_empty _); [done|].
  destruct (peerSpiffeIDFromContext spiffe p) as [id|]; [|done].
  destruct (spiffe (gatewaySpiffeIDFromEnv gateway)) as [gw|]; [|done]. case_bool_decide; [|done].
  intros _. subst. eauto.
Qed.

Lemma call_payload_ok md p payload :
  call_payload spiffe VerifyToken gateway md p = Ok payload -> authenticated md p payload.
Proof.
  unfold call_payload, authenticated. destruct (md_Get md "authorization") as [|v vs].
  - destruct (payloadFromGatewayHeaders spiffe gateway md p) as [pl|] eqn:Hp; [|done].
    intros [= ->]. right. split_and!; [done|by eapply gateway_headers_peer|done].
  - destruct (bearer_token (TrimSpace v)) as [tok|] eqn:Ht; [|done].
    destruct (VerifyToken tok) as [pl|] eqn:Hv; [|done]. intros [= ->]. left. by exists v, vs, tok.
Qed.

Lemma call_payload_err md p e :
  call_payload spiffe VerifyToken gateway md p = Err e -> exists msg, e = Unauthenticated msg.
Proof.
  unfold call_payload. destruct (md_Get md "authorization").
  - destruct (payloadFromGatewayHeaders _ _ _ _); intros; simplify_eq; eauto.
  - destruct (bearer_token _); [destruct (VerifyToken _)|]; intros; simplify_eq; eauto.
Qed.

(** The interceptor guards every protected method: the handler of a
    method with a required permission runs only for a caller that
    authenticated (a bearer token that verifies, or identity headers when the
    peer certificate is the gateway's own) and holds that permission; every
    other call is answered with an Unauthenticated or PermissionDenied
    status and does not touch the world. *)
Theorem interceptor_guards {DB A} perms method perm md p (handler : Z -> M DB A) w :
  required_perm perms method = Some perm -> perm <> "" ->
  let call := UnaryAuthzInterceptor spiffe VerifyToken gateway perms method md p handler in
  (exists md' payload, md = Some md' /\ authenticated md' p payload /\ perm ∈ tp_Permissions payload /\
     call w = handler (tp_LSN payload) w) \/
  (exists code msg, code ∈ ["Unauthenticated"; "PermissionDenied"] /\ call w = (Err (EStatus code msg), w)).
Proof.
  intros Hperm Hne. unfold UnaryAuthzInterceptor. rewrite Hperm.
  destruct md as [md|]; [|right; do 2 eexists; split; [|done]; set_solver].
  unfold bindM, liftR. destruct (call_payload spiffe VerifyToken gateway md p) as [payload|e] eqn:Hc.
  - apply call_payload_ok in Hc. apply is_empty_false in Hne. rewrite Hne. simpl.
    destruct (existsb _ _) eqn:He; simpl.
    + left. exists md, payload. split_and!; [done|done| |done].
      apply existsb_true_list in He as (x & Hx & Heq). apply bool_decide_eq_true in Heq. by subst.
    + right. do 2 eexists. split; [|done]. set_solver.
  - apply call_payload_err in Hc as [msg ->]. right. do 2 eexists. split; [|done]. set_solver.
Qed.

(** Identity headers cannot be forged: without a bearer token, a caller
    whose certificate is not the gateway's is refused whatever headers it
    sends. *)
Theorem forged_headers_refused {DB A} perms method perm md p (handler : Z -> M DB A) w :
  required_perm perms method = Some perm -> md_Get md "authorization" = [] -> ~ from_gateway p ->
  UnaryAuthzInterceptor spiffe VerifyToken gateway perms method (Some md) p handler w =
    (Err (Unauthenticated "missing authorization"), w).
Proof.
  intros Hperm Hmd Hp. unfold UnaryAuthzInterceptor, call_payload. rewrite Hperm, Hmd.
  destruct (payloadFromGatewayHeaders spiffe gateway md p) eqn:Hg; [|done].
  by apply gateway_headers_peer in Hg.
Qed.
End properties.
