(* ===== verification/Tokens.v ===== *)
(** * Access tokens and keys ([src/pkg/security])

    [token.go] (the interface, the Ed25519 token maker), [ed25519_jwt.go],
    [ed25519_keys.go] and [jwks.go] (keys published by the auth service and
    cached by the gateway). The JWT library is a parameter. *)
From S2P Require Import Prelude GoStrings Json Base64 Passwords Authz.
From Stdlib Require Import Ascii String.
#[local] Open Scope Z_scope.
#[local] Open Scope go_scope.

Definition ErrInvalidToken : error := ENew "invalid token".
Definition ErrExpiredToken : error := ENew "expired token".

(** ** The interface of [token.go] *)
Class TokenMaker (DB : Type) := {
  CreateToken : TokenPayload -> M DB string;
  VerifyToken : string -> M DB TokenPayload;
}.

(** ** The JWT library ([github.com/golang-jwt/jwt/v5])

    [jwt_ParseUnverified] reads the algorithm and the key identifier off a
    token ([None]: malformed; the key identifier is empty when the header has
    none), [jwt_Verify] checks the signature under a public key and the
    claims at an instant. [ParseWithClaims] asks the key function in between.
    [Refused true] is an error that [errors.Is] takes for
    [jwt.ErrTokenExpired]. *)
Record jwtClaims : Type := mkClaims {
  jc_Roles : list string;
  jc_Permissions : list string;
  jc_LSN : Z;
  jc_Subject : string;
  jc_IssuedAt : option Z;
  jc_ExpiresAt : option Z;
}.

Inductive jwt_result : Type :=
| Parsed (claims : jwtClaims)
| Refused (expired : bool).

Definition EdDSA : string := "EdDSA".

Class Jwt := {
  jwt_SignedString : string -> jwtClaims -> string -> result string;
  jwt_ParseUnverified : string -> option (string * string);
  jwt_Verify : Z -> string -> string -> jwt_result;
}.

Definition PrivateKeySize : nat := 64.
Definition PublicKeySize : nat := 32.
(** [ed25519.PrivateKey.Public]: the second half of the private key *)
Definition ed25519_Public (priv : string) : string := String.substring 32 32 priv.

Definition claims_live (now : Z) (c : jwtClaims) : bool :=
  match jc_ExpiresAt c with Some exp => now <? exp | None => true end.

(** What the documentation promises of a token this library signed with an
    Ed25519 key: its header says so, and it verifies under the public half of
    the key and no other, as long as it has not expired. The laws
    idealise the library where it promises nothing: for a key whose two halves
    do not belong together (as those of [ed25519.GenerateKey] do) and for
    claims with texts that are not valid UTF-8, which JSON does not keep. *)
Class JwtOk `{Jwt} : Prop := {
  jwt_sign : forall kid c priv, String.length priv = PrivateKeySize ->
    exists tok, jwt_SignedString kid c priv = Ok tok /\ tok <> "" /\ TrimSpace tok = tok;
  jwt_header : forall kid c priv tok, jwt_SignedString kid c priv = Ok tok ->
    jwt_ParseUnverified tok = Some (EdDSA, kid);
  jwt_verify : forall kid c priv tok pub now, jwt_SignedString kid c priv = Ok tok ->
    jwt_Verify now tok pub =
      if bool_decide (pub = ed25519_Public priv)
      then if claims_live now c then Parsed c else Refused true
      else Refused false;
}.

Section tokens.
Context `{Env, Jwt} {DB : Type}.

(** ** [ed25519_jwt.go] *)
Definition verifyEd25519JWT (tokenStr : string) (lookup : string -> M DB string) : M DB TokenPayload :=
  match jwt_ParseUnverified tokenStr with
  | None => failM ErrInvalidToken
  | Some (alg, kid) =>
      if negb (bool_decide (alg = EdDSA)) then failM ErrInvalidToken
      else
        let! key := tryM (lookup kid) in
        match key with
        | Err _ => failM ErrInvalidToken
        | Ok pub =>
            let! now := time_Now in
            match jwt_Verify now tokenStr pub with
            | Refused true => failM ErrExpiredToken
            | Refused false => failM ErrInvalidToken
            | Parsed claims =>
                if is_empty (jc_Subject claims) then failM ErrInvalidToken
                else match jc_IssuedAt claims, jc_ExpiresAt claims with
                     | Some iat, Some exp =>
                         retM (mkTokenPayload (jc_Subject claims) (jc_Roles claims) (jc_Permissions claims)
                                 (jc_LSN claims) iat exp)
                     | _, _ => failM ErrInvalidToken
                     end
            end
        end
  end.

(** ** [token.go] *)
Record Ed25519JWTMaker : Type := mkMaker {
  mk_kid : string;
  mk_priv : string;
}.

Definition NewEd25519JWTMaker (kid priv : string) : result Ed25519JWTMaker :=
  if is_empty kid then Err (ENew "kid required")
  else if negb (String.length priv =? PrivateKeySize)%nat then Err (ENew "invalid ed25519 private key")
  else Ok (mkMaker kid priv).

(** [jwt.NewNumericDate] keeps whole seconds. *)
Definition NewNumericDate (t : Z) : Z := t / 1000000000 * 1000000000.

Definition maker_claims (p : TokenPayload) : jwtClaims :=
  mkClaims (tp_Roles p) (tp_Permissions p) (tp_LSN p) (tp_UserID p)
    (Some (NewNumericDate (tp_IssuedAt p))) (Some (NewNumericDate (tp_ExpiredAt p))).

Definition maker_CreateToken (maker : Ed25519JWTMaker) (p : TokenPayload) : M DB string :=
  liftR (jwt_SignedString (mk_kid maker) (maker_claims p) (mk_priv maker)).

Definition maker_VerifyToken (maker : Ed25519JWTMaker) (tokenStr : string) : M DB TokenPayload :=
  let pub := ed25519_Public (mk_priv maker) in
  verifyEd25519JWT tokenStr (fun kid =>
    if negb (bool_decide (kid = mk_kid maker)) then failM ErrInvalidToken else retM pub).

Definition maker_TokenMaker (maker : Ed25519JWTMaker) : TokenMaker DB :=
  {| CreateToken := maker_CreateToken maker; VerifyToken := maker_VerifyToken maker |}.
End tokens.

(** ** [ed25519_keys.go] *)
Definition ParseEd25519PrivateKeyBase64URL (s : string) : result string :=
  if is_empty s then Err (ENew "ed25519 private key required")
  else match decodeB64URL s with
       | None => Err (ENew "illegal base64 data")
       | Some b =>
           if negb (String.length b =? PrivateKeySize)%nat then Err (ENew "invalid ed25519 private key")
           else Ok b
       end.

Record JWK : Type := mkJWK {
  jwk_Kty : string;
  jwk_Crv : string;
  jwk_Kid : string;
  jwk_Use : string;
  jwk_Alg : string;
  jwk_X : string;
}.
Definition JWKS : Type := list JWK.

Definition Ed25519PublicJWK (kid pub : string) : result JWK :=
  if is_empty kid then Err (ENew "kid required")
  else if negb (String.length pub =? PublicKeySize)%nat then Err (ENew "invalid ed25519 public key")
  else Ok (mkJWK "OKP" "Ed25519" kid "sig" "EdDSA" (encodeB64URL pub)).

(** ** [jwks.go]: the JSON of a key set *)
Definition omitempty (k v : string) : list (string * json) := if is_empty v then [] else [(k, JStr v)].

Definition JWK_Marshal (k : JWK) : json :=
  JObj (("kty", JStr (jwk_Kty k)) :: omitempty "crv" (jwk_Crv k) ++ omitempty "kid" (jwk_Kid k) ++
        omitempty "use" (jwk_Use k) ++ omitempty "alg" (jwk_Alg k) ++ omitempty "x" (jwk_X k)).

Definition JWK_Unmarshal (j : json) : result JWK :=
  let? fs := json_members (BJson j) in
  let? kty := json_string (json_member "kty" fs) in
  let? crv := json_string (json_member "crv" fs) in
  let? kid := json_string (json_member "kid" fs) in
  let? use := json_string (json_member "use" fs) in
  let? alg := json_string (json_member "alg" fs) in
  let? x := json_string (json_member "x" fs) in
  Ok (mkJWK kty crv kid use alg x).

Fixpoint JWK_list (l : list json) : result (list JWK) :=
  match l with
  | [] => Ok []
  | j :: l' => let? k := JWK_Unmarshal j in let? ks := JWK_list l' in Ok (k :: ks)
  end.

#[export] Instance JWKS_Json : Json JWKS := {|
  Marshal ks := JObj [("keys", JArr (map JWK_Marshal ks))];
  Unmarshal b :=
    let? fs := json_members b in
    match json_member "keys" fs with
    | None | Some JNull => Ok []
    | Some (JArr l) => JWK_list l
    | Some _ => Err json_type_error
    end;
|}.

(** ** [jwks.go]: the verifier

    The keys fetched last and when, in memory. The endpoint answers each
    request with a status and a body, or not at all. *)
Record JWKSVerifier : Type := mkVerifier {
  jv_url : string;
  jv_cacheTTL : Z;
  jv_cached : JWKS;
  jv_cachedAt : Z;
  jv_cachedKeys : option (gmap string string);
}.

Inductive http_answer : Type :=
| NoAnswer
| Answer (status : Z) (body : bytes).

(** What the endpoint would answer at the [k]-th instant read. *)
Class JwksEndpoint := { jwks_Get : nat -> http_answer }.

Definition NewJWKSVerifier (jwksURL : string) (cacheTTL : Z) : result JWKSVerifier :=
  if is_empty jwksURL then Err (ENew "jwks url required")
  else Ok (mkVerifier jwksURL (if cacheTTL <=? 0 then 300000000000 else cacheTTL) [] 0 None).

(** The usable keys of a set, a later key replacing an earlier one of the
    same identifier. *)
Definition usable_key (k : JWK) : option (string * string) :=
  if negb (bool_decide (jwk_Kty k = "OKP")) || negb (bool_decide (jwk_Crv k = "Ed25519")) ||
     is_empty (jwk_Kid k) || is_empty (jwk_X k) then None
  else match decodeB64URL (jwk_X k) with
       | None => None
       | Some pub => if negb (String.length pub =? PublicKeySize)%nat then None else Some (jwk_Kid k, pub)
       end.

Definition usable_keys (ks : JWKS) : gmap string string :=
  foldl (fun keys k => match usable_key k with Some (kid, pub) => <[kid := pub]> keys | None => keys end) ∅ ks.

Section jwks.
Context `{Env, Jwt, JwksEndpoint} {DB : Type} `{Lens DB JWKSVerifier}.

Definition get_verifier : M DB JWKSVerifier := fun w => (Ok (view (w_db w)), w).
Definition put_verifier (v : JWKSVerifier) : M DB unit := fun w => (Ok tt, set_db (upd v (w_db w)) w).
Definition http_Get : M DB http_answer := fun w => (Ok (jwks_Get (w_tick w)), w).

Definition fresh (v : JWKSVerifier) (now : Z) : bool :=
  match jv_cachedKeys v with Some _ => now - jv_cachedAt v <? jv_cacheTTL v | None => false end.

Definition jwks_refresh : M DB unit :=
  let! v := get_verifier in
  let! now := time_Now in
  if fresh v now then retM tt
  else
    let! resp := http_Get in
    match resp with
    | NoAnswer => failM ENet
    | Answer status body =>
        fail_if (negb (status =? 200)) (ENew "jwks fetch failed") ;;;
        let! jwks := liftR (Unmarshal body) in
        let keys := usable_keys jwks in
        fail_if (bool_decide (keys = ∅)) (ENew "jwks contains no usable keys") ;;;
        let! now := time_Now in
        put_verifier (mkVerifier (jv_url v) (jv_cacheTTL v) jwks now (Some keys))
    end.

Definition getCachedKey (kid : string) : M DB (option string) :=
  let! v := get_verifier in
  retM (jv_cachedKeys v ≫= lookup kid).

Definition lookupKey (kid : string) : M DB string :=
  fail_if (is_empty kid) ErrInvalidToken ;;;
  let! v := get_verifier in
  let! now := time_Now in
  let! refreshed := (if fresh v now then retM (Ok tt) else tryM jwks_refresh) in
  let! cached := getCachedKey kid in
  match refreshed, cached with
  | _, Some key => retM key
  | Err err, None => failM err
  | Ok _, None => failM ErrInvalidToken
  end.

Definition jwks_CreateToken (_ : TokenPayload) : M DB string := failM (ENew "CreateToken not supported").
Definition jwks_VerifyToken (token : string) : M DB TokenPayload := verifyEd25519JWT token lookupKey.

#[export] Instance jwks_TokenMaker : TokenMaker DB :=
  {| CreateToken := jwks_CreateToken; VerifyToken := jwks_VerifyToken |}.
End jwks.

(** * Proofs *)

(** ** Key sets survive their JSON *)
Lemma JWK_Unmarshal_Marshal k : JWK_Unmarshal (JWK_Marshal k) = Ok k.
Proof.
  destruct k as [kty crv kid use alg x]. unfold JWK_Unmarshal, JWK_Marshal, omitempty. simpl.
  destruct (is_empty crv) eqn:E1, (is_empty kid) eqn:E2, (is_empty use) eqn:E3, (is_empty alg) eqn:E4,
    (is_empty x) eqn:E5; simpl; rewrite ?is_empty_true in *; by subst.
Qed.

#[export] Instance JWKS_roundtrip : JsonRoundTrip JWKS (fun _ => True).
Proof.
  split. intros ks _. unfold Unmarshal, Marshal. simpl.
  induction ks as [|k ks IH]; simpl; [done|]. by rewrite JWK_Unmarshal_Marshal, IH.
Qed.

(** The key a maker publishes is the one the verifier reads. *)
Lemma usable_published kid pub k : Ed25519PublicJWK kid pub = Ok k -> usable_key k = Some (kid, pub).
Proof.
  unfold Ed25519PublicJWK. destruct (is_empty kid) eqn:Hk; [done|].
  destruct (String.length pub =? PublicKeySize)%nat eqn:Hl; [|done]. simpl. intros [= <-].
  unfold usable_key, decodeB64URL, encodeB64URL. simpl. rewrite Hk. simpl.
  rewrite raw_Decode_Encode by apply URLEncoding_usable. rewrite Hl. simpl.
  destruct (is_empty (raw_EncodeToString URLEncoding pub)) eqn:He; [|done].
  apply is_empty_true in He. pose proof (raw_Decode_Encode _ pub URLEncoding_usable) as Hd.
  rewrite He in Hd. by injection Hd as <-.
Qed.

Lemma usable_keys_snoc ks k :
  usable_keys (ks ++ [k]) =
  match usable_key k with Some (kid, pub) => <[kid := pub]> (usable_keys ks) | None => usable_keys ks end.
Proof. unfold usable_keys. by rewrite foldl_app. Qed.

(** Whatever the endpoint sends, a cached key has a name and the size of an
    Ed25519 key. *)
Lemma usable_keys_wf ks kid pub :
  usable_keys ks !! kid = Some pub -> kid <> "" /\ String.length pub = PublicKeySize.
Proof.
  induction ks as [|k ks IH] using rev_ind; [done|]. rewrite usable_keys_snoc.
  destruct (usable_key k) as [[kid' pub']|] eqn:Hk; [|done].
  rewrite lookup_insert_Some. intros [[<- <-]|[_ ?]]; [|by apply IH].
  unfold usable_key in Hk. destruct (_ || _) eqn:Ho; [done|].
  destruct (decodeB64URL _) as [b|]; [|done].
  destruct (String.length b =? PublicKeySize)%nat eqn:Hl; [|done]. simpl in Hk. simplify_eq.
  apply Nat.eqb_eq in Hl. split; [|done]. rewrite !orb_false_iff in Ho.
  apply is_empty_false. tauto.
Qed.

Definition payload_seconds (p : TokenPayload) : TokenPayload :=
  mkTokenPayload (tp_UserID p) (tp_Roles p) (tp_Permissions p) (tp_LSN p)
    (NewNumericDate (tp_IssuedAt p)) (NewNumericDate (tp_ExpiredAt p)).

(** What a token of payload [p] is worth at instant [now]: its payload, to
    the second, until it expires. *)
Definition token_value (p : TokenPayload) (now : Z) : result TokenPayload :=
  if is_empty (tp_UserID p)
  then Err (if now <? NewNumericDate (tp_ExpiredAt p) then ErrInvalidToken else ErrExpiredToken)
  else if now <? NewNumericDate (tp_ExpiredAt p) then Ok (payload_seconds p) else Err ErrExpiredToken.

Section properties.
Context `{Env, Jwt, !JwtOk} {DB : Type}.
Implicit Types w : World DB.

(** Verification of a signed token, by what the key lookup says. *)
Lemma verify_signed maker p tok (lookup : string -> M DB string) w r w1 :
  jwt_SignedString (mk_kid maker) (maker_claims p) (mk_priv maker) = Ok tok ->
  lookup (mk_kid maker) w = (r, w1) ->
  (verifyEd25519JWT tok lookup w).1 =
  match r with
  | Ok pub => if bool_decide (pub = ed25519_Public (mk_priv maker))
              then token_value p (clock_Now (w_tick w1)) else Err ErrInvalidToken
  | Err _ => Err ErrInvalidToken
  end.
Proof.
  intros Hs Hl. unfold verifyEd25519JWT, bindM, tryM. rewrite (jwt_header _ _ _ _ Hs). simpl. rewrite Hl.
  destruct r as [pub|e]; [|done]. unfold time_Now. simpl. rewrite (jwt_verify _ _ _ _ _ _ Hs).
  case_bool_decide; [|done]. unfold claims_live, token_value. simpl.
  destruct (clock_Now (w_tick w1) <? _); simpl; by destruct (is_empty (tp_UserID p)).
Qed.

End properties.

Section jwks_properties.
Context `{Env, Jwt, !JwtOk, JwksEndpoint} {DB : Type} `{Lens DB JWKSVerifier, !LensOk DB JWKSVerifier}.
Implicit Types w : World DB.

(** The keys a lookup decides on: the cached ones while they are fresh, else
    those the endpoint answers with, else the cached ones as a last
    resort. *)
Definition answered_keys (a : http_answer) : option (gmap string string) :=
  match a with
  | Answer status body =>
      if status =? 200 then
        match Unmarshal body with
        | Ok ks => if bool_decide (usable_keys ks = ∅) then None else Some (usable_keys ks)
        | Err _ => None
        end
      else None
  | NoAnswer => None
  end.

Definition effective_keys (v : JWKSVerifier) (t : nat) : option (gmap string string) :=
  if fresh v (clock_Now t) || fresh v (clock_Now (S t)) then jv_cachedKeys v
  else match answered_keys (jwks_Get (S (S t))) with
       | Some keys => Some keys
       | None => jv_cachedKeys v
       end.

Lemma refresh_spec w :
  exists r w', jwks_refresh w = (r, w') /\ (w_tick w <= w_tick w')%nat /\ w_faults w' = w_faults w /\
    jv_cachedKeys (view (w_db w')) =
      (if fresh (view (w_db w)) (clock_Now (w_tick w)) then jv_cachedKeys (view (w_db w))
       else match answered_keys (jwks_Get (S (w_tick w))) with
            | Some keys => Some keys
            | None => jv_cachedKeys (view (w_db w))
            end).
Proof.
  unfold jwks_refresh, bindM, get_verifier, time_Now, http_Get, answered_keys, fail_if, retM, failM, put_verifier.
  simpl. destruct (fresh _ _); [by eexists _, _; split_and!; [done|simpl; lia|..]|]. simpl.
  destruct (jwks_Get (S (w_tick w))) as [|status body]; [by eexists _, _; split_and!; [done|simpl; lia|..]|].
  destruct (status =? 200); simpl; [|by eexists _, _; split_and!; [done|simpl; lia|..]].
  unfold liftR. destruct (Unmarshal body) as [ks|e]; [|by eexists _, _; split_and!; [done|simpl; lia|..]].
  case_bool_decide; [by eexists _, _; split_and!; [done|simpl; lia|..]|].
  eexists _, _. split_and!; [done|simpl; lia|done|]. simpl. by rewrite view_upd.
Qed.

Lemma lookupKey_spec kid w :
  kid <> "" ->
  exists r w', lookupKey kid w = (r, w') /\ (w_tick w <= w_tick w')%nat /\
    jv_cachedKeys (view (w_db w')) = effective_keys (view (w_db w)) (w_tick w) /\
    match effective_keys (view (w_db w)) (w_tick w) ≫= lookup kid with
    | Some key => r = Ok key
    | None => exists e, r = Err e
    end.
Proof.
  intros Hk. apply is_empty_false in Hk. unfold lookupKey, effective_keys, bindM, fail_if. rewrite Hk.
  unfold get_verifier at 1, time_Now. simpl.
  destruct (fresh (view (w_db w)) (clock_Now (w_tick w))); simpl.
  { unfold getCachedKey, bindM, get_verifier, retM. simpl.
    destruct (jv_cachedKeys (view (w_db w)) ≫= lookup kid) as [key|];
      eexists _, _; split_and!; try done; simpl; try lia; eauto. }
  unfold tryM.
  match goal with |- context [jwks_refresh ?w1] => destruct (refresh_spec w1) as (r & w' & Hr & Ht & _ & Hc) end.
  rewrite Hr. simpl in *. rewrite <-Hc.
  unfold getCachedKey, bindM, get_verifier, retM. simpl.
  destruct (jv_cachedKeys (view (w_db w')) ≫= lookup kid) as [key|], r as [[]|e];
    eexists _, _; split_and!; try done; try lia; eauto.
Qed.

(** Published keys: a verifier accepts a token exactly when the key set it
    decides on (the cached keys while they are fresh, else the keys the
    endpoint answers with, and the cached ones again only if the endpoint
    gives no usable answer) holds, under the token's key identifier, the
    public key the token was signed with. So a token is accepted as soon as
    its key is published and refused once the endpoint stops publishing it;
    while the endpoint is down old keys keep working. *)
Theorem jwks_verifies_published maker p tok w :
  mk_kid maker <> "" -> tp_UserID p <> "" ->
  jwt_SignedString (mk_kid maker) (maker_claims p) (mk_priv maker) = Ok tok ->
  exists t, (w_tick w <= t)%nat /\
  (jwks_VerifyToken tok w).1 =
    if bool_decide (effective_keys (view (w_db w)) (w_tick w) ≫= lookup (mk_kid maker) =
                    Some (ed25519_Public (mk_priv maker)))
    then if clock_Now t <? NewNumericDate (tp_ExpiredAt p)
         then Ok (payload_seconds p) else Err ErrExpiredToken
    else Err ErrInvalidToken.
Proof.
  intros Hk Hu Hs. destruct (lookupKey_spec (mk_kid maker) w Hk) as (r & w' & Hl & Ht & _ & Hr).
  exists (w_tick w'). split; [done|]. unfold jwks_VerifyToken.
  rewrite (verify_signed maker p tok lookupKey w r w' Hs Hl). unfold token_value.
  apply is_empty_false in Hu. rewrite Hu.
  destruct (effective_keys _ _ ≫= _) as [key|] eqn:He.
  - subst r. do 2 case_bool_decide; try done; congruence.
  - destruct Hr as [e ->]. by rewrite bool_decide_false.
Qed.
End jwks_properties.
