(* ===== verification/LoginLimiter.v ===== *)
(** * The login limiter
    ([src/services/auth-service/infrastructure/grpc/login_limiter.go])

    Failed logins per key (email and client address) in a sliding window, and
    a lockout. The operations hold the limiter's mutex, so each is one step;
    a login is two steps, [allow] before the password check and [onFailure] or
    [onSuccess] after it, and steps of different logins interleave. *)
From S2P Require Import Prelude.
#[local] Open Scope Z_scope.

Record loginState : Type := mkLoginState {
  ls_fails : list Z;
  ls_lockedUntil : Z;
  ls_lastSeenTime : Z;
}.

Record loginLimiter : Type := mkLoginLimiter {
  ll_maxAttempts : Z;
  ll_window : Z;
  ll_lockout : Z;
  ll_states : gmap string loginState;
}.

Definition newLoginLimiter (maxAttempts window lockout : Z) : loginLimiter :=
  mkLoginLimiter (if maxAttempts <=? 0 then 5 else maxAttempts)
    (if window <=? 0 then 300000000000 else window)
    (if lockout <? 0 then 0 else lockout) ∅.

Definition state_of (l : loginLimiter) (key : string) : loginState :=
  default (mkLoginState [] 0 0) (ll_states l !! key).

Definition set_state (l : loginLimiter) (key : string) (s : loginState) : loginLimiter :=
  mkLoginLimiter (ll_maxAttempts l) (ll_window l) (ll_lockout l) (<[key := s]> (ll_states l)).

(** [t.After(cutoff)] for the failures kept *)
Definition recent (window now : Z) (fails : list Z) : list Z :=
  List.filter (fun t => now - window <? t) fails.

Definition limiter_allow (l : loginLimiter) (now : Z) (key : string) : bool * Z * loginLimiter :=
  let s := state_of l key in
  if negb (ls_lockedUntil s =? 0) && (now <? ls_lockedUntil s)
  then (false, ls_lockedUntil s, set_state l key (mkLoginState (ls_fails s) (ls_lockedUntil s) now))
  else
    let filtered := recent (ll_window l) now (ls_fails s) in
    if ll_maxAttempts l <=? Z.of_nat (length filtered) then
      if 0 <? ll_lockout l
      then (false, now + ll_lockout l, set_state l key (mkLoginState filtered (now + ll_lockout l) now))
      else (false, 0, set_state l key (mkLoginState filtered (ls_lockedUntil s) now))
    else (true, 0, set_state l key (mkLoginState filtered (ls_lockedUntil s) now)).

Definition limiter_onFailure (l : loginLimiter) (now : Z) (key : string) : loginLimiter :=
  let s := state_of l key in
  let fails := recent (ll_window l) now (ls_fails s) ++ [now] in
  let lockedUntil := if (ll_maxAttempts l <=? Z.of_nat (length fails)) && (0 <? ll_lockout l)
                     then now + ll_lockout l else ls_lockedUntil s in
  set_state l key (mkLoginState fails lockedUntil now).

Definition limiter_onSuccess (l : loginLimiter) (key : string) : loginLimiter :=
  mkLoginLimiter (ll_maxAttempts l) (ll_window l) (ll_lockout l) (delete key (ll_states l)).

(** The tests of [login_limiter_test.go] *)
Definition minute : Z := 60000000000.
Definition second : Z := 1000000000.

Example limiter_test :
  let l := newLoginLimiter 3 (10 * minute) (15 * minute) in
  let now := 63000000000000000000 in
  let l := limiter_onFailure l now "k" in
  let l := limiter_onFailure l (now + second) "k" in
  let l := limiter_onFailure l (now + 2 * second) "k" in
  let '(a1, until, l) := limiter_allow l (now + 3 * second) "k" in
  let '(a2, _, l) := limiter_allow l (until - second) "k" in
  let '(a3, _, l) := limiter_allow l (until + second) "k" in
  (a1, a2, a3) = (false, false, true).
Proof. vm_compute. reflexivity. Qed.

(** * Proofs *)
Section limiter.
Variable key : string.
Variables maxAttempts window lockout : Z.
Hypothesis Hmax : 0 < maxAttempts.
Hypothesis Hwindow : 0 < window.
Hypothesis Hlockout : 0 <= lockout.

(** An attack on one key: a run of the limiter. [fs] are the failed logins
    under the key since the last one that succeeded ([onSuccess] clears what
    the limiter knows of the key, and failures count afresh), [T] the time of
    the last step, [p] the logins between [allow] and their outcome, and [k]
    the most there ever were. A login can also end without an outcome, when
    the database fails. Other keys are used freely. *)
Inductive attack (k : Z) : loginLimiter -> list Z -> Z -> Z -> Prop :=
| attack_start T :
    attack k (mkLoginLimiter maxAttempts window lockout ∅) [] T 0
| attack_admitted l fs T p now until l' :
    attack k l fs T p -> T <= now -> limiter_allow l now key = (true, until, l') -> p + 1 <= k ->
    attack k l' fs now (p + 1)
| attack_refused l fs T p now until l' :
    attack k l fs T p -> T <= now -> limiter_allow l now key = (false, until, l') ->
    attack k l' fs now p
| attack_failed l fs T p now :
    attack k l fs T p -> T <= now -> 0 < p ->
    attack k (limiter_onFailure l now key) (fs ++ [now]) now (p - 1)
| attack_succeeded l fs T p now :
    attack k l fs T p -> T <= now -> 0 < p ->
    attack k (limiter_onSuccess l key) [] now (p - 1)
| attack_dropped l fs T p :
    attack k l fs T p -> 0 < p -> attack k l fs T (p - 1)
| attack_other_allow l fs T p now key' :
    attack k l fs T p -> key' <> key -> attack k (limiter_allow l now key').2 fs T p
| attack_other_failure l fs T p now key' :
    attack k l fs T p -> key' <> key -> attack k (limiter_onFailure l now key') fs T p
| attack_other_success l fs T p key' :
    attack k l fs T p -> key' <> key -> attack k (limiter_onSuccess l key') fs T p.

Lemma allow_settings l now key' :
  let l' := (limiter_allow l now key').2 in
  ll_maxAttempts l' = ll_maxAttempts l /\ ll_window l' = ll_window l /\ ll_lockout l' = ll_lockout l.
Proof. unfold limiter_allow. by repeat case_match. Qed.

Lemma state_of_set l key' s : state_of (set_state l key' s) key' = s.
Proof. unfold state_of. simpl. by rewrite lookup_insert_eq. Qed.
Lemma state_of_set_ne l key' s : key' <> key -> state_of (set_state l key' s) key = state_of l key.
Proof. unfold state_of. simpl. intros. by rewrite lookup_insert_ne. Qed.

Lemma recent_recent now now' fs : now <= now' -> recent window now' (recent window now fs) = recent window now' fs.
Proof. intros Hn. unfold recent. apply filter_list_filter. intros x _. lia. Qed.

Definition above (c : Z) (fs : list Z) : Z := Z.of_nat (length (List.filter (fun f => c <? f) fs)).

Lemma above_mono c c' fs : c <= c' -> above c' fs <= above c fs.
Proof.
  intros Hc. unfold above. induction fs as [|f fs IH]; simpl; [lia|].
  destruct (Z.ltb_spec c' f), (Z.ltb_spec c f); simpl; lia.
Qed.
Lemma above_snoc c fs f : above c (fs ++ [f]) <= above c fs + 1.
Proof.
  unfold above. rewrite filter_list_app, length_app. simpl.
  destruct (c <? f); simpl; lia.
Qed.

(** Failures in the window that ends at [t]. *)
Definition in_window (t : Z) (fs : list Z) : Z :=
  Z.of_nat (length (List.filter (fun f => (t - window <? f) && (f <=? t)) fs)).

Lemma in_window_above t fs : in_window t fs <= above (t - window) fs.
Proof.
  unfold in_window, above. induction fs as [|f fs IH]; simpl; [lia|].
  destruct (t - window <? f), (f <=? t); simpl; lia.
Qed.
Lemma in_window_snoc_late t fs f : t < f -> in_window t (fs ++ [f]) = in_window t fs.
Proof.
  intros Hf. unfold in_window. rewrite filter_list_app. simpl.
  destruct (Z.leb_spec f t); [lia|]. by rewrite andb_false_r, app_nil_r.
Qed.

(** What the limiter knows: the failures of the last window, and a lock that
    does not outlast the last failure by more than window and lockout. *)
Record attacked (k : Z) (l : loginLimiter) (fs : list Z) (T p : Z) : Prop := {
  at_settings : ll_maxAttempts l = maxAttempts /\ ll_window l = window /\ ll_lockout l = lockout;
  at_times : Forall (fun f => f <= T) fs;
  at_fails : forall now, T <= now -> recent window now (ls_fails (state_of l key)) = recent window now fs;
  at_inflight : 0 <= p <= k;
  at_room : forall c, T - window <= c -> above c fs + p <= maxAttempts - 1 + k;
  at_bound : forall t, in_window t fs <= maxAttempts - 1 + k;
  at_lock : ls_lockedUntil (state_of l key) = 0 \/
    exists f, f ∈ fs /\ ls_lockedUntil (state_of l key) <= f + window + lockout;
}.

(** One call of [allow] under the key. *)
Lemma allow_cases l now b until l' :
  ll_maxAttempts l = maxAttempts -> ll_window l = window -> ll_lockout l = lockout ->
  limiter_allow l now key = (b, until, l') ->
  ll_maxAttempts l' = maxAttempts /\ ll_window l' = window /\ ll_lockout l' = lockout /\
  (forall now', now <= now' ->
     recent window now' (ls_fails (state_of l' key)) = recent window now' (ls_fails (state_of l key))) /\
  (b = true -> Z.of_nat (length (recent window now (ls_fails (state_of l key)))) < maxAttempts) /\
  (ls_lockedUntil (state_of l' key) = ls_lockedUntil (state_of l key) \/
   ls_lockedUntil (state_of l' key) = now + lockout /\
   maxAttempts <= Z.of_nat (length (recent window now (ls_fails (state_of l key))))).
Proof.
  intros Hm Hw Hlo. unfold limiter_allow. rewrite Hm, Hw, Hlo.
  destruct (negb _ && _); [|destruct (Z.leb_spec maxAttempts (Z.of_nat (length (recent window now (ls_fails (state_of l key))))));
    [destruct (0 <? lockout)|]]; intros [= <- <- <-]; rewrite ?state_of_set; simpl; split_and!; try done;
    intros; first [by apply recent_recent|by left|right; split; [done|lia]|lia|done].
Qed.

Lemma attacked_other k l l' fs T p :
  ll_maxAttempts l' = ll_maxAttempts l -> ll_window l' = ll_window l -> ll_lockout l' = ll_lockout l ->
  state_of l' key = state_of l key ->
  attacked k l fs T p -> attacked k l' fs T p.
Proof. intros Hm Hw Hlo Hst [? ? ? ? ? ? ?]. split; rewrite ?Hm, ?Hw, ?Hlo, ?Hst; done. Qed.

Lemma times_later (T T' : Z) (fs : list Z) :
  T <= T' -> Forall (fun f => f <= T) fs -> Forall (fun f => f <= T') fs.
Proof. intros HT Hfs. eapply Forall_impl; [exact Hfs|]. simpl. lia. Qed.

Lemma attacked_allow k l fs T p now b until l' :
  attacked k l fs T p -> T <= now -> limiter_allow l now key = (b, until, l') ->
  (b = true -> p + 1 <= k) ->
  attacked k l' fs now (if b then p + 1 else p).
Proof.
  intros [(Hm & Hw & Hlo) Hts Hf Hp Hroom Hb Hlock] HT Hal Hk.
  destruct (allow_cases _ _ _ _ _ Hm Hw Hlo Hal) as (Hm' & Hw' & Hlo' & Hf' & Hlt & Hlk).
  rewrite Hf in Hlt, Hlk by lia. split; try done.
  - by eapply times_later.
  - intros now' Hn. rewrite Hf' by done. apply Hf. lia.
  - destruct b; [specialize (Hk eq_refl)|]; lia.
  - intros c Hc. specialize (Hroom c ltac:(lia)). destruct b; [|done].
    specialize (Hlt eq_refl). specialize (Hk eq_refl).
    pose proof (above_mono (now - window) c fs Hc). unfold above, recent in *. lia.
  - destruct Hlk as [->|[-> Hge]]; [done|right].
    destruct (recent window now fs) as [|f rest] eqn:Hr; [simpl in Hge; lia|].
    assert (f ∈ recent window now fs) as Hin by (rewrite Hr; left).
    unfold recent in Hin. apply elem_of_filter_list in Hin as [Hin Hlt']. exists f. split; [done|lia].
Qed.

Lemma attacked_failure k l fs T p now :
  attacked k l fs T p -> T <= now -> 0 < p ->
  attacked k (limiter_onFailure l now key) (fs ++ [now]) now (p - 1).
Proof.
  intros [(Hm & Hw & Hlo) Hts Hf Hp Hroom Hb Hlock] HT Hp0.
  assert (forall c, now - window <= c -> above c (fs ++ [now]) + (p - 1) <= maxAttempts - 1 + k) as Hroom'.
  { intros c Hc. pose proof (Hroom c ltac:(lia)). pose proof (above_snoc c fs now). lia. }
  unfold limiter_onFailure. rewrite Hm, Hw, Hlo. split; rewrite ?state_of_set; simpl; try done.
  - apply Forall_app. split; [by eapply times_later|]. by constructor.
  - intros now' Hn. unfold recent at 1 3. rewrite !filter_list_app. f_equal.
    change (recent window now' (recent window now (ls_fails (state_of l key))) = recent window now' fs).
    rewrite recent_recent by done. apply Hf. lia.
  - lia.
  - intros t. destruct (Z.le_gt_cases now t) as [Hle|Hgt].
    + pose proof (in_window_above t (fs ++ [now])). pose proof (Hroom' (t - window) ltac:(lia)). lia.
    + by rewrite in_window_snoc_late.
  - destruct (_ && _) eqn:E.
    + right. exists now. split; [set_solver|lia].
    + destruct Hlock as [?|(f & Hf1 & Hf2)]; [by left|]. right. exists f. split; [set_solver|done].
Qed.

Lemma attacked_success k l fs T p now :
  attacked k l fs T p -> 0 < p -> attacked k (limiter_onSuccess l key) [] now (p - 1).
Proof.
  intros [Hset _ _ Hp _ _ _] Hp0.
  assert (state_of (limiter_onSuccess l key) key = mkLoginState [] 0 0) as Hst
    by (unfold state_of; simpl; by rewrite lookup_delete_eq).
  split; rewrite ?Hst; intros; unfold above, in_window; simpl; first [done|lia|by left].
Qed.

Lemma attacked_drop k l fs T p : attacked k l fs T p -> 0 < p -> attacked k l fs T (p - 1).
Proof. intros [? ? ? ? Hroom ? ?] Hp0. split; try done; [lia|]. intros c Hc. specialize (Hroom c Hc). lia. Qed.

Lemma attack_attacked k l fs T p : 0 <= k -> attack k l fs T p -> attacked k l fs T p.
Proof.
  intros Hk. induction 1 as [T|l fs T p now until l' _ IH HT Hal Hp|l fs T p now until l' _ IH HT Hal|
    l fs T p now _ IH HT Hp|l fs T p now _ IH HT Hp|l fs T p _ IH Hp|l fs T p now key' _ IH Hne|l fs T p now key' _ IH Hne|l fs T p key' _ IH Hne].
  - split; intros; unfold above, in_window; simpl; first [done|lia|by left].
  - by eapply (attacked_allow _ _ _ _ _ _ true).
  - by eapply (attacked_allow _ _ _ _ _ _ false).
  - by apply attacked_failure with T.
  - by eapply attacked_success.
  - by apply attacked_drop.
  - destruct (allow_settings l now key') as (? & ? & ?). apply (attacked_other k l); [done..| |exact IH].
    unfold limiter_allow. repeat case_match; by apply state_of_set_ne.
  - apply (attacked_other k l); [done..| |exact IH]. by apply state_of_set_ne.
  - apply (attacked_other k l); [done..| |exact IH]. unfold state_of. simpl. by rewrite lookup_delete_ne.
Qed.

(** C21. Brute force is bounded: however logins under a key interleave, if at
    most [k] of them are between the limiter's check and their outcome at any
    time, no window of time sees, since the last successful login under the
    key, more than [maxAttempts + k - 1] failed logins under it (so at most
    [maxAttempts] when they come one at a time). A success clears the count,
    as in the code, so the bound is on the failures after it. *)
Theorem limiter_bounds_failures k l fs T p t :
  1 <= k -> attack k l fs T p -> in_window t fs <= maxAttempts + k - 1.
Proof. intros Hk Ha%attack_attacked; [|lia]. pose proof (at_bound _ _ _ _ _ Ha t). lia. Qed.

(** The count starts afresh after a success: four failures within one
    window, with a success after the second, are all admitted by a limiter of
    three attempts. *)
Example success_clears :
  let l := newLoginLimiter 3 (10 * minute) (15 * minute) in
  let l := limiter_onFailure (limiter_onFailure l 1 "k") 2 "k" in
  let l := limiter_onFailure (limiter_onFailure (limiter_onSuccess l "k") 3 "k") 4 "k" in
  (limiter_allow l 5 "k").1.1 = true.
Proof. vm_compute. reflexivity. Qed.

(** The limiter lets go: once window and lockout have passed since the
    last failed login under a key, the next login under it is admitted,
    however often the user was refused in between. *)
Theorem limiter_recovers k l fs T p now :
  0 <= k -> attack k l fs T p -> T <= now -> Forall (fun f => f + window + lockout <= now) fs ->
  (limiter_allow l now key).1 = (true, 0).
Proof.
  intros Hk Ha%attack_attacked HT Hfs; [|done]. destruct Ha as [(Hm & Hw & Hlo) _ Hf _ _ _ Hlock].
  rewrite Forall_forall in Hfs. unfold limiter_allow. rewrite Hm, Hw, Hlo, Hf by done.
  destruct (negb _ && _) eqn:E; simpl.
  - destruct Hlock as [Hz|(f & Hin & Hle)]; [rewrite Hz in E; lia|]. specialize (Hfs f Hin). lia.
  - assert (recent window now fs = []) as ->.
    { apply filter_list_none. intros f Hin. specialize (Hfs f Hin). lia. }
    simpl. destruct (Z.leb_spec maxAttempts (Z.of_nat 0)); [lia|done].
Qed.
End limiter.
