(* ===== verification/Auth.v ===== *)
(** * The auth service ([src/services/auth-service])

    [infrastructure/grpc/server.go], [cleanup.go] and the schema of
    [migrations/]. A handler runs on the service's database and on the login
    limiter the server holds in memory; no handler that opens a transaction
    touches the limiter. *)
From S2P Require Import Prelude GoStrings Base64 Sha256 Passwords Authz Tokens LoginLimiter.
From Stdlib Require Import Ascii String.
#[local] Open Scope Z_scope.
#[local] Open Scope go_scope.

(** ** Tables *)
Record AuthUser : Type := mkUser {
  au_id : string;
  au_email : string;
  au_full_name : string;
  au_password_hash : string;
  au_created_at : Z;
}.

Record RefreshSession : Type := mkSession {
  rs_token_hash : string;
  rs_session_id : string;
  rs_user_id : string;
  rs_expires_at : Z;
  rs_absolute_expires_at : Z;
  rs_created_at : Z;
  rs_last_used_at : option Z;
  rs_revoked_at : option Z;
  rs_replaced_by_hash : option string;
  rs_user_agent : option string;
  rs_ip : option string;
}.

(** [oc_secret] exists only in a schema with such a column; the migrations
    make none. *)
Record oauthClientRecord : Type := mkClient {
  oc_id : string;
  oc_name : string;
  oc_type : string;
  oc_secret_hash : option string;
  oc_redirect_uris : list string;
  oc_allowed_scopes : list string;
  oc_created_at : Z;
  oc_secret : option string;
}.

Record AuthorizationCode : Type := mkCode {
  ac_code_hash : string;
  ac_client_id : string;
  ac_user_id : string;
  ac_redirect_uri : string;
  ac_scopes : list string;
  ac_code_challenge : string;
  ac_code_challenge_method : string;
  ac_expires_at : Z;
  ac_consumed_at : option Z;
  ac_created_at : Z;
}.

Record OAuthConsent : Type := mkConsent {
  cn_user_id : string;
  cn_client_id : string;
  cn_scopes : list string;
  cn_created_at : Z;
  cn_updated_at : Z;
}.

Record ConsentHistory : Type := mkConsentHistory {
  ch_id : Z;
  ch_user_id : string;
  ch_client_id : string;
  ch_scopes : list string;
  ch_created_at : Z;
}.

Record AuthDB : Type := mkAuthDB {
  ad_users : list AuthUser;
  ad_roles : list (string * string);
  ad_permissions : list (string * string);
  ad_user_roles : list (string * string);
  ad_role_permissions : list (string * string);
  ad_sessions : list RefreshSession;
  ad_clients : list oauthClientRecord;
  ad_client_columns : list string;
  ad_codes : list AuthorizationCode;
  ad_consents : list OAuthConsent;
  ad_consent_history : list ConsentHistory;
  ad_limiter : option loginLimiter;
}.

(** The columns migration 000008 gives [oauth_clients]. *)
Definition migrated_client_columns : list string :=
  ["id"; "name"; "type"; "secret_hash"; "redirect_uris"; "allowed_scopes"; "created_at"].

(** The rows migrations 000002, 000005 and 000006 insert. *)
Definition migrated_permissions : list (string * string) := [
  ("perm_account_read", "account:read"); ("perm_account_write", "account:write");
  ("perm_ledger_read", "ledger:read"); ("perm_ledger_write", "ledger:write");
  ("perm_auth_admin", "auth:admin")].
Definition migrated_roles : list (string * string) := [("role_customer", "customer"); ("role_admin", "admin")].
Definition migrated_role_permissions : list (string * string) := [
  ("role_customer", "perm_account_read"); ("role_customer", "perm_account_write");
  ("role_customer", "perm_ledger_read"); ("role_customer", "perm_ledger_write");
  ("role_admin", "perm_auth_admin"); ("role_admin", "perm_account_read");
  ("role_admin", "perm_account_write"); ("role_admin", "perm_ledger_read");
  ("role_admin", "perm_ledger_write")].

Definition set_users v (d : AuthDB) : AuthDB :=
  mkAuthDB v (ad_roles d) (ad_permissions d) (ad_user_roles d) (ad_role_permissions d) (ad_sessions d)
    (ad_clients d) (ad_client_columns d) (ad_codes d) (ad_consents d) (ad_consent_history d) (ad_limiter d).
Definition set_user_roles v (d : AuthDB) : AuthDB :=
  mkAuthDB (ad_users d) (ad_roles d) (ad_permissions d) v (ad_role_permissions d) (ad_sessions d)
    (ad_clients d) (ad_client_columns d) (ad_codes d) (ad_consents d) (ad_consent_history d) (ad_limiter d).
Definition set_sessions v (d : AuthDB) : AuthDB :=
  mkAuthDB (ad_users d) (ad_roles d) (ad_permissions d) (ad_user_roles d) (ad_role_permissions d) v
    (ad_clients d) (ad_client_columns d) (ad_codes d) (ad_consents d) (ad_consent_history d) (ad_limiter d).
Definition set_clients v (d : AuthDB) : AuthDB :=
  mkAuthDB (ad_users d) (ad_roles d) (ad_permissions d) (ad_user_roles d) (ad_role_permissions d) (ad_sessions d)
    v (ad_client_columns d) (ad_codes d) (ad_consents d) (ad_consent_history d) (ad_limiter d).
Definition set_codes v (d : AuthDB) : AuthDB :=
  mkAuthDB (ad_users d) (ad_roles d) (ad_permissions d) (ad_user_roles d) (ad_role_permissions d) (ad_sessions d)
    (ad_clients d) (ad_client_columns d) v (ad_consents d) (ad_consent_history d) (ad_limiter d).
Definition set_consents v h (d : AuthDB) : AuthDB :=
  mkAuthDB (ad_users d) (ad_roles d) (ad_permissions d) (ad_user_roles d) (ad_role_permissions d) (ad_sessions d)
    (ad_clients d) (ad_client_columns d) (ad_codes d) v h (ad_limiter d).
Definition set_limiter v (d : AuthDB) : AuthDB :=
  mkAuthDB (ad_users d) (ad_roles d) (ad_permissions d) (ad_user_roles d) (ad_role_permissions d) (ad_sessions d)
    (ad_clients d) (ad_client_columns d) (ad_codes d) (ad_consents d) (ad_consent_history d) v.

(** ** What the handlers use of other packages

    [net/url] and [net/mail] are arbitrary functions here: nothing depends on
    what they accept. [text_leb] is the collation of the database. *)
Record URL : Type := mkURL { u_Scheme : string; u_Host : string; u_Fragment : string; u_text : string }.
Class NetLib := {
  url_Parse : string -> option URL;
  url_with_query : URL -> list (string * string) -> string;
  mail_ParseAddress : string -> bool;
}.
Class Collation := { text_leb : string -> string -> bool }.

Section sort.
Context `{Collation}.
Fixpoint text_insert (x : string) (l : list string) : list string :=
  match l with
  | [] => [x]
  | y :: l' => if text_leb x y then x :: l else y :: text_insert x l'
  end.
Definition text_sort (l : list string) : list string := foldr text_insert [] l.
End sort.

(** [timestamptz] keeps microseconds. *)
Definition pg_time (t : Z) : Z := t / 1000 * 1000.

(** ** Errors *)
Definition invalidArg (msg : string) : error := EStatus "InvalidArgument" msg.
Definition unauth (msg : string) : error := EStatus "Unauthenticated" msg.
Definition forbidden (msg : string) : error := EStatus "PermissionDenied" msg.
Definition notFound (msg : string) : error := EStatus "NotFound" msg.
Definition rateLimited (msg : string) : error := EStatus "ResourceExhausted" msg.
Definition oauthInvalidClient : error := unauth "invalid_client".
Definition oauthInvalidGrant : error := EStatus "InvalidArgument" "invalid_grant".
Definition internal (e : error) : error := EStatus "Internal" (Error e).

(** A handler returns the statuses it raises; every other error it returns as
    [internal(err)]. *)
Definition to_status (e : error) : error :=
  match e with EStatus _ _ | EPanic _ => e | _ => internal e end.
Definition handler {DB A} (m : M DB A) : M DB A := fun w =>
  match m w with
  | (Ok a, w') => (Ok a, w')
  | (Err e, w') => (Err (to_status e), w')
  end.

Definition duplicate_key : error := ESql "duplicate key value violates unique constraint".
Definition foreign_key : error := ESql "insert violates foreign key constraint".
Definition not_null : error := ESql "null value violates not-null constraint".

(** ** Statements *)
Definition has_user (db : AuthDB) (id : string) : bool :=
  existsb (fun u => bool_decide (au_id u = id)) (ad_users db).
Definition has_client (db : AuthDB) (id : string) : bool :=
  existsb (fun c => bool_decide (oc_id c = id)) (ad_clients db).
Definition has_role (db : AuthDB) (id : string) : bool :=
  existsb (fun r => bool_decide (r.1 = id)) (ad_roles db).

Definition insert_user (id email fullName pwHash : string) : stmt AuthDB unit := fun now _ db =>
  if existsb (fun u => bool_decide (au_id u = id) || bool_decide (au_email u = email)) (ad_users db)
  then Err duplicate_key
  else Ok (tt, set_users (ad_users db ++ [mkUser id email fullName pwHash (pg_time now)]) db).

Definition insert_user_role (userID roleID : string) : stmt AuthDB unit := fun _ _ db =>
  if negb (has_user db userID) || negb (has_role db roleID) then Err foreign_key
  else if bool_decide ((userID, roleID) ∈ ad_user_roles db) then Ok (tt, db)
  else Ok (tt, set_user_roles (ad_user_roles db ++ [(userID, roleID)]) db).

Definition delete_user_role (userID roleID : string) : stmt AuthDB unit := fun _ _ db =>
  Ok (tt, set_user_roles
            (List.filter (fun ur => negb (bool_decide (ur = (userID, roleID)))) (ad_user_roles db)) db).

Definition select_user_by_email (email : string) : stmt AuthDB (option (string * string)) := fun _ _ db =>
  Ok ((fun u => (au_id u, au_password_hash u)) <$>
        head (List.filter (fun u => bool_decide (au_email u = email)) (ad_users db)), db).

Definition select_role_id (name : string) : stmt AuthDB (option string) := fun _ _ db =>
  Ok (fst <$> head (List.filter (fun r => bool_decide (r.2 = name)) (ad_roles db)), db).

Definition roles_of (db : AuthDB) (userID : string) : list string :=
  map snd (List.filter (fun r => bool_decide ((userID, r.1) ∈ ad_user_roles db)) (ad_roles db)).
Definition permissions_of (db : AuthDB) (userID : string) : list string :=
  map snd (List.filter (fun p => existsb (fun rp => bool_decide (rp.2 = p.1) &&
                                                    bool_decide ((userID, rp.1) ∈ ad_user_roles db))
                                   (ad_role_permissions db)) (ad_permissions db)).

Definition select_roles `{Collation} (userID : string) : stmt AuthDB (list string) := fun _ _ db =>
  Ok (text_sort (roles_of db userID), db).
(** [select distinct]: permission names are unique and each is met once. *)
Definition select_permissions `{Collation} (userID : string) : stmt AuthDB (list string) := fun _ _ db =>
  Ok (text_sort (permissions_of db userID), db).

Definition insert_session (row : Z -> RefreshSession) : stmt AuthDB unit := fun now _ db =>
  let s := row (pg_time now) in
  if existsb (fun s' => bool_decide (rs_token_hash s' = rs_token_hash s)) (ad_sessions db)
  then Err duplicate_key
  else if negb (has_user db (rs_user_id s)) then Err foreign_key
  else Ok (tt, set_sessions (ad_sessions db ++ [s]) db).

Definition select_session (h : string) : stmt AuthDB (option RefreshSession) := fun _ _ db =>
  Ok (head (List.filter (fun s => bool_decide (rs_token_hash s = h)) (ad_sessions db)), db).

(** [update auth_refresh_sessions set ... where cond] and the rows affected *)
Definition update_sessions (cond : RefreshSession -> bool) (f : RefreshSession -> RefreshSession)
  : stmt AuthDB Z := fun _ _ db =>
  Ok (Z.of_nat (List.length (List.filter cond (ad_sessions db))),
      set_sessions (map (fun s => if cond s then f s else s) (ad_sessions db)) db).

Definition delete_sessions (cond : RefreshSession -> bool) : stmt AuthDB Z := fun _ _ db =>
  Ok (Z.of_nat (List.length (List.filter cond (ad_sessions db))),
      set_sessions (List.filter (fun s => negb (cond s)) (ad_sessions db)) db).

Definition set_revoked (at_ : option Z) (s : RefreshSession) : RefreshSession :=
  mkSession (rs_token_hash s) (rs_session_id s) (rs_user_id s) (rs_expires_at s) (rs_absolute_expires_at s)
    (rs_created_at s) (rs_last_used_at s) at_ (rs_replaced_by_hash s) (rs_user_agent s) (rs_ip s).

Definition is_none {A} (o : option A) : bool := match o with None => true | Some _ => false end.
Definition coalesce {A} (a b : option A) : option A := match a with Some _ => a | None => b end.

Definition token_is (h : string) (s : RefreshSession) : bool := bool_decide (rs_token_hash s = h).
Definition live_of_user (userID : string) (s : RefreshSession) : bool :=
  bool_decide (rs_user_id s = userID) && is_none (rs_revoked_at s).

Definition rotate_session (now : Z) (newHash : string) (ua ip : option string) (s : RefreshSession) : RefreshSession :=
  mkSession (rs_token_hash s) (rs_session_id s) (rs_user_id s) (rs_expires_at s) (rs_absolute_expires_at s)
    (rs_created_at s) (Some (pg_time now)) (Some (pg_time now)) (Some newHash)
    (coalesce ua (rs_user_agent s)) (coalesce ip (rs_ip s)).

Definition insert_client (c : Z -> oauthClientRecord) : stmt AuthDB unit := fun now _ db =>
  let c := c (pg_time now) in
  if has_client db (oc_id c) then Err duplicate_key
  else Ok (tt, set_clients (ad_clients db ++ [c]) db).

Definition select_client (id : string) : stmt AuthDB (option oauthClientRecord) := fun _ _ db =>
  Ok (head (List.filter (fun c => bool_decide (oc_id c = id)) (ad_clients db)), db).

Definition select_clients (limit : nat) : stmt AuthDB (list oauthClientRecord) := fun _ _ db =>
  Ok (take limit (reverse (order_by oc_created_at (ad_clients db))), db).

(** [delete ... on delete cascade] *)
Definition delete_client (id : string) : stmt AuthDB Z := fun _ _ db =>
  let others {A} (f : A -> string) := List.filter (fun x => negb (bool_decide (f x = id))) in
  Ok (Z.of_nat (List.length (List.filter (fun c => bool_decide (oc_id c = id)) (ad_clients db))),
      set_consents (others cn_client_id (ad_consents db)) (others ch_client_id (ad_consent_history db))
        (set_codes (others ac_client_id (ad_codes db))
           (set_clients (others oc_id (ad_clients db)) db))).

(** [update oauth_clients set secret = $1 where id = $2] *)
Definition update_client_secret (secret id : string) : stmt AuthDB Z := fun _ _ db =>
  if negb (columns_exist (ad_client_columns db) ["secret"; "id"]) then Err no_column
  else
    let f c := if bool_decide (oc_id c = id)
               then mkClient (oc_id c) (oc_name c) (oc_type c) (oc_secret_hash c) (oc_redirect_uris c)
                      (oc_allowed_scopes c) (oc_created_at c) (Some secret)
               else c in
    Ok (Z.of_nat (List.length (List.filter (fun c => bool_decide (oc_id c = id)) (ad_clients db))),
        set_clients (map f (ad_clients db)) db).

(** A nil slice is the SQL null. *)
Definition text_array (l : list string) : option (list string) := match l with [] => None | _ => Some l end.

Definition insert_code (codeHash clientID userID redirectURI : string) (scopes : option (list string))
    (challenge method : string) (exp : Z) : stmt AuthDB unit := fun now _ db =>
  match scopes with
  | None => Err not_null
  | Some scopes =>
      if existsb (fun c => bool_decide (ac_code_hash c = codeHash)) (ad_codes db) then Err duplicate_key
      else if negb (has_client db clientID) || negb (has_user db userID) then Err foreign_key
      else Ok (tt, set_codes (ad_codes db ++ [mkCode codeHash clientID userID redirectURI scopes challenge
                                                method (pg_time exp) None (pg_time now)]) db)
  end.

Definition code_is (codeHash clientID : string) (c : AuthorizationCode) : bool :=
  bool_decide (ac_code_hash c = codeHash) && bool_decide (ac_client_id c = clientID).

Definition select_code (codeHash clientID : string) : stmt AuthDB (option AuthorizationCode) := fun _ _ db =>
  Ok (head (List.filter (code_is codeHash clientID) (ad_codes db)), db).

Definition consume_code (codeHash : string) (at_ : Z) (c : AuthorizationCode) : AuthorizationCode :=
  if bool_decide (ac_code_hash c = codeHash) && is_none (ac_consumed_at c)
  then mkCode (ac_code_hash c) (ac_client_id c) (ac_user_id c) (ac_redirect_uri c) (ac_scopes c)
         (ac_code_challenge c) (ac_code_challenge_method c) (ac_expires_at c) (Some at_) (ac_created_at c)
  else c.

Definition update_code_consumed (codeHash : string) (now : Z) : stmt AuthDB unit := fun _ _ db =>
  Ok (tt, set_codes (map (consume_code codeHash (pg_time now)) (ad_codes db)) db).

Definition consent_is (userID clientID : string) (c : OAuthConsent) : bool :=
  bool_decide (cn_user_id c = userID) && bool_decide (cn_client_id c = clientID).

Definition select_consent (userID clientID : string) : stmt AuthDB (option (list string)) := fun _ _ db =>
  Ok (cn_scopes <$> head (List.filter (consent_is userID clientID) (ad_consents db)), db).

Definition upsert_consent (userID clientID : string) (scopes : option (list string)) : stmt AuthDB unit :=
  fun now _ db =>
  match scopes with
  | None => Err not_null
  | Some scopes =>
      if negb (has_user db userID) || negb (has_client db clientID) then Err foreign_key
      else if existsb (consent_is userID clientID) (ad_consents db)
      then Ok (tt, set_consents
                 (map (fun c => if consent_is userID clientID c
                                then mkConsent userID clientID scopes (cn_created_at c) (pg_time now) else c)
                    (ad_consents db)) (ad_consent_history db) db)
      else Ok (tt, set_consents
                 (ad_consents db ++ [mkConsent userID clientID scopes (pg_time now) (pg_time now)])
                 (ad_consent_history db) db)
  end.

Definition insert_consent_history (userID clientID : string) (scopes : option (list string)) : stmt AuthDB unit :=
  fun now seq db =>
  match scopes with
  | None => Err not_null
  | Some scopes =>
      if negb (has_user db userID) || negb (has_client db clientID) then Err foreign_key
      else Ok (tt, set_consents (ad_consents db)
                 (ad_consent_history db ++ [mkConsentHistory seq userID clientID scopes (pg_time now)]) db)
  end.

(** [order by created_at desc, id desc] *)
Definition select_consent_history (userID clientID : string) (limit : Z) : stmt AuthDB (list ConsentHistory) :=
  fun _ _ db =>
  Ok (take (Z.to_nat limit)
        (reverse (order_by ch_created_at (order_by ch_id
           (List.filter (fun c => bool_decide (ch_user_id c = userID) && bool_decide (ch_client_id c = clientID))
              (ad_consent_history db))))), db).

(** ** Requests and responses ([proto/auth/v1/auth.proto]) *)
Record CreateOAuthClientRequest : Type := mkCreateClient {
  cr_Name : string;
  cr_Type : string;
  cr_RedirectUris : list string;
  cr_AllowedScopes : list string;
}.
Record OAuthAuthorizeRequest : Type := mkAuthorizeRequest {
  ar_ResponseType : string;
  ar_ClientId : string;
  ar_RedirectUri : string;
  ar_Scope : string;
  ar_State : string;
  ar_CodeChallenge : string;
  ar_CodeChallengeMethod : string;
}.
Record OAuthTokenRequest : Type := mkTokenRequest {
  tr_GrantType : string;
  tr_ClientId : string;
  tr_ClientSecret : string;
  tr_Code : string;
  tr_RedirectUri : string;
  tr_CodeVerifier : string;
}.
(** An access token, its lifetime in seconds and a refresh token. *)
Record Tokens : Type := mkTokens {
  tk_AccessToken : string;
  tk_RefreshToken : string;
  tk_ExpiresIn : Z;
}.
Record OAuthClient : Type := mkOAuthClient {
  co_ClientId : string;
  co_Name : string;
  co_Type : string;
  co_RedirectUris : list string;
  co_AllowedScopes : list string;
}.
Definition client_view (c : oauthClientRecord) : OAuthClient :=
  mkOAuthClient (oc_id c) (oc_name c) (oc_type c) (oc_redirect_uris c) (oc_allowed_scopes c).

(** ** Helpers *)
Definition context : Type := option metadata.

Definition auth_values (ctx : context) : list string :=
  match ctx with Some md => md_Get md "authorization" | None => [] end.

(** [strings.ToLower(v)] has the prefix ["bearer "]: what follows it in
    [v] *)
Definition bearer_fold (v : string) : string :=
  if HasPrefix (ToLower v) "bearer " then TrimSpace (String.substring 7 (String.length v - 7) v) else "".

Definition bearer_exact (v : string) : string :=
  match prefix_tail "Bearer " v with Some rest => TrimSpace rest | None => "" end.

Definition token_of (parse : string -> string) (ctx : context) : string :=
  match auth_values ctx with v :: _ => parse (TrimSpace v) | [] => "" end.

Definition basicAuthFromMetadata (ctx : context) : option (string * string) :=
  match auth_values ctx with
  | [] => None
  | v :: _ =>
      rest ← prefix_tail "Basic " (TrimSpace v);
      dec ← padded_DecodeString StdEncoding (TrimSpace rest);
      cut_at ":"%char dec
  end.

Definition hashB64URLSHA256 (s : string) : string := raw_EncodeToString URLEncoding (Sum256 s).

Definition normalizeClientType (v : string) : result string :=
  let v := TrimSpace (ToLower v) in
  if is_empty v then Ok "public"
  else if negb (bool_decide (v = "public")) && negb (bool_decide (v = "confidential"))
  then Err (invalidArg "invalid client type")
  else Ok v.

(** The distinct non-blank words of a list, in order of appearance. *)
Fixpoint dedup_words (seen : list string) (parts : list string) : list string :=
  match parts with
  | [] => []
  | p :: parts' =>
      let p := TrimSpace p in
      if is_empty p then dedup_words seen parts'
      else if bool_decide (p ∈ seen) then dedup_words seen parts'
      else p :: dedup_words (p :: seen) parts'
  end.

(** [nil] for a blank scope: an empty list stands for it, since a scope that
    is not blank has a word. *)
Definition splitScopes (scope : string) : list string :=
  let scope := TrimSpace scope in
  if is_empty scope then [] else dedup_words [] (Fields scope).

(** The scopes of [a] counted up and those of [b] counted down. *)
Definition count_words (delta : Z) (l : list string) (seen : gmap string Z) : gmap string Z :=
  foldl (fun seen s =>
    let s := TrimSpace s in
    if is_empty s then seen else <[s := default 0 (seen !! s) + delta]> seen) seen l.

Definition equalStringSets (a b : list string) : bool :=
  match a, b with
  | [], [] => true
  | _, _ => forallb (fun kv => kv.2 =? 0) (map_to_list (count_words (-1) b (count_words 1 a ∅)))
  end.

Definition clientMetaFromContext (ctx : context) : string * string :=
  match ctx with
  | None => ("", "")
  | Some md =>
      (match md_Get md "user-agent" with ua :: _ => TrimSpace ua | [] => "" end,
       match md_Get md "x-forwarded-for" with
       | xff :: _ => match Split ","%char xff with p :: _ => TrimSpace p | [] => "" end
       | [] => ""
       end)
  end.

Definition nullIfEmpty (s : string) : option string := if is_empty (TrimSpace s) then None else Some s.

Definition normalizeEmail `{NetLib} (email : string) : result string :=
  let e := TrimSpace (ToLower email) in
  if is_empty e then Err (invalidArg "email required")
  else if negb (mail_ParseAddress e) then Err (invalidArg "invalid email")
  else Ok e.

Fixpoint clean_redirects `{NetLib} (seen l : list string) : result (list string) :=
  match l with
  | [] => Ok []
  | r :: l' =>
      let r := TrimSpace r in
      if is_empty r then clean_redirects seen l'
      else match url_Parse r with
           | None => Err (invalidArg "invalid redirect_uri")
           | Some u =>
               if is_empty (u_Scheme u) || is_empty (u_Host u) then Err (invalidArg "invalid redirect_uri")
               else if negb (is_empty (TrimSpace (u_Fragment u)))
               then Err (invalidArg "redirect_uri must not contain fragment")
               else if bool_decide (r ∈ seen) then clean_redirects seen l'
               else let? rest := clean_redirects (r :: seen) l' in Ok (r :: rest)
           end
  end.

(** [url.Parse] and the check for a fragment of [OAuthAuthorize] and
    [OAuthToken]. *)
Definition check_redirect `{NetLib} (redirectURI : string) : result URL :=
  match url_Parse redirectURI with
  | None => Err (invalidArg "invalid redirect_uri")
  | Some u => if negb (is_empty (TrimSpace (u_Fragment u)))
              then Err (invalidArg "redirect_uri must not contain fragment") else Ok u
  end.

Definition nonblank (l : list string) : list string :=
  List.filter (fun s => negb (is_empty s)) (map TrimSpace l).

Section server.
Context `{Env, Random, Argon2, NetLib, Collation, !TokenMaker AuthDB}.
Variables accessTTL refreshTTL : Z.

(** A statement on the pool while a transaction is open on another
    connection: the [now()] of the transaction is unaffected. *)
Definition on_pool {A} (s : stmt AuthDB A) : M AuthDB A := fun w =>
  let '(r, w') := autoexec s w in
  (r, mkWorld (w_db w') (w_seq w') (w_uuid w') (w_tick w') (w_tx w) (w_faults w') (w_sent w')).

(** *** Tokens *)
Definition token_error (e : error) : error :=
  if bool_decide (e = ErrExpiredToken) || bool_decide (e = ErrInvalidToken)
  then unauth "invalid access token" else internal e.

Definition verify_access (accessToken : string) : M AuthDB TokenPayload :=
  let! r := tryM (VerifyToken accessToken) in
  match r with Ok p => retM p | Err e => failM (token_error e) end.

Definition userIDFromAuthHeader (ctx : context) : M AuthDB string :=
  let accessToken := token_of bearer_exact ctx in
  fail_if (is_empty accessToken) (unauth "access token required") ;;;
  let! payload := verify_access accessToken in
  fail_if (is_empty (TrimSpace (tp_UserID payload))) (unauth "invalid access token") ;;;
  retM (tp_UserID payload).

Definition requirePermissionFromAuthHeader (ctx : context) (required : string) : M AuthDB unit :=
  let accessToken := token_of bearer_fold ctx in
  fail_if (is_empty accessToken) (unauth "access token required") ;;;
  let! payload := verify_access accessToken in
  fail_if (negb (existsb (fun p => bool_decide (p = required)) (tp_Permissions payload))) (forbidden "forbidden").

Definition getRolesAndPermissions (run : forall A, stmt AuthDB A -> M AuthDB A) (userID : string)
  : M AuthDB (list string * list string) :=
  let! roles := run _ (select_roles userID) in
  let! perms := run _ (select_permissions userID) in
  match roles with
  | [] => failM (ENew ("no roles assigned for user " +:+ userID))
  | _ => retM (roles, perms)
  end.

Definition newRefreshToken : M AuthDB string :=
  let! b := rand_Read 32 in
  retM (raw_EncodeToString URLEncoding b).
Definition randomB64URL (n : nat) : M AuthDB string :=
  let! b := rand_Read (if (n =? 0)%nat then 32%nat else n) in
  retM (raw_EncodeToString URLEncoding b).

(** The access token of a user and the instant it was issued. *)
Definition issue_access (run : forall A, stmt AuthDB A -> M AuthDB A) (userID : string) : M AuthDB (string * Z) :=
  let! '(roles, perms) := getRolesAndPermissions run userID in
  let! accessNow := time_Now in
  let! access := CreateToken (mkTokenPayload userID roles perms 0 accessNow (accessNow + accessTTL)) in
  retM (access, accessNow).

(** [int64(s.accessTTL.Seconds())] *)
Definition expires_in : Z := accessTTL ÷ 1000000000.

(** A first session of a family: the family is named after its token. *)
Definition first_session (refreshHash userID : string) (refreshExp : Z) (ua ip : option string) (created : Z)
  : RefreshSession :=
  mkSession refreshHash refreshHash userID (pg_time refreshExp) (pg_time refreshExp) created None None None ua ip.

(** *** OAuth clients *)
Definition fetchOAuthClient (clientID : string) : M AuthDB oauthClientRecord :=
  let clientID := TrimSpace clientID in
  fail_if (is_empty clientID) (invalidArg "client_id required") ;;;
  let! rec := autoexec (select_client clientID) in
  match rec with
  | None => failM (notFound "unknown client")
  | Some rec => retM rec
  end.

(** [fetchOAuthClient] with an unknown client reported as [invalid_client] *)
Definition fetch_or_invalid (clientID : string) : M AuthDB oauthClientRecord :=
  let! r := tryM (fetchOAuthClient clientID) in
  match r with
  | Ok rec => retM rec
  | Err (EStatus code msg) =>
      if bool_decide (code = "NotFound") then failM oauthInvalidClient else failM (EStatus code msg)
  | Err e => failM e
  end.

Definition CreateOAuthClient (ctx : context) (req : CreateOAuthClientRequest)
  : M AuthDB (OAuthClient * string) := handler (
  requirePermissionFromAuthHeader ctx "auth:admin" ;;;
  let name := TrimSpace (cr_Name req) in
  fail_if (is_empty name) (invalidArg "name required") ;;;
  let! ct := liftR (normalizeClientType (cr_Type req)) in
  fail_if (bool_decide (cr_RedirectUris req = [])) (invalidArg "redirect_uris required") ;;;
  let! redirects := liftR (clean_redirects [] (cr_RedirectUris req)) in
  fail_if (bool_decide (redirects = [])) (invalidArg "redirect_uris required") ;;;
  let allowedScopes := nonblank (cr_AllowedScopes req) in
  let! clientID := ids_New in
  let! '(clientSecret, secretHash) := (
    if bool_decide (ct = "confidential") then
      let! clientSecret := randomB64URL 32 in
      let! h := HashPassword clientSecret in
      retM (clientSecret, Some h)
    else retM ("", None)) in
  autoexec (insert_client (fun created =>
    mkClient clientID name ct secretHash redirects allowedScopes created None)) ;;;
  retM (mkOAuthClient clientID name ct redirects allowedScopes, clientSecret)).

Definition GetOAuthClient (ctx : context) (clientID : string) : M AuthDB OAuthClient := handler (
  requirePermissionFromAuthHeader ctx "auth:admin" ;;;
  let! rec := fetchOAuthClient clientID in
  retM (client_view rec)).

Definition ListOAuthClients (ctx : context) : M AuthDB (list OAuthClient) := handler (
  requirePermissionFromAuthHeader ctx "auth:admin" ;;;
  let! rows := autoexec (select_clients 50) in
  retM (map client_view rows)).

Definition DeleteOAuthClient (ctx : context) (clientID : string) : M AuthDB unit := handler (
  requirePermissionFromAuthHeader ctx "auth:admin" ;;;
  let clientID := TrimSpace clientID in
  fail_if (is_empty clientID) (invalidArg "client_id required") ;;;
  let! n := autoexec (delete_client clientID) in
  fail_if (n =? 0) (notFound "unknown client")).

Definition RotateOAuthClientSecret (ctx : context) (clientID : string) : M AuthDB string := handler (
  requirePermissionFromAuthHeader ctx "auth:admin" ;;;
  let clientID := TrimSpace clientID in
  fail_if (is_empty clientID) (invalidArg "client_id required") ;;;
  let! newSecret := wrap_err "failed to generate secret" (GenerateSecret 32) in
  let! n := autoexec (update_client_secret newSecret clientID) in
  fail_if (n =? 0) (notFound "unknown client") ;;;
  retM newSecret).

(** *** Consents *)
Definition consent_ids (userID clientID : string) : M AuthDB (string * string) :=
  let userID := TrimSpace userID in
  let clientID := TrimSpace clientID in
  fail_if (is_empty userID || is_empty clientID) (invalidArg "user_id and client_id required") ;;;
  retM (userID, clientID).

Definition GetOAuthConsent (userID clientID : string) : M AuthDB (list string) := handler (
  let! '(userID, clientID) := consent_ids userID clientID in
  let! scopes := autoexec (select_consent userID clientID) in
  retM (default [] scopes)).

Definition StoreOAuthConsent (userID clientID : string) (scopes : list string) : M AuthDB unit := handler (
  let! '(userID, clientID) := consent_ids userID clientID in
  with_tx (
    let! existing := exec (select_consent userID clientID) in
    let changed := match existing with
                   | None => true
                   | Some existingScopes => negb (equalStringSets existingScopes scopes)
                   end in
    exec (upsert_consent userID clientID (text_array scopes)) ;;;
    (if changed then exec (insert_consent_history userID clientID (text_array scopes)) else retM tt))).

Definition ListOAuthConsentHistory (userID clientID : string) (limit : Z) : M AuthDB (list (list string * Z)) :=
  handler (
  let! '(userID, clientID) := consent_ids userID clientID in
  let limit := if limit <=? 0 then 50 else limit in
  let limit := if 200 <? limit then 200 else limit in
  let! rows := autoexec (select_consent_history userID clientID limit) in
  retM (map (fun c => (ch_scopes c, ch_created_at c)) rows)).

(** *** Authorization codes *)
Definition scopes_allowed (allowed requested : list string) : bool :=
  match allowed with
  | [] => true
  | _ => forallb (fun s => bool_decide (s ∈ nonblank allowed)) requested
  end.

Definition OAuthAuthorize (ctx : context) (req : OAuthAuthorizeRequest) : M AuthDB (string * string * string) :=
  handler (
  fail_if (negb (bool_decide (TrimSpace (ar_ResponseType req) = "code"))) (invalidArg "unsupported response_type") ;;;
  let clientID := TrimSpace (ar_ClientId req) in
  let redirectURI := TrimSpace (ar_RedirectUri req) in
  fail_if (is_empty clientID) (invalidArg "client_id required") ;;;
  fail_if (is_empty redirectURI) (invalidArg "redirect_uri required") ;;;
  let! uParsed := liftR (check_redirect redirectURI) in
  let! rec := fetch_or_invalid clientID in
  fail_if (negb (bool_decide (redirectURI ∈ oc_redirect_uris rec))) (invalidArg "invalid redirect_uri") ;;;
  let requestedScopes := splitScopes (ar_Scope req) in
  fail_if (negb (scopes_allowed (oc_allowed_scopes rec) requestedScopes)) (invalidArg "invalid scope") ;;;
  let challenge := TrimSpace (ar_CodeChallenge req) in
  let method := TrimSpace (ar_CodeChallengeMethod req) in
  fail_if (is_empty challenge) (invalidArg "code_challenge required") ;;;
  fail_if (negb (bool_decide (ToUpper method = "S256"))) (invalidArg "code_challenge_method must be S256") ;;;
  let! userID := userIDFromAuthHeader ctx in
  let! code := randomB64URL 32 in
  let codeHash := hashB64URLSHA256 code in
  let! now := time_Now in
  autoexec (insert_code codeHash (oc_id rec) userID redirectURI (text_array requestedScopes) challenge "S256"
              (now + 300000000000)) ;;;
  let state := TrimSpace (ar_State req) in
  let query := ("code", code) :: (if is_empty state then [] else [("state", state)]) in
  retM (code, state, url_with_query uParsed query)).

(** The checks on a stored code. *)
Definition code_valid (c : AuthorizationCode) (now : Z) (redirectURI verifier : string) : bool :=
  is_none (ac_consumed_at c) &&
  negb (ac_expires_at c <? now) &&
  bool_decide (ac_redirect_uri c = redirectURI) &&
  bool_decide (ToUpper (TrimSpace (ac_code_challenge_method c)) = "S256") &&
  (let expected := TrimSpace (ac_code_challenge c) in
   let got := hashB64URLSHA256 verifier in
   negb (is_empty expected || is_empty got || negb (bool_decide (expected = got)))).

(** The secret of a confidential client. *)
Definition check_client_secret (ctx : context) (rec : oauthClientRecord) (clientSecret : string) : M AuthDB unit :=
  match oc_secret_hash rec with
  | None => failM (ENew "confidential client missing secret")
  | Some hash =>
      let sec := TrimSpace clientSecret in
      let! sec := (
        if is_empty sec then
          match basicAuthFromMetadata ctx with
          | Some (u, p) =>
              fail_if (negb (is_empty (TrimSpace u)) && negb (bool_decide (TrimSpace u = oc_id rec)))
                oauthInvalidClient ;;;
              retM (TrimSpace p)
          | None => retM sec
          end
        else retM sec) in
      fail_if (is_empty sec) oauthInvalidClient ;;;
      let! ok := liftR (VerifyPassword sec hash) in
      fail_if (negb ok) oauthInvalidClient
  end.

(** The transaction of [OAuthToken] once the row of the code is read ... *)
Definition redeem_write (codeHash redirectURI verifier : string) (c : AuthorizationCode) : M AuthDB Tokens :=
  let! now := time_Now in
  fail_if (negb (code_valid c now redirectURI verifier)) oauthInvalidGrant ;;;
  exec (update_code_consumed codeHash now) ;;;
  let! '(access, accessNow) := issue_access (fun _ => on_pool) (ac_user_id c) in
  let! refresh := newRefreshToken in
  exec (insert_session (first_session (HashRefreshToken refresh) (ac_user_id c) (accessNow + refreshTTL) None None)) ;;;
  retM (mkTokens access refresh expires_in).

(** ... and the whole of it. *)
Definition redeem_code (codeHash clientID redirectURI verifier : string) : M AuthDB Tokens :=
  let! row := exec (select_code codeHash clientID) in
  match row with
  | None => failM oauthInvalidGrant
  | Some c => redeem_write codeHash redirectURI verifier c
  end.

Definition OAuthToken (ctx : context) (req : OAuthTokenRequest) : M AuthDB Tokens := handler (
  fail_if (negb (bool_decide (TrimSpace (tr_GrantType req) = "authorization_code")))
    (invalidArg "unsupported grant_type") ;;;
  let clientID := TrimSpace (tr_ClientId req) in
  let '(clientID, clientSecret) :=
    if is_empty clientID then
      match basicAuthFromMetadata ctx with
      | Some (u, p) =>
          (TrimSpace u, if is_empty (TrimSpace (tr_ClientSecret req)) then p else tr_ClientSecret req)
      | None => (clientID, tr_ClientSecret req)
      end
    else (clientID, tr_ClientSecret req) in
  fail_if (is_empty clientID) (invalidArg "client_id required") ;;;
  let code := TrimSpace (tr_Code req) in
  fail_if (is_empty code) (invalidArg "code required") ;;;
  let redirectURI := TrimSpace (tr_RedirectUri req) in
  fail_if (is_empty redirectURI) (invalidArg "redirect_uri required") ;;;
  let! _ := liftR (check_redirect redirectURI) in
  let verifier := TrimSpace (tr_CodeVerifier req) in
  fail_if (is_empty verifier) (invalidArg "code_verifier required") ;;;
  let! rec := fetch_or_invalid clientID in
  (if bool_decide (oc_type rec = "confidential") then check_client_secret ctx rec clientSecret else retM tt) ;;;
  with_tx (redeem_code (hashB64URLSHA256 code) (oc_id rec) redirectURI verifier)).

(** *** Registration and login *)
Definition Register (email password fullName : string) : M AuthDB string := handler (
  let! email := liftR (normalizeEmail email) in
  let password := TrimSpace password in
  fail_if (is_empty password) (invalidArg "password required") ;;;
  fail_if (String.length password <? 8)%nat (invalidArg "password too short") ;;;
  fail_if (is_empty (TrimSpace fullName)) (invalidArg "full_name required") ;;;
  let! pwHash := HashPassword password in
  let! id := ids_New in
  with_tx (
    exec (insert_user id email fullName pwHash) ;;;
    exec (insert_user_role id "role_customer") ;;;
    retM id)).

Definition get_limiter : M AuthDB (option loginLimiter) := fun w => (Ok (ad_limiter (w_db w)), w).
Definition put_limiter (l : loginLimiter) : M AuthDB unit := fun w => (Ok tt, set_db (set_limiter (Some l) (w_db w)) w).

(** [if s.limiter != nil { ... }] around each operation of the limiter *)
Definition login_allow (key : string) : M AuthDB unit :=
  let! limiter := get_limiter in
  match limiter with
  | None => retM tt
  | Some l =>
      let! now := time_Now in
      let '(allowed, _, l') := limiter_allow l now key in
      put_limiter l' ;;;
      fail_if (negb allowed) (rateLimited "too many login attempts")
  end.
Definition login_failed (key : string) : M AuthDB unit :=
  let! limiter := get_limiter in
  match limiter with
  | None => retM tt
  | Some l => let! now := time_Now in put_limiter (limiter_onFailure l now key)
  end.
Definition login_succeeded (key : string) : M AuthDB unit :=
  let! limiter := get_limiter in
  match limiter with
  | None => retM tt
  | Some l => put_limiter (limiter_onSuccess l key)
  end.

Definition login_key (email ip : string) : string := email +:+ "|" +:+ ip.

Definition Login (ctx : context) (email password : string) : M AuthDB Tokens := handler (
  let! email := liftR (normalizeEmail email) in
  let password := TrimSpace password in
  fail_if (is_empty password) (invalidArg "password required") ;;;
  let '(ua, ip) := clientMetaFromContext ctx in
  login_allow (login_key email ip) ;;;
  let! row := autoexec (select_user_by_email email) in
  match row with
  | None => login_failed (login_key email ip) ;;; failM (unauth "invalid credentials")
  | Some (userID, pwHash) =>
      let! ok := liftR (VerifyPassword password pwHash) in
      if negb ok then login_failed (login_key email ip) ;;; failM (unauth "invalid credentials")
      else
        login_succeeded (login_key email ip) ;;;
        let! '(access, accessNow) := issue_access (fun _ => autoexec) userID in
        let! refresh := newRefreshToken in
        autoexec (insert_session (first_session (HashRefreshToken refresh) userID (accessNow + refreshTTL)
                                    (nullIfEmpty ua) (nullIfEmpty ip))) ;;;
        retM (mkTokens access refresh expires_in)
  end).

Definition ValidateToken (accessToken : string) : M AuthDB TokenPayload := handler (
  fail_if (is_empty (TrimSpace accessToken)) (invalidArg "access_token required") ;;;
  verify_access accessToken).

(** *** Roles *)
Definition role_request (ctx : context) (userID roleName : string) : M AuthDB (string * string) :=
  requirePermissionFromAuthHeader ctx "auth:admin" ;;;
  let userID := TrimSpace userID in
  let roleName := TrimSpace roleName in
  fail_if (is_empty userID) (invalidArg "user_id required") ;;;
  fail_if (is_empty roleName) (invalidArg "role_name required") ;;;
  let! role := autoexec (select_role_id roleName) in
  match role with
  | None => failM (notFound "unknown role")
  | Some roleID => retM (userID, roleID)
  end.

Definition GrantRole (ctx : context) (userID roleName : string) : M AuthDB unit := handler (
  let! '(userID, roleID) := role_request ctx userID roleName in
  autoexec (insert_user_role userID roleID)).

Definition RevokeRole (ctx : context) (userID roleName : string) : M AuthDB unit := handler (
  let! '(userID, roleID) := role_request ctx userID roleName in
  autoexec (delete_user_role userID roleID)).

Definition ListUserRoles (ctx : context) (userID : string) : M AuthDB (list string) := handler (
  requirePermissionFromAuthHeader ctx "auth:admin" ;;;
  let userID := TrimSpace userID in
  fail_if (is_empty userID) (invalidArg "user_id required") ;;;
  autoexec (select_roles userID)).

(** *** Refresh sessions *)
Definition min_time (a b : Z) : Z := if b <? a then b else a.

(** What [RefreshToken] does in its transaction with the row it has read: the
    new token and the user it is for. *)
Definition refresh_write (ctx : context) (refreshHash : string) (s : RefreshSession) : M AuthDB (string * string) :=
  let! now := time_Now in
  if negb (is_none (rs_revoked_at s)) || negb (is_none (rs_replaced_by_hash s)) then
    let! _ := tryM (exec (update_sessions (token_is refreshHash)
                            (fun s => set_revoked (coalesce (rs_revoked_at s) (Some (pg_time now))) s))) in
    let! _ := tryM (exec (update_sessions (live_of_user (rs_user_id s)) (set_revoked (Some (pg_time now))))) in
    failM (unauth "refresh token reuse detected")
  else if (rs_expires_at s <? now) || (rs_absolute_expires_at s <? now) then
    let! _ := tryM (exec (update_sessions (token_is refreshHash) (set_revoked (Some (pg_time now))))) in
    failM (unauth "expired refresh token")
  else
    let! newRefresh := newRefreshToken in
    let newHash := HashRefreshToken newRefresh in
    let newRefreshExp := min_time (now + refreshTTL) (rs_absolute_expires_at s) in
    let '(ua, ip) := clientMetaFromContext ctx in
    exec (update_sessions (token_is refreshHash)
            (rotate_session now newHash (nullIfEmpty ua) (nullIfEmpty ip))) ;;;
    exec (insert_session (fun created =>
      mkSession newHash (rs_session_id s) (rs_user_id s) (pg_time newRefreshExp)
        (pg_time (rs_absolute_expires_at s)) created None None None (nullIfEmpty ua) (nullIfEmpty ip))) ;;;
    retM (newRefresh, rs_user_id s).

Definition refresh_rotate (ctx : context) (refreshHash : string) : M AuthDB (string * string) :=
  let! row := exec (select_session refreshHash) in
  match row with
  | None => failM (unauth "invalid refresh token")
  | Some s => refresh_write ctx refreshHash s
  end.

Definition RefreshToken (ctx : context) (refreshToken : string) : M AuthDB Tokens := handler (
  let refreshToken := TrimSpace refreshToken in
  fail_if (is_empty refreshToken) (invalidArg "refresh_token required") ;;;
  let! '(newRefresh, userID) := with_tx (refresh_rotate ctx (HashRefreshToken refreshToken)) in
  let! '(access, _) := issue_access (fun _ => autoexec) userID in
  retM (mkTokens access newRefresh expires_in)).

Definition Logout (refreshToken : string) : M AuthDB unit := handler (
  let refreshToken := TrimSpace refreshToken in
  fail_if (is_empty refreshToken) (invalidArg "refresh_token required") ;;;
  let! now := time_Now in
  let! _ := autoexec (update_sessions
    (fun s => token_is (HashRefreshToken refreshToken) s && is_none (rs_revoked_at s))
    (set_revoked (Some (pg_time now)))) in
  retM tt).

Definition LogoutAll (ctx : context) (accessToken : string) : M AuthDB Z := handler (
  let accessToken := TrimSpace accessToken in
  let accessToken := if is_empty accessToken then token_of bearer_fold ctx else accessToken in
  fail_if (is_empty accessToken) (invalidArg "access_token required") ;;;
  let! payload := verify_access accessToken in
  let userID := TrimSpace (tp_UserID payload) in
  fail_if (is_empty userID) (unauth "invalid access token") ;;;
  let! now := time_Now in
  autoexec (update_sessions (live_of_user userID) (set_revoked (Some (pg_time now))))).

(** *** [cleanup.go] *)
Definition CleanupRefreshSessions (revokedRetention : Z) : M AuthDB (Z * Z) :=
  let! now := time_Now in
  let! expired := autoexec (delete_sessions (fun s =>
    (rs_expires_at s <? pg_time now) || (rs_absolute_expires_at s <? pg_time now))) in
  let! revoked := (
    if 0 <? revokedRetention then
      let cutoff := now - revokedRetention in
      autoexec (delete_sessions (fun s =>
        match rs_revoked_at s with Some t => t <? pg_time cutoff | None => false end))
    else retM 0) in
  retM (expired, revoked).
End server.
