(* ===== verification/AuthSpec.v ===== *)
(** * The sessions of the auth service: invariant

    What holds of the refresh sessions in every state the handlers of
    [Auth.v] reach, whatever fails. *)
From S2P Require Import Prelude GoStrings Base64 Sha256 Passwords Invariants Authz Tokens LoginLimiter Auth.
#[local] Open Scope Z_scope.
#[local] Open Scope go_scope.

(** ** What the service expects of a token maker: issuing a token changes
    nothing, and checking one only reads the clock. *)
Class TokenMakerOk (DB : Type) `{TokenMaker DB} : Prop := {
  create_pure : forall p w, (CreateToken (DB := DB) p w).2 = w;
  verify_pure : forall tok (w : World DB), let w' := (VerifyToken tok w).2 in
    w_db w' = w_db w /\ w_uuid w' = w_uuid w /\ w_faults w' = w_faults w;
}.

#[export] Instance maker_ok `{Env, Jwt} {DB} maker : TokenMakerOk DB (H := maker_TokenMaker maker).
Proof.
  split; [done|]. intros tok w. simpl. unfold maker_VerifyToken, verifyEd25519JWT.
  destruct (jwt_ParseUnverified tok) as [[alg kid]|]; [|done].
  destruct (negb _); [done|]. unfold bindM, tryM. destruct (negb _); [done|]. simpl.
  destruct (jwt_Verify _ _ _) as [c|[]]; [|done..]. destruct (is_empty _); [done|].
  by destruct (jc_IssuedAt c), (jc_ExpiresAt c).
Qed.

(** ** Randomness

    The hash of the refresh token made from the [i]-th random reading, and
    what the service relies on: over the readings of a run (fewer than
    [rand_limit]) no two tokens have the same hash. *)
Definition token_hash_at `{Random} (i : nat) : string :=
  HashRefreshToken (raw_EncodeToString URLEncoding (rand_bytes i 32)).

Class RandomOk `{Random} (rand_limit : nat) : Prop := {
  token_hash_inj : forall i j, (i < rand_limit)%nat -> (j < rand_limit)%nat ->
    token_hash_at i = token_hash_at j -> i = j;
}.

Section sessions.
Context `{Env, Random, Argon2, NetLib, Collation, !TokenMaker AuthDB, !TokenMakerOk AuthDB} (rand_limit : nat) `{!RandomOk rand_limit}.
Variables accessTTL refreshTTL : Z.

(** Token hashes known to be spent. *)
Variable spent : list string.
(** Families and the instants they end at. *)
Variable ends : list (string * Z).

(** A usable session. *)
Definition live (s : RefreshSession) : bool := is_none (rs_revoked_at s) && is_none (rs_replaced_by_hash s).

(** One row: both its names were drawn before, it has a user, it does not
    outlive its family, and a session that was replaced is revoked. *)
Record session_ok (db : AuthDB) (u : nat) (s : RefreshSession) : Prop := {
  so_token : exists i, (i < u)%nat /\ rs_token_hash s = token_hash_at i;
  so_family : exists i, (i < u)%nat /\ rs_session_id s = token_hash_at i;
  so_user : has_user db (rs_user_id s) = true;
  so_expiry : rs_expires_at s <= rs_absolute_expires_at s;
  so_micro : pg_time (rs_absolute_expires_at s) = rs_absolute_expires_at s;
  so_replaced : rs_revoked_at s = None -> rs_replaced_by_hash s = None;
}.

(** Two rows of one family: they belong to the same user, end at the same
    instant, and at most one of them is live. *)
Definition family_ok (s s' : RefreshSession) : Prop :=
  rs_session_id s = rs_session_id s' ->
  rs_user_id s = rs_user_id s' /\ rs_absolute_expires_at s = rs_absolute_expires_at s' /\
  (live s = true -> live s' = true -> rs_token_hash s = rs_token_hash s').

(** Spent tokens were drawn before and their sessions, if still stored, are
    revoked. *)
Definition spent_ok (db : AuthDB) (u : nat) : Prop := forall h, h ∈ spent ->
  (exists i, (i < u)%nat /\ h = token_hash_at i) /\
  forall s, s ∈ ad_sessions db -> rs_token_hash s = h -> rs_revoked_at s <> None.

(** A known family was drawn before, and its sessions end when it does. *)
Definition ends_ok (db : AuthDB) (u : nat) : Prop := forall fam A, (fam, A) ∈ ends ->
  (exists i, (i < u)%nat /\ fam = token_hash_at i) /\
  forall s, s ∈ ad_sessions db -> rs_session_id s = fam -> rs_absolute_expires_at s = A.

Record sessions_ok (db : AuthDB) (u : nat) : Prop := {
  ss_unique : NoDup (map rs_token_hash (ad_sessions db));
  ss_rows : forall s, s ∈ ad_sessions db -> session_ok db u s;
  ss_family : forall s s', s ∈ ad_sessions db -> s' ∈ ad_sessions db -> family_ok s s';
  ss_spent : spent_ok db u;
  ss_ends : ends_ok db u;
}.

(** The invariant, as long as randomness lasts. *)
Definition auth_inv (db : AuthDB) (u : nat) : Prop := (u <= rand_limit)%nat -> sessions_ok db u.

Lemma session_ok_more db db' u u' s :
  (forall id, has_user db id = true -> has_user db' id = true) -> (u <= u')%nat ->
  session_ok db u s -> session_ok db' u' s.
Proof.
  intros Hus Hu [(i & Hi & Ht) (j & Hj & Hf) Huser Hexp Hmic Hrep]. split; auto.
  - exists i. split; [lia|done].
  - exists j. split; [lia|done].
Qed.

Lemma spent_ok_more db db' u u' :
  (u <= u')%nat -> (forall s, s ∈ ad_sessions db' -> s ∈ ad_sessions db) -> spent_ok db u -> spent_ok db' u'.
Proof.
  intros Hu Hs Hsp h Hh. destruct (Hsp h Hh) as [(i & Hi & Ht) Hrev]. split; [exists i; split; [lia|done]|]. auto.
Qed.

Lemma ends_ok_more db db' u u' :
  (u <= u')%nat -> (forall s, s ∈ ad_sessions db' -> s ∈ ad_sessions db) -> ends_ok db u -> ends_ok db' u'.
Proof.
  intros Hu Hs He fam A Hin. destruct (He fam A Hin) as [(i & Hi & Ht) Hab]. split; [exists i; split; [lia|done]|]. auto.
Qed.

Lemma sessions_ok_more db u u' : (u <= u')%nat -> sessions_ok db u -> sessions_ok db u'.
Proof.
  intros Hu [Hun Hrows Hfam Hsp Hen]. split; [done| |done|by eapply spent_ok_more|by eapply ends_ok_more].
  intros s Hs. eapply session_ok_more; [done|exact Hu|by apply Hrows].
Qed.

#[export] Instance auth_inv_drawn : Drawn auth_inv.
Proof. split. intros db u u' Hu HJ Hlim. eapply sessions_ok_more; [exact Hu|]. apply HJ. lia. Qed.

(** Statements that leave the sessions alone. *)
Lemma inv_other_tables db db' u :
  ad_sessions db' = ad_sessions db -> (forall id, has_user db id = true -> has_user db' id = true) ->
  auth_inv db u -> auth_inv db' u.
Proof.
  intros Hs Hu HJ Hlim. destruct (HJ Hlim) as [Hun Hrows Hfam Hsp Hen].
  split; rewrite ?Hs; [done| |done|eapply spent_ok_more; [done| |exact Hsp]; by rewrite Hs|
    eapply ends_ok_more; [done| |exact Hen]; by rewrite Hs]. intros s Hin. eapply session_ok_more; [exact Hu|done|by apply Hrows].
Qed.

(** Statements that only mark sessions: names, user and expiry stay, and a
    row that is not live stays so. *)
Definition marks (f : RefreshSession -> RefreshSession) : Prop := forall s,
  rs_token_hash (f s) = rs_token_hash s /\ rs_session_id (f s) = rs_session_id s /\
  rs_user_id (f s) = rs_user_id s /\ rs_expires_at (f s) = rs_expires_at s /\
  rs_absolute_expires_at (f s) = rs_absolute_expires_at s /\
  ((rs_revoked_at s = None -> rs_replaced_by_hash s = None) ->
   rs_revoked_at (f s) = None -> rs_replaced_by_hash (f s) = None) /\
  (live (f s) = true -> live s = true) /\
  (rs_revoked_at s <> None -> rs_revoked_at (f s) <> None).

Lemma marks_session_ok f db u s : marks f -> session_ok db u s -> session_ok db u (f s).
Proof.
  intros Hf [Ht Hfa Hu He Hm Hr]. destruct (Hf s) as (E1 & E2 & E3 & E4 & E5 & E6 & _).
  split; rewrite ?E1, ?E2, ?E3, ?E4, ?E5; auto.
Qed.

Lemma marks_family_ok f s s' : marks f -> family_ok s s' -> family_ok (f s) (f s').
Proof.
  intros Hf Hfam. destruct (Hf s) as (E1 & E2 & E3 & _ & E5 & _ & E7 & _).
  destruct (Hf s') as (F1 & F2 & F3 & _ & F5 & _ & F7 & _). unfold family_ok.
  rewrite E1, E2, E3, E5, F1, F2, F3, F5. intros Hid. destruct (Hfam Hid) as (? & ? & ?). auto.
Qed.

Lemma inv_map f db u : marks f -> auth_inv db u -> auth_inv (set_sessions (map f (ad_sessions db)) db) u.
Proof.
  intros Hf HJ Hlim. destruct (HJ Hlim) as [Hun Hrows Hfam Hsp Hen]. split; simpl.
  - rewrite map_map. erewrite map_ext; [exact Hun|]. intros s. apply Hf.
  - intros s (s0 & -> & Hs0)%list_elem_of_fmap. apply marks_session_ok; [done|].
    eapply session_ok_more; [|done|by apply Hrows]. done.
  - intros s s' (s0 & -> & Hs0)%list_elem_of_fmap (s1 & -> & Hs1)%list_elem_of_fmap.
    apply marks_family_ok; auto.
  - intros h Hh. destruct (Hsp h Hh) as [Hi Hrev]. split; [done|]. simpl.
    intros s (s0 & -> & Hs0)%list_elem_of_fmap. destruct (Hf s0) as (-> & _ & _ & _ & _ & _ & _ & Hr). eauto.
  - intros fam A Hin. destruct (Hen fam A Hin) as [Hi Hab]. split; [done|]. simpl.
    intros s (s0 & -> & Hs0)%list_elem_of_fmap. destruct (Hf s0) as (_ & -> & _ & _ & -> & _). eauto.
Qed.

Lemma marks_if (cond : RefreshSession -> bool) f : marks f -> marks (fun s => if cond s then f s else s).
Proof. intros Hf s. destruct (cond s); [apply Hf|]. split_and!; auto. Qed.

Lemma marks_revoked t : marks (set_revoked (Some t)).
Proof. intros s. split_and!; simpl; done. Qed.
Lemma marks_coalesce t : marks (fun s => set_revoked (coalesce (rs_revoked_at s) (Some t)) s).
Proof. intros s. split_and!; simpl; try done; unfold live; simpl; destruct (rs_revoked_at s); try done; by intros ?. Qed.
Lemma marks_rotate now h ua ip : marks (rotate_session now h ua ip).
Proof. intros s. split_and!; simpl; done. Qed.

Lemma keeps_update cond f : marks f -> stmt_keeps auth_inv (update_sessions cond f).
Proof.
  intros Hf now seq db u a db' HJ [= <- <-]. apply inv_map; [by apply marks_if|done].
Qed.

Lemma keeps_delete cond : stmt_keeps auth_inv (delete_sessions cond).
Proof.
  intros now seq db u a db' HJ [= <- <-] Hlim. destruct (HJ Hlim) as [Hun Hrows Hfam Hsp Hen]. split; simpl.
  - by apply NoDup_map_filter.
  - intros s [Hs _]%elem_of_filter_list. eapply session_ok_more; [|done|by apply Hrows]. done.
  - intros s s' [Hs _]%elem_of_filter_list [Hs' _]%elem_of_filter_list. by apply Hfam.
  - eapply spent_ok_more; [done| |exact Hsp]. simpl. by intros s [Hs _]%elem_of_filter_list.
  - eapply ends_ok_more; [done| |exact Hen]. simpl. by intros s [Hs _]%elem_of_filter_list.
Qed.

(** A new row. *)
Lemma inv_insert db u s :
  sessions_ok db u -> rs_token_hash s ∉ map rs_token_hash (ad_sessions db) -> session_ok db u s ->
  (forall s', s' ∈ ad_sessions db -> family_ok s s' /\ family_ok s' s) -> rs_token_hash s ∉ spent ->
  (forall A, (rs_session_id s, A) ∈ ends -> rs_absolute_expires_at s = A) ->
  sessions_ok (set_sessions (ad_sessions db ++ [s]) db) u.
Proof.
  intros [Hun Hrows Hfam Hsp Hen] Hnew Hs Hf Hns Hne. split; simpl.
  - apply NoDup_map_snoc; [done|]. intros y Hy Heq. apply Hnew. rewrite <-Heq. by apply (list_elem_of_fmap_2 rs_token_hash).
  - intros s' Hs'. apply elem_of_app in Hs' as [Hs'|Hs'].
    + eapply session_ok_more; [|done|by apply Hrows]. done.
    + apply list_elem_of_singleton in Hs' as ->. eapply session_ok_more; [|done|exact Hs]. done.
  - intros s1 s2 Hs1 Hs2. apply elem_of_app in Hs1, Hs2. rewrite list_elem_of_singleton in Hs1, Hs2.
    destruct Hs1 as [Hs1| ->], Hs2 as [Hs2| ->]; [by apply Hfam|by apply Hf|by apply Hf|]. by intros _.
  - intros h Hh. destruct (Hsp h Hh) as [Hi Hrev]. split; [done|]. simpl.
    intros s' Hs' Heq. apply elem_of_app in Hs' as [Hs'|Hs']; [by apply Hrev|].
    apply list_elem_of_singleton in Hs' as ->. by subst h.
  - intros fam A Hin. destruct (Hen fam A Hin) as [Hi Hab]. split; [done|]. simpl.
    intros s' Hs' Heq. apply elem_of_app in Hs' as [Hs'|Hs']; [by apply Hab|].
    apply list_elem_of_singleton in Hs' as ->. subst fam. by apply Hne.
Qed.

Lemma pg_time_idem t : pg_time (pg_time t) = pg_time t.
Proof. unfold pg_time. by rewrite Z.div_mul by lia. Qed.
Lemma pg_time_mono t t' : t <= t' -> pg_time t <= pg_time t'.
Proof. intros Ht. unfold pg_time. apply Z.mul_le_mono_nonneg_r; [lia|]. by apply Z.div_le_mono; lia. Qed.
Lemma pg_time_le t : pg_time t <= t.
Proof. unfold pg_time. pose proof (Z.mul_div_le t 1000 ltac:(lia)). lia. Qed.

(** [newRefreshToken] draws the next reading. *)
Lemma newRefreshToken_run (w : World AuthDB) :
  (w_faults w = [] \/ head (w_faults w) = Some FOk) /\
    newRefreshToken w = (Ok (raw_EncodeToString URLEncoding (rand_bytes (w_uuid w) 32)),
      mkWorld (w_db w) (w_seq w) (S (w_uuid w)) (w_tick w) (w_tx w) (tail (w_faults w)) (w_sent w)) \/
  w_faults w <> [] /\ newRefreshToken w = (Err rand_error,
      mkWorld (w_db w) (w_seq w) (w_uuid w) (w_tick w) (w_tx w) (tail (w_faults w)) (w_sent w)).
Proof.
  unfold newRefreshToken, bindM, rand_Read, next_fault. destruct w as [db sq u t tx fl sn].
  destruct fl as [|[] fl]; simpl; [left|left|right|right]; (split; [by auto|done]).
Qed.

(** A first session under the token just drawn starts a family of its own. *)
Lemma inv_first_session db u userID exp ua ip created :
  (S u <= rand_limit)%nat -> sessions_ok db u -> has_user db userID = true ->
  sessions_ok (set_sessions (ad_sessions db ++ [first_session (token_hash_at u) userID exp ua ip created]) db) (S u).
Proof.
  intros Hlim Hok Huser. pose proof Hok as [Hun Hrows Hfam Hsp Hen].
  assert (forall i, (i < u)%nat -> token_hash_at i <> token_hash_at u) as Hfresh.
  { intros i Hi Heq. apply token_hash_inj in Heq; lia. }
  apply inv_insert.
  - eapply sessions_ok_more; [|exact Hok]. lia.
  - simpl. intros (s & Hs1 & Hs2)%list_elem_of_fmap. destruct (so_token _ _ _ (Hrows s Hs2)) as (i & Hi & Ht).
    apply (Hfresh i Hi). congruence.
  - split; simpl; try done.
    + exists u. split; [lia|done].
    + exists u. split; [lia|done].
    + by rewrite pg_time_idem.
  - intros s Hs. destruct (so_family _ _ _ (Hrows s Hs)) as (i & Hi & Ht). specialize (Hfresh i Hi).
    split; intros Hid; simpl in Hid; congruence.
  - simpl. intros Hin. destruct (Hsp _ Hin) as [(i & Hi & Ht) _]. by apply (Hfresh i Hi).
  - simpl. intros A Hin. destruct (Hen _ _ Hin) as [(i & Hi & Ht) _]. by destruct (Hfresh i Hi).
Qed.

Lemma insert_session_cases row now seq db a db' :
  insert_session row now seq db = Ok (a, db') ->
  db' = set_sessions (ad_sessions db ++ [row (pg_time now)]) db /\
  has_user db (rs_user_id (row (pg_time now))) = true /\
  rs_token_hash (row (pg_time now)) ∉ map rs_token_hash (ad_sessions db).
Proof.
  unfold insert_session. destruct (existsb _ _) eqn:He; [done|].
  destruct (has_user _ _) eqn:Hu; [|done]. intros [= <- <-]. split_and!; [done|done|].
  intros (s & Hs1 & Hs2)%list_elem_of_fmap. apply (proj1 (existsb_false_list _ _) He) in Hs2.
  apply bool_decide_eq_false in Hs2. congruence.
Qed.

(** ** Every handler keeps the invariant *)
Lemma keeps_insert_user id email name h : stmt_keeps auth_inv (insert_user id email name h).
Proof.
  intros now seq db u a db' HJ. unfold insert_user. destruct (existsb _ _); [done|]. intros [= <- <-].
  eapply inv_other_tables; [| |exact HJ]; [done|]. intros id'. unfold has_user. simpl.
  rewrite existsb_app. by intros ->.
Qed.

(** Every other statement on another table. *)
Lemma keeps_elsewhere {A} (s : stmt AuthDB A) :
  (forall now seq db a db', s now seq db = Ok (a, db') ->
     ad_sessions db' = ad_sessions db /\ ad_users db' = ad_users db) ->
  stmt_keeps auth_inv s.
Proof.
  intros Hs now seq db u a db' HJ Hst. destruct (Hs _ _ _ _ _ Hst) as [Hse Hus].
  eapply inv_other_tables; [exact Hse| |exact HJ]. unfold has_user. by rewrite Hus.
Qed.

Ltac solve_elsewhere :=
  apply keeps_elsewhere; intros ? ? ? ? ? Hst;
  unfold insert_user_role, delete_user_role, select_user_by_email, select_role_id, select_roles,
    select_permissions, select_session, insert_client, select_client, select_clients, delete_client,
    update_client_secret, insert_code, select_code, update_code_consumed, select_consent, upsert_consent,
    insert_consent_history, select_consent_history in Hst;
  repeat case_match; simplify_eq; done.

Lemma keeps_handler {A} (m : M AuthDB A) : keeps auth_inv m -> keeps auth_inv (handler m).
Proof. intros Hm w. specialize (Hm w). unfold handler. by destruct (m w) as [[]]. Qed.
Lemma keeps_on_pool {A} (s : stmt AuthDB A) : stmt_keeps auth_inv s -> keeps auth_inv (on_pool s).
Proof.
  intros Hs w. destruct (keeps_autoexec _ s Hs w) as [Hu HJ]. unfold on_pool. by destruct (autoexec s w).
Qed.
Lemma keeps_create p : keeps auth_inv (CreateToken p).
Proof. intros w. by rewrite create_pure. Qed.
Lemma keeps_verify tok : keeps auth_inv (VerifyToken tok).
Proof. intros w. destruct (verify_pure tok w) as (-> & -> & _). done. Qed.

#[local] Hint Resolve keeps_insert_user keeps_delete keeps_create keeps_verify keeps_on_pool : keeps.
#[local] Hint Resolve keeps_update marks_revoked marks_coalesce marks_rotate : keeps.
#[local] Hint Extern 5 (stmt_keeps auth_inv _) => solve_elsewhere : keeps.

Lemma keeps_verify_access tok : keeps auth_inv (verify_access tok).
Proof. unfold verify_access. solve_keeps. Qed.
#[local] Hint Resolve keeps_verify_access : keeps.
Lemma keeps_userID ctx : keeps auth_inv (userIDFromAuthHeader ctx).
Proof. unfold userIDFromAuthHeader. solve_keeps. Qed.
Lemma keeps_permission ctx p : keeps auth_inv (requirePermissionFromAuthHeader ctx p).
Proof. unfold requirePermissionFromAuthHeader. solve_keeps. Qed.
#[local] Hint Resolve keeps_userID keeps_permission : keeps.

Lemma keeps_issue_pool userID : keeps auth_inv (issue_access accessTTL (fun _ => on_pool) userID).
Proof. unfold issue_access, getRolesAndPermissions. solve_keeps. Qed.
Lemma keeps_issue userID : keeps auth_inv (issue_access accessTTL (fun _ => autoexec) userID).
Proof. unfold issue_access, getRolesAndPermissions. solve_keeps. Qed.
Lemma keeps_newRefreshToken : keeps auth_inv newRefreshToken.
Proof. unfold newRefreshToken. solve_keeps. Qed.
Lemma keeps_randomB64URL n : keeps auth_inv (randomB64URL n).
Proof. unfold randomB64URL. solve_keeps. Qed.
Lemma keeps_HashPassword p : keeps auth_inv (HashPassword p).
Proof. unfold HashPassword. solve_keeps. Qed.
Lemma keeps_GenerateSecret n : keeps auth_inv (GenerateSecret n).
Proof. unfold GenerateSecret. solve_keeps. Qed.
#[local] Hint Resolve keeps_issue_pool keeps_issue keeps_newRefreshToken keeps_randomB64URL keeps_HashPassword
  keeps_GenerateSecret : keeps.
Lemma keeps_fetch id : keeps auth_inv (fetch_or_invalid id).
Proof. unfold fetch_or_invalid, fetchOAuthClient. solve_keeps. Qed.
Lemma keeps_fetchClient id : keeps auth_inv (fetchOAuthClient id).
Proof. unfold fetchOAuthClient. solve_keeps. Qed.
Lemma keeps_role_request ctx u r : keeps auth_inv (role_request ctx u r).
Proof. unfold role_request. solve_keeps. Qed.
Lemma keeps_consent_ids u c : keeps auth_inv (consent_ids u c).
Proof. unfold consent_ids. solve_keeps. Qed.
Lemma keeps_client_secret ctx c sec : keeps auth_inv (check_client_secret ctx c sec).
Proof. unfold check_client_secret. solve_keeps. Qed.
#[local] Hint Resolve keeps_fetch keeps_fetchClient keeps_role_request keeps_consent_ids keeps_client_secret : keeps.

(** The limiter is not a table of sessions. *)
Lemma keeps_limiter_op (m : M AuthDB unit) :
  (forall w, w_uuid (m w).2 = w_uuid w /\ exists l, w_db (m w).2 = set_limiter l (w_db w)) -> keeps auth_inv m.
Proof.
  intros Hm w. destruct (Hm w) as [-> [l ->]]. split; [done|].
  apply inv_other_tables; [done|]. by intros id.
Qed.
Lemma limiter_same (db : AuthDB) : set_limiter (ad_limiter db) db = db.
Proof. by destruct db. Qed.
Lemma keeps_login_allow key : keeps auth_inv (login_allow key).
Proof.
  apply keeps_limiter_op. intros w. unfold login_allow, bindM, get_limiter. simpl.
  destruct (ad_limiter (w_db w)) eqn:Hl.
  - unfold time_Now. simpl. destruct (limiter_allow _ _ _) as [[al until] l'].
    unfold fail_if. destruct al; simpl; split; eauto.
  - split; [done|]. exists None. simpl. by rewrite <-Hl, limiter_same.
Qed.
Lemma keeps_login_failed key : keeps auth_inv (login_failed key).
Proof.
  apply keeps_limiter_op. intros w. unfold login_failed, bindM, get_limiter. simpl.
  destruct (ad_limiter (w_db w)) eqn:Hl; simpl; split; eauto.
  exists None. by rewrite <-Hl, limiter_same.
Qed.
Lemma keeps_login_succeeded key : keeps auth_inv (login_succeeded key).
Proof.
  apply keeps_limiter_op. intros w. unfold login_succeeded, bindM, get_limiter. simpl.
  destruct (ad_limiter (w_db w)) eqn:Hl; simpl; split; eauto.
  exists None. by rewrite <-Hl, limiter_same.
Qed.
#[local] Hint Resolve keeps_login_allow keeps_login_failed keeps_login_succeeded : keeps.

(** A token is drawn and a first session stored under it. *)
Lemma first_session_step u row now seq db a db' uid exp ua ip :
  row = first_session (token_hash_at u) uid exp ua ip ->
  insert_session row now seq db = Ok (a, db') -> auth_inv db u -> auth_inv db' (S u).
Proof.
  intros -> Hst HJ Hlim. apply insert_session_cases in Hst as (-> & Huser & _).
  apply inv_first_session; [done|apply HJ; lia|done].
Qed.

Lemma keeps_first {A} uid exp ua ip (k : string -> M AuthDB A) (run : forall B, stmt AuthDB B -> M AuthDB B) :
  (forall B (s : stmt AuthDB B) w, exists r w', run B s w = (r, w') /\ w_uuid w' = w_uuid w /\
     (w_db w' = w_db w \/ exists now sq a, s now sq (w_db w) = Ok (a, w_db w'))) ->
  (forall r, keeps auth_inv (k r)) ->
  keeps auth_inv (let! refresh := newRefreshToken in
                  run _ (insert_session (first_session (HashRefreshToken refresh) uid exp ua ip)) ;;; k refresh).
Proof.
  intros Hrun Hk w. destruct (newRefreshToken_run w) as [[_ Hn]|[_ Hn]]; [rewrite (bind_ok _ _ _ _ _ Hn)|
    rewrite (bind_err _ _ _ _ _ Hn); simpl; split; [lia|done]].
  match goal with |- context [run ?B ?s] => set (st := s) end.
  match goal with |- context [bindM _ _ ?w0] => set (w1 := w0) end.
  assert (auth_inv (w_db w) (w_uuid w) -> forall w', w_uuid w' = w_uuid w1 ->
    w_db w' = w_db w1 \/ (exists now sq a, st now sq (w_db w1) = Ok (a, w_db w')) ->
    auth_inv (w_db w') (w_uuid w')) as Hst.
  { intros HJ w' -> [->|(now & sq & a & Hst)]; [by eapply (drawn_more auth_inv); [|exact HJ]; simpl; lia|].
    eapply (first_session_step (w_uuid w)); [reflexivity|exact Hst|exact HJ]. }
  destruct (Hrun _ st w1) as (r & w' & Hr & Hu & Hdb). destruct r as [[]|e].
  - rewrite (bind_ok _ _ _ _ _ Hr).
    destruct (Hk (raw_EncodeToString URLEncoding (rand_bytes (w_uuid w) 32)) w') as [Hu' HJ'].
    split; [rewrite Hu in Hu'; simpl in *; lia|]. intros HJ. by apply HJ', Hst.
  - rewrite (bind_err _ _ _ _ _ Hr). split; [simpl; rewrite Hu; simpl; lia|]. intros HJ. by apply Hst.
Qed.

(** Rotation: the row that was read is marked, and a session of the same
    family, user and end is stored under the token just drawn. *)
Lemma inv_rotate db u s now ua ip exp created :
  (S u <= rand_limit)%nat -> sessions_ok db u -> s ∈ ad_sessions db -> exp <= rs_absolute_expires_at s ->
  let f := fun s' => if token_is (rs_token_hash s) s' then rotate_session now (token_hash_at u) ua ip s' else s' in
  let n := mkSession (token_hash_at u) (rs_session_id s) (rs_user_id s) (pg_time exp)
             (pg_time (rs_absolute_expires_at s)) created None None None ua ip in
  live s = true ->
  sessions_ok (set_sessions (map f (ad_sessions db) ++ [n]) db) (S u).
Proof.
  intros Hlim Hok Hs Hexp f n Hlive.
  assert (marks f) as Hf by (apply marks_if, marks_rotate).
  pose proof (ss_rows _ _ Hok s Hs) as [_ (j & Hj & Hfj) Huser _ Hmic _].
  assert (sessions_ok (set_sessions (map f (ad_sessions db)) db) (S u)) as Hok'.
  { assert (auth_inv db (S u)) as HJ by (apply (drawn_more auth_inv) with u; [lia|by intros _]).
    by apply (inv_map f db (S u) Hf HJ). }
  change (set_sessions (map f (ad_sessions db) ++ [n]) db)
    with (set_sessions (ad_sessions (set_sessions (map f (ad_sessions db)) db) ++ [n])
            (set_sessions (map f (ad_sessions db)) db)).
  apply inv_insert; [done|..]; simpl.
  - intros (s' & Hs1 & (s0 & -> & Hs0)%list_elem_of_fmap)%list_elem_of_fmap.
    destruct (Hf s0) as (E & _). rewrite E in Hs1.
    destruct (so_token _ _ _ (ss_rows _ _ Hok s0 Hs0)) as (i & Hi & Ht).
    rewrite Ht in Hs1. apply token_hash_inj in Hs1; lia.
  - split; simpl; try done.
    + exists u. split; [lia|done].
    + exists j. split; [lia|done].
    + by apply pg_time_mono.
    + by rewrite pg_time_idem.
  - intros s' (s0 & -> & Hs0)%list_elem_of_fmap.
    destruct (Hf s0) as (E1 & E2 & E3 & _ & E5 & _ & E7 & _).
    assert (rs_session_id s0 = rs_session_id s -> rs_user_id s0 = rs_user_id s /\
      rs_absolute_expires_at s0 = rs_absolute_expires_at s /\ live (f s0) = false) as Hfam.
    { intros Hid. destruct (ss_family _ _ Hok s0 s Hs0 Hs Hid) as (? & ? & Hone). split_and!; [done..|].
      destruct (live (f s0)) eqn:Hl; [|done]. specialize (Hone (E7 eq_refl) Hlive).
      revert Hl. unfold f, token_is. by rewrite bool_decide_true. }
    unfold family_ok. rewrite E1, E2, E3, E5. simpl. rewrite Hmic.
    split; intros Hid; destruct (Hfam ltac:(congruence)) as (? & ? & Hdead);
      (split_and!; [congruence..|]); intros; congruence.
  - intros Hin. destruct (ss_spent _ _ Hok _ Hin) as [(i & Hi & Ht) _]. apply token_hash_inj in Ht; lia.
  - intros A Hin. rewrite Hmic. by eapply (ss_ends _ _ Hok).
Qed.

Lemma select_session_cases h now seq db row db' :
  select_session h now seq db = Ok (row, db') ->
  db' = db /\ match row with
              | Some s => s ∈ ad_sessions db /\ rs_token_hash s = h
              | None => h ∉ map rs_token_hash (ad_sessions db)
              end.
Proof.
  unfold select_session. intros [= <- <-]. split; [done|].
  destruct (List.filter _ _) as [|s l] eqn:He; simpl.
  - intros (s & Hs1 & Hs2)%list_elem_of_fmap.
    assert (s ∈ List.filter (fun s => bool_decide (rs_token_hash s = h)) (ad_sessions db)) as Hin
      by (apply elem_of_filter_list; split; [done|by apply bool_decide_eq_true]).
    rewrite He in Hin. by apply not_elem_of_nil in Hin.
  - assert (s ∈ List.filter (fun s => bool_decide (rs_token_hash s = h)) (ad_sessions db)) as Hin
      by (rewrite He; left).
    apply elem_of_filter_list in Hin as [? Hh]. by apply bool_decide_eq_true in Hh.
Qed.

(** The third branch of [refresh_write]. *)
Lemma rotate_keeps ctx (s : RefreshSession) now (w : World AuthDB) :
  let h := rs_token_hash s in
  let m := let! newRefresh := newRefreshToken in
    let newHash := HashRefreshToken newRefresh in
    let newRefreshExp := min_time (now + refreshTTL) (rs_absolute_expires_at s) in
    let '(ua, ip) := clientMetaFromContext ctx in
    exec (update_sessions (token_is h) (rotate_session now newHash (nullIfEmpty ua) (nullIfEmpty ip))) ;;;
    exec (insert_session (fun created =>
      mkSession newHash (rs_session_id s) (rs_user_id s) (pg_time newRefreshExp)
        (pg_time (rs_absolute_expires_at s)) created None None None (nullIfEmpty ua) (nullIfEmpty ip))) ;;;
    retM (newRefresh, rs_user_id s) in
  s ∈ ad_sessions (w_db w) -> live s = true ->
  (w_uuid w <= w_uuid (m w).2)%nat /\ (auth_inv (w_db w) (w_uuid w) -> auth_inv (w_db (m w).2) (w_uuid (m w).2)).
Proof.
  intros h m Hin Hlive. subst m. destruct (newRefreshToken_run w) as [[_ Hn]|[_ Hn]];
    [rewrite (bind_ok _ _ _ _ _ Hn)|rewrite (bind_err _ _ _ _ _ Hn); simpl; split; [lia|done]].
  destruct (clientMetaFromContext ctx) as [ua ip]. cbv zeta.
  match goal with |- context [bindM _ _ ?w0] => set (w1 := w0) end.
  assert (auth_inv (w_db w) (w_uuid w) -> auth_inv (w_db w) (S (w_uuid w))) as Hmore
    by (apply (drawn_more auth_inv); lia).
  match goal with |- context [bindM (exec ?s) _ w1] => destruct (exec_cases s w1) as (r & w2 & Hr & Hu & _ & _ & Hc) end.
  destruct Hc as [(Hok & Hdb & _)|(n & -> & Hst)].
  { destruct r as [|e]; [done|]. rewrite (bind_err _ _ _ _ _ Hr). simpl. rewrite Hu, Hdb. simpl. split; [lia|done]. }
  rewrite (bind_ok _ _ _ _ _ Hr). injection Hst as _ Hdb2.
  match goal with |- context [bindM (exec ?s) _ w2] => destruct (exec_cases s w2) as (r & w3 & Hr3 & Hu3 & _ & _ & Hc) end.
  destruct Hc as [(Hok & Hdb & _)|([] & -> & Hst)].
  - destruct r as [|e]; [done|]. rewrite (bind_err _ _ _ _ _ Hr3). simpl. rewrite Hu3, Hu, Hdb, <-Hdb2. simpl.
    split; [lia|]. intros HJ. apply inv_map; [apply marks_if, marks_rotate|]. by apply Hmore.
  - rewrite (bind_ok _ _ _ _ _ Hr3). simpl. rewrite Hu3, Hu. simpl. split; [lia|]. intros HJ Hlim.
    apply insert_session_cases in Hst as (-> & _). rewrite <-Hdb2. simpl.
    refine (inv_rotate (w_db w) (w_uuid w) s now (nullIfEmpty ua) (nullIfEmpty ip)
              (min_time (now + refreshTTL) (rs_absolute_expires_at s)) _ Hlim _ Hin _ Hlive).
    + apply HJ. lia.
    + unfold min_time. destruct (Z.ltb_spec (rs_absolute_expires_at s) (now + refreshTTL)); lia.
Qed.

Lemma keeps_refresh_rotate ctx h : keeps auth_inv (refresh_rotate refreshTTL ctx h).
Proof.
  intros w. unfold refresh_rotate.
  destruct (exec_cases (select_session h) w) as (r & w1 & Hr & Hu & _ & _ & Hc).
  destruct Hc as [(Hok & Hdb & _)|(row & -> & Hst)].
  { destruct r as [|e]; [done|]. rewrite (bind_err _ _ _ _ _ Hr). simpl. by rewrite Hu, Hdb. }
  rewrite (bind_ok _ _ _ _ _ Hr). apply select_session_cases in Hst as [Hdb Hrow]. rewrite <-Hu, <-Hdb in *.
  destruct row as [s|]; [|by split]. destruct Hrow as [Hin <-]. unfold refresh_write.
  match goal with |- context [bindM time_Now ?k _] =>
    change (bindM time_Now k w1) with (k (clock_Now (w_tick w1)) (time_Now w1).2) end.
  cbv beta zeta. destruct (negb _ || negb _) eqn:Hlive; [|destruct ((rs_expires_at s <? _) || _)].
  1,2: refine (_ (_ : keeps auth_inv _)); [intros Hk; exact (Hk (time_Now w1).2)|]; solve_keeps.
  assert (live s = true) as Hl.
  { unfold live. by rewrite orb_false_iff, !negb_false_iff in Hlive; destruct Hlive as [-> ->]. }
  exact (rotate_keeps ctx s (clock_Now (w_tick w1)) (time_Now w1).2 Hin Hl).
Qed.

Lemma autoexec_shape B (s : stmt AuthDB B) (w : World AuthDB) : exists r w', autoexec s w = (r, w') /\ w_uuid w' = w_uuid w /\
  (w_db w' = w_db w \/ exists now sq a, s now sq (w_db w) = Ok (a, w_db w')).
Proof.
  destruct (autoexec_cases s w) as (r & w' & Hr & Hu & _ & Hc). exists r, w'. split_and!; [done..|].
  destruct Hc as [(_ & ? & _)|(now & sq & a & _ & ?)]; eauto.
Qed.
Lemma exec_shape B (s : stmt AuthDB B) (w : World AuthDB) : exists r w', exec s w = (r, w') /\ w_uuid w' = w_uuid w /\
  (w_db w' = w_db w \/ exists now sq a, s now sq (w_db w) = Ok (a, w_db w')).
Proof.
  destruct (exec_cases s w) as (r & w' & Hr & Hu & _ & _ & Hc). exists r, w'. split_and!; [done..|].
  destruct Hc as [(_ & ? & _)|(a & _ & ?)]; eauto.
Qed.

Lemma keeps_redeem h c r v : keeps auth_inv (redeem_code accessTTL refreshTTL h c r v).
Proof.
  unfold redeem_code, redeem_write. apply keeps_bind; [solve_keeps|]. intros [code|]; [|solve_keeps].
  apply keeps_bind; [solve_keeps|]. intros now. apply keeps_bind; [solve_keeps|]. intros _.
  apply keeps_bind; [solve_keeps|]. intros _. apply keeps_bind; [solve_keeps|]. intros [access accessNow].
  apply (keeps_first _ _ _ _ _ (fun B => exec)); [apply exec_shape|]. solve_keeps.
Qed.

Lemma keeps_login ctx email password : keeps auth_inv (Login accessTTL refreshTTL ctx email password).
Proof.
  unfold Login. apply keeps_handler. apply keeps_bind; [solve_keeps|]. intros e. cbv zeta.
  apply keeps_bind; [solve_keeps|]. intros _. destruct (clientMetaFromContext ctx) as [ua ip].
  apply keeps_bind; [solve_keeps|]. intros _. apply keeps_bind; [solve_keeps|]. intros [[uid h]|]; [|solve_keeps].
  apply keeps_bind; [solve_keeps|]. intros ok. destruct (negb ok); [solve_keeps|].
  apply keeps_bind; [solve_keeps|]. intros _. apply keeps_bind; [solve_keeps|]. intros [access accessNow].
  apply (keeps_first _ _ _ _ _ (fun B => autoexec)); [apply autoexec_shape|]. solve_keeps.
Qed.
#[local] Hint Resolve keeps_redeem keeps_login keeps_refresh_rotate keeps_handler : keeps.

(** ** The runs of the service *)
Inductive auth_op : Type :=
| OpCreateOAuthClient (ctx : context) (req : CreateOAuthClientRequest)
| OpGetOAuthClient (ctx : context) (id : string)
| OpListOAuthClients (ctx : context)
| OpDeleteOAuthClient (ctx : context) (id : string)
| OpRotateOAuthClientSecret (ctx : context) (id : string)
| OpGetOAuthConsent (user client : string)
| OpStoreOAuthConsent (user client : string) (scopes : list string)
| OpListOAuthConsentHistory (user client : string) (limit : Z)
| OpOAuthAuthorize (ctx : context) (req : OAuthAuthorizeRequest)
| OpOAuthToken (ctx : context) (req : OAuthTokenRequest)
| OpRegister (email password fullName : string)
| OpLogin (ctx : context) (email password : string)
| OpValidateToken (token : string)
| OpGrantRole (ctx : context) (user role : string)
| OpRevokeRole (ctx : context) (user role : string)
| OpListUserRoles (ctx : context) (user : string)
| OpRefreshToken (ctx : context) (token : string)
| OpLogout (token : string)
| OpLogoutAll (ctx : context) (token : string)
| OpCleanup (retention : Z).

Definition run_op (op : auth_op) : M AuthDB unit :=
  match op with
  | OpCreateOAuthClient ctx req => CreateOAuthClient ctx req ;;; retM tt
  | OpGetOAuthClient ctx id => GetOAuthClient ctx id ;;; retM tt
  | OpListOAuthClients ctx => ListOAuthClients ctx ;;; retM tt
  | OpDeleteOAuthClient ctx id => DeleteOAuthClient ctx id ;;; retM tt
  | OpRotateOAuthClientSecret ctx id => RotateOAuthClientSecret ctx id ;;; retM tt
  | OpGetOAuthConsent u c => GetOAuthConsent u c ;;; retM tt
  | OpStoreOAuthConsent u c scopes => StoreOAuthConsent u c scopes ;;; retM tt
  | OpListOAuthConsentHistory u c n => ListOAuthConsentHistory u c n ;;; retM tt
  | OpOAuthAuthorize ctx req => OAuthAuthorize ctx req ;;; retM tt
  | OpOAuthToken ctx req => OAuthToken accessTTL refreshTTL ctx req ;;; retM tt
  | OpRegister email password name => Register email password name ;;; retM tt
  | OpLogin ctx email password => Login accessTTL refreshTTL ctx email password ;;; retM tt
  | OpValidateToken tok => ValidateToken tok ;;; retM tt
  | OpGrantRole ctx u r => GrantRole ctx u r ;;; retM tt
  | OpRevokeRole ctx u r => RevokeRole ctx u r ;;; retM tt
  | OpListUserRoles ctx u => ListUserRoles ctx u ;;; retM tt
  | OpRefreshToken ctx tok => RefreshToken accessTTL refreshTTL ctx tok ;;; retM tt
  | OpLogout tok => Logout tok ;;; retM tt
  | OpLogoutAll ctx tok => LogoutAll ctx tok ;;; retM tt
  | OpCleanup retention => CleanupRefreshSessions retention ;;; retM tt
  end.

Lemma keeps_op op : keeps auth_inv (run_op op).
Proof.
  destruct op; unfold run_op; (apply keeps_bind; [|solve_keeps]);
    unfold CreateOAuthClient, GetOAuthClient, ListOAuthClients, DeleteOAuthClient, RotateOAuthClientSecret,
      GetOAuthConsent, StoreOAuthConsent, ListOAuthConsentHistory, OAuthAuthorize, OAuthToken, Register,
      ValidateToken, GrantRole, RevokeRole, ListUserRoles, RefreshToken, Logout, LogoutAll, CleanupRefreshSessions;
    first [solve [auto with keeps nocore]|try apply keeps_handler; solve_keeps].
Qed.
End sessions.
