(* ===== verification/AuthProps.v ===== *)
(** * The auth service: properties *)
From S2P Require Import Prelude GoStrings Base64 Sha256 Passwords Invariants Authz Tokens LoginLimiter Auth AuthSpec.
#[local] Open Scope Z_scope.
#[local] Open Scope go_scope.

Lemma handler_ok {DB A} (m : M DB A) w a w' : handler m w = (Ok a, w') -> m w = (Ok a, w').
Proof. unfold handler. by destruct (m w) as [[]]; intros; simplify_eq. Qed.
Lemma handler_run {DB A} (m : M DB A) w : (handler m w).2 = (m w).2.
Proof. unfold handler. by destruct (m w) as [[]]. Qed.
Lemma handler_err {DB A} (m : M DB A) w e w' :
  m w = (Err e, w') -> handler m w = (Err (to_status e), w').
Proof. unfold handler. by intros ->. Qed.

(** Follow a run that succeeded. *)
Ltac inv_run H :=
  lazymatch type of H with
  | bindM _ _ _ = (Ok _, _) =>
      let a := fresh "a" in let w := fresh "w" in let H1 := fresh "Hrun" in
      apply bind_inv in H as (a & w & H1 & H); inv_run H1; inv_run H
  | fail_if _ _ _ = (Ok _, _) => let E := fresh "Hif" in apply fail_if_ok in H as [E ->]
  | handler _ _ = (Ok _, _) => apply handler_ok in H; inv_run H
  | retM _ _ = (Ok _, _) => injection H as <- <-
  | failM _ _ = (Ok _, _) => discriminate H
  | liftR _ _ = (Ok _, _) => let E := fresh "Hlift" in injection H as E <-
  | _ => idtac
  end.

Section auth.
Context `{Env, Random, Argon2, NetLib, Collation, !TokenMaker AuthDB, !TokenMakerOk AuthDB} (rand_limit : nat) `{!RandomOk rand_limit}.
Variables accessTTL refreshTTL : Z.
Implicit Types w : World AuthDB.

(** ** The runs of the service: any requests, any failures

    The requests are handled one after the other. [RefreshToken] and
    [OAuthToken] read a row without locking it, so requests that overlap do
    more than these runs show: [refresh_race] here and [code_race] in
    [AuthFlows.v]. *)
Inductive auth_step : World AuthDB -> World AuthDB -> Prop :=
| step_op op w : auth_step w (run_op accessTTL refreshTTL op w).2
| step_auth_faults fl w :
    auth_step w (mkWorld (w_db w) (w_seq w) (w_uuid w) (w_tick w) (w_tx w) fl (w_sent w)).

Definition auth_init w : Prop := ad_sessions (w_db w) = [] /\ ad_codes (w_db w) = [].
Definition auth_reachable w : Prop := exists w0, auth_init w0 /\ rtc auth_step w0 w.

Lemma steps_keep_inv (J : AuthDB -> nat -> Prop) w w' :
  (forall op, keeps J (run_op accessTTL refreshTTL op)) -> rtc auth_step w w' ->
  (w_uuid w <= w_uuid w')%nat /\ (J (w_db w) (w_uuid w) -> J (w_db w') (w_uuid w')).
Proof.
  intros Hop. induction 1 as [w|w w1 w2 Hs _ [Hu HJ]]; [done|].
  assert ((w_uuid w <= w_uuid w1)%nat /\ (J (w_db w) (w_uuid w) -> J (w_db w1) (w_uuid w1))) as [Hu1 HJ1].
  { destruct Hs as [op w|fl w]; [by apply Hop|done]. }
  split; [lia|auto].
Qed.

Lemma steps_keep spent ends w w' : rtc auth_step w w' ->
  (w_uuid w <= w_uuid w')%nat /\
  (auth_inv rand_limit spent ends (w_db w) (w_uuid w) -> auth_inv rand_limit spent ends (w_db w') (w_uuid w')).
Proof. apply steps_keep_inv. intros op. by apply keeps_op. Qed.

Lemma reachable_sessions_ok w :
  auth_reachable w -> (w_uuid w <= rand_limit)%nat -> sessions_ok [] [] (w_db w) (w_uuid w).
Proof.
  intros (w0 & [Hinit _] & Hst) Hlim. apply (steps_keep [] []) in Hst as [_ HJ]. apply HJ; [|done].
  intros _. split; unfold spent_ok, ends_ok; rewrite ?Hinit; simpl.
  - constructor.
  - by intros s Hs%not_elem_of_nil.
  - by intros s s' Hs%not_elem_of_nil.
  - by intros h Hh%not_elem_of_nil.
  - by intros fam A Hh%not_elem_of_nil.
Qed.

(** Reading the roles and issuing a token leaves the tables alone. *)
Definition same_db (db0 : AuthDB) : AuthDB -> nat -> Prop := fun db _ => db = db0.
#[export] Instance same_db_drawn db0 : Drawn (same_db db0).
Proof. by split. Qed.

Lemma same_db_keeps {A} (m : M AuthDB A) w :
  (forall db0, keeps (same_db db0) m) -> w_db (m w).2 = w_db w /\ (w_uuid w <= w_uuid (m w).2)%nat.
Proof. intros Hm. destruct (Hm (w_db w) w) as [Hu HJ]. split; [by apply HJ|done]. Qed.

Lemma same_db_create db0 p : keeps (same_db db0) (CreateToken p).
Proof. intros w. by rewrite create_pure. Qed.
Lemma same_db_verify db0 tok : keeps (same_db db0) (VerifyToken tok).
Proof. intros w. destruct (verify_pure tok w) as (-> & -> & _). done. Qed.
Lemma same_db_select_roles db0 uid : stmt_keeps (same_db db0) (select_roles uid).
Proof. intros now seq db u a db' HJ [= <- <-]. done. Qed.
Lemma same_db_select_permissions db0 uid : stmt_keeps (same_db db0) (select_permissions uid).
Proof. intros now seq db u a db' HJ [= <- <-]. done. Qed.
#[local] Hint Resolve same_db_create same_db_verify same_db_select_roles same_db_select_permissions : keeps.

Lemma issue_access_same uid w :
  w_db (issue_access accessTTL (fun _ => autoexec) uid w).2 = w_db w /\
  (w_uuid w <= w_uuid (issue_access accessTTL (fun _ => autoexec) uid w).2)%nat.
Proof. apply same_db_keeps. intros db0. unfold issue_access, getRolesAndPermissions. solve_keeps. Qed.

Lemma same_db_permission db0 ctx p : keeps (same_db db0) (requirePermissionFromAuthHeader ctx p).
Proof. unfold requirePermissionFromAuthHeader, verify_access. solve_keeps. Qed.
Lemma permission_same ctx p w : w_db (requirePermissionFromAuthHeader ctx p w).2 = w_db w.
Proof. apply same_db_keeps. intros db0. apply same_db_permission. Qed.
Lemma same_db_userID db0 ctx : keeps (same_db db0) (userIDFromAuthHeader ctx).
Proof. unfold userIDFromAuthHeader, verify_access. solve_keeps. Qed.

(** ** Refresh tokens *)

(** The session a rotation stores. *)
Definition rotated (s : RefreshSession) (h : string) (exp created : Z) (ua ip : option string) : RefreshSession :=
  mkSession h (rs_session_id s) (rs_user_id s) (pg_time exp) (pg_time (rs_absolute_expires_at s)) created
    None None None ua ip.

(** The tables after a rotation of [s] at [now] with the [u]-th reading. *)
Definition rotation (db : AuthDB) (u : nat) (s : RefreshSession) (now created : Z) (ua ip : option string) : AuthDB :=
  let h := token_hash_at u in
  set_sessions
    (map (fun s' => if token_is (rs_token_hash s) s' then rotate_session now h ua ip s' else s') (ad_sessions db)
     ++ [rotated s h (min_time (now + refreshTTL) (rs_absolute_expires_at s)) created ua ip]) db.

Lemma newRefreshToken_ok w tok w' : newRefreshToken w = (Ok tok, w') ->
  tok = raw_EncodeToString URLEncoding (rand_bytes (w_uuid w) 32) /\
  w_db w' = w_db w /\ w_uuid w' = S (w_uuid w) /\ w_tick w' = w_tick w /\ w_tx w' = w_tx w.
Proof. intros Hn. destruct (newRefreshToken_run w) as [[_ Hr]|[_ Hr]]; rewrite Hn in Hr; by simplify_eq. Qed.

Lemma refresh_write_ok ctx s w r w' :
  refresh_write refreshTTL ctx (rs_token_hash s) s w = (Ok r, w') ->
  exists created ua ip, let now := clock_Now (w_tick w) in
    live s = true /\ now <= rs_expires_at s /\ now <= rs_absolute_expires_at s /\
    HashRefreshToken r.1 = token_hash_at (w_uuid w) /\ r.2 = rs_user_id s /\
    w_db w' = rotation (w_db w) (w_uuid w) s now created ua ip /\ w_uuid w' = S (w_uuid w).
Proof.
  unfold refresh_write. intros Hr. apply bind_inv in Hr as (now & w1 & [= <- <-] & Hr).
  destruct (negb _ || negb _) eqn:Hlive; [inv_run Hr; done|].
  destruct ((rs_expires_at s <? _) || _) eqn:Hexp; [inv_run Hr; done|].
  apply bind_inv in Hr as (newRefresh & w2 & Hn & Hr). apply newRefreshToken_ok in Hn as (-> & Hdb & Hu & _).
  destruct (clientMetaFromContext ctx) as [ua ip]. inv_run Hr.
  apply exec_ok in Hrun as ([= <- Hdb1] & Hu1 & _). apply exec_ok in Hrun0 as (Hins & Hu0 & _).
  apply insert_session_cases in Hins as (Hdb0 & _).
  simpl in *. eexists _, (nullIfEmpty ua), (nullIfEmpty ip).
  rewrite orb_false_iff, !negb_false_iff in Hlive. rewrite orb_false_iff in Hexp.
  split_and!; [unfold live; by destruct Hlive as [-> ->]|lia|lia|done|done| |lia].
  rewrite Hdb0, <-Hdb1, Hdb. reflexivity.
Qed.

(** A refresh that succeeds: what it found, what it wrote. *)
Lemma RefreshToken_ok ctx tok w tks w' :
  RefreshToken accessTTL refreshTTL ctx tok w = (Ok tks, w') ->
  exists s created ua ip, let now := clock_Now (S (w_tick w)) in
    s ∈ ad_sessions (w_db w) /\ rs_token_hash s = HashRefreshToken (TrimSpace tok) /\ live s = true /\
    now <= rs_expires_at s /\ now <= rs_absolute_expires_at s /\
    HashRefreshToken (tk_RefreshToken tks) = token_hash_at (w_uuid w) /\
    w_db w' = rotation (w_db w) (w_uuid w) s now created ua ip /\
    (S (w_uuid w) <= w_uuid w')%nat.
Proof.
  unfold RefreshToken. intros Hr. inv_run Hr. destruct a0 as [newRefresh uid]. inv_run Hr.
  destruct a0 as [access anow]. inv_run Hr. simpl.
  pose proof (issue_access_same uid w0) as [Hdb Hu]. rewrite Hrun0 in Hdb, Hu. simpl in Hdb, Hu.
  apply with_tx_ok in Hrun as (w2 & Hrot & Hdb2 & Hu2). unfold refresh_rotate in Hrot.
  apply bind_inv in Hrot as (row & w3 & Hsel & Hrot). apply exec_ok in Hsel as (Hsel & Hu3 & Ht3).
  apply select_session_cases in Hsel as [Hdb3 Hrow]. destruct row as [s|]; [|discriminate Hrot].
  destruct Hrow as [Hin Hh]. rewrite <-Hh in Hrot.
  apply refresh_write_ok in Hrot as (created & ua & ip & Hl & He & Ha & Hn & Huid & Hdbw & Huw).
  simpl in *. exists s, created, ua, ip. rewrite Hu3, Ht3 in *.
  split_and!; try done; [|lia]. by rewrite Hdb, Hdb2, Hdbw, Hdb3.
Qed.

(** C12. Refresh sessions are consistent in every state the service reaches by
    handling requests one after the other, whatever requests come and whatever
    fails: token hashes are unique; every
    session belongs to a stored user, does not outlive its family and is
    revoked once it has been replaced; the sessions of one login share user
    and final expiry, and at most one of them is usable. (Refreshes that
    overlap can leave two of them usable: [refresh_race].) *)
Theorem refresh_sessions_consistent w :
  auth_reachable w -> (w_uuid w <= rand_limit)%nat ->
  NoDup (map rs_token_hash (ad_sessions (w_db w))) /\
  (forall s, s ∈ ad_sessions (w_db w) ->
     has_user (w_db w) (rs_user_id s) = true /\ rs_expires_at s <= rs_absolute_expires_at s /\
     (rs_replaced_by_hash s <> None -> rs_revoked_at s <> None)) /\
  (forall s s', s ∈ ad_sessions (w_db w) -> s' ∈ ad_sessions (w_db w) -> rs_session_id s = rs_session_id s' ->
     rs_user_id s = rs_user_id s' /\ rs_absolute_expires_at s = rs_absolute_expires_at s' /\
     (live s = true -> live s' = true -> s = s')).
Proof.
  intros Hw Hlim. destruct (reachable_sessions_ok w Hw Hlim) as [Hun Hrows Hfam _ _]. split_and!; [done|..].
  - intros s Hs. destruct (Hrows s Hs) as [_ _ Hu He _ Hr]. split_and!; [done..|]. intros Hne Hn. by apply Hne, Hr.
  - intros s s' Hs Hs' Hid. destruct (Hfam s s' Hs Hs' Hid) as (? & ? & Hone). split_and!; [done..|].
    intros Hl Hl'. eapply (NoDup_map_inj rs_token_hash); eauto.
Qed.

Lemma rotation_spent db u s now created ua ip :
  (S u <= rand_limit)%nat -> sessions_ok [] [] db u -> s ∈ ad_sessions db -> live s = true ->
  sessions_ok [rs_token_hash s] [] (rotation db u s now created ua ip) (S u).
Proof.
  intros Hlim Hok Hs Hl.
  assert (sessions_ok [] [] (rotation db u s now created ua ip) (S u)) as [Hun Hrows Hfam _ _].
  { apply (inv_rotate rand_limit); [done..| |done].
    unfold min_time. destruct (Z.ltb_spec (rs_absolute_expires_at s) (now + refreshTTL)); lia. }
  split; [done|done|done| |by intros fam A Hh%not_elem_of_nil].
  intros h ->%list_elem_of_singleton. destruct (so_token _ _ _ (ss_rows _ _ _ _ Hok s Hs)) as (i & Hi & Ht).
  split; [exists i; split; [lia|done]|]. unfold rotation. simpl. intros s' Hs' Heq.
  apply elem_of_app in Hs' as [(s0 & -> & Hs0)%list_elem_of_fmap|Hs'].
  - revert Heq. unfold token_is. case_bool_decide; simpl; [done|]. intros Heq. congruence.
  - apply list_elem_of_singleton in Hs' as ->. simpl in Heq. rewrite Ht in Heq.
    apply (token_hash_inj (rand_limit := rand_limit)) in Heq; lia.
Qed.

(** C13. A refresh token works at most once: after a refresh with it has
    succeeded no later refresh with it succeeds, whatever requests and
    failures come in between. *)
Theorem refresh_token_single_use ctx tok w tks w1 w2 ctx' :
  auth_reachable w -> RefreshToken accessTTL refreshTTL ctx tok w = (Ok tks, w1) ->
  rtc auth_step w1 w2 -> (w_uuid w2 <= rand_limit)%nat ->
  exists e, (RefreshToken accessTTL refreshTTL ctx' tok w2).1 = Err e.
Proof.
  intros Hw Hr Hst Hlim. apply RefreshToken_ok in Hr as (s & created & ua & ip & Hs & Hh & Hl & _ & _ & _ & Hdb & Hu).
  destruct (steps_keep [rs_token_hash s] [] _ _ Hst) as [Hu2 HJ].
  assert (sessions_ok [rs_token_hash s] [] (w_db w2) (w_uuid w2)) as Hok2.
  { apply HJ; [|done]. intros _. eapply sessions_ok_more; [exact Hu|]. rewrite Hdb.
    apply rotation_spent; [lia| |done|done]. apply reachable_sessions_ok; [done|lia]. }
  destruct (RefreshToken accessTTL refreshTTL ctx' tok w2) as [[tks'|e] w3] eqn:Hr2; [|by exists e].
  apply RefreshToken_ok in Hr2 as (s2 & c2 & ua2 & ip2 & Hs2 & Hh2 & Hl2 & _).
  destruct (ss_spent _ _ _ _ Hok2 (rs_token_hash s)) as [_ Hrev]; [by left|].
  destruct (Hrev s2 Hs2); [congruence|]. unfold live in Hl2. by destruct (rs_revoked_at s2).
Qed.

(** A stored token is found. *)
Lemma select_session_found h s now seq db :
  NoDup (map rs_token_hash (ad_sessions db)) -> s ∈ ad_sessions db -> rs_token_hash s = h ->
  select_session h now seq db = Ok (Some s, db).
Proof. intros Hun Hs <-. unfold select_session. by rewrite (filter_unique rs_token_hash _ s). Qed.

(** C38. Detecting reuse revokes nothing: a refresh with a token that was
    already used or revoked is refused, but the updates that should revoke
    every session of its user are rolled back with the transaction, so all
    tables stay as they were and the sessions made from the stolen token live
    on. *)
Theorem refresh_reuse_revokes_nothing ctx tok s w :
  NoDup (map rs_token_hash (ad_sessions (w_db w))) -> s ∈ ad_sessions (w_db w) ->
  rs_token_hash s = HashRefreshToken (TrimSpace tok) -> live s = false ->
  exists e w', RefreshToken accessTTL refreshTTL ctx tok w = (Err e, w') /\ w_db w' = w_db w.
Proof.
  intros Hun Hs Hh Hl. unfold RefreshToken.
  destruct (is_empty (TrimSpace tok)) eqn:Hem.
  { eexists _, _. split; [by apply handler_err|done]. }
  destruct (with_tx_refused (refresh_rotate refreshTTL ctx (HashRefreshToken (TrimSpace tok))) w) as (e & w' & Hr & Hdb).
  - intros r Hr. destruct (refresh_rotate _ _ _ _) as [r' w'] eqn:Hrot. simpl in Hr. subst r'.
    unfold refresh_rotate in Hrot. apply bind_inv in Hrot as (row & w3 & Hsel & Hrot).
    apply exec_ok in Hsel as (Hsel & _). rewrite (select_session_found _ s) in Hsel by done. injection Hsel as <- _.
    rewrite <-Hh in Hrot. apply refresh_write_ok in Hrot as (? & ? & ? & Hl' & _). congruence.
  - eexists _, _. split; [|exact Hdb]. apply handler_err.
    rewrite (bind_ok _ _ _ tt w) by done. by apply bind_err.
Qed.

(** ** Two refreshes at once

    Postgres runs the transactions of two requests at the READ COMMITTED
    level: both can read the row of the token before either writes, and the
    second then writes what it decided on the old row once the first has
    committed. *)
Definition refresh_interleaved (ctx1 ctx2 : context) (h : string) : M AuthDB ((string * string) * (string * string)) :=
  let! row1 := exec (select_session h) in
  let! row2 := exec (select_session h) in
  match row1, row2 with
  | Some s1, Some s2 =>
      let! r1 := refresh_write refreshTTL ctx1 h s1 in
      let! r2 := refresh_write refreshTTL ctx2 h s2 in
      retM (r1, r2)
  | _, _ => failM (unauth "invalid refresh token")
  end.

Lemma rotate_hash (b : bool) now h ua ip s :
  rs_token_hash (if b then rotate_session now h ua ip s else s) = rs_token_hash s.
Proof. by destruct b. Qed.

Lemma rotation_hashes db u s now created ua ip :
  map rs_token_hash (ad_sessions (rotation db u s now created ua ip)) =
  map rs_token_hash (ad_sessions db) ++ [token_hash_at u].
Proof.
  unfold rotation. simpl. rewrite map_app, map_map. f_equal. apply map_ext. intros s'. apply rotate_hash.
Qed.

(** Tokens still to be drawn are not stored. *)
Lemma fresh_hash db u k :
  sessions_ok [] [] db u -> (u <= k < rand_limit)%nat -> token_hash_at k ∉ map rs_token_hash (ad_sessions db).
Proof.
  intros Hok Hk (s0 & Ht & Hs0)%list_elem_of_fmap.
  destruct (so_token _ _ _ (ss_rows _ _ _ _ Hok s0 Hs0)) as (i & Hi & Hti).
  rewrite Hti in Ht. apply (token_hash_inj (rand_limit := rand_limit)) in Ht; lia.
Qed.

(** The session a rotation adds, and what a rotation of the same old token
    leaves of the others. *)
Lemma rotation_adds db u s now created ua ip :
  exists n, n ∈ ad_sessions (rotation db u s now created ua ip) /\ rs_token_hash n = token_hash_at u /\
    rs_session_id n = rs_session_id s /\ live n = true.
Proof. eexists. split; [apply elem_of_app; right; by left|done]. Qed.

Lemma rotation_keeps db u s now created ua ip n :
  n ∈ ad_sessions db -> rs_token_hash n <> rs_token_hash s -> n ∈ ad_sessions (rotation db u s now created ua ip).
Proof.
  intros Hn Hne. apply elem_of_app. left. apply list_elem_of_fmap. exists n. split; [|done].
  unfold token_is. by rewrite bool_decide_false.
Qed.

(** When nothing fails the write of a live session succeeds. *)
Lemma refresh_write_run ctx s w :
  w_faults w = [] -> live s = true ->
  clock_Now (w_tick w) <= rs_expires_at s -> clock_Now (w_tick w) <= rs_absolute_expires_at s ->
  has_user (w_db w) (rs_user_id s) = true ->
  token_hash_at (w_uuid w) ∉ map rs_token_hash (ad_sessions (w_db w)) ->
  exists r w', refresh_write refreshTTL ctx (rs_token_hash s) s w = (Ok r, w') /\ w_faults w' = [] /\
    w_tick w' = S (w_tick w).
Proof.
  destruct w as [db sq u t tx fl sn]. simpl. intros -> Hl He Ha Hu Hnew.
  unfold live in Hl. apply andb_prop in Hl as [Hl1 Hl2].
  unfold refresh_write, bindM, time_Now. simpl. rewrite Hl1, Hl2. simpl.
  destruct (Z.ltb_spec (rs_expires_at s) (clock_Now t)); [lia|].
  destruct (Z.ltb_spec (rs_absolute_expires_at s) (clock_Now t)); [lia|]. simpl.
  destruct (clientMetaFromContext ctx) as [ua ip].
  unfold exec, next_fault, run_stmt, insert_session. simpl.
  change (HashRefreshToken (raw_EncodeToString URLEncoding (rand_bytes u 32))) with (token_hash_at u).
  rewrite (proj2 (existsb_false_list _ _)).
  - unfold has_user in Hu. simpl in Hu. unfold has_user. simpl. rewrite Hu. simpl. eauto.
  - intros s' (s0 & -> & Hs0)%list_elem_of_fmap. apply bool_decide_eq_false. intros Heq. apply Hnew.
    rewrite <-Heq, rotate_hash. by apply (list_elem_of_fmap_2 rs_token_hash).
Qed.

(** Two refreshes at once defeat rotation: if both read the session
    before either has written, both succeed, and afterwards the login has two
    usable refresh tokens. *)
Theorem refresh_race ctx1 ctx2 s w :
  w_faults w = [] -> (w_uuid w + 2 <= rand_limit)%nat -> sessions_ok [] [] (w_db w) (w_uuid w) ->
  s ∈ ad_sessions (w_db w) -> live s = true ->
  (forall k, (k < 2)%nat -> clock_Now (w_tick w + k) <= rs_expires_at s) ->
  exists r1 r2 w' s1 s2, refresh_interleaved ctx1 ctx2 (rs_token_hash s) w = (Ok (r1, r2), w') /\
    s1 ∈ ad_sessions (w_db w') /\ s2 ∈ ad_sessions (w_db w') /\
    rs_token_hash s1 = HashRefreshToken r1.1 /\ rs_token_hash s2 = HashRefreshToken r2.1 /\
    rs_token_hash s1 <> rs_token_hash s2 /\ rs_session_id s1 = rs_session_id s2 /\
    live s1 = true /\ live s2 = true.
Proof.
  intros Hfl Hlim Hok Hs Hl Hclock. destruct w as [db sq u t tx fl sn]. simpl in *. subst fl.
  pose proof (ss_rows _ _ _ _ Hok s Hs) as [_ _ Huser Hexp _ _].
  assert (forall sq', exec (select_session (rs_token_hash s)) (mkWorld db sq' u t tx [] sn) =
    (Ok (Some s), mkWorld db (sq' + 1) u t tx [] sn)) as Hsel.
  { intros sq'. unfold exec, next_fault, run_stmt. cbn [w_faults w_tx w_seq w_db].
    by rewrite (select_session_found _ s _ _ _ (ss_unique _ _ _ _ Hok) Hs eq_refl). }
  pose proof (Hclock 0%nat ltac:(lia)) as Hc0. pose proof (Hclock 1%nat ltac:(lia)) as Hc1.
  rewrite Nat.add_0_r in Hc0. rewrite Nat.add_1_r in Hc1.
  destruct (refresh_write_run ctx1 s (mkWorld db (sq + 1 + 1) u t tx [] sn)) as (r1 & w1 & Hr1 & Hf1 & Ht1);
    simpl; try done; [lia|apply (fresh_hash db u); [done|lia]|].
  pose proof (refresh_write_ok _ _ _ _ _ Hr1) as (c1 & ua1 & ip1 & _ & _ & _ & Hh1 & _ & Hdb1 & Hu1). simpl in *.
  assert (token_hash_at u <> token_hash_at (S u)) as Hne.
  { intros Heq. apply (token_hash_inj (rand_limit := rand_limit)) in Heq; lia. }
  destruct (refresh_write_run ctx2 s w1) as (r2 & w2 & Hr2 & Hf2 & Ht2); rewrite ?Ht1; try done; [lia|by rewrite Hdb1|..].
  { rewrite Hu1, Hdb1, rotation_hashes. intros [Hin|Hin%list_elem_of_singleton]%elem_of_app; [|done].
    apply (fresh_hash db u (S u)); [done|lia|done]. }
  pose proof (refresh_write_ok _ _ _ _ _ Hr2) as (c2 & ua2 & ip2 & _ & _ & _ & Hh2 & _ & Hdb2 & Hu2). rewrite Hu1 in *.
  destruct (rotation_adds db u s (clock_Now t) c1 ua1 ip1) as (n1 & Hn1 & Hhn1 & Hid1 & Hl1).
  destruct (rotation_adds (w_db w1) (S u) s (clock_Now (w_tick w1)) c2 ua2 ip2) as (n2 & Hn2 & Hhn2 & Hid2 & Hl2).
  exists r1, r2, w2, n1, n2. split_and!; try congruence.
  - unfold refresh_interleaved. rewrite (bind_ok _ _ _ _ _ (Hsel sq)), (bind_ok _ _ _ _ _ (Hsel (sq + 1))), (bind_ok _ _ _ _ _ Hr1).
    by rewrite (bind_ok _ _ _ _ _ Hr2).
  - rewrite Hdb2. apply rotation_keeps; [by rewrite Hdb1|]. rewrite Hhn1. intros Heq.
    apply (fresh_hash db u u Hok); [lia|]. rewrite Heq. by apply (list_elem_of_fmap_2 rs_token_hash).
Qed.

(** ** Issuing tokens *)
Definition runs (run : forall A, stmt AuthDB A -> M AuthDB A) : Prop :=
  forall A (s : stmt AuthDB A) w a w', run A s w = (Ok a, w') ->
    (exists now sq, s now sq (w_db w) = Ok (a, w_db w')) /\ w_uuid w' = w_uuid w.

Lemma autoexec_runs : runs (fun _ => autoexec).
Proof. intros A s w a w'. apply autoexec_ok. Qed.
Lemma on_pool_runs : runs (fun _ => on_pool).
Proof.
  intros A s w a w'. unfold on_pool. destruct (autoexec s w) as [r w1] eqn:Hr. intros [= -> <-]. simpl.
  by apply autoexec_ok.
Qed.

(** The payload of the access tokens: the user, with exactly the roles and
    permissions stored for it. *)
Definition access_payload (db : AuthDB) (uid : string) (accessNow : Z) : TokenPayload :=
  mkTokenPayload uid (text_sort (roles_of db uid)) (text_sort (permissions_of db uid)) 0
    accessNow (accessNow + accessTTL).

Lemma issue_access_ok run uid w access accessNow w' :
  runs run -> issue_access accessTTL run uid w = (Ok (access, accessNow), w') ->
  (exists wc, (CreateToken (access_payload (w_db w) uid accessNow) wc).1 = Ok access) /\
  w_db w' = w_db w /\ w_uuid w' = w_uuid w.
Proof.
  intros Hrun Hi. unfold issue_access, getRolesAndPermissions in Hi.
  apply bind_inv in Hi as ([roles perms] & w1 & Hg & Hi).
  apply bind_inv in Hg as (roles' & w2 & Hr & Hg). apply Hrun in Hr as ((n1 & q1 & [= <- Hdb2]) & Hu2).
  apply bind_inv in Hg as (perms' & w3 & Hp & Hg). apply Hrun in Hp as ((n2 & q2 & [= <- Hdb3]) & Hu3).
  destruct (text_sort (roles_of (w_db w) uid)) as [|r rs] eqn:Hrs; [discriminate Hg|]. injection Hg as <- <- <-.
  apply bind_inv in Hi as (now & w4 & [= <- <-] & Hi). apply bind_inv in Hi as (acc & w5 & Hc & Hi).
  injection Hi as <- <- <-.
  match type of Hc with CreateToken ?p ?wc = _ => pose proof (create_pure p wc) as Hpure end.
  rewrite Hc in Hpure. simpl in Hpure. subst w5. simpl in *. rewrite <-Hdb3, <-Hdb2. split_and!; [|done|congruence].
  eexists. unfold access_payload. rewrite Hrs, Hdb2. by rewrite Hc.
Qed.

(** *** Login *)
Lemma limiter_op_same key w :
  let ops := [login_allow key; login_failed key; login_succeeded key] in
  forall m, m ∈ ops -> exists l, w_db (m w).2 = set_limiter l (w_db w) /\ w_uuid (m w).2 = w_uuid w.
Proof.
  intros ops m Hm. assert (forall db, set_limiter (ad_limiter db) db = db) as Hsame by (by intros []).
  subst ops. rewrite !elem_of_cons, elem_of_nil in Hm. destruct Hm as [->|[->|[->|[]]]];
    unfold login_allow, login_failed, login_succeeded, bindM, get_limiter; simpl;
    destruct (ad_limiter (w_db w)) as [l|] eqn:Hl;
    try (exists None; split; [rewrite <-Hl; symmetry; apply Hsame|done]).
  - unfold time_Now. simpl. destruct (limiter_allow _ _ _) as [[al until] l']. unfold fail_if.
    destruct al; simpl; eauto.
  - simpl; eauto.
  - simpl; eauto.
Qed.

(** A login that succeeds. *)
Lemma Login_ok ctx email password w tks w' :
  Login accessTTL refreshTTL ctx email password w = (Ok tks, w') ->
  exists e u accessNow wc created ua ip i,
    normalizeEmail email = Ok e /\ u ∈ ad_users (w_db w) /\ au_email u = e /\
    VerifyPassword (TrimSpace password) (au_password_hash u) = Ok true /\
    (CreateToken (access_payload (w_db w) (au_id u) accessNow) wc).1 = Ok (tk_AccessToken tks) /\
    HashRefreshToken (tk_RefreshToken tks) = token_hash_at i /\ (w_uuid w <= i)%nat /\ w_uuid w' = S i /\
    ad_users (w_db w') = ad_users (w_db w) /\
    ad_sessions (w_db w') = ad_sessions (w_db w) ++
      [first_session (token_hash_at i) (au_id u) (accessNow + refreshTTL) ua ip created].
Proof.
  unfold Login. intros Hr. apply handler_ok in Hr. apply bind_inv in Hr as (e & w0 & [= He <-] & Hr).
  cbv zeta in Hr. apply bind_inv in Hr as (u0 & w1 & Hf & Hr). apply fail_if_ok in Hf as [_ ->].
  destruct (clientMetaFromContext ctx) as [ua ip]. apply bind_inv in Hr as (u1 & w2 & Hal & Hr).
  destruct (limiter_op_same (login_key e ip) w (login_allow (login_key e ip))) as (l & Hdb2 & Hu2); [by left|].
  rewrite Hal in Hdb2, Hu2. simpl in Hdb2, Hu2.
  apply bind_inv in Hr as (row & w3 & Hsel & Hr). apply autoexec_ok in Hsel as ((n1 & q1 & [= Hrow Hdb3]) & Hu3).
  destruct row as [[uid h]|]; [|by apply bind_inv in Hr as (? & ? & _ & ?)].
  apply bind_inv in Hr as (ok & w4 & [= Hv <-] & Hr). destruct ok; [|by apply bind_inv in Hr as (? & ? & _ & ?)].
  simpl in Hr. apply bind_inv in Hr as (u2 & w5 & Hs & Hr).
  destruct (limiter_op_same (login_key e ip) w3 (login_succeeded (login_key e ip))) as (l' & Hdb5 & Hu5); [right; right; left|].
  rewrite Hs in Hdb5, Hu5. simpl in Hdb5, Hu5.
  apply bind_inv in Hr as ([access accessNow] & w6 & Hi & Hr).
  apply (issue_access_ok _ _ _ _ _ _ autoexec_runs) in Hi as ((wc & Hc) & Hdb6 & Hu6).
  apply bind_inv in Hr as (refresh & w7 & Hn & Hr). apply newRefreshToken_ok in Hn as (-> & Hdb7 & Hu7 & _).
  apply bind_inv in Hr as (u3 & w8 & Hins & Hr). injection Hr as <- <-.
  apply autoexec_ok in Hins as ((n2 & q2 & Hins) & Hu8). apply insert_session_cases in Hins as (Hdb8 & _).
  destruct (List.filter _ _) as [|u us] eqn:Hfl; [discriminate Hrow|]. injection Hrow as <- <-.
  assert (u ∈ List.filter (fun u => bool_decide (au_email u = e)) (ad_users (w_db w2))) as Hin by (rewrite Hfl; left).
  apply elem_of_filter_list in Hin as [Hin Hem]. apply bool_decide_eq_true in Hem.
  rewrite Hdb2 in Hin. simpl in Hin.
  assert (access_payload (w_db w5) (au_id u) accessNow = access_payload (w_db w) (au_id u) accessNow) as Hp
    by (rewrite Hdb5, <-Hdb3, Hdb2; done).
  rewrite Hp in Hc. exists e, u, accessNow, wc. eexists _, _, _, (w_uuid w6). split_and!; try done.
  - apply Nat.eq_le_incl. congruence.
  - congruence.
  - by rewrite Hdb8, Hdb7, Hdb6, Hdb5, <-Hdb3, Hdb2.
  - rewrite Hdb8, Hdb7, Hdb6, Hdb5, <-Hdb3, Hdb2. reflexivity.
Qed.

Lemma text_insert_perm x l : text_insert x l ≡ₚ x :: l.
Proof.
  induction l as [|y l IH]; simpl; [done|]. destruct (text_leb x y); [done|]. rewrite IH. apply Permutation_swap.
Qed.
Lemma text_sort_perm l : text_sort l ≡ₚ l.
Proof. induction l as [|x l IH]; simpl; [done|]. by rewrite text_insert_perm, IH. Qed.

(** C19. Login is sound: it succeeds only for a stored user whose password
    hash accepts the password given, the access token it returns was issued
    for that user with exactly its stored roles and permissions, and the only
    change to the users and sessions is one new usable session of that user
    under the hash of the refresh token returned. *)
Theorem login_sound ctx email password w tks w' :
  Login accessTTL refreshTTL ctx email password w = (Ok tks, w') ->
  exists e u p wc s,
    normalizeEmail email = Ok e /\ u ∈ ad_users (w_db w) /\ au_email u = e /\
    VerifyPassword (TrimSpace password) (au_password_hash u) = Ok true /\
    (CreateToken p wc).1 = Ok (tk_AccessToken tks) /\
    tp_UserID p = au_id u /\ tp_Roles p ≡ₚ roles_of (w_db w) (au_id u) /\
    tp_Permissions p ≡ₚ permissions_of (w_db w) (au_id u) /\ tp_ExpiredAt p = tp_IssuedAt p + accessTTL /\
    ad_users (w_db w') = ad_users (w_db w) /\ ad_sessions (w_db w') = ad_sessions (w_db w) ++ [s] /\
    rs_token_hash s = HashRefreshToken (tk_RefreshToken tks) /\ rs_user_id s = au_id u /\ live s = true.
Proof.
  intros (e & u & accessNow & wc & created & ua & ip & i & He & Hu & Hem & Hv & Hc & Hh & _ & _ & Hus & Hse)%Login_ok.
  exists e, u, (access_payload (w_db w) (au_id u) accessNow), wc. eexists. split_and!; try done.
  - apply text_sort_perm.
  - apply text_sort_perm.
Qed.

(** A login lasts no longer than [refreshTTL]: however often its refresh
    token is rotated, a refresh within the family of sessions a login started
    succeeds only until [refreshTTL] after the instant the login's access
    token was issued at. *)
Theorem login_lifetime_bounded ctx email password w tks w1 :
  auth_reachable w -> Login accessTTL refreshTTL ctx email password w = (Ok tks, w1) ->
  exists p wc, (CreateToken p wc).1 = Ok (tk_AccessToken tks) /\
  forall w2 ctx' tok tks' w3 s,
    rtc auth_step w1 w2 -> (w_uuid w2 <= rand_limit)%nat ->
    s ∈ ad_sessions (w_db w2) -> rs_session_id s = HashRefreshToken (tk_RefreshToken tks) ->
    rs_token_hash s = HashRefreshToken (TrimSpace tok) ->
    RefreshToken accessTTL refreshTTL ctx' tok w2 = (Ok tks', w3) ->
    clock_Now (S (w_tick w2)) <= tp_IssuedAt p + refreshTTL.
Proof.
  intros Hw (e & u & accessNow & wc & created & ua & ip & i & _ & Hu & _ & _ & Hc & Hh & Hi & Hu1 & Hus & Hse)%Login_ok.
  exists (access_payload (w_db w) (au_id u) accessNow), wc. split; [done|]. simpl.
  intros w2 ctx' tok tks' w3 s Hst Hlim Hs Hfam Htok Hr.
  destruct (steps_keep [] [(token_hash_at i, pg_time (accessNow + refreshTTL))] _ _ Hst) as [Hu2 HJ].
  assert (sessions_ok [] [(token_hash_at i, pg_time (accessNow + refreshTTL))] (w_db w2) (w_uuid w2)) as Hok.
  { apply HJ; [|done]. intros Hl1. rewrite Hu1 in *.
    assert (sessions_ok [] [] (w_db w) i) as Hok0.
    { eapply sessions_ok_more; [exact Hi|]. apply reachable_sessions_ok; [done|lia]. }
    assert (has_user (w_db w) (au_id u) = true) as Huser.
    { apply existsb_true_list. exists u. split; [done|]. by apply bool_decide_eq_true. }
    pose proof (inv_first_session rand_limit [] [] (w_db w) i (au_id u) (accessNow + refreshTTL) ua ip created
      Hl1 Hok0 Huser) as [Hun Hrows Hfm _ _].
    simpl in *. split; rewrite ?Hse; [done| |done|by intros h Hh'%not_elem_of_nil|].
    - intros s' Hs'. eapply session_ok_more; [|done|by apply Hrows]. unfold has_user. by rewrite Hus.
    - intros fam A [= -> ->]%list_elem_of_singleton. split; [exists i; split; [lia|done]|]. rewrite Hse.
      intros s' [Hs'|Hs']%elem_of_app Hf.
      + destruct (so_family _ _ _ (ss_rows _ _ _ _ Hok0 s' Hs')) as (j & Hj & Hfj). rewrite Hfj in Hf.
        apply (token_hash_inj (rand_limit := rand_limit)) in Hf; lia.
      + by apply list_elem_of_singleton in Hs' as ->. }
  apply RefreshToken_ok in Hr as (s2 & c2 & ua2 & ip2 & Hs2 & Hh2 & _ & _ & Hnow & _).
  assert (s2 = s) as -> by (eapply (NoDup_map_inj rs_token_hash); [apply (ss_unique _ _ _ _ Hok)|done|done|congruence]).
  destruct (ss_ends _ _ _ _ Hok (token_hash_at i) (pg_time (accessNow + refreshTTL))) as [_ Hend]; [by left|].
  specialize (Hend s Hs ltac:(congruence)). pose proof (pg_time_le (accessNow + refreshTTL)). lia.
Qed.

(** ** Administration *)
Definition admin_context (op : auth_op) : option context :=
  match op with
  | OpCreateOAuthClient ctx _ | OpGetOAuthClient ctx _ | OpListOAuthClients ctx | OpDeleteOAuthClient ctx _
  | OpRotateOAuthClientSecret ctx _ | OpGrantRole ctx _ _ | OpRevokeRole ctx _ _ | OpListUserRoles ctx _ => Some ctx
  | _ => None
  end.

Lemma requirePermission_ok ctx perm w u w' :
  requirePermissionFromAuthHeader ctx perm w = (Ok u, w') ->
  exists p, (VerifyToken (token_of bearer_fold ctx) w).1 = Ok p /\ perm ∈ tp_Permissions p.
Proof.
  unfold requirePermissionFromAuthHeader, verify_access. cbv zeta. intros Hr.
  apply bind_inv in Hr as (u0 & w0 & Hf & Hr). apply fail_if_ok in Hf as [_ ->].
  apply bind_inv in Hr as (p & w1 & Hv & Hr). apply fail_if_ok in Hr as [Hp _].
  apply negb_false_iff, existsb_true_list in Hp as (q & Hq & Heq). apply bool_decide_eq_true in Heq. subst q.
  exists p. split; [|done]. unfold bindM, tryM in Hv. destruct (VerifyToken _ w) as [[p'|e] w2]; [|done]. by injection Hv as ->.
Qed.

Lemma guarded {A} (m : M AuthDB A) ctx perm w :
  (exists p, (VerifyToken (token_of bearer_fold ctx) w).1 = Ok p /\ perm ∈ tp_Permissions p) \/
  let m' := requirePermissionFromAuthHeader ctx perm ;;; m in
  (exists e, (m' w).1 = Err e) /\ w_db (m' w).2 = w_db w.
Proof.
  destruct (requirePermissionFromAuthHeader ctx perm w) as [[u|e] w'] eqn:Hr.
  - left. by eapply requirePermission_ok.
  - right. simpl. rewrite (bind_err _ _ _ _ _ Hr). split; [eauto|]. simpl.
    pose proof (permission_same ctx perm w) as Hdb. by rewrite Hr in Hdb.
Qed.

(** Administration is for administrators: creating, reading, listing,
    deleting a client, rotating its secret, granting, revoking and listing
    roles all fail and change nothing unless the caller's bearer token
    verifies and carries the permission [auth:admin]. *)
Theorem admin_only op ctx w :
  admin_context op = Some ctx ->
  (exists p, (VerifyToken (token_of bearer_fold ctx) w).1 = Ok p /\ "auth:admin" ∈ tp_Permissions p) \/
  (exists e, (run_op accessTTL refreshTTL op w).1 = Err e) /\ w_db (run_op accessTTL refreshTTL op w).2 = w_db w.
Proof.
  assert (forall A (m m0 : M AuthDB A), m0 w = (requirePermissionFromAuthHeader ctx "auth:admin" ;;; m) w ->
    (exists p, (VerifyToken (token_of bearer_fold ctx) w).1 = Ok p /\ "auth:admin" ∈ tp_Permissions p) \/
    (exists e, ((handler m0 ;;; retM tt) w).1 = Err e) /\ w_db ((handler m0 ;;; retM tt) w).2 = w_db w) as Hg.
  { intros A m m0 Hm0. destruct (guarded m ctx "auth:admin" w) as [?|[[e He] Hdb]]; [by left|right]. simpl in *.
    rewrite <-Hm0 in *. destruct (m0 w) as [r w'] eqn:Hm. simpl in *. subst r.
    rewrite (bind_err _ _ _ _ _ (handler_err _ _ _ _ Hm)). simpl. eauto. }
  destruct op; simpl; intros [= ->];
    unfold CreateOAuthClient, GetOAuthClient, ListOAuthClients, DeleteOAuthClient, RotateOAuthClientSecret,
      GrantRole, RevokeRole, ListUserRoles, role_request;
    (eapply Hg; first [by rewrite bind_assoc|reflexivity]).
Qed.
End auth.
