(* ===== verification/AuthCodes.v ===== *)
(** * The auth service: authorization codes

    A second invariant of the runs of the service, for the codes of
    [OAuthAuthorize] and [OAuthToken], and what these handlers promise. *)
From S2P Require Import Prelude GoStrings Base64 Sha256 Passwords Invariants Authz Tokens LoginLimiter Auth AuthSpec AuthProps.
#[local] Open Scope Z_scope.
#[local] Open Scope go_scope.

(** Characters of an encoded string are neither blank nor part of a
    multi-byte space. *)
Definition solid_alphabet (enc : Encoding) : bool :=
  forallb (fun v => solid (encode_char enc v)) (map Z.of_nat (seq 0 64)).
Lemma URLEncoding_solid : solid_alphabet URLEncoding = true.
Proof. vm_compute. reflexivity. Qed.

Lemma TrimSpace_encoded enc b : solid_alphabet enc = true ->
  TrimSpace (raw_EncodeToString enc b) = raw_EncodeToString enc b.
Proof.
  intros Hs. apply TrimSpace_solid. intros c (v & Hv & ->)%raw_Encode_chars.
  unfold solid_alphabet in Hs. rewrite forallb_forall in Hs. apply Hs, in_map_iff.
  exists (Z.to_nat v). unfold is_sextet in Hv. split; [lia|]. apply in_seq. lia.
Qed.

(** The hash of a code drawn at reading [i]. *)
Lemma code_hash `{Random} i :
  hashB64URLSHA256 (raw_EncodeToString URLEncoding (rand_bytes i 32)) = token_hash_at i.
Proof. unfold token_hash_at, HashRefreshToken. by rewrite TrimSpace_encoded. Qed.

Section codes.
Context `{Env, Random, Argon2, NetLib, Collation, !TokenMaker AuthDB, !TokenMakerOk AuthDB} (rand_limit : nat) `{!RandomOk rand_limit}.
Variables accessTTL refreshTTL : Z.
(** Code hashes known to be redeemed. *)
Variable redeemed : list string.

(** Codes were drawn before, and those known to be redeemed are marked. *)
Record codes_ok (db : AuthDB) (u : nat) : Prop := {
  cs_drawn : forall c, c ∈ ad_codes db -> exists i, (i < u)%nat /\ ac_code_hash c = token_hash_at i;
  cs_redeemed : forall h, h ∈ redeemed -> exists i, (i < u)%nat /\ h = token_hash_at i;
  cs_consumed : forall c, c ∈ ad_codes db -> ac_code_hash c ∈ redeemed -> ac_consumed_at c <> None;
}.
Definition code_inv (db : AuthDB) (u : nat) : Prop := (u <= rand_limit)%nat -> codes_ok db u.

Lemma codes_ok_more db u u' : (u <= u')%nat -> codes_ok db u -> codes_ok db u'.
Proof.
  intros Hu [Hd Hr Hc]. split; [| |done].
  - intros c Hin. destruct (Hd c Hin) as (i & ? & ?). exists i. split; [lia|done].
  - intros h Hh. destruct (Hr h Hh) as (i & ? & ?). exists i. split; [lia|done].
Qed.

#[export] Instance code_inv_drawn : Drawn code_inv.
Proof. split. intros db u u' Hu HJ Hlim. eapply codes_ok_more; [exact Hu|]. apply HJ. lia. Qed.

(** Rows may go, and may be marked. *)
Lemma codes_elsewhere {A} (s : stmt AuthDB A) :
  (forall now seq db a db' c, s now seq db = Ok (a, db') -> c ∈ ad_codes db' ->
     exists c0, c0 ∈ ad_codes db /\ ac_code_hash c = ac_code_hash c0 /\
       (ac_consumed_at c0 <> None -> ac_consumed_at c <> None)) ->
  stmt_keeps code_inv s.
Proof.
  intros Hs now seq db u a db' HJ Hst Hlim. destruct (HJ Hlim) as [Hd Hr Hc]. split; [|done|].
  - intros c Hin. destruct (Hs _ _ _ _ _ _ Hst Hin) as (c0 & Hin0 & -> & _). auto.
  - intros c Hin. destruct (Hs _ _ _ _ _ _ Hst Hin) as (c0 & Hin0 & -> & Hm). auto.
Qed.

Lemma codes_update_consumed h now : stmt_keeps code_inv (update_code_consumed h now).
Proof.
  apply codes_elsewhere. intros n sq db a db' c [= <- <-] (c0 & -> & Hc0)%list_elem_of_fmap.
  exists c0. unfold consume_code. by destruct (_ && _).
Qed.
Lemma codes_delete_client id : stmt_keeps code_inv (delete_client id).
Proof.
  apply codes_elsewhere. intros n sq db a db' c [= <- <-] [Hc _]%elem_of_filter_list. by exists c.
Qed.

Ltac solve_codes :=
  apply codes_elsewhere; intros ? ? ? ? ? c Hst Hc; exists c; split; [|done];
  unfold insert_user, insert_user_role, delete_user_role, select_user_by_email, select_role_id, select_roles,
    select_permissions, select_session, insert_session, update_sessions, delete_sessions, insert_client,
    select_client, select_clients, update_client_secret, select_code, select_consent, upsert_consent,
    insert_consent_history, select_consent_history in Hst;
  repeat case_match; simplify_eq; exact Hc.

Lemma codes_handler {A} (m : M AuthDB A) : keeps code_inv m -> keeps code_inv (handler m).
Proof. intros Hm w. specialize (Hm w). unfold handler. by destruct (m w) as [[]]. Qed.
Lemma codes_on_pool {A} (s : stmt AuthDB A) : stmt_keeps code_inv s -> keeps code_inv (on_pool s).
Proof.
  intros Hs w. destruct (keeps_autoexec _ s Hs w) as [Hu HJ]. unfold on_pool. by destruct (autoexec s w).
Qed.
Lemma codes_create p : keeps code_inv (CreateToken p).
Proof. intros w. by rewrite create_pure. Qed.
Lemma codes_verify tok : keeps code_inv (VerifyToken tok).
Proof. intros w. destruct (verify_pure tok w) as (-> & -> & _). done. Qed.
Lemma codes_limiter key m :
  m ∈ [login_allow key; login_failed key; login_succeeded key] -> keeps code_inv m.
Proof.
  intros Hm w. destruct (limiter_op_same key w m Hm) as (l & -> & ->). split; [done|].
  intros HJ Hlim. by destruct (HJ Hlim).
Qed.
Lemma codes_login_allow key : keeps code_inv (login_allow key).
Proof. apply (codes_limiter key). set_solver. Qed.
Lemma codes_login_failed key : keeps code_inv (login_failed key).
Proof. apply (codes_limiter key). set_solver. Qed.
Lemma codes_login_succeeded key : keeps code_inv (login_succeeded key).
Proof. apply (codes_limiter key). set_solver. Qed.

#[local] Hint Resolve codes_update_consumed codes_delete_client codes_create codes_verify codes_on_pool
  codes_login_allow codes_login_failed codes_login_succeeded : keeps.
#[local] Hint Extern 5 (stmt_keeps code_inv _) => solve_codes : keeps.

(** A code is drawn and stored under its hash. *)
Lemma insert_code_cases h c u r sc ch me exp now seq db a db' :
  insert_code h c u r sc ch me exp now seq db = Ok (a, db') ->
  exists scopes, sc = Some scopes /\
    db' = set_codes (ad_codes db ++ [mkCode h c u r scopes ch me (pg_time exp) None (pg_time now)]) db.
Proof.
  unfold insert_code. destruct sc as [scopes|]; [|done]. destruct (existsb _ _); [done|]. destruct (_ || _); [done|].
  intros [= _ <-]. eauto.
Qed.

Lemma inv_code db u c :
  (S u <= rand_limit)%nat -> codes_ok db u -> ac_code_hash c = token_hash_at u ->
  codes_ok (set_codes (ad_codes db ++ [c]) db) (S u).
Proof.
  intros Hlim Hok Hh. pose proof (codes_ok_more db u (S u) ltac:(lia) Hok) as [Hd Hr Hc]. split; [|done|]; simpl.
  - intros c' [?| ->%list_elem_of_singleton]%elem_of_app; [auto|]. exists u. split; [lia|done].
  - intros c' [?| ->%list_elem_of_singleton]%elem_of_app Hin; [auto|]. rewrite Hh in Hin.
    destruct (cs_redeemed _ _ Hok _ Hin) as (i & Hi & Heq). apply (token_hash_inj (rand_limit := rand_limit)) in Heq; lia.
Qed.

(** The end of [OAuthAuthorize]. *)
Lemma codes_new {A} client uid redirect scopes challenge method (k : string -> M AuthDB A) :
  (forall r, keeps code_inv (k r)) ->
  keeps code_inv (let! code := randomB64URL 32 in
    let! now := time_Now in
    autoexec (insert_code (hashB64URLSHA256 code) client uid redirect scopes challenge method (now + 300000000000)) ;;;
    k code).
Proof.
  intros Hk w. change (randomB64URL 32) with newRefreshToken.
  destruct (newRefreshToken_run w) as [[_ Hn]|[_ Hn]]; [rewrite (bind_ok _ _ _ _ _ Hn)|
    rewrite (bind_err _ _ _ _ _ Hn); simpl; split; [lia|done]].
  rewrite (bind_ok time_Now _ _ _ _ eq_refl), code_hash.
  match goal with |- context [bindM (autoexec ?s) _ ?w0] => set (st := s); set (w1 := w0) end.
  destruct (autoexec_shape _ st w1) as (r & w' & Hr & Hu & Hdb).
  assert (code_inv (w_db w) (w_uuid w) -> code_inv (w_db w') (w_uuid w')) as HJ.
  { rewrite Hu. intros HJ. destruct Hdb as [->|(n & sq & a & Hst)].
    - by eapply (drawn_more code_inv); [|exact HJ]; simpl; lia.
    - apply insert_code_cases in Hst as (sc & _ & ->). intros Hlim. apply inv_code; [done| |done]. apply HJ. simpl in *. lia. }
  destruct r as [[]|e].
  - rewrite (bind_ok _ _ _ _ _ Hr).
    destruct (Hk (raw_EncodeToString URLEncoding (rand_bytes (w_uuid w) 32)) w') as [Hu' HJ'].
    split; [rewrite Hu in Hu'; simpl in *; lia|]. intros HJ0. by apply HJ', HJ.
  - rewrite (bind_err _ _ _ _ _ Hr). split; [simpl; rewrite Hu; simpl; lia|done].
Qed.

Lemma codes_fetch id : keeps code_inv (fetch_or_invalid id).
Proof. unfold fetch_or_invalid, fetchOAuthClient. solve_keeps. Qed.
Lemma codes_userID ctx : keeps code_inv (userIDFromAuthHeader ctx).
Proof. unfold userIDFromAuthHeader, verify_access. solve_keeps. Qed.
#[local] Hint Resolve codes_fetch codes_userID : keeps.

Lemma codes_authorize ctx req : keeps code_inv (OAuthAuthorize ctx req).
Proof.
  unfold OAuthAuthorize. apply codes_handler. cbv zeta.
  repeat (apply keeps_bind; [solve [auto with keeps nocore]|intros ?]).
  apply (codes_new _ _ _ _ _ _ (fun code => retM (code, _, _))). intros r. auto with keeps nocore.
Qed.
#[local] Hint Resolve codes_authorize : keeps.

Lemma codes_op op : keeps code_inv (run_op accessTTL refreshTTL op).
Proof.
  destruct op; unfold run_op; (apply keeps_bind; [|solve_keeps]);
    unfold CreateOAuthClient, GetOAuthClient, ListOAuthClients, DeleteOAuthClient, RotateOAuthClientSecret,
      GetOAuthConsent, StoreOAuthConsent, ListOAuthConsentHistory, OAuthToken, Register, Login,
      ValidateToken, GrantRole, RevokeRole, ListUserRoles, RefreshToken, Logout, LogoutAll, CleanupRefreshSessions,
      role_request, consent_ids, check_client_secret, fetch_or_invalid, fetchOAuthClient, redeem_code, redeem_write, refresh_rotate,
      refresh_write, requirePermissionFromAuthHeader, verify_access, issue_access, getRolesAndPermissions,
      newRefreshToken, randomB64URL, HashPassword, GenerateSecret;
    first [solve [auto with keeps nocore]|try apply codes_handler; solve_keeps].
Qed.
End codes.

Section oauth.
Context `{Env, Random, Argon2, NetLib, Collation, !TokenMaker AuthDB, !TokenMakerOk AuthDB} (rand_limit : nat) `{!RandomOk rand_limit}.
Variables accessTTL refreshTTL : Z.
Implicit Types w : World AuthDB.
Abbreviation auth_step := (auth_step accessTTL refreshTTL).
Abbreviation auth_reachable := (auth_reachable accessTTL refreshTTL).

Lemma codes_keep redeemed w w' : rtc auth_step w w' ->
  (w_uuid w <= w_uuid w')%nat /\
  (code_inv rand_limit redeemed (w_db w) (w_uuid w) -> code_inv rand_limit redeemed (w_db w') (w_uuid w')).
Proof. apply steps_keep_inv. intros op. by apply codes_op. Qed.

Lemma reachable_codes_ok w : auth_reachable w -> (w_uuid w <= rand_limit)%nat -> codes_ok [] (w_db w) (w_uuid w).
Proof.
  intros (w0 & [_ Hinit] & Hst) Hlim. apply (codes_keep []) in Hst as [_ HJ]. apply HJ; [|done].
  intros _. split; rewrite ?Hinit; by intros c Hc%not_elem_of_nil.
Qed.

(** *** Redeeming a code *)

(** The clock only goes forward. *)
Definition ticks {A} (m : M AuthDB A) : Prop := forall w, (w_tick w <= w_tick (m w).2)%nat.
Lemma ticks_bind {A B} (m : M AuthDB A) (k : A -> M AuthDB B) : ticks m -> (forall a, ticks (k a)) -> ticks (bindM m k).
Proof.
  intros Hm Hk w. specialize (Hm w). unfold bindM. destruct (m w) as [[a|e] w']; simpl in *; [|done].
  specialize (Hk a w'). lia.
Qed.
Lemma ticks_on_pool {A} (s : stmt AuthDB A) : ticks (on_pool s).
Proof. intros w. pose proof (autoexec_tick s w) as Ht. unfold on_pool. by destruct (autoexec s w). Qed.
Lemma ticks_issue uid : ticks (issue_access accessTTL (fun _ => on_pool) uid).
Proof.
  unfold issue_access, getRolesAndPermissions. repeat (apply ticks_bind; intros); try apply ticks_on_pool.
  { intros w. by case_match. }
  destruct a as [roles perms]. repeat (apply ticks_bind; intros); intros w; rewrite ?create_pure; simpl; auto.
Qed.

Lemma fetchClient_ok id w rec w' : fetchOAuthClient id w = (Ok rec, w') ->
  rec ∈ ad_clients (w_db w) /\ oc_id rec = TrimSpace id /\ w_db w' = w_db w /\ w_uuid w' = w_uuid w /\
  (w_tick w <= w_tick w')%nat.
Proof.
  unfold fetchOAuthClient. intros Hr. apply bind_inv in Hr as (u & w0 & Hf & Hr). apply fail_if_ok in Hf as [_ ->].
  apply bind_inv in Hr as (row & w1 & Ha & Hr). pose proof (autoexec_tick (select_client (TrimSpace id)) w) as Htick.
  rewrite Ha in Htick. destruct row as [rec'|]; [|discriminate Hr]. injection Hr as -> <-.
  apply autoexec_ok in Ha as ((now & sq & [= Hsel Hdb]) & Hu).
  destruct (List.filter _ _) as [|rec0 l] eqn:Hfl; [discriminate Hsel|]. injection Hsel as ->.
  assert (rec ∈ List.filter (fun c => bool_decide (oc_id c = TrimSpace id)) (ad_clients (w_db w))) as Hin
    by (rewrite Hfl; left).
  apply elem_of_filter_list in Hin as [Hin Hid]. by apply bool_decide_eq_true in Hid.
Qed.

Lemma fetch_ok id w rec w' : fetch_or_invalid id w = (Ok rec, w') -> fetchOAuthClient id w = (Ok rec, w').
Proof.
  unfold fetch_or_invalid, bindM, tryM. destruct (fetchOAuthClient id w) as [[r|e] w1]; [by intros [= -> ->]|].
  destruct e; try done. by destruct (bool_decide _).
Qed.

(** The client a request names: its [client_id], or the user of its basic
    authentication if it has none. *)
Definition request_client (ctx : context) (req : OAuthTokenRequest) : string :=
  if is_empty (TrimSpace (tr_ClientId req)) then
    match basicAuthFromMetadata ctx with Some (u, _) => TrimSpace u | None => EmptyString end
  else TrimSpace (tr_ClientId req).

(** The secret a request carries: its [client_secret], or the password of
    its basic authentication if it has none. *)
Definition request_secret (ctx : context) (req : OAuthTokenRequest) : string :=
  if is_empty (TrimSpace (tr_ClientSecret req)) then
    match basicAuthFromMetadata ctx with Some (_, p) => TrimSpace p | None => EmptyString end
  else TrimSpace (tr_ClientSecret req).

(** The request names [rec] and, if that client is confidential, carries a
    secret that is not empty and verifies against the hash stored for it; a
    secret taken from the basic authentication is not that of another
    client. *)
Definition client_authenticated (ctx : context) (req : OAuthTokenRequest) (rec : oauthClientRecord) : Prop :=
  oc_id rec = request_client ctx req /\
  (oc_type rec = "confidential" ->
   is_empty (request_secret ctx req) = false /\
   (exists h, oc_secret_hash rec = Some h /\ VerifyPassword (request_secret ctx req) h = Ok true) /\
   (forall u p, is_empty (TrimSpace (tr_ClientSecret req)) = true -> basicAuthFromMetadata ctx = Some (u, p) ->
      is_empty (TrimSpace u) = true \/ TrimSpace u = oc_id rec)).

(** The secret [check_client_secret] verifies: the one given, or else that of
    the basic authentication. *)
Lemma check_client_secret_ok ctx rec sec w u w' :
  check_client_secret ctx rec sec w = (Ok u, w') ->
  let secret := if is_empty (TrimSpace sec) then
      match basicAuthFromMetadata ctx with Some (_, p) => TrimSpace p | None => EmptyString end
    else TrimSpace sec in
  w' = w /\ is_empty secret = false /\
  (exists h, oc_secret_hash rec = Some h /\ VerifyPassword secret h = Ok true) /\
  (forall u p, is_empty (TrimSpace sec) = true -> basicAuthFromMetadata ctx = Some (u, p) ->
     is_empty (TrimSpace u) = true \/ TrimSpace u = oc_id rec).
Proof.
  unfold check_client_secret. destruct (oc_secret_hash rec) as [h|]; [|done]. cbv zeta. intros Hr.
  apply bind_inv in Hr as (sec' & w1 & Hs & Hr). inv_run Hr. apply negb_false_iff in Hif0. subst a0.
  destruct (is_empty (TrimSpace sec)) eqn:Hem; [|injection Hs as <- <-; by split_and!; [..|eauto|]].
  destruct (basicAuthFromMetadata ctx) as [[u' p]|]; [|injection Hs as <- <-; by rewrite Hem in Hif].
  inv_run Hs. split_and!; [done..|by eauto|]. intros u0 p0 _ [= <- <-].
  destruct (is_empty (TrimSpace u')); [by left|right]. by apply negb_false_iff, bool_decide_eq_true in Hif0.
Qed.

Lemma code_valid_spec c now redirect verifier : code_valid c now redirect verifier = true ->
  ac_consumed_at c = None /\ now <= ac_expires_at c /\ ac_redirect_uri c = redirect /\
  TrimSpace (ac_code_challenge c) = hashB64URLSHA256 verifier.
Proof.
  unfold code_valid. rewrite !andb_true_iff, !negb_true_iff, !orb_false_iff, negb_false_iff, !bool_decide_eq_true, Z.ltb_ge.
  intros ((((Hc & He) & Hr) & _) & (_ & Heq)). split_and!; [|done..]. by destruct (ac_consumed_at c).
Qed.

Lemma select_code_cases h client now seq db c db' :
  select_code h client now seq db = Ok (Some c, db') ->
  db' = db /\ c ∈ ad_codes db /\ ac_code_hash c = h /\ ac_client_id c = client.
Proof.
  unfold select_code. intros [= Hsel <-]. split; [done|].
  destruct (List.filter _ _) as [|c0 l] eqn:Hfl; [discriminate Hsel|]. injection Hsel as ->.
  assert (c ∈ List.filter (code_is h client) (ad_codes db)) as Hin by (rewrite Hfl; left).
  apply elem_of_filter_list in Hin as [Hin Hid]. unfold code_is in Hid.
  by apply andb_prop in Hid as [->%bool_decide_eq_true ->%bool_decide_eq_true].
Qed.

Lemma redeem_write_ok h redirect verifier c w tks w' :
  redeem_write accessTTL refreshTTL h redirect verifier c w = (Ok tks, w') ->
  exists accessNow wc s, let now := clock_Now (w_tick w) in
    code_valid c now redirect verifier = true /\
    (CreateToken (access_payload accessTTL (w_db w) (ac_user_id c) accessNow) wc).1 = Ok (tk_AccessToken tks) /\
    ad_codes (w_db w') = map (consume_code h (pg_time now)) (ad_codes (w_db w)) /\
    ad_sessions (w_db w') = ad_sessions (w_db w) ++ [s] /\
    rs_token_hash s = HashRefreshToken (tk_RefreshToken tks) /\ rs_token_hash s = token_hash_at (w_uuid w) /\
    rs_user_id s = ac_user_id c /\ live s = true /\ w_uuid w' = S (w_uuid w) /\ (w_tick w < w_tick w')%nat.
Proof.
  unfold redeem_write. intros Hr. apply bind_inv in Hr as (now & w2 & [= <- <-] & Hr).
  apply bind_inv in Hr as (u & w3 & Hf & Hr). apply fail_if_ok in Hf as [Hv%negb_false_iff ->].
  apply bind_inv in Hr as (u' & w4 & He & Hr). apply exec_ok in He as (He & Hu4 & Ht4). injection He as _ Hdb4.
  apply bind_inv in Hr as ([access accessNow] & w5 & Hi & Hr). pose proof (ticks_issue (ac_user_id c) w4) as Ht5.
  rewrite Hi in Ht5.
  apply (issue_access_ok _ _ _ _ _ _ _ on_pool_runs) in Hi as ((wc & Hcr) & Hdb5 & Hu5).
  apply bind_inv in Hr as (refresh & w6 & Hn & Hr). apply newRefreshToken_ok in Hn as (-> & Hdb6 & Hu6 & Ht6 & _).
  apply bind_inv in Hr as (u3 & w7 & Hins & Hr). injection Hr as <- <-.
  apply exec_ok in Hins as (Hins & Hu7 & Ht7). apply insert_session_cases in Hins as (Hdb7 & _).
  exists accessNow, wc. eexists. split_and!; try done.
  - by rewrite <-Hdb4 in Hcr.
  - by rewrite Hdb7, Hdb6, Hdb5, <-Hdb4.
  - rewrite Hdb7, Hdb6, Hdb5, <-Hdb4. reflexivity.
  - done.
  - simpl. by rewrite Hu5, Hu4.
  - done.
  - done.
  - rewrite Hu7, Hu6, Hu5, Hu4. reflexivity.
  - simpl in *. lia.
Qed.

Lemma redeem_code_ok h client redirect verifier w tks w' :
  redeem_code accessTTL refreshTTL h client redirect verifier w = (Ok tks, w') ->
  exists c accessNow wc s, let now := clock_Now (w_tick w) in
    c ∈ ad_codes (w_db w) /\ ac_code_hash c = h /\ ac_client_id c = client /\
    code_valid c now redirect verifier = true /\
    (CreateToken (access_payload accessTTL (w_db w) (ac_user_id c) accessNow) wc).1 = Ok (tk_AccessToken tks) /\
    ad_codes (w_db w') = map (consume_code h (pg_time now)) (ad_codes (w_db w)) /\
    ad_sessions (w_db w') = ad_sessions (w_db w) ++ [s] /\
    rs_token_hash s = HashRefreshToken (tk_RefreshToken tks) /\ rs_user_id s = ac_user_id c /\ live s = true /\
    w_uuid w' = S (w_uuid w) /\ (w_tick w < w_tick w')%nat.
Proof.
  unfold redeem_code. intros Hr. apply bind_inv in Hr as (row & w1 & Hs & Hr).
  apply exec_ok in Hs as (Hs & Hu1 & Ht1). destruct row as [c|]; [|discriminate Hr].
  apply select_code_cases in Hs as (Hdb1 & Hc & Hh & Hcl).
  apply redeem_write_ok in Hr as (accessNow & wc & s & Hv & Hcr & Hcod & Hse & Hsh & _ & Hsu & Hl & Hu & Ht).
  rewrite Hdb1, Ht1, Hu1 in *. by exists c, accessNow, wc, s.
Qed.

(** The client and secret [OAuthToken] goes on with are those of the
    request. *)
Lemma credentials_given ctx req rec clientID clientSecret :
  (if is_empty (TrimSpace (tr_ClientId req)) then
     match basicAuthFromMetadata ctx with
     | Some (u, p) => (TrimSpace u, if is_empty (TrimSpace (tr_ClientSecret req)) then p else tr_ClientSecret req)
     | None => (TrimSpace (tr_ClientId req), tr_ClientSecret req)
     end
   else (TrimSpace (tr_ClientId req), tr_ClientSecret req)) = (clientID, clientSecret) ->
  oc_id rec = TrimSpace clientID ->
  oc_id rec = request_client ctx req /\
  forall P : string -> Prop,
  let secret := if is_empty (TrimSpace clientSecret) then
      match basicAuthFromMetadata ctx with Some (_, p) => TrimSpace p | None => EmptyString end
    else TrimSpace clientSecret in
  is_empty secret = false /\ P secret /\
  (forall u p, is_empty (TrimSpace clientSecret) = true -> basicAuthFromMetadata ctx = Some (u, p) ->
     is_empty (TrimSpace u) = true \/ TrimSpace u = oc_id rec) ->
  is_empty (request_secret ctx req) = false /\ P (request_secret ctx req) /\
  (forall u p, is_empty (TrimSpace (tr_ClientSecret req)) = true -> basicAuthFromMetadata ctx = Some (u, p) ->
     is_empty (TrimSpace u) = true \/ TrimSpace u = oc_id rec).
Proof.
  unfold request_client, request_secret. cbv zeta. intros Hx Hid.
  destruct (is_empty (TrimSpace (tr_ClientId req))) eqn:Hci;
    [|injection Hx as <- <-; rewrite TrimSpace_idem in Hid; by split].
  destruct (basicAuthFromMetadata ctx) as [[u p]|].
  - injection Hx as <- <-. rewrite TrimSpace_idem in Hid. split; [done|]. intros P Hs.
    destruct (is_empty (TrimSpace (tr_ClientSecret req))) eqn:Hem.
    + destruct (is_empty (TrimSpace p)) eqn:Hep; destruct Hs as (? & ? & _); split_and!; try congruence;
        intros u0 p0 _ [= <- <-]; by right.
    + rewrite Hem in Hs. destruct Hs as (? & ? & _). by split_and!.
  - injection Hx as <- <-. rewrite TrimSpace_idem in Hid. split; [|done]. rewrite Hid.
    by destruct (TrimSpace (tr_ClientId req)).
Qed.

(** What a successful [OAuthToken] has checked and done. *)
Lemma OAuthToken_ok ctx req w tks w' :
  OAuthToken accessTTL refreshTTL ctx req w = (Ok tks, w') ->
  exists rec c accessNow wc s t, let h := hashB64URLSHA256 (TrimSpace (tr_Code req)) in
    rec ∈ ad_clients (w_db w) /\ client_authenticated ctx req rec /\
    c ∈ ad_codes (w_db w) /\ ac_code_hash c = h /\ ac_client_id c = oc_id rec /\ (w_tick w <= t < w_tick w')%nat /\
    code_valid c (clock_Now t) (TrimSpace (tr_RedirectUri req)) (TrimSpace (tr_CodeVerifier req)) = true /\
    (CreateToken (access_payload accessTTL (w_db w) (ac_user_id c) accessNow) wc).1 = Ok (tk_AccessToken tks) /\
    ad_codes (w_db w') = map (consume_code h (pg_time (clock_Now t))) (ad_codes (w_db w)) /\
    ad_sessions (w_db w') = ad_sessions (w_db w) ++ [s] /\
    rs_token_hash s = HashRefreshToken (tk_RefreshToken tks) /\ rs_user_id s = ac_user_id c /\ live s = true /\
    w_uuid w' = S (w_uuid w).
Proof.
  unfold OAuthToken. intros Hr. apply handler_ok in Hr. cbv zeta in Hr. apply bind_inv in Hr as (u & w0 & Hf & Hr).
  apply fail_if_ok in Hf as [_ ->].
  match type of Hr with (let '(_, _) := ?x in _) _ = _ => destruct x as [clientID clientSecret] eqn:Hx end.
  do 3 (apply bind_inv in Hr as (? & ? & Hf & Hr); apply fail_if_ok in Hf as [_ ->]).
  apply bind_inv in Hr as (? & ? & [= _ <-] & Hr). apply bind_inv in Hr as (? & ? & Hf & Hr); apply fail_if_ok in Hf as [_ ->].
  apply bind_inv in Hr as (rec & w1 & Hfe & Hr). apply fetch_ok, fetchClient_ok in Hfe as (Hrec & Hid & Hdb1 & Hu1 & Ht1).
  apply bind_inv in Hr as (u' & w2 & Hsec & Hr).
  assert (w2 = w1 /\ client_authenticated ctx req rec) as [-> Hauth].
  { destruct (credentials_given _ _ _ _ _ Hx Hid) as [Hname Hsecret]. destruct (bool_decide _) eqn:Hty.
    - apply check_client_secret_ok in Hsec as (-> & Hs). split; [done|]. split; [done|]. intros _.
      exact (Hsecret (fun sec => exists h, oc_secret_hash rec = Some h /\ VerifyPassword sec h = Ok true) Hs).
    - injection Hsec as _ <-. apply bool_decide_eq_false in Hty. split; [done|]. by split. }
  pose proof (with_tx_tick _ _ _ _ Hr) as Ht3. apply with_tx_ok in Hr as (w3 & Hr & Hdb3 & Hu3). rewrite Hr in Ht3.
  apply redeem_code_ok in Hr as (c & accessNow & wc & s & Hc & Hh & Hcl & Hv & Hcr & Hcodes & Hse & Hsh & Hsu & Hsl & Huu & Htt).
  cbn [w_db w_tick w_uuid tx_world] in *. rewrite Hdb1, Hdb3, Hu3, ?Hu1 in *.
  exists rec, c, accessNow, wc, s, (S (w_tick w1)). split_and!; try done; simpl in *; lia.
Qed.

(** C14. Redeeming a code is sound: [OAuthToken] succeeds only if the request
    names (by its [client_id], or else by its basic authentication) a stored
    client, the secret of the request verifies against the hash stored for
    that client if it is confidential, and the code was issued to that client,
    is unused, not expired at the time of the request, bound to the redirect
    URI given and to a challenge that is the hash of the verifier given. The
    access token is for the code's user, the code is marked as used, and one
    usable session of that user is added under the refresh token returned.
    The token carries all permissions of the user: the scopes the code was
    granted for play no part. *)
Theorem oauth_token_sound ctx req w tks w' :
  OAuthToken accessTTL refreshTTL ctx req w = (Ok tks, w') ->
  exists rec c p wc s t, let h := hashB64URLSHA256 (TrimSpace (tr_Code req)) in
    rec ∈ ad_clients (w_db w) /\ client_authenticated ctx req rec /\
    c ∈ ad_codes (w_db w) /\ ac_code_hash c = h /\
    ac_client_id c = oc_id rec /\ ac_consumed_at c = None /\
    (w_tick w <= t < w_tick w')%nat /\ clock_Now t <= ac_expires_at c /\
    ac_redirect_uri c = TrimSpace (tr_RedirectUri req) /\
    TrimSpace (ac_code_challenge c) = hashB64URLSHA256 (TrimSpace (tr_CodeVerifier req)) /\
    (CreateToken p wc).1 = Ok (tk_AccessToken tks) /\ tp_UserID p = ac_user_id c /\
    tp_Permissions p ≡ₚ permissions_of (w_db w) (ac_user_id c) /\
    ad_codes (w_db w') = map (consume_code h (pg_time (clock_Now t))) (ad_codes (w_db w)) /\
    ad_sessions (w_db w') = ad_sessions (w_db w) ++ [s] /\
    rs_token_hash s = HashRefreshToken (tk_RefreshToken tks) /\ rs_user_id s = ac_user_id c /\ live s = true.
Proof.
  intros (rec & c & accessNow & wc & s & t & Hrec & Hauth & Hc & Hh & Hcl & Ht & Hv & Hcr & Hcod & Hse & Hsh & Hsu & Hsl & _)%OAuthToken_ok.
  apply code_valid_spec in Hv as (? & ? & ? & ?).
  exists rec, c, (access_payload accessTTL (w_db w) (ac_user_id c) accessNow), wc, s, t. split_and!; try done; [lia..|apply text_sort_perm].
Qed.

(** C15. Among requests handled one after the other an authorization code
    works once: after [OAuthToken] has redeemed it no later [OAuthToken] with
    the same code succeeds, whatever requests and failures come in between.
    Two redemptions that overlap can both succeed: see [code_race]. *)
Theorem oauth_code_single_use ctx req w tks w1 w2 ctx' req' :
  auth_reachable w -> OAuthToken accessTTL refreshTTL ctx req w = (Ok tks, w1) ->
  rtc auth_step w1 w2 -> (w_uuid w2 <= rand_limit)%nat ->
  TrimSpace (tr_Code req') = TrimSpace (tr_Code req) ->
  exists e, (OAuthToken accessTTL refreshTTL ctx' req' w2).1 = Err e.
Proof.
  intros Hw (rec & c & _ & _ & _ & t & _ & _ & Hc & Hh & _ & _ & _ & _ & Hcodes & _ & _ & _ & _ & Hu)%OAuthToken_ok Hst Hlim Heq.
  destruct (codes_keep [ac_code_hash c] _ _ Hst) as [Hu2 HJ].
  assert (codes_ok [ac_code_hash c] (w_db w2) (w_uuid w2)) as Hok.
  { apply HJ; [|done]. intros _. destruct (reachable_codes_ok w Hw ltac:(lia)) as [Hd _ _].
    assert (forall c0, c0 ∈ ad_codes (w_db w) -> exists i, (i < w_uuid w1)%nat /\ ac_code_hash c0 = token_hash_at i) as Hd'.
    { intros c0 Hc0. destruct (Hd c0 Hc0) as (i & ? & ?). exists i. split; [lia|done]. }
    split; rewrite ?Hcodes.
    - intros c' (c0 & -> & Hc0)%list_elem_of_fmap. destruct (Hd' c0 Hc0) as (i & ? & ?). exists i.
      split; [done|]. unfold consume_code. by destruct (_ && _).
    - intros h ->%list_elem_of_singleton. by apply Hd'.
    - intros c' (c0 & -> & Hc0)%list_elem_of_fmap. unfold consume_code. destruct (_ && _) eqn:Hm; [done|].
      intros Heq0%list_elem_of_singleton Hn. rewrite Hn, Heq0, Hh in Hm. by rewrite bool_decide_true in Hm. }
  destruct (OAuthToken accessTTL refreshTTL ctx' req' w2) as [[tks'|e] w3] eqn:Hr2; [|by exists e].
  apply OAuthToken_ok in Hr2 as (_ & c2 & _ & _ & _ & t2 & _ & _ & Hc2 & Hh2 & _ & _ & Hv2 & _).
  apply code_valid_spec in Hv2 as (Hn & _). destruct (cs_consumed _ _ _ Hok c2 Hc2); [|done].
  rewrite Hh2, Heq, <-Hh. by left.
Qed.
End oauth.
