(* ===== verification/AuthFlows.v ===== *)
(** * The auth service: registration, consents and clients *)
From S2P Require Import Prelude GoStrings Base64 Sha256 Passwords Invariants Authz Tokens LoginLimiter Auth AuthSpec AuthProps AuthCodes.
From Stdlib Require Import String.
#[local] Open Scope Z_scope.
#[local] Open Scope go_scope.

(** ** Scopes *)
Lemma count_words_lookup delta l seen x :
  default 0 (count_words delta l seen !! x) =
  default 0 (seen !! x) + delta * Z.of_nat (count_occ String.string_dec (nonblank l) x).
Proof.
  unfold count_words, nonblank. revert seen. induction l as [|s l IH]; intros seen; simpl; [lia|].
  destruct (is_empty (TrimSpace s)) eqn:Hem; simpl; [by rewrite IH|].
  rewrite IH. destruct (String.string_dec (TrimSpace s) x) as [<-|Hne].
  - rewrite lookup_insert_eq. simpl. lia.
  - by rewrite lookup_insert_ne.
Qed.

(** [equalStringSets] compares bags of words, not sets: *)
(** [equalStringSets] decides whether two lists hold the same non-blank
    words, each the same number of times, in any order. *)
Theorem equalStringSets_spec a b : equalStringSets a b = true <-> nonblank a ≡ₚ nonblank b.
Proof.
  assert (forall x, default 0 (count_words (-1) b (count_words 1 a ∅) !! x) =
    Z.of_nat (count_occ String.string_dec (nonblank a) x) - Z.of_nat (count_occ String.string_dec (nonblank b) x)) as Hct.
  { intros x. rewrite !count_words_lookup, lookup_empty. simpl. lia. }
  assert (nonblank a ≡ₚ nonblank b <->
    forallb (fun kv => kv.2 =? 0) (map_to_list (count_words (-1) b (count_words 1 a ∅))) = true) as Hspec.
  { rewrite (Permutation_count_occ String.string_dec), forallb_forall. split.
    - intros Heq [x n] Hin%list_elem_of_In%elem_of_map_to_list. specialize (Hct x). rewrite Hin, Heq in Hct.
      simpl in *. lia.
    - intros Hall x. specialize (Hct x). destruct (_ !! x) as [n|] eqn:Hx; simpl in Hct; [|lia].
      specialize (Hall (x, n)). simpl in Hall. rewrite Z.eqb_eq in Hall. rewrite Hall in Hct by by apply list_elem_of_In, elem_of_map_to_list. lia. }
  rewrite Hspec. unfold equalStringSets. by destruct a, b.
Qed.

Section flows.
Context `{Env, Random, Argon2, !Argon2Ok, NetLib, Collation, !TokenMaker AuthDB, !TokenMakerOk AuthDB} (rand_limit : nat) `{!RandomOk rand_limit}.
Variables accessTTL refreshTTL : Z.
Implicit Types w : World AuthDB.
Abbreviation auth_reachable := (auth_reachable accessTTL refreshTTL).

(** ** Registration *)

(** What a successful registration has done. *)
Lemma Register_ok email password name w id w' :
  Register email password name w = (Ok id, w') ->
  exists e h created (wh wh' : World AuthDB),
    normalizeEmail email = Ok e /\ is_empty (TrimSpace password) = false /\
    HashPassword (TrimSpace password) wh = (Ok h, wh') /\
    (forall u, u ∈ ad_users (w_db w) -> au_email u <> e /\ au_id u <> id) /\
    has_role (w_db w) "role_customer" = true /\
    ad_users (w_db w') = ad_users (w_db w) ++ [mkUser id e name h created] /\
    ad_roles (w_db w') = ad_roles (w_db w) /\ ad_limiter (w_db w') = ad_limiter (w_db w) /\
    (id, "role_customer") ∈ ad_user_roles (w_db w').
Proof.
  unfold Register. intros Hr. apply handler_ok in Hr. apply bind_inv in Hr as (e & w0 & [= He <-] & Hr). cbv zeta in Hr.
  apply bind_inv in Hr as (? & ? & Hf & Hr). apply fail_if_ok in Hf as [Hpw ->].
  do 2 (apply bind_inv in Hr as (? & ? & Hf & Hr); apply fail_if_ok in Hf as [_ ->]).
  apply bind_inv in Hr as (h & w1 & Hh & Hr). apply bind_inv in Hr as (id' & w2 & [= <- <-] & Hr).
  apply with_tx_ok in Hr as (w3 & Hr & Hdb & Hu). simpl in Hr.
  apply bind_inv in Hr as (? & w4 & Hi & Hr). apply exec_ok in Hi as (Hi & _). simpl in Hi.
  apply bind_inv in Hr as (? & w5 & Hi2 & Hr). apply exec_ok in Hi2 as (Hi2 & _). injection Hr as <- <-.
  assert (w_db w1 = w_db w) as Hdb1.
  { pose proof (same_db_keeps (HashPassword (TrimSpace password)) w) as Hs. rewrite Hh in Hs. apply Hs.
    intros db0. unfold HashPassword. solve_keeps. }
  rewrite Hdb1 in Hi. unfold insert_user in Hi. destruct (existsb _ _) eqn:Hex; [done|]. injection Hi as _ Hdb4.
  assert (ad_users (w_db w5) = ad_users (w_db w4) /\ ad_roles (w_db w5) = ad_roles (w_db w4) /\
    ad_limiter (w_db w5) = ad_limiter (w_db w4) /\ has_role (w_db w4) "role_customer" = true /\
    (uuid_NewString (w_uuid w1), "role_customer") ∈ ad_user_roles (w_db w5)) as (Hu5 & Hr5 & Hl5 & Hrole & Hin5).
  { unfold insert_user_role in Hi2. destruct (has_role _ _); [|by rewrite orb_true_r in Hi2].
    destruct (negb _); [done|]. destruct (bool_decide _) eqn:Hb; injection Hi2 as _ <-; split_and!; try done.
    - by apply bool_decide_eq_true in Hb.
    - simpl. apply elem_of_app. right. by left. }
  rewrite Hdb, Hu5, Hr5, Hl5, <-Hdb4 in *. exists e, h. eexists _, w, w1. split_and!; try done.
  - intros u Hin. apply (proj1 (existsb_false_list _ _) Hex) in Hin.
    by apply orb_false_iff in Hin as [?%bool_decide_eq_false ?%bool_decide_eq_false].
Qed.

(** ** A login when nothing fails *)
Lemma login_allow_run key w :
  (forall l, ad_limiter (w_db w) = Some l -> (limiter_allow l (clock_Now (w_tick w)) key).1.1 = true) ->
  exists l w', login_allow key w = (Ok tt, w') /\ w_db w' = set_limiter l (w_db w) /\
    w_faults w' = w_faults w /\ w_uuid w' = w_uuid w.
Proof.
  intros Hal. unfold login_allow, bindM, get_limiter. destruct (ad_limiter (w_db w)) as [l|] eqn:Hl.
  - specialize (Hal l eq_refl). unfold time_Now. simpl. destruct (limiter_allow _ _ _) as [[al until] l'].
    simpl in Hal. subst al. simpl. eauto 6.
  - exists None, w. split_and!; [done| |done..]. rewrite <-Hl. by destruct (w_db w).
Qed.

Lemma login_succeeded_run key w :
  exists l w', login_succeeded key w = (Ok tt, w') /\ w_db w' = set_limiter l (w_db w) /\
    w_faults w' = w_faults w /\ w_uuid w' = w_uuid w.
Proof.
  unfold login_succeeded, bindM, get_limiter. destruct (ad_limiter (w_db w)) as [l|] eqn:Hl.
  - simpl. eauto 6.
  - exists None, w. split_and!; [done| |done..]. rewrite <-Hl. by destruct (w_db w).
Qed.

(** Tokens can be made. *)
Definition issues_tokens : Prop := forall p w, is_ok (CreateToken p w).1 = true.

(** A statement runs when nothing fails. *)
Definition runs_all (run : forall A, stmt AuthDB A -> M AuthDB A) : Prop :=
  forall A (s : stmt AuthDB A) w a db', w_faults w = [] -> s (clock_Now (w_tick w)) (w_seq w) (w_db w) = Ok (a, db') ->
    exists w', run A s w = (Ok a, w') /\ w_db w' = db' /\ w_faults w' = [] /\ w_uuid w' = w_uuid w /\ w_tick w' = S (w_tick w).

Lemma autoexec_runs_all : runs_all (fun _ => autoexec).
Proof.
  intros A s [db sq u t tx fl sn] a db'. simpl. intros -> Hs. unfold autoexec, next_fault, run_stmt. simpl.
  rewrite Hs. eauto 6.
Qed.
Lemma on_pool_runs_all : runs_all (fun _ => on_pool).
Proof.
  intros A s w a db' Hf Hs. destruct (autoexec_runs_all A s w a db' Hf Hs) as (w' & Hr & ?).
  unfold on_pool. rewrite Hr. eauto.
Qed.

Lemma issue_access_run run uid w :
  runs_all run -> issues_tokens -> w_faults w = [] -> roles_of (w_db w) uid <> [] ->
  exists access now w', issue_access accessTTL run uid w = (Ok (access, now), w') /\
    w_db w' = w_db w /\ w_faults w' = [] /\ w_uuid w' = w_uuid w /\ w_tick w' = (w_tick w + 3)%nat.
Proof.
  intros Hrun Hiss Hf Hr. unfold issue_access, getRolesAndPermissions.
  destruct (Hrun _ (select_roles uid) w _ _ Hf eq_refl) as (w1 & H1' & Hdb1 & Hf1 & Hu1 & Ht1).
  destruct (Hrun _ (select_permissions uid) w1 _ _ Hf1 eq_refl) as (w2 & H2' & Hdb2 & Hf2 & Hu2 & Ht2).
  rewrite bind_assoc, (bind_ok _ _ _ _ _ H1'), bind_assoc, (bind_ok _ _ _ _ _ H2').
  pose proof (text_sort_perm (roles_of (w_db w) uid)) as Hp.
  destruct (text_sort (roles_of (w_db w) uid)) as [|r rs]; [by apply Permutation_nil_l in Hp|].
  rewrite (bind_ok (retM _) _ _ _ _ eq_refl), (bind_ok time_Now _ _ _ _ eq_refl).
  match goal with |- context [bindM (CreateToken ?p) _ ?w3] =>
    pose proof (Hiss p w3) as Hok; pose proof (create_pure p w3) as Hpure;
    destruct (CreateToken p w3) as [[access|] w4] eqn:Hc; [|done] end.
  simpl in Hpure. rewrite (bind_ok _ _ _ _ _ Hc). subst w4. eexists _, _, _. split; [reflexivity|]. simpl.
  rewrite Hdb2, Hdb1, Hu2. split_and!; [done..|lia].
Qed.

Lemma insert_session_run row now sq (db : AuthDB) :
  rs_token_hash (row (pg_time now)) ∉ map rs_token_hash (ad_sessions db) ->
  has_user db (rs_user_id (row (pg_time now))) = true ->
  insert_session row now sq db = Ok (tt, set_sessions (ad_sessions db ++ [row (pg_time now)]) db).
Proof.
  intros Hnew Hu. unfold insert_session. rewrite (proj2 (existsb_false_list _ _)); [by rewrite Hu|].
  intros s Hin. apply bool_decide_eq_false. intros Heq. apply Hnew. rewrite <-Heq. by apply (list_elem_of_fmap_2 rs_token_hash).
Qed.

(** When nothing fails and the limiter allows it, a user with a role and the
    right password logs in. *)
Lemma Login_run ctx email password w e u :
  issues_tokens -> w_faults w = [] -> (w_uuid w < rand_limit)%nat -> sessions_ok [] [] (w_db w) (w_uuid w) ->
  normalizeEmail email = Ok e -> is_empty (TrimSpace password) = false ->
  (forall l, ad_limiter (w_db w) = Some l ->
     (limiter_allow l (clock_Now (w_tick w)) (login_key e (clientMetaFromContext ctx).2)).1.1 = true) ->
  head (List.filter (fun u => bool_decide (au_email u = e)) (ad_users (w_db w))) = Some u ->
  VerifyPassword (TrimSpace password) (au_password_hash u) = Ok true -> roles_of (w_db w) (au_id u) <> [] ->
  exists tks w', Login accessTTL refreshTTL ctx email password w = (Ok tks, w').
Proof.
  intros Hiss Hf Hlim Hok He Hpw Hal Hu Hv Hr. unfold Login, handler. rewrite He, (bind_ok (liftR _) _ _ _ _ eq_refl).
  cbv zeta. rewrite Hpw, (bind_ok (fail_if false _) _ _ _ _ eq_refl).
  destruct (clientMetaFromContext ctx) as [ua ip]. destruct (login_allow_run _ _ Hal) as (l & w1 & H1' & Hdb1 & Hf1 & Hu1).
  simpl in H1'. rewrite (bind_ok _ _ _ _ _ H1'). rewrite Hf in Hf1.
  destruct (autoexec_run (select_user_by_email e) w1 _ _ Hf1 eq_refl) as (w2 & H2' & Hdb2 & Hf2 & Hu2).
  rewrite Hdb1 in H2'. cbn [ad_users set_limiter] in H2'. rewrite (bind_ok _ _ _ _ _ H2'), Hu. cbn [fmap option_fmap option_map].
  rewrite Hv, (bind_ok (liftR _) _ _ _ _ eq_refl). cbn [negb].
  destruct (login_succeeded_run (login_key e ip) w2) as (l' & w3 & H3' & Hdb3 & Hf3 & Hu3). rewrite (bind_ok _ _ _ _ _ H3').
  rewrite Hf2 in Hf3. assert (roles_of (w_db w3) (au_id u) <> []) as Hr3 by by rewrite Hdb3, Hdb2, Hdb1.
  destruct (issue_access_run _ (au_id u) w3 autoexec_runs_all Hiss Hf3 Hr3) as (access & now & w4 & H4' & Hdb4 & Hf4 & Hu4 & _).
  rewrite (bind_ok _ _ _ _ _ H4'). destruct (newRefreshToken_run w4) as [[_ Hn]|[Hne _]]; [|done].
  rewrite (bind_ok _ _ _ _ _ Hn). assert (w_uuid w4 = w_uuid w) as Hu4' by congruence.
  match goal with |- context [autoexec (insert_session ?row)] =>
    destruct (autoexec_run (insert_session row) (newRefreshToken w4).2 tt
      (set_sessions (ad_sessions (w_db w4) ++ [row (pg_time (clock_Now (w_tick w4)))]) (w_db w4))) as (w5 & H5' & _) end.
  - by rewrite Hn, Hf4.
  - rewrite Hn. unfold insert_session. cbn [w_db w_tick w_seq snd first_session rs_token_hash rs_user_id].
    change (HashRefreshToken (raw_EncodeToString URLEncoding (rand_bytes (w_uuid w4) 32))) with (token_hash_at (w_uuid w4)).
    assert (ad_sessions (w_db w4) = ad_sessions (w_db w) /\ ad_users (w_db w4) = ad_users (w_db w)) as [Hs Hus]
      by by rewrite Hdb4, Hdb3, Hdb2, Hdb1.
    rewrite Hs, Hu4'. rewrite (proj2 (existsb_false_list _ _)).
    + assert (has_user (w_db w4) (au_id u) = true) as ->; [|done]. unfold has_user. rewrite Hus.
      apply existsb_true_list. exists u. split; [|by apply bool_decide_eq_true].
      destruct (List.filter _ _) as [|u0 us] eqn:Hfl; [done|]. injection Hu as ->.
      eapply proj1, elem_of_filter_list. erewrite Hfl. left.
    + intros s Hin. apply bool_decide_eq_false. intros Heq. eapply (fresh_hash rand_limit _ _ (w_uuid w) Hok); [lia|].
      rewrite <-Heq. by apply (list_elem_of_fmap_2 rs_token_hash).
  - rewrite Hn in H5'. cbn [snd] in H5'. rewrite (bind_ok _ _ _ _ _ H5'). eauto.
Qed.

(** C20. Who registers can log in: after a successful registration, with no
    failures and the limiter not blocking the caller, a login with the same
    e-mail address and password succeeds, and its access token is issued for
    the identifier the registration returned. *)
Theorem register_then_login ctx email password name w id w1 :
  auth_reachable w -> Register email password name w = (Ok id, w1) ->
  issues_tokens -> w_faults w1 = [] -> (w_uuid w1 < rand_limit)%nat ->
  (forall e l, normalizeEmail email = Ok e -> ad_limiter (w_db w1) = Some l ->
     (limiter_allow l (clock_Now (w_tick w1)) (login_key e (clientMetaFromContext ctx).2)).1.1 = true) ->
  exists tks w2 p wc, Login accessTTL refreshTTL ctx email password w1 = (Ok tks, w2) /\
    (CreateToken p wc).1 = Ok (tk_AccessToken tks) /\ tp_UserID p = id.
Proof.
  intros (w0 & Hw0 & Hst) Hreg Hiss Hf Hlim Hal.
  assert (sessions_ok [] [] (w_db w1) (w_uuid w1)) as Hok.
  { apply (reachable_sessions_ok rand_limit accessTTL refreshTTL); [|lia]. exists w0. split; [done|].
    eapply rtc_r; [exact Hst|]. replace w1 with (run_op accessTTL refreshTTL (OpRegister email password name) w).2.
    - constructor.
    - simpl. by rewrite (bind_ok _ _ _ _ _ Hreg). }
  apply Register_ok in Hreg as (e & h & created & wh & wh' & He & Hpw & Hh & Hnew & Hrole & Hus & Hro & Hlm & Hur).
  set (u := mkUser id e name h created) in *.
  assert (List.filter (fun u => bool_decide (au_email u = e)) (ad_users (w_db w1)) = [u]) as Hfl.
  { rewrite Hus, List.filter_app, (filter_list_none (fun u => bool_decide (au_email u = e))); simpl.
    - by rewrite bool_decide_true.
    - intros u' Hu'. apply bool_decide_eq_false. by apply Hnew. }
  assert (VerifyPassword (TrimSpace password) h = Ok true) as Hv.
  { by eapply HashPassword_verifies. }
  destruct (Login_run ctx email password w1 e u) as (tks & w2 & Hl); try done.
  - intros l Hl. by apply Hal.
  - by rewrite Hfl.
  - unfold roles_of. rewrite Hro. unfold has_role in Hrole. apply existsb_true_list in Hrole as (r & Hin & Hrid).
    apply bool_decide_eq_true in Hrid. intros Hnil. apply map_eq_nil in Hnil.
    assert (r ∈ List.filter (fun r => bool_decide ((au_id u, r.1) ∈ ad_user_roles (w_db w1))) (ad_roles (w_db w))) as Hin'.
    { apply elem_of_filter_list. split; [done|]. apply bool_decide_eq_true. by rewrite Hrid. }
    rewrite Hnil in Hin'. by apply not_elem_of_nil in Hin'.
  - pose proof (Login_ok accessTTL refreshTTL ctx email password w1 tks w2 Hl) as (e' & u' & accessNow & wc & ? & ? & ? & ? & He' & Hu' & Hem & _ & Hc & _).
    exists tks, w2, (access_payload accessTTL (w_db w1) (au_id u') accessNow), wc. split_and!; try done. simpl.
    rewrite He in He'. injection He' as <-. rewrite Hus in Hu'. apply elem_of_app in Hu' as [Hu'|Hu'].
    + by destruct (Hnew u' Hu').
    + by apply list_elem_of_singleton in Hu' as ->.
Qed.

(** ** Two redemptions at once

    At the READ COMMITTED level two requests can both read the row of a code
    before either marks it. The second update waits for the first transaction
    to commit and then, as the row is marked by now, changes nothing, which
    [OAuthToken] does not notice: it ignores the number of rows changed. *)
Definition redeem_interleaved (h client redirect verifier : string) : M AuthDB (Auth.Tokens * Auth.Tokens) :=
  let! row1 := exec (select_code h client) in
  let! row2 := exec (select_code h client) in
  match row1, row2 with
  | Some c1, Some c2 =>
      let! tks1 := redeem_write accessTTL refreshTTL h redirect verifier c1 in
      let! tks2 := redeem_write accessTTL refreshTTL h redirect verifier c2 in
      retM (tks1, tks2)
  | _, _ => failM oauthInvalidGrant
  end.

(** When nothing fails the rest of a redemption succeeds for the row read,
    whatever the table says of the code by then. *)
Lemma redeem_write_run h redirect verifier c w :
  issues_tokens -> w_faults w = [] -> code_valid c (clock_Now (w_tick w)) redirect verifier = true ->
  roles_of (w_db w) (ac_user_id c) <> [] -> has_user (w_db w) (ac_user_id c) = true ->
  token_hash_at (w_uuid w) ∉ map rs_token_hash (ad_sessions (w_db w)) ->
  exists tks w', redeem_write accessTTL refreshTTL h redirect verifier c w = (Ok tks, w') /\ w_faults w' = [] /\
    w_tick w' = (w_tick w + 4)%nat /\ roles_of (w_db w') (ac_user_id c) = roles_of (w_db w) (ac_user_id c) /\
    has_user (w_db w') (ac_user_id c) = true.
Proof.
  intros Hiss Hf Hv Hr Hu Hnew. unfold redeem_write. rewrite (bind_ok time_Now _ _ _ _ eq_refl), Hv.
  rewrite (bind_ok (fail_if (negb true) _) _ _ _ _ eq_refl).
  destruct (exec_run (update_code_consumed h (clock_Now (w_tick w))) (time_Now w).2 _ _ Hf eq_refl)
    as (w1 & H1' & Hdb1 & Hf1 & Hu1 & Ht1). rewrite (bind_ok _ _ _ _ _ H1').
  assert (roles_of (w_db w1) (ac_user_id c) <> []) as Hr1 by by rewrite Hdb1.
  destruct (issue_access_run _ (ac_user_id c) w1 on_pool_runs_all Hiss Hf1 Hr1) as (access & now & w2 & H2' & Hdb2 & Hf2 & Hu2 & Ht2).
  rewrite (bind_ok _ _ _ _ _ H2'). destruct (newRefreshToken_run w2) as [[_ Hn]|[Hne _]]; [|done].
  rewrite (bind_ok _ _ _ _ _ Hn).
  match goal with |- context [exec (insert_session ?row)] =>
    destruct (exec_run (insert_session row) (newRefreshToken w2).2 tt
      (set_sessions (ad_sessions (w_db w2) ++ [row (pg_time (w_tx w2))]) (w_db w2))) as (w3 & H3' & Hdb3 & Hf3 & _ & Ht3) end.
  - by rewrite Hn, Hf2.
  - rewrite Hn, Hdb2, Hdb1. apply insert_session_run; [|exact Hu].
    cbn [first_session rs_token_hash w_uuid snd]. by rewrite Hu2, Hu1.
  - rewrite Hn in H3', Ht3. cbn [snd] in H3'. rewrite (bind_ok _ _ _ _ _ H3'). eexists _, _. split; [reflexivity|].
    simpl in *. rewrite Hdb3, Hdb2, Hdb1. split_and!; [done|lia|done|done].
Qed.

(** Two redemptions of one code at once both succeed: if both read the code
    before either has marked it, each is given tokens and a usable session of
    the code's user. *)
Theorem code_race h client redirect verifier c w :
  issues_tokens -> w_faults w = [] -> (w_uuid w + 2 <= rand_limit)%nat -> sessions_ok [] [] (w_db w) (w_uuid w) ->
  head (List.filter (code_is h client) (ad_codes (w_db w))) = Some c ->
  (forall k, k ∈ [0; 4]%nat -> code_valid c (clock_Now (w_tick w + k)) redirect verifier = true) ->
  roles_of (w_db w) (ac_user_id c) <> [] -> has_user (w_db w) (ac_user_id c) = true ->
  exists tks1 tks2 w' s1 s2, redeem_interleaved h client redirect verifier w = (Ok (tks1, tks2), w') /\
    ad_sessions (w_db w') = ad_sessions (w_db w) ++ [s1; s2] /\
    rs_token_hash s1 = HashRefreshToken (tk_RefreshToken tks1) /\ rs_token_hash s2 = HashRefreshToken (tk_RefreshToken tks2) /\
    rs_token_hash s1 <> rs_token_hash s2 /\ rs_user_id s1 = ac_user_id c /\ rs_user_id s2 = ac_user_id c /\
    live s1 = true /\ live s2 = true.
Proof.
  intros Hiss Hf Hlim Hok Hsel Hv Hr Hu. unfold redeem_interleaved.
  destruct (exec_run (select_code h client) w _ _ Hf eq_refl) as (w1 & H1' & Hdb1 & Hf1 & Hu1 & Ht1).
  rewrite Hsel in H1'. rewrite (bind_ok _ _ _ _ _ H1').
  destruct (exec_run (select_code h client) w1 _ _ Hf1 eq_refl) as (w2 & H2' & Hdb2 & Hf2 & Hu2 & Ht2).
  rewrite Hdb1, Hsel in H2'. rewrite (bind_ok _ _ _ _ _ H2').
  assert (w_db w2 = w_db w /\ w_uuid w2 = w_uuid w /\ w_tick w2 = w_tick w) as (Hdb & Huu & Htt) by (split_and!; congruence).
  destruct (redeem_write_run h redirect verifier c w2) as (tks1 & w3 & H3' & Hf3 & Ht3 & Hr3 & Hu3); rewrite ?Hdb, ?Huu, ?Htt; try done.
  { rewrite <-(Nat.add_0_r (w_tick w)). apply Hv. by left. }
  { apply (fresh_hash rand_limit _ _ (w_uuid w) Hok). lia. }
  pose proof (redeem_write_ok _ _ _ _ _ _ _ _ _ H3') as (_ & _ & s1 & _ & _ & _ & Hs1 & Hh1 & Hd1 & Hn1 & Hl1 & Huu3 & _).
  rewrite (bind_ok _ _ _ _ _ H3'). rewrite Hdb, Huu in *.
  assert (token_hash_at (w_uuid w) <> token_hash_at (S (w_uuid w))) as Hne.
  { intros Heq. apply (token_hash_inj (rand_limit := rand_limit)) in Heq; lia. }
  destruct (redeem_write_run h redirect verifier c w3) as (tks2 & w4 & H4' & _); try done.
  { rewrite Ht3, Htt. apply Hv. right. by left. }
  { by rewrite Hr3. }
  { rewrite Hs1, Huu3, map_app. intros [Hin|Hin%list_elem_of_singleton]%elem_of_app; [|congruence].
    revert Hin. apply (fresh_hash rand_limit _ _ (S (w_uuid w)) Hok). lia. }
  pose proof (redeem_write_ok _ _ _ _ _ _ _ _ _ H4') as (_ & _ & s2 & _ & _ & _ & Hs2 & Hh2 & Hd2 & Hn2 & Hl2 & _).
  rewrite (bind_ok _ _ _ _ _ H4'). eexists tks1, tks2, w4, s1, s2. split_and!; try done; [|congruence].
  by rewrite Hs2, Hs1, <-app_assoc.
Qed.

(** ** Handlers that cannot succeed

    [m] run from [w] leaves the tables alone if it keeps them. *)
Lemma unchanged {A} (m : M AuthDB A) w : keeps (same_db (w_db w)) m -> w_db (m w).2 = w_db w.
Proof. intros Hm. by apply (Hm w). Qed.

Lemma failed_unchanged {A} (m : M AuthDB A) w :
  w_db (m w).2 = w_db w -> (forall a w', m w <> (Ok a, w')) -> exists e w', m w = (Err e, w') /\ w_db w' = w_db w.
Proof. intros Hdb Hok. destruct (m w) as [[a|e] w']; [by destruct (Hok a w')|eauto]. Qed.

Lemma same_db_handler {A} db0 (m : M AuthDB A) : keeps (same_db db0) m -> keeps (same_db db0) (handler m).
Proof. intros Hm w. specialize (Hm w). unfold handler. by destruct (m w) as [[]]. Qed.

#[local] Hint Resolve same_db_permission same_db_userID : keeps.

(** On the schema the migrations make, no client secret can be rotated:
    the update names a column [secret] that table does not have, so every
    call fails and changes nothing. *)
Theorem rotate_secret_fails ctx id w :
  ad_client_columns (w_db w) = migrated_client_columns ->
  exists e w', RotateOAuthClientSecret ctx id w = (Err e, w') /\ w_db w' = w_db w.
Proof.
  intros Hcol.
  assert (forall secret id' now sq, update_client_secret secret id' now sq (w_db w) = Err no_column) as Hupd.
  { intros. unfold update_client_secret. by rewrite Hcol. }
  apply failed_unchanged.
  - apply unchanged. unfold RotateOAuthClientSecret, GenerateSecret. apply same_db_handler.
    assert (forall secret id', stmt_keeps (same_db (w_db w)) (update_client_secret secret id')) as Hst.
    { intros secret id' now sq db u a db' -> Hr. by rewrite Hupd in Hr. }
    solve_keeps.
  - intros secret w' Hr. unfold RotateOAuthClientSecret in Hr. apply handler_ok in Hr.
    apply bind_inv in Hr as (u & w1 & Hp & Hr). pose proof (permission_same ctx "auth:admin" w) as Hdb1.
    rewrite Hp in Hdb1. cbv zeta in Hr. apply bind_inv in Hr as (u' & w2 & Hf & Hr). apply fail_if_ok in Hf as [_ ->].
    apply bind_inv in Hr as (sec & w3 & Hg & Hr). apply bind_inv in Hr as (n & w4 & Hu & Hr).
    apply autoexec_ok in Hu as ((now & sq & Hu) & _).
    assert (w_db w3 = w_db w) as Hdb3.
    { rewrite <-Hdb1. simpl. pose proof (unchanged (wrap_err "failed to generate secret" (GenerateSecret 32)) w1) as Hs.
      rewrite Hg in Hs. apply Hs. unfold GenerateSecret. solve_keeps. }
    by rewrite Hdb3, Hupd in Hu.
Qed.

Lemma same_db_fetch db0 id : keeps (same_db db0) (fetch_or_invalid id).
Proof.
  assert (stmt_keeps (same_db db0) (select_client (TrimSpace id))) as Hs by (intros now sq db u a db' HJ [= <- <-]; done).
  unfold fetch_or_invalid, fetchOAuthClient. solve_keeps.
Qed.
#[local] Hint Resolve same_db_fetch : keeps.

(** An authorization request without scopes cannot succeed: its nil
    slice of scopes becomes a null in a column that must not be null, so the
    request fails and no code is stored. *)
Theorem authorize_needs_scope ctx req w :
  is_empty (TrimSpace (ar_Scope req)) = true ->
  exists e w', OAuthAuthorize ctx req w = (Err e, w') /\ w_db w' = w_db w.
Proof.
  intros Hsc. assert (text_array (splitScopes (ar_Scope req)) = None) as Hnil by (unfold splitScopes; by rewrite Hsc).
  apply failed_unchanged.
  - apply unchanged. unfold OAuthAuthorize, randomB64URL. rewrite Hnil. apply same_db_handler.
    assert (forall a b c d e f g, stmt_keeps (same_db (w_db w)) (insert_code a b c d None e f g)) as Hst by by intros.
    solve_keeps.
  - intros r w' Hr. unfold OAuthAuthorize in Hr. rewrite Hnil in Hr. apply handler_ok in Hr. cbv zeta in Hr.
    repeat (apply bind_inv in Hr as (? & ? & ?Hs & Hr)).
    lazymatch goal with Hs : autoexec (insert_code _ _ _ _ None _ _ _) _ = _ |- _ =>
      apply autoexec_ok in Hs as ((? & ? & Hs) & _); discriminate Hs end.
Qed.
End flows.
