(* ===== verification/Identity.v ===== *)
(** * The identity service: sessions and OAuth endpoints
    ([src/services/identity-service/cmd/identity-service/main.go])

    The identity service serves the auth service's API itself and the pages
    around it on one database. A browser session is a row named by a cookie.
    The handlers call the API over gRPC ([authClient]) on the address the
    service listens on; what [net/http] leaves of the generated proxy for
    other paths is the handler [gw]. *)
From S2P Require Import Prelude GoStrings Json JsonText Base64 Http Passwords Authz Tokens Auth.
From Stdlib Require Import Ascii String.
#[local] Open Scope Z_scope.
#[local] Open Scope go_scope.

(** ** Tables

    [browser_sessions] (migration 000011 of the auth service) and the two
    tables [ensureWebAuthnTables] makes, next to those of the auth service.
    The documents of the WebAuthn library are kept as JSON. *)
Record BrowserSession : Type := mkBrowserSession {
  bs_id : string;
  bs_user_id : string;
  bs_access_token : string;
  bs_expires_at : Z;
  bs_created_at : Z;
}.
Record WebAuthnCredential : Type := mkWebAuthnCredential {
  wc_id : string;
  wc_user_id : string;
  wc_credential_id : string;
  wc_credential : json;
  wc_sign_count : Z;
  wc_created_at : Z;
  wc_updated_at : Z;
}.
Record WebAuthnSession : Type := mkWebAuthnSession {
  ws_id : string;
  ws_kind : string;
  ws_user_id : string;
  ws_session_data : json;
  ws_expires_at : Z;
  ws_created_at : Z;
}.
Record IdentityDB : Type := mkIdentityDB {
  id_auth : AuthDB;
  id_browser : list BrowserSession;
  id_credentials : list WebAuthnCredential;
  id_challenges : list WebAuthnSession;
}.
Definition set_browser v (d : IdentityDB) : IdentityDB :=
  mkIdentityDB (id_auth d) v (id_credentials d) (id_challenges d).
Definition set_credentials v (d : IdentityDB) : IdentityDB :=
  mkIdentityDB (id_auth d) (id_browser d) v (id_challenges d).
Definition set_challenges v (d : IdentityDB) : IdentityDB :=
  mkIdentityDB (id_auth d) (id_browser d) (id_credentials d) v.

#[export] Instance identity_auth : Lens IdentityDB AuthDB := {|
  view := id_auth;
  upd a d := mkIdentityDB a (id_browser d) (id_credentials d) (id_challenges d) |}.
#[export] Instance identity_auth_ok : LensOk IdentityDB AuthDB.
Proof. split; [done|by intros []|done]. Qed.

(** ** Replies

    A page is its template's data; a redirect has the location the handler
    gave to [http.Redirect]. *)
Record authorizePageData : Type := mkPage {
  pg_Error : string;
  pg_ClientID : string;
  pg_RedirectURI : string;
  pg_Scope : string;
  pg_State : string;
  pg_CodeChallenge : string;
  pg_CodeChallengeMethod : string;
  pg_CSRFToken : string;
  pg_LoggedIn : bool;
  pg_WebAuthnEnabled : bool;
}.
Definition with_error (e : string) (d : authorizePageData) : authorizePageData :=
  mkPage e (pg_ClientID d) (pg_RedirectURI d) (pg_Scope d) (pg_State d) (pg_CodeChallenge d)
    (pg_CodeChallengeMethod d) (pg_CSRFToken d) (pg_LoggedIn d) (pg_WebAuthnEnabled d).

Inductive body : Type :=
| NoBody
| Text (s : string)
| Document (j : json)
| AuthorizePage (d : authorizePageData)
| Link (location : string).
Record reply : Type := mkReply {
  re_Status : Z;
  re_Header : Header;
  re_Cookies : list Cookie;
  re_Body : body;
}.

Definition html : Header := Header_Set "Content-Type" "text/html; charset=utf-8" ∅.
Definition json_header : Header := Header_Set "Content-Type" "application/json" ∅.
Definition page (h : Header) (cookies : list Cookie) (d : authorizePageData) : reply :=
  mkReply 200 h cookies (AuthorizePage d).
Definition error_reply (cookies : list Cookie) (msg : string) (code : Z) : reply :=
  mkReply code (error_header ∅) cookies (Text (msg +:+ newline)).
Definition http_Redirect (r : request) (cookies : list Cookie) (loc : string) : reply :=
  if bool_decide (rq_Method r ∈ ["GET"; "HEAD"])
  then mkReply 302 (Header_Set "Location" loc html) cookies (if bool_decide (rq_Method r = "GET") then Link loc else NoBody)
  else mkReply 302 (Header_Set "Location" loc ∅) cookies NoBody.

(** ** Helpers *)
Definition randomB64URL `{Random} {DB} (n : nat) : M DB string :=
  let! b := rand_Read (if (n =? 0)%nat then 32%nat else n) in
  retM (raw_EncodeToString URLEncoding b).

(** [nil] and the empty list are told apart by nothing that uses them. *)
Definition splitScopes (scope : string) : list string :=
  let scope := TrimSpace scope in
  if is_empty scope then [] else dedup_words [] (Fields scope).

Definition oauth2ErrorRedirect `{NetLib} (redirectURI state code desc : string) : option string :=
  match url_Parse (TrimSpace redirectURI) with
  | None => None
  | Some u =>
      if negb (is_empty (TrimSpace (u_Fragment u))) then None
      else Some (url_with_query u
             (("error", code) ::
              (if is_empty (TrimSpace desc) then [] else [("error_description", desc)]) ++
              (if is_empty (TrimSpace state) then [] else [("state", state)])))
  end.

(** [status.FromError]: code and message. Every error a gRPC client reports
    is a status; a call that was not answered has code Unavailable. *)
Definition status_FromError (e : error) : option (string * string) :=
  match e with
  | EStatus code msg => Some (code, msg)
  | ENet => Some ("Unavailable", Error ENet)
  | _ => None
  end.

Definition oauth2ErrorFromGRPC (e : error) : string * string :=
  match status_FromError e with
  | None => ("server_error", "")
  | Some (code, msg) =>
      let msg := TrimSpace msg in
      if bool_decide (code = "InvalidArgument") then
        (if Contains (ToLower msg) "scope" then "invalid_scope" else "invalid_request", msg)
      else if bool_decide (code = "PermissionDenied") then ("access_denied", msg)
      else if bool_decide (code = "Unauthenticated") then ("unauthorized_client", msg)
      else if bool_decide (code = "NotFound") then ("unauthorized_client", msg)
      else ("server_error", if is_empty msg then "server error" else msg)
  end.

(** code, description, HTTP status *)
Definition oauthTokenErrorFromGRPC (e : error) : string * string * Z :=
  match status_FromError e with
  | None => ("server_error", "", 500)
  | Some (code, msg) =>
      let msg := TrimSpace msg in
      if bool_decide (code = "Unauthenticated") then
        if bool_decide (msg = "invalid_client") then ("invalid_client", "", 401)
        else ("unauthorized_client", msg, 401)
      else if bool_decide (code = "InvalidArgument") then
        if bool_decide (msg = "invalid_grant") then ("invalid_grant", "", 400)
        else if Contains (ToLower msg) "unsupported" && Contains (ToLower msg) "grant_type"
        then ("unsupported_grant_type", "", 400)
        else ("invalid_request", msg, 400)
      else if bool_decide (code = "PermissionDenied") then ("access_denied", msg, 403)
      else ("server_error", if is_empty msg then "server error" else msg, 500)
  end.

Definition writeOAuthTokenError (h : Header) (statusCode : Z) (code desc : string) : reply :=
  mkReply statusCode (Header_Set "Content-Type" "application/json" h) []
    (Document (JObj (("error", JStr code) :: omitempty "error_description" (TrimSpace desc)))).

(** The header the server sets with [oauthInvalidClient], as the client of
    the call sees it. *)
Definition www_authenticate (e : error) : list string :=
  if bool_decide (e = oauthInvalidClient) then ["Basic realm=" +:+ quote +:+ "oauth" +:+ quote] else [].

(** [json.NewEncoder(w).Encode(res)] of an [OAuthTokenResponse] *)
Definition token_document (t : Tokens) : json :=
  JObj (omitempty "access_token" (tk_AccessToken t) ++ [("token_type", JStr "bearer")] ++
        (if tk_ExpiresIn t =? 0 then [] else [("expires_in", JInt (tk_ExpiresIn t))]) ++
        omitempty "refresh_token" (tk_RefreshToken t)).

(** *** The user of an access token, without verification

    [json_Decode] is the document in a text, if it is one; [json.Unmarshal]
    into [struct { UserID string `json:"user_id"` }] takes the last member of
    that name that is a string. *)
Class JsonReader := { json_Decode : string -> bytes }.

Definition last_string (k : string) (fs : list (string * json)) : string :=
  foldl (fun acc kv => if EqualFold kv.1 k then match kv.2 with JStr s => s | _ => acc end else acc) "" fs.

Definition token_user `{JsonReader} (accessToken : string) : string :=
  match Split "."%char accessToken with
  | [_; payload; _] =>
      match raw_DecodeString URLEncoding payload with
      | None => ""
      | Some b => match json_Decode b with BJson (JObj fs) => last_string "user_id" fs | _ => "" end
      end
  | _ => ""
  end.

(** ** Statements *)
Definition select_browser (id : string) : stmt IdentityDB (option BrowserSession) := fun now _ db =>
  Ok (head (List.filter (fun s => bool_decide (bs_id s = id) && (now <? bs_expires_at s)) (id_browser db)), db).

Definition insert_browser (id userID accessToken : string) (exp : Z) : stmt IdentityDB unit := fun now _ db =>
  if existsb (fun s => bool_decide (bs_id s = id)) (id_browser db) then Err duplicate_key
  else if negb (has_user (id_auth db) userID) then Err foreign_key
  else Ok (tt, set_browser (id_browser db ++ [mkBrowserSession id userID accessToken (pg_time exp) (pg_time now)]) db).

Definition delete_browser (id : string) : stmt IdentityDB unit := fun _ _ db =>
  Ok (tt, set_browser (List.filter (fun s => negb (bool_decide (bs_id s = id))) (id_browser db)) db).

Definition ping : stmt IdentityDB unit := fun _ _ db => Ok (tt, db).

Section identity.
Context `{Env, Random, Argon2, NetLib, Collation, !TokenMaker AuthDB, MimeLib, JsonReader}.
Variables accessTTL refreshTTL : Z.
(** [pool == nil] *)
Variable no_pool : bool.
(** What the gRPC client sends with every call. *)
Variables grpc_user_agent grpc_authority : string.
(** The generated proxy of the auth service. *)
Variable gw : request -> M AuthDB reply.

(** ** Browser sessions *)
Definition sessionTTL : Z := 30 * 60 * 1000000000.

Definition session_get (sessionID : string) : M IdentityDB (option BrowserSession) :=
  if no_pool || is_empty (TrimSpace sessionID) then retM None
  else
    let! r := tryM (autoexec (select_browser sessionID)) in
    retM (match r with Ok s => s | Err _ => None end).

(** The identifier of the new session, none when it could not be stored *)
Definition session_put (userID accessToken : string) : M IdentityDB (option string) :=
  let accessToken := TrimSpace accessToken in
  if no_pool || is_empty accessToken then retM None
  else
    let! id := tryM (randomB64URL 32) in
    match id with
    | Err _ => retM None
    | Ok id =>
        let! now := time_Now in
        let! r := tryM (autoexec (insert_browser id userID accessToken (now + sessionTTL))) in
        retM (match r with Ok _ => Some id | Err _ => None end)
    end.

Definition session_del (sessionID : string) : M IdentityDB unit :=
  if no_pool || is_empty (TrimSpace sessionID) then retM tt
  else let! _ := tryM (autoexec (delete_browser sessionID)) in retM tt.

(** ** Cookies *)
Definition sessionCookieName : string := "fincore_authorize_session".
Definition csrfCookieName : string := "fincore_authorize_csrf".

Definition set_cookie (r : request) (name value : string) (maxAge : Z) : Cookie :=
  mkCookie name value "/" maxAge true true (rq_TLS r).
Definition cookie_value (r : request) (name : string) : string :=
  match request_Cookie r name with Some v => TrimSpace v | None => "" end.

(** ** Calls of the API

    The context of a call from a handler carries the metadata of the
    transport, and an authorization only where the handler adds one. *)
Definition call_context (authorization : string) : context :=
  let md : metadata := {[ "user-agent" := [grpc_user_agent]; ":authority" := [grpc_authority];
                          "content-type" := ["application/grpc"] ]} in
  Some (if is_empty authorization then md else <["authorization" := [authorization]]> md).
Definition call {A} (m : M AuthDB A) : M IdentityDB (result A) := tryM (rpc (zoom m)).

(** ** /healthz and /readyz *)
Definition ok_reply : reply := mkReply 200 ∅ [] (Text "ok").
Definition readyz (r : request) : M IdentityDB reply :=
  if no_pool then retM ok_reply
  else
    let! p := tryM (autoexec ping) in
    retM (match p with Ok _ => ok_reply | Err _ => error_reply [] "not ready" 503 end).

(** ** /oauth/token *)
Definition oauth_token (r : request) : M IdentityDB reply :=
  if negb (bool_decide (rq_Method r = "POST")) then retM (mkReply 405 (Header_Set "Allow" "POST" ∅) [] NoBody)
  else
    let '(form, ok) := ParseForm r in
    if negb ok then retM (writeOAuthTokenError ∅ 400 "invalid_request" "invalid form")
    else
      let value k := TrimSpace (Values_Get form k) in
      let req := mkTokenRequest (value "grant_type") (value "client_id") (value "client_secret") (value "code")
                   (value "redirect_uri") (value "code_verifier") in
      let authHeader := TrimSpace (Header_Get (rq_Header r) "Authorization") in
      let! res := call (OAuthToken accessTTL refreshTTL (call_context authHeader) req) in
      match res with
      | Err e =>
          let h := match www_authenticate e with
                   | v :: _ => if is_empty (TrimSpace v) then ∅ else Header_Set "WWW-Authenticate" (TrimSpace v) ∅
                   | [] => ∅
                   end in
          let '(code, desc, st) := oauthTokenErrorFromGRPC e in
          retM (writeOAuthTokenError h st code desc)
      | Ok res => retM (mkReply 200 json_header [] (Document (token_document res)))
      end.

(** ** /oauth/logout *)
Definition oauth_logout (r : request) : M IdentityDB reply :=
  (match request_Cookie r sessionCookieName with Some v => session_del v | None => retM tt end) ;;;
  retM (mkReply 204 ∅ [set_cookie r sessionCookieName "" (-1); set_cookie r csrfCookieName "" (-1)] NoBody).

(** ** /oauth/authorize *)
Definition wants_html (r : request) : bool :=
  let accept := ToLower (Header_Get (rq_Header r) "Accept") in
  Contains accept "text/html" || is_empty accept || bool_decide (accept = "*/*").

Definition page_of (vs : Values) (csrf : string) (loggedIn : bool) : authorizePageData :=
  let value k := TrimSpace (Values_Get vs k) in
  let method := value "code_challenge_method" in
  mkPage "" (value "client_id") (value "redirect_uri") (value "scope") (value "state") (value "code_challenge")
    (if is_empty method then "S256" else method) csrf loggedIn false.

Definition authorize_request (d : authorizePageData) : OAuthAuthorizeRequest :=
  mkAuthorizeRequest "code" (pg_ClientID d) (pg_RedirectURI d) (pg_Scope d) (pg_State d) (pg_CodeChallenge d)
    (pg_CodeChallengeMethod d).
Definition issue_code (d : authorizePageData) : M IdentityDB (result (string * string * string)) :=
  call (OAuthAuthorize (call_context "") (authorize_request d)).

(** The checks of a GET, the first that fails *)
Definition get_error (q : Values) (d : authorizePageData) : string :=
  if negb (bool_decide (TrimSpace (Values_Get q "response_type") = "code")) then "unsupported response_type"
  else if is_empty (pg_ClientID d) || is_empty (pg_RedirectURI d) || is_empty (pg_CodeChallenge d)
  then "missing required parameters"
  else if negb (bool_decide (ToUpper (TrimSpace (pg_CodeChallengeMethod d)) = "S256"))
  then "code_challenge_method must be S256"
  else "".

(** All requested scopes are in a consent that is not empty. *)
Definition consent_covers (granted requested : list string) : bool :=
  match granted with [] => false | _ => forallb (fun s => bool_decide (s ∈ granted)) requested end.

Definition error_location (d : authorizePageData) (e : error) : option string :=
  let '(code, desc) := oauth2ErrorFromGRPC e in
  oauth2ErrorRedirect (pg_RedirectURI d) (pg_State d) code desc.

Definition authorize_get (r : request) (sess : option BrowserSession) (cookies : list Cookie)
    (d : authorizePageData) : M IdentityDB reply :=
  let d := with_error (get_error (URL_Query r) d) d in
  let show := retM (page html cookies d) in
  match sess with
  | Some s =>
      if negb (is_empty (pg_Error d)) then show
      else
        let! res := call (GetOAuthConsent (bs_user_id s) (pg_ClientID d)) in
        match res with
        | Err _ => show
        | Ok granted =>
            if negb (consent_covers granted (splitScopes (pg_Scope d))) then show
            else
              let! resp := issue_code d in
              match resp with
              | Ok (_, _, url) => retM (http_Redirect r cookies url)
              | Err e =>
                  match error_location d e with
                  | Some loc => retM (http_Redirect r cookies loc)
                  | None => show
                  end
              end
        end
  | None => show
  end.

(** After the user is known: the consent is stored, the code issued. *)
Definition authorize_user (r : request) (userID : string) (cookies : list Cookie) (d : authorizePageData)
  : M IdentityDB reply :=
  let! _ := call (StoreOAuthConsent userID (pg_ClientID d) (splitScopes (pg_Scope d))) in
  let! resp := issue_code d in
  match resp with
  | Ok (_, _, url) => retM (http_Redirect r cookies url)
  | Err e =>
      match error_location d e with
      | Some loc => retM (http_Redirect r cookies loc)
      | None => retM (error_reply cookies (Error e) 500)
      end
  end.

(** Without a session: a login with the email and password of the form. *)
Definition authorize_login (r : request) (sessionID : string) (form : Values) (cookies : list Cookie)
    (d : authorizePageData) : M IdentityDB reply :=
  let! loginRes := call (Login accessTTL refreshTTL (call_context "") (TrimSpace (Values_Get form "email"))
                           (TrimSpace (Values_Get form "password"))) in
  match loginRes with
  | Err _ => retM (page ∅ cookies (with_error "Invalid email or password" d))
  | Ok t =>
      let userID := token_user (tk_AccessToken t) in
      if is_empty userID then retM (page ∅ cookies (with_error "Login failed" d))
      else
        (if negb (is_empty (TrimSpace sessionID)) then session_del sessionID else retM tt) ;;;
        let! id := session_put userID (tk_AccessToken t) in
        authorize_user r userID (cookies ++ [set_cookie r sessionCookieName (default "" id) 0]) d
  end.

Definition authorize_post (r : request) (sessionID : string) (sess : option BrowserSession) (cookies : list Cookie)
    (d : authorizePageData) : M IdentityDB reply :=
  let '(form, ok) := ParseForm r in
  if negb ok then retM (page html cookies (with_error "invalid form" d))
  else
    let d := page_of form (TrimSpace (Values_Get form "csrf_token")) (pg_LoggedIn d) in
    let cookieToken := cookie_value r csrfCookieName in
    if is_empty cookieToken || is_empty (pg_CSRFToken d) || negb (bool_decide (cookieToken = pg_CSRFToken d)) then
      match oauth2ErrorRedirect (pg_RedirectURI d) (pg_State d) "invalid_request" "csrf required" with
      | Some loc => retM (http_Redirect r cookies loc)
      | None => retM (page html cookies (with_error "csrf required" d))
      end
    else if negb (bool_decide (Values_Get form "approve" = "yes")) then
      match oauth2ErrorRedirect (pg_RedirectURI d) (pg_State d) "access_denied" "user rejected request" with
      | Some loc => retM (http_Redirect r cookies loc)
      | None => retM (error_reply cookies "access denied" 403)
      end
    else
      match sess with
      | Some s => authorize_user r (bs_user_id s) cookies d
      | None => authorize_login r sessionID form cookies d
      end.

(** The value of the CSRF cookie, and the cookie when it is new *)
Definition csrf_cookie (r : request) : M IdentityDB (string * list Cookie) :=
  let v := cookie_value r csrfCookieName in
  if negb (is_empty v) then retM (v, [])
  else
    let! n := tryM (randomB64URL 32) in
    retM (match n with Ok v => (v, [set_cookie r csrfCookieName v 0]) | Err _ => ("", []) end).

Definition oauth_authorize (r : request) : M IdentityDB reply :=
  if negb (wants_html r) then zoom (gw r)
  else
    let sessionID := cookie_value r sessionCookieName in
    let! sess := session_get sessionID in
    let! '(csrf, cookies) := csrf_cookie r in
    let d := page_of (URL_Query r) csrf (match sess with Some _ => true | None => false end) in
    if bool_decide (rq_Method r = "GET") then authorize_get r sess cookies d
    else if bool_decide (rq_Method r = "POST") then authorize_post r sessionID sess cookies d
    else retM (mkReply 405 (Header_Set "Allow" "GET, POST" ∅) cookies NoBody).

(** ** Discovery *)
Record openIDConfiguration : Type := mkOpenID {
  oi_Issuer : string;
  oi_JWKSURI : string;
  oi_AuthorizationEndpoint : string;
  oi_TokenEndpoint : string;
  oi_GrantTypesSupported : list string;
  oi_CodeChallengeMethodsSupported : list string;
  oi_ResponseTypesSupported : list string;
  oi_SubjectTypesSupported : list string;
  oi_IDTokenSigningAlgValuesSupported : list string;
}.
Definition strings_json (l : list string) : json := JArr (map JStr l).
Definition omitempty_list (k : string) (l : list string) : list (string * json) :=
  match l with [] => [] | _ => [(k, strings_json l)] end.
Definition openid_document (c : openIDConfiguration) : json :=
  JObj ([("issuer", JStr (oi_Issuer c)); ("jwks_uri", JStr (oi_JWKSURI c));
         ("authorization_endpoint", JStr (oi_AuthorizationEndpoint c)); ("token_endpoint", JStr (oi_TokenEndpoint c))] ++
        omitempty_list "grant_types_supported" (oi_GrantTypesSupported c) ++
        omitempty_list "code_challenge_methods_supported" (oi_CodeChallengeMethodsSupported c) ++
        [("response_types_supported", strings_json (oi_ResponseTypesSupported c));
         ("subject_types_supported", strings_json (oi_SubjectTypesSupported c));
         ("id_token_signing_alg_values_supported", strings_json (oi_IDTokenSigningAlgValuesSupported c))]).

Fixpoint trim_right_slash (l : list ascii) : list ascii :=
  match l with c :: l' => if Ascii.eqb c "/" then trim_right_slash l' else l | [] => [] end.
(** [strings.TrimRight(issuer, "/")] *)
Definition TrimRight_slash (s : string) : string :=
  string_of_list_ascii (reverse (trim_right_slash (reverse (list_ascii_of_string s)))).
Definition jwksPath : string := "/.well-known/jwks.json".
(** The configuration [main] publishes *)
Definition main_config (issuer : string) : openIDConfiguration :=
  let base := TrimRight_slash issuer in
  mkOpenID issuer (base +:+ jwksPath) (base +:+ "/oauth/authorize") (base +:+ "/oauth/token")
    ["authorization_code"] ["S256"] ["code"] ["public"] ["EdDSA"].
End identity.
