(* ===== verification/Passkeys.v ===== *)
(** * The identity service: passkeys and routes
    ([src/services/identity-service/cmd/identity-service/webauthn.go])

    The ceremonies of the WebAuthn library ([github.com/go-webauthn/webauthn])
    are parameters. A ceremony begins with a challenge stored in a row that a
    cookie names, and ends by taking the row and handing it to the library
    with the user's credentials and the request. The routes of the service
    ([newHTTPHandler]) close the file. *)
From S2P Require Import Prelude GoStrings Json JsonText Base64 Http Passwords Authz Tokens Auth Identity.
From Stdlib Require Import Ascii String.
#[local] Open Scope Z_scope.
#[local] Open Scope go_scope.

(** ** The library

    Its credentials and challenges with their JSON, and the four steps of its
    ceremonies. Beginning draws a random challenge: the library is given the
    number of the reading. Finishing reads the clock. *)
Record webauthnUser (Credential : Type) : Type := mkWebauthnUser {
  wu_id : string;
  wu_name : string;
  wu_displayName : string;
  wu_credentials : list Credential;
}.
Arguments mkWebauthnUser {Credential} _ _ _ _.
Arguments wu_id {Credential} _.
Arguments wu_credentials {Credential} _.

Class WebAuthnLib := {
  Credential : Type;
  SessionData : Type;
  cred_ID : Credential -> string;
  cred_SignCount : Credential -> Z;
  cred_Marshal : Credential -> result json;
  cred_Unmarshal : json -> result Credential;
  sd_Marshal : SessionData -> result json;
  sd_Unmarshal : json -> result SessionData;
  wa_New : string -> list string -> option error;
  wa_BeginLogin : nat -> webauthnUser Credential -> result (json * SessionData);
  wa_FinishLogin : Z -> webauthnUser Credential -> SessionData -> request -> result Credential;
  wa_BeginRegistration : nat -> webauthnUser Credential -> result (json * SessionData);
  wa_FinishRegistration : Z -> webauthnUser Credential -> SessionData -> request -> result Credential;
}.

(** ** Statements *)
Definition kind_login : string := "login".
Definition kind_register : string := "register".

(** [create table if not exists] twice *)
Definition ensureWebAuthnTables : stmt IdentityDB unit := fun _ _ db => Ok (tt, db).

Definition select_user_email (email : string) : stmt IdentityDB (option (string * string)) := fun _ _ db =>
  Ok ((fun u => (au_id u, au_email u)) <$>
        head (List.filter (fun u => bool_decide (au_email u = email)) (ad_users (id_auth db))), db).

Definition credentials_of (userID : string) (db : IdentityDB) : list WebAuthnCredential :=
  List.filter (fun c => bool_decide (wc_user_id c = userID)) (id_credentials db).
(** [order by created_at asc] *)
Definition select_credentials (userID : string) : stmt IdentityDB (list json) := fun _ _ db =>
  Ok (map wc_credential (order_by wc_created_at (credentials_of userID db)), db).

Definition insert_challenge (id kind userID : string) (data : json) (exp : Z) : stmt IdentityDB unit :=
  fun now _ db =>
  if existsb (fun s => bool_decide (ws_id s = id)) (id_challenges db) then Err duplicate_key
  else if negb (has_user (id_auth db) userID) then Err foreign_key
  else Ok (tt, set_challenges (id_challenges db ++
                 [mkWebAuthnSession id kind userID data (pg_time exp) (pg_time now)]) db).

Definition challenge_live (id kind : string) (now : Z) (s : WebAuthnSession) : bool :=
  bool_decide (ws_id s = id) && bool_decide (ws_kind s = kind) && (now <? ws_expires_at s).
(** [delete ... returning user_id, session_data] *)
Definition take_challenge (id kind : string) : stmt IdentityDB (option (string * json)) := fun now _ db =>
  Ok ((fun s => (ws_user_id s, ws_session_data s)) <$>
        head (List.filter (challenge_live id kind now) (id_challenges db)),
      set_challenges (List.filter (fun s => negb (challenge_live id kind now s)) (id_challenges db)) db).

Definition delete_expired : stmt IdentityDB Z := fun now _ db =>
  Ok (Z.of_nat (List.length (List.filter (fun s => ws_expires_at s <=? now) (id_challenges db))),
      set_challenges (List.filter (fun s => now <? ws_expires_at s) (id_challenges db)) db).

Definition update_credential (doc : json) (signCount : Z) (userID credID : string) : stmt IdentityDB unit :=
  fun now _ db =>
  Ok (tt, set_credentials
        (map (fun c => if bool_decide (wc_user_id c = userID) && bool_decide (wc_credential_id c = credID)
                       then mkWebAuthnCredential (wc_id c) (wc_user_id c) (wc_credential_id c) doc signCount
                              (wc_created_at c) (pg_time now)
                       else c) (id_credentials db)) db).

(** [on conflict (credential_id) do update]: the row keeps its user. *)
Definition upsert_credential (rowID userID credID : string) (doc : json) (signCount : Z) : stmt IdentityDB unit :=
  fun now _ db =>
  if existsb (fun c => bool_decide (wc_credential_id c = credID)) (id_credentials db) then
    Ok (tt, set_credentials
          (map (fun c => if bool_decide (wc_credential_id c = credID)
                         then mkWebAuthnCredential (wc_id c) (wc_user_id c) (wc_credential_id c) doc signCount
                                (wc_created_at c) (pg_time now)
                         else c) (id_credentials db)) db)
  else if existsb (fun c => bool_decide (wc_id c = rowID)) (id_credentials db) then Err duplicate_key
  else if negb (has_user (id_auth db) userID) then Err foreign_key
  else Ok (tt, set_credentials (id_credentials db ++
             [mkWebAuthnCredential rowID userID credID doc signCount (pg_time now) (pg_time now)]) db).

(** [order by created_at desc] *)
Definition select_credential_infos (userID : string) : stmt IdentityDB (list WebAuthnCredential) := fun _ _ db =>
  Ok (reverse (order_by wc_created_at (credentials_of userID db)), db).

Definition owns (id userID : string) (c : WebAuthnCredential) : bool :=
  bool_decide (wc_id c = id) && bool_decide (wc_user_id c = userID).
Definition delete_credential (id userID : string) : stmt IdentityDB Z := fun _ _ db =>
  Ok (Z.of_nat (List.length (List.filter (owns id userID) (id_credentials db))),
      set_credentials (List.filter (fun c => negb (owns id userID c)) (id_credentials db)) db).

Section passkeys.
Context `{Env, Random, Argon2, NetLib, Collation, !TokenMaker AuthDB, MimeLib, JsonReader, WebAuthnLib}.
Variable no_pool : bool.

(** ** [NewWebAuthnHandler] *)

(** [u.Hostname()]: the host without its port and without brackets. *)
Fixpoint last_colon (l : list ascii) : option (list ascii * list ascii) :=
  match l with
  | [] => None
  | c :: l' =>
      match last_colon l' with
      | Some (a, b) => Some (c :: a, b)
      | None => if Ascii.eqb c ":" then Some ([], l') else None
      end
  end.
Definition strip_brackets (l : list ascii) : list ascii :=
  match l, reverse l with
  | "["%char :: rest, "]"%char :: _ => take (List.length rest - 1) rest
  | _, _ => l
  end.
Definition Hostname (u : URL) : string :=
  let l := list_ascii_of_string (u_Host u) in
  let host := match last_colon l with
              | Some (a, b) => if forallb (byte_in 48 57) b then a else l
              | None => l
              end in
  string_of_list_ascii (strip_brackets host).

Definition relying_party (issuer : string) : string * list string :=
  match url_Parse (TrimSpace issuer) with
  | None => ("localhost", ["http://localhost:8084"])
  | Some u =>
      (let host := TrimSpace (Hostname u) in if is_empty host then "localhost" else host,
       let scheme := TrimSpace (u_Scheme u) in
       if negb (is_empty scheme) && negb (is_empty (TrimSpace (u_Host u)))
       then [scheme +:+ "://" +:+ u_Host u] else ["http://localhost:8084"])
  end.

Definition NewWebAuthnHandler (issuer : string) : M IdentityDB unit :=
  fail_if no_pool (ENew "db required") ;;;
  let '(rpID, origins) := relying_party issuer in
  match wa_New rpID origins with
  | Some e => failM e
  | None => autoexec ensureWebAuthnTables
  end.

(** ** Users, credentials, challenges *)
Definition userByEmail (email : string) : M IdentityDB (string * string) :=
  let email := TrimSpace (ToLower email) in
  fail_if (is_empty email) (ENew "email required") ;;;
  let! row := autoexec (select_user_email email) in
  match row with Some u => retM u | None => failM (ESql "no rows in result set") end.

Fixpoint unmarshal_all (docs : list json) : result (list Credential) :=
  match docs with
  | [] => Ok []
  | d :: docs' => let? c := cred_Unmarshal d in let? cs := unmarshal_all docs' in Ok (c :: cs)
  end.
Definition loadCredentials (userID : string) : M IdentityDB (list Credential) :=
  let! docs := autoexec (select_credentials userID) in
  liftR (unmarshal_all docs).

Definition challengeTTL : Z := 5 * 60 * 1000000000.
Definition putSession (kind userID : string) (sd : SessionData) : M IdentityDB string :=
  let! id := randomB64URL 32 in
  let! b := liftR (sd_Marshal sd) in
  let! now := time_Now in
  autoexec (insert_challenge id kind userID b (now + challengeTTL)) ;;;
  retM id.

Definition popSession (id kind : string) : M IdentityDB (option (string * SessionData)) :=
  if is_empty (TrimSpace id) then retM None
  else
    let! row := autoexec (take_challenge id kind) in
    match row with
    | None => retM None
    | Some (uid, raw) => let! sd := liftR (sd_Unmarshal raw) in retM (Some (uid, sd))
    end.

Definition webAuthnCookieName : string := "fincore_webauthn_session".
Definition setWebAuthnCookie (r : request) (sid : string) : Cookie := set_cookie r webAuthnCookieName sid 300.
Definition clearWebAuthnCookie (r : request) : Cookie := set_cookie r webAuthnCookieName "" (-1).
Definition cookieSessionID (r : request) : string := cookie_value r webAuthnCookieName.

(** A random reading of the library *)
Definition wa_draw {A} (f : nat -> result A) : M IdentityDB A := fun w =>
  (f (w_uuid w), mkWorld (w_db w) (w_seq w) (S (w_uuid w)) (w_tick w) (w_tx w) (w_faults w) (w_sent w)).

(** [v, err := m; if err != nil { http.Error(w, msg, code); return }] *)
Definition or_error {A} (m : M IdentityDB A) (fail : error -> reply) (k : A -> M IdentityDB reply)
  : M IdentityDB reply :=
  let! r := tryM m in
  match r with Ok a => k a | Err e => retM (fail e) end.
Definition says (msg : string) (code : Z) : error -> reply := fun _ => error_reply [] msg code.

(** ** Signing in *)
Definition BeginLogin (r : request) : M IdentityDB reply :=
  let email := Values_Get (URL_Query r) "email" in
  if is_empty email then retM (error_reply [] "email required" 400)
  else
    or_error (userByEmail email) (says "unknown user" 404) (fun '(userID, dbEmail) =>
    or_error (loadCredentials userID) (says "failed to load credentials" 500) (fun creds =>
    match creds with
    | [] => retM (error_reply [] "no passkeys registered" 404)
    | _ =>
        let user := mkWebauthnUser userID dbEmail dbEmail creds in
        or_error (wa_draw (fun n => wa_BeginLogin n user)) (fun e => error_reply [] (Error e) 500) (fun '(options, sd) =>
        or_error (putSession kind_login userID sd) (says "failed to persist login session" 500) (fun sid =>
        retM (mkReply 200 json_header [setWebAuthnCookie r sid] (Document options))))
    end)).

(** What follows the verification: the credential is updated, a browser
    session made. *)
Definition login_verified (r : request) (userID : string) (cred : Credential) : M IdentityDB reply :=
  let cleared := [clearWebAuthnCookie r] in
  match cred_Marshal cred with
  | Err _ => retM (error_reply cleared "failed to marshal credential" 500)
  | Ok rawCred =>
      let! _ := tryM (autoexec (update_credential rawCred (cred_SignCount cred) userID (cred_ID cred))) in
      or_error (randomB64URL 32) (fun _ => error_reply cleared "failed to create session" 500) (fun browserToken =>
      let! sessionID := session_put no_pool userID browserToken in
      match sessionID with
      | None => retM (error_reply cleared "failed to create session" 500)
      | Some sessionID => retM (mkReply 200 ∅ (cleared ++ [set_cookie r sessionCookieName sessionID 0]) NoBody)
      end)
  end.

(** With the challenge taken *)
Definition login_taken (r : request) (userID : string) (sd : SessionData) : M IdentityDB reply :=
  let cleared := [clearWebAuthnCookie r] in
  or_error (loadCredentials userID) (fun _ => error_reply cleared "failed to load credentials" 500) (fun creds =>
  let! now := time_Now in
  match wa_FinishLogin now (mkWebauthnUser userID userID userID creds) sd r with
  | Err _ => retM (error_reply cleared "passkey verification failed" 401)
  | Ok cred => login_verified r userID cred
  end).

Definition FinishLogin (r : request) : M IdentityDB reply :=
  or_error (popSession (cookieSessionID r) kind_login) (says "failed to load login session" 500) (fun row =>
  match row with
  | None => retM (error_reply [] "login session expired" 401)
  | Some (userID, sd) => login_taken r userID sd
  end).

(** ** Registering *)
(** The session of the request, or a refusal *)
Definition with_session (msg : string) (r : request) (k : BrowserSession -> M IdentityDB reply) : M IdentityDB reply :=
  let refuse := retM (error_reply [] msg 401) in
  if is_empty (cookie_value r sessionCookieName) then refuse
  else
    let! sess := session_get no_pool (cookie_value r sessionCookieName) in
    match sess with Some s => k s | None => refuse end.

Definition BeginRegister (r : request) : M IdentityDB reply :=
  with_session "login required" r (fun sess =>
  let userID := bs_user_id sess in
  or_error (loadCredentials userID) (says "failed to load credentials" 500) (fun creds =>
  let user := mkWebauthnUser userID userID userID creds in
  or_error (wa_draw (fun n => wa_BeginRegistration n user)) (says "failed to begin registration" 500) (fun '(options, sd) =>
  or_error (putSession kind_register userID sd) (says "failed to persist registration session" 500) (fun sid =>
  retM (mkReply 200 json_header [setWebAuthnCookie r sid] (Document options)))))).

(** What follows the verification: the credential is stored. *)
Definition register_verified (r : request) (userID : string) (cred : Credential) : M IdentityDB reply :=
  let cleared := [clearWebAuthnCookie r] in
  match cred_Marshal cred with
  | Err _ => retM (error_reply cleared "failed to marshal credential" 500)
  | Ok rawCred =>
      or_error (randomB64URL 16) (fun _ => error_reply cleared "server error" 500) (fun rowID =>
      or_error (autoexec (upsert_credential rowID userID (cred_ID cred) rawCred (cred_SignCount cred)))
        (fun _ => error_reply cleared "failed to store credential" 500) (fun _ =>
      retM (mkReply 200 ∅ cleared NoBody)))
  end.

Definition register_taken (r : request) (userID : string) (sd : SessionData) : M IdentityDB reply :=
  let cleared := [clearWebAuthnCookie r] in
  or_error (loadCredentials userID) (fun _ => error_reply cleared "failed to load credentials" 500) (fun creds =>
  let! now := time_Now in
  match wa_FinishRegistration now (mkWebauthnUser userID userID userID creds) sd r with
  | Err _ => retM (error_reply cleared "passkey registration failed" 400)
  | Ok cred => register_verified r userID cred
  end).

Definition FinishRegister (r : request) : M IdentityDB reply :=
  or_error (popSession (cookieSessionID r) kind_register) (says "failed to load registration session" 500) (fun row =>
  match row with
  | None => retM (error_reply [] "registration session expired" 401)
  | Some (userID, sd) => register_taken r userID sd
  end).

(** ** Managing *)
Definition CleanupSessions : M IdentityDB Z := autoexec delete_expired.

Definition credential_info (c : WebAuthnCredential) : json :=
  JObj [("id", JStr (wc_id c)); ("created_at", JTime (wc_created_at c)); ("updated_at", JTime (wc_updated_at c));
        ("sign_count", JInt (wc_sign_count c))].

(** A nil slice is encoded as [null]. *)
Definition infos_json (l : list WebAuthnCredential) : json :=
  match l with [] => JNull | _ => JArr (map credential_info l) end.
Definition ListCredentials (r : request) : M IdentityDB reply :=
  with_session "unauthorized" r (fun sess =>
  or_error (autoexec (select_credential_infos (bs_user_id sess))) (says "server error" 500) (fun rows =>
  retM (mkReply 200 json_header [] (Document (infos_json rows))))).

Definition DeleteCredential (r : request) : M IdentityDB reply :=
  let id := Values_Get (URL_Query r) "id" in
  if is_empty id then retM (error_reply [] "id required" 400)
  else
    with_session "unauthorized" r (fun sess =>
    or_error (autoexec (delete_credential id (bs_user_id sess))) (says "server error" 500) (fun n =>
    retM (if n =? 0 then error_reply [] "not found" 404 else mkReply 204 ∅ [] NoBody))).

(** ** The routes ([newHTTPHandler])

    [webauthn]: [NewWebAuthnHandler] succeeded. *)
Variables accessTTL refreshTTL : Z.
Variables grpc_user_agent grpc_authority : string.
Variable gw : request -> M AuthDB reply.
Variables (cfg : openIDConfiguration) (jwks : JWKS) (webauthn : bool).

Definition json_reply (j : json) : reply := mkReply 200 json_header [] (Document j).
Definition passkey_route (path : string) : option (request -> M IdentityDB reply) :=
  if negb webauthn then None
  else if bool_decide (path = "/webauthn/login/begin") then Some BeginLogin
  else if bool_decide (path = "/webauthn/login/finish") then Some FinishLogin
  else if bool_decide (path = "/webauthn/register/begin") then Some BeginRegister
  else if bool_decide (path = "/webauthn/register/finish") then Some FinishRegister
  else if bool_decide (path = "/webauthn/credentials") then Some ListCredentials
  else if bool_decide (path = "/webauthn/credentials/delete") then Some DeleteCredential
  else None.

Definition identity_handler (r : request) : M IdentityDB reply :=
  let path := rq_Path r in
  if bool_decide (path = "/healthz") then retM ok_reply
  else if bool_decide (path = "/readyz") then readyz no_pool r
  else if bool_decide (path = "/oauth/token") then oauth_token accessTTL refreshTTL grpc_user_agent grpc_authority r
  else if bool_decide (path = "/oauth/logout") then oauth_logout no_pool r
  else if bool_decide (path = "/oauth/authorize")
  then oauth_authorize accessTTL refreshTTL no_pool grpc_user_agent grpc_authority gw r
  else if bool_decide (path = "/.well-known/openid-configuration") then retM (json_reply (openid_document cfg))
  else if bool_decide (path ∈ [jwksPath; "/jwks.json"]) then retM (json_reply (Marshal jwks))
  else match passkey_route path with Some h => h r | None => zoom (gw r) end.

(** The clean-up job of [main], one tick *)
Definition cleanup_tick (revokedRetention : Z) : M IdentityDB unit :=
  let! r := tryM (zoom (CleanupRefreshSessions revokedRetention)) in
  match r with
  | Err _ => retM tt
  | Ok _ => if webauthn then let! _ := tryM CleanupSessions in retM tt else retM tt
  end.
End passkeys.
