(* ===== verification/IdentityProps.v ===== *)
(** * The identity service: properties *)
From S2P Require Import Prelude GoStrings Json JsonText Base64 Sha256 Http Passwords Invariants Authz Tokens LoginLimiter.
From S2P Require Import Auth AuthSpec AuthProps AuthCodes AuthFlows Identity Passkeys.
From Stdlib Require Import Ascii String.
#[local] Open Scope Z_scope.
#[local] Open Scope go_scope.

Lemma kept_handler {DB A} (P : DB -> Prop) (m : M DB A) : kept P m -> kept P (Auth.handler m).
Proof. intros Hm w. rewrite handler_run. apply Hm. Qed.
#[local] Hint Resolve kept_handler : kept.

Lemma kept_or_error {A} P (m : M IdentityDB A) fail k :
  kept P m -> (forall a, kept P (k a)) -> kept P (or_error m fail k).
Proof. intros Hm Hk. unfold or_error. solve_kept. Qed.
Lemma kept_or_error_post {A} P (Q : A -> Prop) (m : M IdentityDB A) fail k :
  kept P m -> (forall w a w', P (w_db w) -> m w = (Ok a, w') -> Q a) -> (forall a, Q a -> kept P (k a)) ->
  kept P (or_error m fail k).
Proof.
  intros Hm HQ Hk. unfold or_error.
  apply (kept_bind_post _ (fun r => match r with Ok a => Q a | Err _ => True end)); [solve_kept| |].
  - intros w r w' HP. unfold tryM. specialize (HQ w). destruct (m w) as [x w1]. intros [= <- <-].
    destruct x; [by eapply HQ|done].
  - intros [a|e]; [apply Hk|]. intros _. solve_kept.
Qed.
Lemma kept_random `{Random} P n : kept P (Identity.randomB64URL (DB := IdentityDB) n).
Proof. unfold Identity.randomB64URL. solve_kept. Qed.
#[local] Hint Resolve kept_random : kept.

Section pages.
Context `{Env, Random, Argon2, NetLib, Collation, !TokenMaker AuthDB, !TokenMakerOk AuthDB, MimeLib, JsonReader}.
Variables accessTTL refreshTTL : Z.
Variable no_pool : bool.
Variables grpc_user_agent grpc_authority : string.
Variable gw : request -> M AuthDB reply.
Implicit Types (w : World IdentityDB) (d : IdentityDB) (P : IdentityDB -> Prop).

(** ** The authorization page issues no code

    The handlers call the API without the user's access token, which is what
    [OAuthAuthorize] takes the user from. *)
Abbreviation bare_context := (call_context grpc_user_agent grpc_authority "").

Lemma bare_unauthorized : auth_values bare_context = [].
Proof. reflexivity. Qed.
Lemma bare_refused (w : World AuthDB) : userIDFromAuthHeader bare_context w = (Err (unauth "access token required"), w).
Proof. unfold userIDFromAuthHeader, token_of. by rewrite bare_unauthorized. Qed.

Lemma authorize_refused req (w : World AuthDB) a : (OAuthAuthorize bare_context req w).1 <> Ok a.
Proof.
  destruct (OAuthAuthorize bare_context req w) as [[x|e] w'] eqn:Hr; [|done]. exfalso.
  apply handler_ok in Hr.
  repeat (apply bind_inv in Hr as (? & ? & ? & Hr); cbv zeta in Hr;
    try match goal with H : userIDFromAuthHeader _ _ = _ |- _ => by rewrite bare_refused in H end).
Qed.

Lemma kept_same {A} (P : AuthDB -> Prop) (m : M AuthDB A) : (forall db0, keeps (same_db db0) m) -> kept P m.
Proof. intros Hm. apply kept_step. intros w. by apply same_db_keeps. Qed.
Lemma kept_fetch (P : AuthDB -> Prop) id : kept P (fetch_or_invalid id).
Proof. apply kept_same. intros db0. apply same_db_fetch. Qed.
Lemma kept_userID (P : AuthDB -> Prop) ctx : kept P (userIDFromAuthHeader ctx).
Proof. apply kept_same. intros db0. by apply same_db_userID. Qed.
#[local] Hint Resolve kept_fetch kept_userID : kept.

Lemma authorize_unchanged (P : AuthDB -> Prop) req : kept P (OAuthAuthorize bare_context req).
Proof.
  apply kept_handler.
  do 9 (apply kept_bind; [solve_kept|intros; cbv zeta]).
  apply kept_bind_fails; [solve_kept|]. intros v x. by rewrite bare_refused.
Qed.

(** *** Calls of the API *)
Lemma kept_call {A} (P : AuthDB -> Prop) (m : M AuthDB A) : kept P m -> kept (fun d => P (id_auth d)) (call m).
Proof. intros Hm. unfold call. apply kept_try, kept_rpc. exact (kept_zoom (S := IdentityDB) P m Hm). Qed.
Lemma kept_call_frame {A} P (m : M AuthDB A) : (forall t d, P d -> P (upd t d)) -> kept P (call m).
Proof. intros Hf. unfold call. by apply kept_try, kept_rpc, kept_zoom_frame. Qed.
Lemma kept_call_reads {A} P (m : M AuthDB A) : (forall Q, kept Q m) -> kept P (call m).
Proof.
  intros Hm. unfold call. apply kept_try, kept_rpc, kept_step. intros w. unfold zoom.
  pose proof (Hm (fun t => t = view (w_db w)) (set_db (view (w_db w)) w) eq_refl) as Ht.
  destruct (m _) as [r w']. simpl in *. rewrite Ht. by destruct (w_db w).
Qed.

Lemma kept_issue_code P pd : kept P (issue_code grpc_user_agent grpc_authority pd).
Proof. apply kept_call_reads. intros Q. apply authorize_unchanged. Qed.
Lemma issue_code_refused pd w r w' : issue_code grpc_user_agent grpc_authority pd w = (Ok r, w') -> exists e, r = Err e.
Proof.
  unfold issue_code, call, tryM. destruct (rpc _ w) as [x w1] eqn:Hr. intros [= <- <-].
  destruct x as [a|e]; [exfalso|by exists e]. unfold rpc, next_fault in Hr.
  assert (forall v, (zoom (OAuthAuthorize bare_context (authorize_request pd)) v).1 <> Ok a) as Hno.
  { intros v. unfold zoom. pose proof (authorize_refused (authorize_request pd) (set_db (view (w_db v)) v)) as Hn.
    destruct (OAuthAuthorize _ _ _) as [y v']. simpl in *. intros ->. by destruct (Hn a). }
  destruct (w_faults w) as [|[] fl]; try done.
  all: match goal with H : context [zoom ?m ?v] |- _ => specialize (Hno v); destruct (zoom m v) as [[b|e] v'] end.
  all: simpl in *; by simplify_eq.
Qed.

Lemma consent_reads (P : AuthDB -> Prop) u c : kept P (GetOAuthConsent u c).
Proof.
  unfold GetOAuthConsent, consent_ids. apply kept_handler. apply kept_bind; [solve_kept|]. intros [uid cid].
  apply kept_bind; [|solve_kept]. apply kept_autoexec. intros now seq db a db' HP [= <- <-]. done.
Qed.

(** *** Sessions *)
Lemma kept_session_get P id : kept P (session_get no_pool id).
Proof.
  unfold session_get. destruct (_ || _); [solve_kept|]. apply kept_bind; [|solve_kept]. apply kept_try, kept_autoexec.
  intros now seq db a db' HP [= <- <-]. done.
Qed.
Lemma kept_csrf P r : kept P (csrf_cookie r).
Proof. unfold csrf_cookie. solve_kept. Qed.
#[local] Hint Resolve kept_session_get kept_csrf kept_issue_code : kept.

Lemma kept_authorize_get P r sess cookies pd :
  kept P (authorize_get grpc_user_agent grpc_authority r sess cookies pd).
Proof.
  unfold authorize_get. cbv zeta. destruct sess as [s|]; [|solve_kept]. destruct (negb _); [solve_kept|].
  apply kept_bind; [apply kept_call_reads; intros Q; apply consent_reads|].
  solve_kept.
Qed.

(** The CSRF token of the form is the one of the cookie, and the user
    approved. *)
Definition approved (r : request) : Prop :=
  rq_Method r = "POST" /\ (ParseForm r).2 = true /\
  cookie_value r csrfCookieName <> "" /\
  TrimSpace (Values_Get (ParseForm r).1 "csrf_token") = cookie_value r csrfCookieName /\
  Values_Get (ParseForm r).1 "approve" = "yes".

Lemma kept_authorize_post P r sid sess cookies pd :
  ~ approved r -> rq_Method r = "POST" ->
  kept P (authorize_post accessTTL refreshTTL no_pool grpc_user_agent grpc_authority r sid sess cookies pd).
Proof.
  intros Hna Hpost. unfold authorize_post. destruct (ParseForm r) as [form ok] eqn:Hform.
  destruct (negb ok) eqn:Hok; [solve_kept|]. apply negb_false_iff in Hok as ->.
  cbv zeta. simpl. case_match eqn:Hcsrf; [solve_kept|].
  case_match eqn:Hap; [solve_kept|]. exfalso. apply Hna. unfold approved. rewrite Hform. simpl.
  rewrite !orb_false_iff, negb_false_iff, !is_empty_false, bool_decide_eq_true in Hcsrf.
  rewrite negb_false_iff, bool_decide_eq_true in Hap. destruct Hcsrf as [[? ?] ?]. done.
Qed.

(** C18. The authorization page changes nothing, in any of the service's tables
    and whatever fails, unless the request is a POST whose CSRF token is not
    blank and equals the one in the cookie and in which the user approved. *)
Theorem authorize_guarded r w :
  wants_html r = true -> ~ approved r ->
  w_db (oauth_authorize accessTTL refreshTTL no_pool grpc_user_agent grpc_authority gw r w).2 = w_db w.
Proof.
  intros Hhtml Hna. unfold oauth_authorize. rewrite Hhtml. simpl.
  match goal with |- context [bindM ?m ?k] => assert (kept (fun d => d = w_db w) (bindM m k)) as Hk end; [|by apply Hk].
  apply kept_bind; [solve_kept|]. intros sess. apply kept_bind; [solve_kept|]. intros [csrf cookies]. cbv zeta.
  case_bool_decide; [apply kept_authorize_get|]. case_bool_decide; [|solve_kept]. by apply kept_authorize_post.
Qed.

(** *** Codes *)
Definition codes_are (c0 : list AuthorizationCode) (db : AuthDB) : Prop := ad_codes db = c0.

Lemma codes_stmt {A} c0 (s : stmt AuthDB A) :
  (forall now seq db a db', s now seq db = Ok (a, db') -> ad_codes db' = ad_codes db) -> stmt_kept (codes_are c0) s.
Proof. unfold codes_are. intros Hs now seq db a db' HP Hr. by rewrite (Hs _ _ _ _ _ Hr). Qed.
Ltac codes_stmt := apply codes_stmt; intros ??? a db' Hr;
  repeat (case_match; try discriminate); by simplify_eq.

Lemma codes_kept_roles c0 u : stmt_kept (codes_are c0) (select_roles u).
Proof. unfold select_roles. codes_stmt. Qed.
Lemma codes_kept_permissions c0 u : stmt_kept (codes_are c0) (select_permissions u).
Proof. unfold select_permissions. codes_stmt. Qed.
Lemma codes_kept_user c0 e : stmt_kept (codes_are c0) (select_user_by_email e).
Proof. unfold select_user_by_email. codes_stmt. Qed.
Lemma codes_kept_session c0 s : stmt_kept (codes_are c0) (insert_session s).
Proof. unfold insert_session. codes_stmt. Qed.
Lemma codes_kept_consent c0 u c : stmt_kept (codes_are c0) (select_consent u c).
Proof. unfold select_consent. codes_stmt. Qed.
Lemma codes_kept_upsert c0 u c sc : stmt_kept (codes_are c0) (upsert_consent u c sc).
Proof. unfold upsert_consent. codes_stmt. Qed.
Lemma codes_kept_history c0 u c sc : stmt_kept (codes_are c0) (insert_consent_history u c sc).
Proof. unfold insert_consent_history. codes_stmt. Qed.
Lemma kept_create (P : AuthDB -> Prop) p : kept P (CreateToken p).
Proof. apply kept_step. intros w. by rewrite create_pure. Qed.
#[local] Hint Resolve codes_kept_roles codes_kept_permissions codes_kept_user codes_kept_session codes_kept_consent
  codes_kept_upsert codes_kept_history kept_create : kept.

Lemma kept_limiter c0 key : kept (codes_are c0) (login_allow key) /\ kept (codes_are c0) (login_failed key) /\
  kept (codes_are c0) (login_succeeded key).
Proof.
  assert (forall l, kept (codes_are c0) (put_limiter l)) as Hput by (intros l w Hw; exact Hw).
  assert (kept (codes_are c0) get_limiter) as Hget by by apply kept_step.
  split_and!; unfold login_allow, login_failed, login_succeeded; apply kept_bind; try done; intros [l|]; solve_kept.
Qed.
Lemma kept_login_codes c0 ctx email password :
  kept (codes_are c0) (Login accessTTL refreshTTL ctx email password).
Proof.
  unfold Login, issue_access, getRolesAndPermissions, newRefreshToken. apply kept_handler.
  destruct (clientMetaFromContext ctx) as [ua ip].
  assert (forall key, kept (codes_are c0) (login_allow key)) as Hal by apply kept_limiter.
  assert (forall key, kept (codes_are c0) (login_failed key)) as Hfa by apply kept_limiter.
  assert (forall key, kept (codes_are c0) (login_succeeded key)) as Hsu by apply kept_limiter.
  solve_kept.
Qed.
Lemma kept_consent_codes c0 u c sc : kept (codes_are c0) (StoreOAuthConsent u c sc).
Proof. unfold StoreOAuthConsent, consent_ids. apply kept_handler. solve_kept. Qed.

(** *** Every request is answered *)
Lemma answers_session_get id : answers (fun _ => True) (session_get no_pool id).
Proof.
  unfold session_get. destruct (_ || _); [by apply answers_ret|]. eapply answers_bind; [apply answers_try|].
  intros r _. by apply answers_ret.
Qed.
Lemma answers_session_put u t : answers (fun _ => True) (session_put no_pool u t).
Proof.
  unfold session_put. cbv zeta. destruct (_ || _); [by apply answers_ret|]. eapply answers_bind; [apply answers_try|].
  intros [id|e] _; [|by apply answers_ret]. eapply (answers_bind (fun _ => True)); [intros v; by repeat eexists|].
  intros now _. eapply answers_bind; [apply answers_try|]. intros x _. by apply answers_ret.
Qed.
Lemma answers_session_del id : answers (fun _ => True) (session_del no_pool id).
Proof.
  unfold session_del. destruct (_ || _); [by apply answers_ret|]. eapply answers_bind; [apply answers_try|].
  intros r _. by apply answers_ret.
Qed.
Lemma answers_csrf r : answers (fun _ => True) (csrf_cookie r).
Proof.
  unfold csrf_cookie. destruct (negb _); [by apply answers_ret|]. eapply answers_bind; [apply answers_try|].
  intros x _. by apply answers_ret.
Qed.
Lemma answers_issue_code pd : answers (fun r => exists e, r = Err e) (issue_code grpc_user_agent grpc_authority pd).
Proof.
  intros w. destruct (answers_try (rpc (zoom (OAuthAuthorize bare_context (authorize_request pd)))) w) as (r & w' & Hr & _).
  exists r, w'. split; [exact Hr|]. by eapply issue_code_refused.
Qed.

(** A redirect reports an error to the client. *)
Definition error_redirect (rep : reply) : Prop :=
  re_Status rep = 302 -> exists redirectURI state code desc,
    oauth2ErrorRedirect redirectURI state code desc = Some (Header_Get (re_Header rep) "Location").

Lemma error_redirect_to r cookies ru st code desc loc :
  oauth2ErrorRedirect ru st code desc = Some loc -> error_redirect (http_Redirect r cookies loc).
Proof. intros Hl _. exists ru, st, code, desc. rewrite Hl. unfold http_Redirect. by case_bool_decide. Qed.
Lemma error_location_redirect r cookies pd e loc :
  error_location pd e = Some loc -> error_redirect (http_Redirect r cookies loc).
Proof. unfold error_location. destruct (oauth2ErrorFromGRPC e) as [code desc]. apply error_redirect_to. Qed.
Lemma error_redirect_other st h c b : st <> 302 -> error_redirect (mkReply st h c b).
Proof. by intros ? ?. Qed.

Lemma answers_refused r cookies pd rep :
  error_redirect rep ->
  answers error_redirect (let! resp := issue_code grpc_user_agent grpc_authority pd in
    match resp with
    | Ok (_, _, url) => retM (http_Redirect r cookies url)
    | Err e => match error_location pd e with
               | Some loc => retM (http_Redirect r cookies loc)
               | None => retM rep
               end
    end).
Proof.
  intros Hrep. eapply answers_bind; [apply answers_issue_code|]. intros x [e ->].
  destruct (error_location pd e) as [loc|] eqn:Hl; [|by apply answers_ret].
  eapply answers_ret, error_location_redirect, Hl.
Qed.

Lemma answers_get r sess cookies pd :
  answers error_redirect (authorize_get grpc_user_agent grpc_authority r sess cookies pd).
Proof.
  unfold authorize_get. cbv zeta.
  assert (forall q, error_redirect (page html cookies q)) as Hpage by by (intros q; apply error_redirect_other).
  destruct sess as [s|]; [|by apply answers_ret]. destruct (negb _); [by apply answers_ret|].
  eapply answers_bind; [apply answers_try|]. intros [granted|e] _; [|by apply answers_ret].
  destruct (negb _); [by apply answers_ret|]. by apply answers_refused.
Qed.
Lemma answers_user r u cookies pd :
  answers error_redirect (authorize_user grpc_user_agent grpc_authority r u cookies pd).
Proof.
  unfold authorize_user. eapply answers_bind; [apply answers_try|]. intros x _.
  eapply answers_bind; [apply answers_issue_code|]. intros y [e ->].
  destruct (error_location pd e) as [loc|] eqn:Hl.
  - eapply answers_ret, error_location_redirect, Hl.
  - by apply answers_ret, error_redirect_other.
Qed.
Lemma answers_login r sid form cookies pd :
  answers error_redirect (authorize_login accessTTL refreshTTL no_pool grpc_user_agent grpc_authority r sid form cookies pd).
Proof.
  unfold authorize_login. eapply answers_bind; [apply answers_try|]. intros [t|e] _; [|by apply answers_ret, error_redirect_other].
  cbv zeta. destruct (is_empty _); [by apply answers_ret, error_redirect_other|].
  apply (answers_bind (fun _ => True)).
  { destruct (negb _); [apply answers_session_del|by apply answers_ret]. }
  intros _ _. eapply answers_bind; [apply answers_session_put|]. intros id _. apply answers_user.
Qed.
Lemma answers_post r sid sess cookies pd :
  answers error_redirect (authorize_post accessTTL refreshTTL no_pool grpc_user_agent grpc_authority r sid sess cookies pd).
Proof.
  unfold authorize_post. destruct (ParseForm r) as [form ok].
  destruct (negb ok); [by apply answers_ret, error_redirect_other|]. cbv zeta.
  destruct (_ || _); [|destruct (negb _)].
  1,2: destruct (oauth2ErrorRedirect _ _ _ _) as [loc|] eqn:Hl;
    [eapply answers_ret, error_redirect_to, Hl|by apply answers_ret, error_redirect_other].
  destruct sess; [apply answers_user|apply answers_login].
Qed.

(** *** What the page's steps do to codes *)
Lemma kept_session_put P u t :
  (forall id exp, stmt_kept P (insert_browser id u (TrimSpace t) exp)) -> kept P (session_put no_pool u t).
Proof.
  intros Hi. unfold session_put. cbv zeta. destruct (_ || _); [solve_kept|]. apply kept_bind; [solve_kept|].
  intros [id|e]; [|solve_kept]. apply kept_bind; [solve_kept|]. intros now. apply kept_bind; [|solve_kept].
  by apply kept_try, kept_autoexec.
Qed.
Lemma kept_session_del P id : (forall i, stmt_kept P (delete_browser i)) -> kept P (session_del no_pool id).
Proof.
  intros Hd. unfold session_del. destruct (_ || _); [solve_kept|]. apply kept_bind; [|solve_kept].
  by apply kept_try, kept_autoexec.
Qed.

Lemma kept_user_codes c0 r u cookies pd :
  kept (fun d => codes_are c0 (id_auth d)) (authorize_user grpc_user_agent grpc_authority r u cookies pd).
Proof.
  unfold authorize_user. apply kept_bind; [apply kept_call, kept_consent_codes|]. solve_kept.
Qed.
Lemma kept_post_codes c0 r sid sess cookies pd :
  kept (fun d => codes_are c0 (id_auth d))
    (authorize_post accessTTL refreshTTL no_pool grpc_user_agent grpc_authority r sid sess cookies pd).
Proof.
  unfold authorize_post. destruct (ParseForm r) as [form ok]. destruct (negb ok); [solve_kept|]. cbv zeta.
  destruct (_ || _); [solve_kept|]. destruct (negb _); [solve_kept|]. destruct sess; [apply kept_user_codes|].
  unfold authorize_login. apply kept_bind; [apply kept_call, kept_login_codes|]. intros [t|e]; [|solve_kept].
  cbv zeta. destruct (is_empty _); [solve_kept|]. apply kept_bind.
  { destruct (negb _); [|solve_kept]. apply kept_session_del. by intros i now seq db x db' HP [= <- <-]. }
  intros _. apply kept_bind; [|intros; apply kept_user_codes]. apply kept_session_put.
  intros id exp now seq db x db' HP. unfold insert_browser. repeat (case_match; try done). by intros [= <- <-].
Qed.

(** The authorization page issues no authorization code: whatever the
    request, the state of the tables and the failures, a request for the page
    is answered, stores no code, and if it redirects the browser then to
    report an error to the client. *)
Theorem authorize_issues_no_code r w :
  wants_html r = true ->
  exists rep w', oauth_authorize accessTTL refreshTTL no_pool grpc_user_agent grpc_authority gw r w = (Ok rep, w') /\
    ad_codes (id_auth (w_db w')) = ad_codes (id_auth (w_db w)) /\ error_redirect rep.
Proof.
  intros Hhtml. unfold oauth_authorize. rewrite Hhtml. simpl.
  match goal with |- context [bindM ?m ?k w] =>
    assert (answers error_redirect (bindM m k)) as Ha;
    [|assert (kept (fun d => codes_are (ad_codes (id_auth (w_db w))) (id_auth d)) (bindM m k)) as Hk;
      [|destruct (Ha w) as (rep & w' & Hr & Hq); exists rep, w'; specialize (Hk w eq_refl); rewrite Hr in Hk; done]]
  end.
  - eapply answers_bind; [apply answers_session_get|]. intros sess _.
    eapply answers_bind; [apply answers_csrf|]. intros [csrf cookies] _. cbv zeta.
    case_bool_decide; [apply answers_get|]. case_bool_decide; [apply answers_post|].
    by apply answers_ret, error_redirect_other.
  - apply kept_bind; [solve_kept|]. intros sess. apply kept_bind; [solve_kept|]. intros [csrf cookies]. cbv zeta.
    case_bool_decide; [apply kept_authorize_get|]. case_bool_decide; [apply kept_post_codes|solve_kept].
Qed.

(** ** The token endpoint *)
Lemma call_inv {A} (m : M AuthDB A) w a w' :
  call m w = (Ok (Ok a), w') ->
  exists v v', m v = (Ok a, v') /\ w_db v = id_auth (w_db w) /\ w_tick v = w_tick w /\ w_uuid v = w_uuid w /\
    w_db w' = upd (w_db v') (w_db w) /\ w_uuid w' = w_uuid v'.
Proof.
  unfold call, tryM. destruct (rpc _ w) as [x w1] eqn:Hr. intros [= -> ->]. apply rpc_ok in Hr as (fl & Hr).
  unfold zoom in Hr. destruct (m _) as [y v'] eqn:Hm in Hr. injection Hr as -> <-. by eexists _, v'.
Qed.

Lemma token_error_status e : (oauthTokenErrorFromGRPC e).2 <> 200.
Proof. unfold oauthTokenErrorFromGRPC. by repeat case_match. Qed.

Definition form_value (r : request) (k : string) : string := TrimSpace (Values_Get (ParseForm r).1 k).

(** The call the endpoint makes: the form's fields, and the
    [Authorization] header. *)
Definition token_form (r : request) : OAuthTokenRequest :=
  mkTokenRequest (form_value r "grant_type") (form_value r "client_id") (form_value r "client_secret")
    (form_value r "code") (form_value r "redirect_uri") (form_value r "code_verifier").
Definition token_context (r : request) : context :=
  call_context grpc_user_agent grpc_authority (TrimSpace (Header_Get (rq_Header r) "Authorization")).

(** The token endpoint hands out tokens (replies with status 200) only to
    a POST whose form redeems an authorization code: the form names a code
    that is stored and unused, was issued to the client the request names,
    whose secret it carries if that client is confidential, has not expired,
    is bound to the form's redirect URI and to a challenge that is the hash of the form's
    verifier. The reply carries the tokens of one new session of the code's
    user, and the code is marked as used. *)
Theorem token_endpoint_sound r w rep w' :
  oauth_token accessTTL refreshTTL grpc_user_agent grpc_authority r w = (Ok rep, w') -> re_Status rep = 200 ->
  exists rec c tks s t,
    let h := hashB64URLSHA256 (form_value r "code") in
    let db := id_auth (w_db w) in let db' := id_auth (w_db w') in
    rq_Method r = "POST" /\ (ParseForm r).2 = true /\
    rec ∈ ad_clients db /\ client_authenticated (token_context r) (token_form r) rec /\ c ∈ ad_codes db /\ ac_code_hash c = h /\
    ac_client_id c = oc_id rec /\ ac_consumed_at c = None /\ (w_tick w <= t)%nat /\ clock_Now t <= ac_expires_at c /\
    ac_redirect_uri c = form_value r "redirect_uri" /\
    TrimSpace (ac_code_challenge c) = hashB64URLSHA256 (form_value r "code_verifier") /\
    re_Body rep = Document (token_document tks) /\
    ad_sessions db' = ad_sessions db ++ [s] /\ rs_token_hash s = HashRefreshToken (tk_RefreshToken tks) /\
    rs_user_id s = ac_user_id c /\ ad_codes db' = map (consume_code h (pg_time (clock_Now t))) (ad_codes db).
Proof.
  unfold oauth_token. destruct (negb _) eqn:Hm; [by intros [= <- <-]|]. apply negb_false_iff, bool_decide_eq_true in Hm.
  unfold token_form, form_value. destruct (ParseForm r) as [form ok]. destruct (negb ok) eqn:Hok; [by intros [= <- <-]|].
  apply negb_false_iff in Hok as ->. cbv zeta. intros Hr Hst. apply bind_inv in Hr as (x & w1 & Hc & Hr).
  destruct x as [tks|e].
  2: { pose proof (token_error_status e) as Hne. destruct (oauthTokenErrorFromGRPC e) as [[code desc] st].
       by injection Hr as <- <-. }
  injection Hr as <- <-. apply call_inv in Hc as (v & v' & Hr & Hv & Ht & _ & Hw & _).
  apply OAuthToken_ok in Hr as (rec & c & accessNow & wc & s & t & Hrec & Hauth & Hc & Hh & Hcl & [Hle _] & Hval & _ & Hcod & Hse & Hsh & Hsu & _ & _).
  simpl in *. rewrite Hv, Ht, !TrimSpace_idem in *. apply code_valid_spec in Hval as (? & ? & ? & ?).
  exists rec, c, tks, s, t. rewrite Hw. simpl. rewrite ?TrimSpace_idem. by split_and!.
Qed.
End pages.

(** ** Nobody signs in

    [json.Marshal] of the claims a token maker signs: the user is the
    registered claim [sub]. *)
Definition list_json (l : list string) : json := match l with [] => JNull | _ => JArr (map JStr l) end.
Definition date_member (k : string) (t : option Z) : list (string * json) :=
  match t with Some t => [(k, JInt (t / 1000000000))] | None => [] end.
Definition claims_json (c : jwtClaims) : json :=
  JObj ([("roles", list_json (jc_Roles c)); ("permissions", list_json (jc_Permissions c))] ++
        (if jc_LSN c =? 0 then [] else [("lsn", JInt (jc_LSN c))]) ++
        omitempty "sub" (jc_Subject c) ++ date_member "exp" (jc_ExpiresAt c) ++ date_member "iat" (jc_IssuedAt c)).

(** The format of a signed token (RFC 7519): three parts, the second of which
    is the text of the claims in base64url. *)
Class JwtText `{Jwt, JsonReader} : Prop := {
  jwt_text : forall kid c priv tok, jwt_SignedString kid c priv = Ok tok ->
    exists header payload signature text,
      tok = header +:+ String "." (payload +:+ String "." signature) /\
      free_of "." header /\ free_of "." payload /\ free_of "." signature /\
      raw_DecodeString URLEncoding payload = Some text /\ json_Decode text = BJson (claims_json c);
}.

Lemma last_string_app k l1 l2 :
  (forall kv, kv ∈ l2 -> EqualFold kv.1 k = false) -> last_string k (l1 ++ l2) = last_string k l1.
Proof.
  unfold last_string. rewrite foldl_app. generalize (foldl (fun acc (kv : string * json) => if EqualFold kv.1 k then match kv.2 with JStr s => s | _ => acc end else acc) "" l1).
  induction l2 as [|kv l2 IH]; intros acc Hl; [done|]. simpl. rewrite (Hl kv) by left. apply IH. intros kv' Hkv'. apply Hl. by right.
Qed.
Lemma claims_no_user c : match claims_json c with JObj fs => last_string "user_id" fs = "" | _ => True end.
Proof.
  unfold claims_json. rewrite last_string_app; [done|]. intros kv.
  unfold omitempty, date_member. rewrite !elem_of_app.
  destruct (jc_LSN c =? 0), (is_empty (jc_Subject c)), (jc_ExpiresAt c), (jc_IssuedAt c);
    rewrite ?elem_of_nil, ?list_elem_of_singleton; naive_solver.
Qed.

Lemma token_user_none `{Jwt, JsonReader, !JwtText} kid c priv tok :
  jwt_SignedString kid c priv = Ok tok -> token_user tok = "".
Proof.
  intros (h & p & s & b & -> & Hh & Hp & Hs & Hd & Hj)%jwt_text. unfold token_user.
  rewrite (Split_app _ _ _ Hh), (Split_app _ _ _ Hp), (Split_free _ _ Hs), Hd, Hj. apply (claims_no_user c).
Qed.

Section locked.
Context `{Env, Random, Argon2, NetLib, Collation, Jwt, MimeLib, JsonReader, WebAuthnLib, !JwtText}.
Variable maker : Ed25519JWTMaker.
#[local] Instance identity_maker : TokenMaker AuthDB := maker_TokenMaker maker.
#[local] Instance identity_maker_ok : TokenMakerOk AuthDB := maker_ok maker.
Variables accessTTL refreshTTL : Z.
Variable no_pool : bool.
Variables grpc_user_agent grpc_authority : string.
Variable gw : request -> M AuthDB reply.
Variables (cfg : openIDConfiguration) (jwks : JWKS) (webauthn : bool).
Implicit Types w : World IdentityDB.

Abbreviation serve := (identity_handler no_pool accessTTL refreshTTL grpc_user_agent grpc_authority gw cfg jwks webauthn).

(** The runs of the service: requests, calls of the API (anything that works
    on the tables of the auth service), the clean-up job, any failures. *)
Inductive identity_step : World IdentityDB -> World IdentityDB -> Prop :=
| step_request r w : identity_step w (serve r w).2
| step_api A (m : M AuthDB A) w : identity_step w (zoom m w).2
| step_cleanup retention w : identity_step w (cleanup_tick webauthn retention w).2
| step_identity_faults fl w :
    identity_step w (mkWorld (w_db w) (w_seq w) (w_uuid w) (w_tick w) (w_tx w) fl (w_sent w)).

(** No browser sessions, no passkeys, no ceremonies under way *)
Definition nobody (d : IdentityDB) : Prop := id_browser d = [] /\ id_credentials d = [] /\ id_challenges d = [].

Lemma nobody_call {A} (m : M AuthDB A) : kept nobody (call m).
Proof. apply kept_call_frame. by intros t d. Qed.
Lemma nobody_zoom {A} (m : M AuthDB A) : kept nobody (zoom m).
Proof. apply kept_zoom_frame. by intros t d. Qed.
#[local] Hint Resolve nobody_call nobody_zoom : kept.

(** *** Reads *)
Lemma read_kept {A} P (s : stmt IdentityDB A) :
  (forall now seq db a db', s now seq db = Ok (a, db') -> db' = db) -> stmt_kept P s.
Proof. intros Hs now seq db a db' HP Hr. by rewrite (Hs _ _ _ _ _ Hr). Qed.
Lemma nobody_session id w s w' : nobody (w_db w) -> session_get no_pool id w = (Ok s, w') -> s = None.
Proof.
  intros (Hb & _). unfold session_get. destruct (_ || _); [by intros [= <- <-]|]. intros Hr.
  apply bind_inv in Hr as (r & w1 & Hr & [= <- <-]). unfold tryM in Hr. destruct (autoexec _ w) as [x w2] eqn:Hx.
  injection Hr as -> ->. destruct r as [s|e]; [|done]. apply autoexec_ok in Hx as ((now & sq & Hst) & _).
  unfold select_browser in Hst. rewrite Hb in Hst. by injection Hst as <- _.
Qed.
Lemma nobody_with_session msg r k : kept nobody (with_session no_pool msg r k).
Proof.
  unfold with_session. cbv zeta. destruct (is_empty _); [solve_kept|].
  apply (kept_bind_post _ (fun s => s = None)); [apply kept_session_get| |by intros s ->; solve_kept].
  intros w s w'. apply nobody_session.
Qed.
Lemma nobody_credentials uid w cs w' :
  nobody (w_db w) -> loadCredentials uid w = (Ok cs, w') -> cs = [].
Proof.
  intros (_ & Hc & _) Hr. unfold loadCredentials in Hr. apply bind_inv in Hr as (docs & w1 & Hx & [= Hr _]).
  apply autoexec_ok in Hx as ((now & sq & Hst) & _). unfold select_credentials, credentials_of in Hst.
  rewrite Hc in Hst. injection Hst as <- _. by injection Hr.
Qed.
Lemma nobody_challenge id kind w row w' : nobody (w_db w) -> popSession id kind w = (Ok row, w') -> row = None.
Proof.
  intros (_ & _ & Hc). unfold popSession. destruct (is_empty _); [by intros [= <- <-]|]. intros Hr.
  apply bind_inv in Hr as (x & w1 & Hx & Hr). apply autoexec_ok in Hx as ((now & sq & Hst) & _).
  unfold take_challenge in Hst. rewrite Hc in Hst. injection Hst as <- _. by injection Hr.
Qed.

(** *** Handlers *)
Lemma kept_load P uid : kept P (loadCredentials uid).
Proof. unfold loadCredentials. apply kept_bind; [|solve_kept]. apply kept_autoexec, read_kept. by intros ????? [= _ <-]. Qed.
Lemma kept_email P email : kept P (userByEmail email).
Proof.
  unfold userByEmail. cbv zeta. apply kept_bind; [solve_kept|]. intros _. apply kept_bind; [|solve_kept].
  apply kept_autoexec, read_kept. by intros ????? [= _ <-].
Qed.
Lemma nobody_pop id kind : kept nobody (popSession id kind).
Proof.
  unfold popSession. destruct (is_empty _); [solve_kept|]. apply kept_bind; [|solve_kept].
  apply kept_autoexec. intros now seq db a db' (Hb & Hc & Hch) [= _ <-]. unfold nobody. simpl. by rewrite Hch.
Qed.

Lemma nobody_begin_login r : kept nobody (BeginLogin r).
Proof.
  unfold BeginLogin. cbv zeta. destruct (is_empty _); [solve_kept|].
  apply kept_or_error; [apply kept_email|]. intros [uid email].
  apply (kept_or_error_post _ (fun cs => cs = [])); [apply kept_load| |by intros cs ->; solve_kept].
  intros w cs w'. apply nobody_credentials.
Qed.
Ltac no_challenge :=
  apply (kept_or_error_post _ (fun row => row = None));
    [apply nobody_pop|intros ???; apply nobody_challenge|by intros row ->; solve_kept].
Lemma nobody_finish_login r : kept nobody (FinishLogin no_pool r).
Proof. unfold FinishLogin. no_challenge. Qed.
Lemma nobody_finish_register r : kept nobody (FinishRegister r).
Proof. unfold FinishRegister. no_challenge. Qed.

Lemma nobody_user r u cookies pd : kept nobody (authorize_user grpc_user_agent grpc_authority r u cookies pd).
Proof.
  unfold authorize_user. apply kept_bind; [apply nobody_call|]. intros _.
  apply kept_bind; [apply nobody_call|]. solve_kept.
Qed.
(** The access token of a login names its user in a claim the page does not
    look at. *)
Lemma login_no_user ctx email password w t w' :
  call (Login accessTTL refreshTTL ctx email password) w = (Ok (Ok t), w') -> token_user (tk_AccessToken t) = "".
Proof.
  intros (v & v' & Hr & _)%call_inv.
  apply Login_ok in Hr as (e & u & now & wc & created & ua & ip & i & _ & _ & _ & _ & Hc & _).
  by apply token_user_none in Hc.
Qed.
Lemma nobody_login r sid form cookies pd :
  kept nobody (authorize_login accessTTL refreshTTL no_pool grpc_user_agent grpc_authority r sid form cookies pd).
Proof.
  unfold authorize_login.
  apply (kept_bind_post _ (fun x => match x with Ok t => token_user (tk_AccessToken t) = "" | Err _ => True end)).
  - apply nobody_call.
  - intros w [t|e] w' _ Hr; [|done]. by apply login_no_user in Hr.
  - intros [t|e] Ht; [|solve_kept]. cbv zeta. rewrite Ht, (proj2 (is_empty_true _) eq_refl). solve_kept.
Qed.
Lemma nobody_authorize r :
  kept nobody (oauth_authorize accessTTL refreshTTL no_pool grpc_user_agent grpc_authority gw r).
Proof.
  unfold oauth_authorize. destruct (negb _); [apply nobody_zoom|]. cbv zeta.
  apply kept_bind; [apply kept_session_get|]. intros sess. apply kept_bind; [apply kept_csrf|]. intros [csrf cookies].
  case_bool_decide; [by apply kept_authorize_get|]. case_bool_decide; [|solve_kept].
  unfold authorize_post. destruct (ParseForm r) as [form ok]. cbv zeta. destruct (negb ok); [solve_kept|].
  destruct (_ || _); [solve_kept|]. destruct (negb _); [solve_kept|].
  destruct sess; [apply nobody_user|apply nobody_login].
Qed.

Lemma nobody_readyz r : kept nobody (readyz no_pool r).
Proof.
  unfold readyz. destruct no_pool; [solve_kept|]. apply kept_bind; [|solve_kept]. apply kept_try, kept_autoexec, read_kept.
  by intros ????? [= _ <-].
Qed.
Lemma nobody_token r : kept nobody (oauth_token accessTTL refreshTTL grpc_user_agent grpc_authority r).
Proof.
  unfold oauth_token. destruct (negb _); [solve_kept|]. destruct (ParseForm r) as [form ok].
  destruct (negb ok); [solve_kept|]. cbv zeta. apply kept_bind; [apply nobody_call|]. solve_kept.
Qed.
Lemma nobody_logout r : kept nobody (oauth_logout no_pool r).
Proof.
  unfold oauth_logout. apply kept_bind; [|solve_kept]. destruct (request_Cookie _ _); [|solve_kept].
  apply kept_session_del. intros i now seq db a db' (Hb & Hc & Hch) [= _ <-]. unfold nobody. simpl. by rewrite Hb.
Qed.
#[local] Hint Resolve nobody_readyz nobody_token nobody_logout nobody_authorize nobody_begin_login nobody_finish_login
  nobody_finish_register nobody_with_session : kept.

Lemma nobody_route path h r : passkey_route no_pool webauthn path = Some h -> kept nobody (h r).
Proof.
  unfold passkey_route, BeginRegister, ListCredentials, DeleteCredential.
  repeat (case_match; try done); intros [= <-]; solve_kept.
Qed.
Lemma nobody_request r : kept nobody (serve r).
Proof.
  unfold identity_handler. cbv zeta. repeat (case_bool_decide; [solve_kept|]).
  destruct (passkey_route no_pool webauthn (rq_Path r)) as [h|] eqn:Hh; [by eapply nobody_route|solve_kept].
Qed.
Lemma nobody_cleanup retention : kept nobody (cleanup_tick webauthn retention).
Proof.
  unfold cleanup_tick. apply kept_bind; [apply kept_try, nobody_zoom|]. intros [x|e]; [|solve_kept].
  destruct webauthn; [|solve_kept]. apply kept_bind; [|solve_kept]. apply kept_try, kept_autoexec.
  intros now seq db a db' (Hb & Hc & Hch) [= _ <-]. unfold nobody. simpl. by rewrite Hch.
Qed.

(** Nobody can sign in on the pages: from tables without browser sessions,
    passkeys and ceremonies none of the three ever gets a row, whatever the
    requests, the calls of the API and the failures. The login of the
    authorization page looks for the user in a claim [user_id] that tokens do
    not have, passkeys need a browser session to be registered, and a browser
    session comes only from one of the two. *)
Theorem identity_locked_out w w' : nobody (w_db w) -> rtc identity_step w w' -> nobody (w_db w').
Proof.
  intros Hw Hst. induction Hst as [w|w w1 w2 Hs _ IH]; [done|]. apply IH. destruct Hs as [r w|A m w|ret w|fl w].
  - by apply nobody_request.
  - by apply nobody_zoom.
  - by apply nobody_cleanup.
  - done.
Qed.
End locked.
