(* ===== verification/PasskeyProps.v ===== *)
(** * Passkeys: properties

    What a ceremony guarantees, that its challenge works once, and what
    registering a passkey can do to another user's. *)
From S2P Require Import Prelude GoStrings Json JsonText Base64 Sha256 Http Passwords Invariants Authz Tokens LoginLimiter.
From S2P Require Import Auth AuthSpec AuthProps AuthCodes AuthFlows Identity Passkeys IdentityProps.
From Stdlib Require Import Ascii String.
#[local] Open Scope Z_scope.
#[local] Open Scope go_scope.

Section ceremonies.
Context `{Env, Random, Argon2, NetLib, Collation, !TokenMaker AuthDB, MimeLib, JsonReader, WebAuthnLib}.
Variable no_pool : bool.
Implicit Types w : World IdentityDB.

(** ** Runs *)
Lemma or_error_inv {A} (m : M IdentityDB A) fail k w rep w' :
  or_error m fail k w = (Ok rep, w') -> (forall e, re_Status (fail e) <> 200) -> re_Status rep = 200 ->
  exists a w1, m w = (Ok a, w1) /\ k a w1 = (Ok rep, w').
Proof.
  unfold or_error, tryM, bindM. intros Hr Hf Hst. destruct (m w) as [[a|e] w1]; [eauto|].
  injection Hr as <- <-. by destruct (Hf e).
Qed.

(** The stored credentials of a user, as the library gets them. *)
Definition credentials_read (userID : string) (d : IdentityDB) : result (list Credential) :=
  unmarshal_all (map wc_credential (order_by wc_created_at (credentials_of userID d))).

Lemma popSession_ok id kind w uid sd w' :
  popSession id kind w = (Ok (Some (uid, sd)), w') ->
  exists s, let now := clock_Now (w_tick w) in
    s ∈ id_challenges (w_db w) /\ challenge_live id kind now s = true /\ ws_user_id s = uid /\
    sd_Unmarshal (ws_session_data s) = Ok sd /\ w_uuid w' = w_uuid w /\ w_tick w' = S (w_tick w) /\
    w_db w' = set_challenges (List.filter (fun s => negb (challenge_live id kind now s)) (id_challenges (w_db w))) (w_db w).
Proof.
  unfold popSession. destruct (is_empty _); [done|]. intros Hr. apply bind_inv in Hr as (row & w1 & Hx & Hr).
  apply autoexec_at in Hx as (Hst & Hu & Ht). unfold take_challenge in Hst. injection Hst as Hrow Hdb.
  destruct (List.filter (challenge_live id kind _) _) as [|s l] eqn:Hf in Hrow; simpl in Hrow; subst row; [done|].
  apply bind_inv in Hr as (sd' & w2 & [= Hsd <-] & [= <- <- <-]).
  assert (s ∈ List.filter (challenge_live id kind (clock_Now (w_tick w))) (id_challenges (w_db w))) as Hin by (rewrite Hf; left).
  apply elem_of_filter_list in Hin as [Hin Hl]. by exists s.
Qed.

Lemma loadCredentials_ok uid w cs w' :
  loadCredentials uid w = (Ok cs, w') -> credentials_read uid (w_db w) = Ok cs /\ w_db w' = w_db w /\ w_uuid w' = w_uuid w.
Proof.
  unfold loadCredentials. intros Hr. apply bind_inv in Hr as (docs & w1 & Hx & [= Hr <-]).
  apply autoexec_ok in Hx as ((now & sq & Hst) & Hu). injection Hst as <- <-. done.
Qed.

Lemma loadCredentials_tick uid w : (w_tick w <= w_tick (loadCredentials uid w).2)%nat.
Proof.
  unfold loadCredentials, bindM. match goal with |- context [autoexec ?s w] => pose proof (autoexec_tick s w) as Ht end.
  by destruct (autoexec _ w) as [[]].
Qed.

Lemma insert_browser_ok id uid tok exp now seq d a d' :
  insert_browser id uid tok exp now seq d = Ok (a, d') ->
  d' = set_browser (id_browser d ++ [mkBrowserSession id uid tok (pg_time exp) (pg_time now)]) d /\
  has_user (id_auth d) uid = true.
Proof.
  unfold insert_browser. destruct (existsb _ _); [done|]. destruct (has_user _ _) eqn:Hu; [|done]. by intros [= _ <-].
Qed.
Lemma session_put_ok uid tok w id w' :
  session_put no_pool uid tok w = (Ok (Some id), w') ->
  exists now created, id = raw_EncodeToString URLEncoding (rand_bytes (w_uuid w) 32) /\
    w_db w' = set_browser (id_browser (w_db w) ++
      [mkBrowserSession id uid (TrimSpace tok) (pg_time (now + sessionTTL)) (pg_time created)]) (w_db w) /\
    has_user (id_auth (w_db w)) uid = true.
Proof.
  unfold session_put. cbv zeta. destruct (_ || _); [done|]. intros Hr. apply bind_inv in Hr as (x & w1 & Hx & Hr).
  unfold tryM in Hx. destruct (Identity.randomB64URL 32 w) as [y w2] eqn:Hy. injection Hx as <- <-.
  destruct y as [i|e]; [|done]. apply bind_inv in Hr as (now & w3 & [= <- <-] & Hr).
  apply bind_inv in Hr as (z & w4 & Hz & [= Hid <-]). unfold tryM in Hz.
  destruct (autoexec _ _) as [z' w5] eqn:Hz' in Hz. injection Hz as <- <-. destruct z' as [[]|e]; [|done].
  injection Hid as <-. apply autoexec_ok in Hz' as ((nw & sq & Hst) & _). cbn [w_db time_Now snd] in Hst.
  unfold Identity.randomB64URL in Hy. apply bind_inv in Hy as (b & w6 & Hb & [= <- <-]).
  unfold rand_Read, next_fault in Hb. destruct (w_faults w) as [|[] fl]; try done; injection Hb as <- <-; simpl in *.
  all: apply insert_browser_ok in Hst as [-> ?]; eauto 10.
Qed.

(** C16. Signing in with a passkey is sound: [FinishLogin] replies with status
    200 only if the cookie names a login challenge that is stored and has not
    expired when the request is handled, and the library accepted the request against that challenge and
    the credentials stored for the user the challenge was made for. It then
    has taken the challenge out, and added one browser session, of that user,
    named by the cookie it sets; the tables of the auth service are
    untouched. *)
Theorem passkey_login_sound r w rep w' :
  FinishLogin no_pool r w = (Ok rep, w') -> re_Status rep = 200 ->
  exists s t sd creds cred b,
    let d := w_db w in let d' := w_db w' in
    s ∈ id_challenges d /\ ws_id s = cookieSessionID r /\ ws_kind s = kind_login /\
    clock_Now (w_tick w) < ws_expires_at s /\ (w_tick w < t)%nat /\
    sd_Unmarshal (ws_session_data s) = Ok sd /\ credentials_read (ws_user_id s) d = Ok creds /\
    wa_FinishLogin (clock_Now t) (mkWebauthnUser (ws_user_id s) (ws_user_id s) (ws_user_id s) creds) sd r = Ok cred /\
    (s ∉ id_challenges d') /\ id_browser d' = id_browser d ++ [b] /\ bs_user_id b = ws_user_id s /\
    set_cookie r sessionCookieName (bs_id b) 0 ∈ re_Cookies rep /\ id_auth d' = id_auth d.
Proof.
  unfold FinishLogin. intros Hr Hst. apply or_error_inv in Hr as (row & w1 & Hp & Hr); [|done..].
  destruct row as [[uid sd]|]; [|by injection Hr as <- <-].
  apply popSession_ok in Hp as (s & Hin & Hlive & <- & Hsd & _ & Ht1 & Hdb1).
  unfold login_taken in Hr. cbv zeta in Hr. apply or_error_inv in Hr as (creds & w2 & Hl & Hr); [|done..].
  pose proof (loadCredentials_tick (ws_user_id s) w1) as Ht2. rewrite Hl in Ht2.
  apply loadCredentials_ok in Hl as (Hcs & Hdb2 & _). apply bind_inv in Hr as (at_ & w3 & [= <- <-] & Hr).
  destruct (wa_FinishLogin _ _ _ _) as [cred|e] eqn:Hwa; [|by injection Hr as <- <-].
  unfold login_verified in Hr. cbv zeta in Hr. destruct (cred_Marshal cred) as [doc|e]; [|by injection Hr as <- <-].
  apply bind_inv in Hr as (x & w4 & Hx & Hr). apply or_error_inv in Hr as (tok & w5 & Htok & Hr); [|done..].
  apply bind_inv in Hr as (id & w6 & Hput & Hr). destruct id as [id|]; [|by injection Hr as <- <-].
  injection Hr as <- <-. apply session_put_ok in Hput as (n & cr & _ & Hdb6 & _).
  assert (w_db w5 = w_db w4) as Hdb5.
  { pose proof (kept_random (fun d => d = w_db w4) 32 w4 eq_refl) as Hk. by rewrite Htok in Hk. }
  assert (id_browser (w_db w4) = id_browser (w_db w) /\ id_auth (w_db w4) = id_auth (w_db w) /\
    id_challenges (w_db w4) = id_challenges (w_db w1)) as (Hb4 & Ha4 & Hc4).
  { assert (kept (fun d => id_browser d = id_browser (w_db w) /\ id_auth d = id_auth (w_db w) /\
      id_challenges d = id_challenges (w_db w1)) (tryM (autoexec (update_credential doc (cred_SignCount cred) (ws_user_id s) (cred_ID cred))))) as Hk.
    { apply kept_try, kept_autoexec. by intros nw sq db a db' HP [= _ <-]. }
    apply (f_equal snd) in Hx. cbn [snd] in Hx. rewrite <-Hx. apply Hk. simpl. by rewrite Hdb2, Hdb1. }
  exists s, (w_tick w2), sd, creds, cred. eexists.
  unfold challenge_live in Hlive. apply andb_prop in Hlive as [[Hid Hk]%andb_prop Hexp%Z.ltb_lt].
  apply bool_decide_eq_true in Hid, Hk. cbv zeta. rewrite Hdb6, Hdb5. simpl. rewrite Hb4, Ha4, Hc4. split_and!; try done.
  - simpl in Ht2. lia.
  - unfold credentials_read, credentials_of in *. by rewrite Hdb1 in Hcs.
  - rewrite Hdb1. simpl. intros [_ Hn]%elem_of_filter_list. unfold challenge_live in Hn.
    rewrite !bool_decide_true in Hn by done. simpl in Hn. apply negb_true_iff, Z.ltb_ge in Hn. lia.
  - apply elem_of_cons. right. apply elem_of_cons. by left.
Qed.

(** ** Registering over another user's passkey *)
Lemma or_error_run {A} (m : M IdentityDB A) fail k w a w1 :
  m w = (Ok a, w1) -> or_error m fail k w = k a w1.
Proof. unfold or_error, tryM, bindM. by intros ->. Qed.

Lemma now_run {A} (k : Z -> M IdentityDB A) w : bindM time_Now k w = k (clock_Now (w_tick w)) (time_Now w).2.
Proof. reflexivity. Qed.

Lemma find_challenge id kind now s d :
  NoDup (map ws_id (id_challenges d)) -> s ∈ id_challenges d -> challenge_live id kind now s = true ->
  head (List.filter (challenge_live id kind now) (id_challenges d)) = Some s.
Proof.
  intros Hnd Hin Hl. destruct (List.filter _ _) as [|s' l] eqn:Hf.
  - assert (s ∈ List.filter (challenge_live id kind now) (id_challenges d)) as Hs by by apply elem_of_filter_list.
    rewrite Hf in Hs. by apply not_elem_of_nil in Hs.
  - assert (s' ∈ List.filter (challenge_live id kind now) (id_challenges d)) as Hs by (rewrite Hf; left).
    apply elem_of_filter_list in Hs as [Hin' Hl']. simpl. f_equal.
    apply andb_prop in Hl as [[Hid _]%andb_prop _], Hl' as [[Hid' _]%andb_prop _].
    apply bool_decide_eq_true in Hid, Hid'.
    eapply (NoDup_map_inj ws_id); [done..|]. congruence.
Qed.

Lemma popSession_run id kind w s sd :
  w_faults w = [] -> TrimSpace id <> "" -> NoDup (map ws_id (id_challenges (w_db w))) -> s ∈ id_challenges (w_db w) ->
  challenge_live id kind (clock_Now (w_tick w)) s = true -> sd_Unmarshal (ws_session_data s) = Ok sd ->
  exists w', popSession id kind w = (Ok (Some (ws_user_id s, sd)), w') /\ w_faults w' = [] /\
    w_tick w' = S (w_tick w) /\ id_credentials (w_db w') = id_credentials (w_db w).
Proof.
  intros Hf Hid Hnd Hin Hl Hsd. unfold popSession. rewrite (proj2 (is_empty_false _) Hid).
  eexists. rewrite (bind_ok _ _ _ _ _ (autoexec_eq _ w _ _ Hf eq_refl)).
  rewrite (find_challenge id kind (clock_Now (w_tick w)) s) by done. simpl. unfold bindM, liftR. rewrite Hsd. done.
Qed.
Lemma loadCredentials_run uid w cs :
  w_faults w = [] -> credentials_read uid (w_db w) = Ok cs ->
  exists w', loadCredentials uid w = (Ok cs, w') /\ w_faults w' = [] /\ w_tick w' = S (w_tick w) /\ w_db w' = w_db w.
Proof.
  intros Hf Hcs. unfold loadCredentials. eexists. rewrite (bind_ok _ _ _ _ _ (autoexec_eq _ w _ _ Hf eq_refl)).
  unfold liftR. unfold credentials_read in Hcs. rewrite Hcs. done.
Qed.

Lemma upsert_credential_existing rowID uid c cred doc n now seq d :
  c ∈ id_credentials d -> wc_credential_id c = cred ->
  exists d' c', upsert_credential rowID uid cred doc n now seq d = Ok (tt, d') /\ c' ∈ id_credentials d' /\
    wc_id c' = wc_id c /\ wc_user_id c' = wc_user_id c /\ wc_credential c' = doc.
Proof.
  intros Hin Hid. unfold upsert_credential.
  rewrite (proj2 (existsb_true_list _ _)) by (exists c; split; [done|]; by apply bool_decide_eq_true).
  eexists _, _. split; [done|]. simpl. split.
  - apply list_elem_of_In, in_map_iff. exists c. split; [|by apply list_elem_of_In]. by rewrite bool_decide_true.
  - done.
Qed.

(** Registering a passkey can take over another user's: when a user
    finishes a registration with a credential whose identifier is stored for
    someone else, the row stays that other user's and gets the new
    credential, with which the registering user can then sign in as the
    other. *)
Theorem passkey_takeover r w s sd creds cred doc c :
  w_faults w = [] -> cookieSessionID r <> "" -> NoDup (map ws_id (id_challenges (w_db w))) ->
  s ∈ id_challenges (w_db w) ->
  challenge_live (cookieSessionID r) kind_register (clock_Now (w_tick w)) s = true ->
  sd_Unmarshal (ws_session_data s) = Ok sd -> credentials_read (ws_user_id s) (w_db w) = Ok creds ->
  wa_FinishRegistration (clock_Now (S (S (w_tick w))))
    (mkWebauthnUser (ws_user_id s) (ws_user_id s) (ws_user_id s) creds) sd r = Ok cred ->
  cred_Marshal cred = Ok doc -> c ∈ id_credentials (w_db w) -> wc_credential_id c = cred_ID cred ->
  wc_user_id c <> ws_user_id s ->
  exists rep w' c', FinishRegister r w = (Ok rep, w') /\ re_Status rep = 200 /\
    c' ∈ id_credentials (w_db w') /\ wc_id c' = wc_id c /\ wc_user_id c' = wc_user_id c /\ wc_credential c' = doc.
Proof.
  intros Hf Hid Hnd Hin Hl Hsd Hcs Hwa Hdoc Hc Hcid _. unfold FinishRegister.
  assert (TrimSpace (cookieSessionID r) <> "") as Hid'.
  { unfold cookieSessionID, cookie_value in *. destruct (request_Cookie _ _); [by rewrite TrimSpace_idem|done]. }
  destruct (popSession_run _ _ w s sd Hf Hid' Hnd Hin Hl Hsd) as (w1 & Hp & Hf1 & Ht1 & Hc1).
  rewrite (or_error_run _ _ _ _ _ _ Hp). unfold register_taken. cbv zeta.
  assert (credentials_read (ws_user_id s) (w_db w1) = Ok creds) as Hcs1.
  { unfold credentials_read, credentials_of. by rewrite Hc1. }
  destruct (loadCredentials_run _ w1 creds Hf1 Hcs1) as (w2 & Hlo & Hf2 & Ht2 & Hdb2).
  rewrite (or_error_run _ _ _ _ _ _ Hlo). rewrite now_run, Ht2, Ht1, Hwa.
  unfold register_verified. rewrite Hdoc. cbv zeta.
  set (w3 := (time_Now w2).2). assert (w_faults w3 = [] /\ id_credentials (w_db w3) = id_credentials (w_db w)) as [Hf3 Hc3].
  { by rewrite <-Hc1, <-Hdb2. }
  assert (Hrand : exists rowID w4, Identity.randomB64URL 16 w3 = (Ok rowID, w4) /\ w_faults w4 = [] /\ w_db w4 = w_db w3).
  { unfold Identity.randomB64URL, bindM, rand_Read, next_fault. rewrite Hf3. eauto. }
  destruct Hrand as (rowID & w4 & Hra & Hf4 & Hdb4). rewrite (or_error_run _ _ _ _ _ _ Hra).
  rewrite <-Hc3, <-Hdb4 in Hc.
  destruct (upsert_credential_existing rowID (ws_user_id s) c (cred_ID cred) doc (cred_SignCount cred)
    (clock_Now (w_tick w4)) (w_seq w4) (w_db w4) Hc Hcid) as (d' & c' & Hup & Hc' & ? & ? & ?).
  rewrite (or_error_run _ _ _ _ _ _ (autoexec_eq _ w4 _ _ Hf4 Hup)).
  eexists _, _, c'. by split_and!.
Qed.
End ceremonies.

(** ** Challenges work once *)
Section challenges.
Context `{Env, Random, Argon2, NetLib, Collation, !TokenMaker AuthDB, !TokenMakerOk AuthDB, MimeLib, JsonReader, WebAuthnLib}.
Context (rand_limit : nat) `{!RandomOk rand_limit}.
Variables accessTTL refreshTTL : Z.
Variable no_pool : bool.
Variables grpc_user_agent grpc_authority : string.
Variable gw : request -> M AuthDB reply.
(** Random readings the proxy makes are not made again. *)
Hypothesis gw_draws : forall r w, (w_uuid w <= w_uuid (gw r w).2)%nat.
Variables (cfg : openIDConfiguration) (jwks : JWKS) (webauthn : bool).
Implicit Types w : World IdentityDB.

(** Identifiers known to be taken. *)
Variable spent : list string.

Definition challenge_name (i : nat) : string := raw_EncodeToString URLEncoding (rand_bytes i 32).
Lemma challenge_name_inj i j :
  (i < rand_limit)%nat -> (j < rand_limit)%nat -> challenge_name i = challenge_name j -> i = j.
Proof. unfold challenge_name. intros Hi Hj Hij. apply token_hash_inj; [done..|]. unfold token_hash_at. by rewrite Hij. Qed.

Record challenges_ok (d : IdentityDB) (u : nat) : Prop := {
  co_unique : NoDup (map ws_id (id_challenges d));
  co_drawn : forall s, s ∈ id_challenges d -> exists i, (i < u)%nat /\ ws_id s = challenge_name i;
  co_spent : forall h, h ∈ spent ->
    (exists i, (i < u)%nat /\ h = challenge_name i) /\ forall s, s ∈ id_challenges d -> ws_id s <> h;
}.
Definition challenge_inv (d : IdentityDB) (u : nat) : Prop := (u <= rand_limit)%nat -> challenges_ok d u.

Lemma challenges_ok_more d u u' : (u <= u')%nat -> challenges_ok d u -> challenges_ok d u'.
Proof.
  intros Hu [Hnd Hdr Hsp]. split; [done|..].
  - intros s Hs. destruct (Hdr s Hs) as (i & ? & ?). exists i. split; [lia|done].
  - intros h Hh. destruct (Hsp h Hh) as [(i & ? & ?) Hn]. split; [|done]. exists i. split; [lia|done].
Qed.
#[local] Instance challenge_inv_drawn : Drawn challenge_inv.
Proof. split. intros d u u' Hu HJ Hlim. apply (challenges_ok_more _ u); [done|]. apply HJ. lia. Qed.

(** Statements that leave the table alone, or take rows out. *)
Lemma challenges_shrink d d' u (f : WebAuthnSession -> bool) :
  id_challenges d' = List.filter f (id_challenges d) -> challenge_inv d u -> challenge_inv d' u.
Proof.
  intros Hd HJ Hlim. destruct (HJ Hlim) as [Hnd Hdr Hsp].
  assert (forall s, s ∈ id_challenges d' -> s ∈ id_challenges d) as Hin.
  { intros s. rewrite Hd. by intros [? _]%elem_of_filter_list. }
  split.
  - rewrite Hd. by apply NoDup_map_filter.
  - intros s Hs. by apply Hdr, Hin.
  - intros h Hh. destruct (Hsp h Hh) as [? Hn]. split; [done|]. intros s Hs. by apply Hn, Hin.
Qed.
Lemma challenges_elsewhere {A} (s : stmt IdentityDB A) :
  (forall now seq d a d', s now seq d = Ok (a, d') -> id_challenges d' = id_challenges d) -> stmt_keeps challenge_inv s.
Proof.
  intros Hs now seq d u a d' HJ Hr. apply Hs in Hr. intros Hlim. destruct (HJ Hlim) as [Hnd Hdr Hsp].
  split; by rewrite Hr.
Qed.
Lemma challenges_take id kind : stmt_keeps challenge_inv (take_challenge id kind).
Proof. intros now seq d u a d' HJ [= _ <-]. by eapply challenges_shrink. Qed.
Lemma challenges_expired : stmt_keeps challenge_inv delete_expired.
Proof. intros now seq d u a d' HJ [= _ <-]. by eapply challenges_shrink. Qed.
Ltac elsewhere := apply challenges_elsewhere; intros ??? a d' Hr; repeat (case_match; try discriminate); by simplify_eq.
Lemma challenges_select_browser id : stmt_keeps challenge_inv (select_browser id).
Proof. unfold select_browser. elsewhere. Qed.
Lemma challenges_insert_browser i u t e : stmt_keeps challenge_inv (insert_browser i u t e).
Proof. unfold insert_browser. elsewhere. Qed.
Lemma challenges_delete_browser i : stmt_keeps challenge_inv (delete_browser i).
Proof. unfold delete_browser. elsewhere. Qed.
Lemma challenges_ping : stmt_keeps challenge_inv ping.
Proof. unfold ping. elsewhere. Qed.
Lemma challenges_user_email e : stmt_keeps challenge_inv (select_user_email e).
Proof. unfold select_user_email. elsewhere. Qed.
Lemma challenges_credentials u : stmt_keeps challenge_inv (select_credentials u).
Proof. unfold select_credentials. elsewhere. Qed.
Lemma challenges_update j n u c : stmt_keeps challenge_inv (update_credential j n u c).
Proof. unfold update_credential. elsewhere. Qed.
Lemma challenges_upsert i u c j n : stmt_keeps challenge_inv (upsert_credential i u c j n).
Proof. unfold upsert_credential. elsewhere. Qed.
Lemma challenges_infos u : stmt_keeps challenge_inv (select_credential_infos u).
Proof. unfold select_credential_infos. elsewhere. Qed.
Lemma challenges_delete i u : stmt_keeps challenge_inv (delete_credential i u).
Proof. unfold delete_credential. elsewhere. Qed.
#[local] Hint Resolve challenges_take challenges_expired challenges_select_browser challenges_insert_browser
  challenges_delete_browser challenges_ping challenges_user_email challenges_credentials challenges_update
  challenges_upsert challenges_infos challenges_delete : keeps.

(** Computations on the tables of the auth service. *)
Lemma challenges_zoom {A} (m : M AuthDB A) :
  (forall v, (w_uuid v <= w_uuid (m v).2)%nat) -> keeps challenge_inv (zoom m).
Proof.
  intros Hm w. unfold zoom. specialize (Hm (set_db (view (w_db w)) w)). destruct (m _) as [r w']. simpl in *.
  split; [done|]. intros HJ Hlim. destruct (challenges_ok_more (w_db w) _ _ Hm (HJ ltac:(lia))) as [Hnd Hdr Hsp].
  by split.
Qed.
(** The handlers of the API draw forward. *)
Lemma op_draws {A} (m : M AuthDB A) op v :
  (forall v, run_op accessTTL refreshTTL op v = bindM m (fun _ => retM tt) v) -> (w_uuid v <= w_uuid (m v).2)%nat.
Proof.
  intros Hop. destruct (keeps_op rand_limit accessTTL refreshTTL [] [] op v) as [Hu _]. rewrite Hop in Hu.
  unfold bindM in Hu. by destruct (m v) as [[a|e] v'].
Qed.
Lemma challenges_call {A} (m : M AuthDB A) op :
  (forall v, run_op accessTTL refreshTTL op v = bindM m (fun _ => retM tt) v) -> keeps challenge_inv (call m).
Proof. intros Hop. apply keeps_try, keeps_rpc, challenges_zoom. intros v. by apply (op_draws _ op). Qed.

(** *** The steps of the handlers *)
Lemma challenges_random n : keeps challenge_inv (Identity.randomB64URL n).
Proof. unfold Identity.randomB64URL. solve_keeps. Qed.
Lemma challenges_get id : keeps challenge_inv (session_get no_pool id).
Proof. unfold session_get. solve_keeps. Qed.
#[local] Hint Resolve challenges_random : keeps.
Lemma challenges_put u t : keeps challenge_inv (session_put no_pool u t).
Proof. unfold session_put. solve_keeps. Qed.
Lemma challenges_del id : keeps challenge_inv (session_del no_pool id).
Proof. unfold session_del. solve_keeps. Qed.
Lemma challenges_csrf r : keeps challenge_inv (csrf_cookie r).
Proof. unfold csrf_cookie. solve_keeps. Qed.
Lemma challenges_pop id kind : keeps challenge_inv (popSession id kind).
Proof. unfold popSession. solve_keeps. Qed.
Lemma challenges_load u : keeps challenge_inv (loadCredentials u).
Proof. unfold loadCredentials. solve_keeps. Qed.
Lemma challenges_by_email e : keeps challenge_inv (userByEmail e).
Proof. unfold userByEmail. solve_keeps. Qed.
Lemma challenges_draw {A} (f : nat -> result A) : keeps challenge_inv (wa_draw f).
Proof. apply keeps_step; [typeclasses eauto|intros w; simpl; lia|done]. Qed.
Lemma challenges_login ctx e p : keeps challenge_inv (call (Login accessTTL refreshTTL ctx e p)).
Proof. by apply (challenges_call _ (OpLogin ctx e p)). Qed.
Lemma challenges_consent u c : keeps challenge_inv (call (GetOAuthConsent u c)).
Proof. by apply (challenges_call _ (OpGetOAuthConsent u c)). Qed.
Lemma challenges_store u c s : keeps challenge_inv (call (StoreOAuthConsent u c s)).
Proof. by apply (challenges_call _ (OpStoreOAuthConsent u c s)). Qed.
Lemma challenges_issue pd : keeps challenge_inv (issue_code grpc_user_agent grpc_authority pd).
Proof. by apply (challenges_call _ (OpOAuthAuthorize (call_context grpc_user_agent grpc_authority "") (authorize_request pd))). Qed.
Lemma challenges_redeem ctx req : keeps challenge_inv (call (OAuthToken accessTTL refreshTTL ctx req)).
Proof. by apply (challenges_call _ (OpOAuthToken ctx req)). Qed.
#[local] Hint Resolve challenges_get challenges_put challenges_del challenges_csrf challenges_pop challenges_load
  challenges_by_email challenges_draw challenges_login challenges_consent challenges_store challenges_issue
  challenges_redeem : keeps.

(** A new challenge has a name that was not drawn before. *)
Lemma challenges_insert d u kind uid j exp now seq a d' :
  challenge_inv d u -> insert_challenge (challenge_name u) kind uid j exp now seq d = Ok (a, d') -> challenge_inv d' (S u).
Proof.
  intros HJ Hr Hlim. destruct (challenges_ok_more _ u (S u) ltac:(lia) (HJ ltac:(lia))) as [Hnd Hdr Hsp].
  unfold insert_challenge in Hr. destruct (existsb _ _) eqn:Hex; [done|]. destruct (negb _); [done|]. injection Hr as _ <-.
  split; simpl.
  - apply NoDup_map_snoc; [done|]. intros s Hs Heq. rewrite <-not_true_iff_false in Hex. apply Hex, existsb_true_list.
    exists s. split; [done|]. by apply bool_decide_eq_true.
  - intros s [Hs|Hs%list_elem_of_singleton]%elem_of_app; [by apply Hdr|subst s]. exists u. split; [lia|done].
  - intros h Hh. destruct (Hsp h Hh) as [_ Hn]. destruct (HJ ltac:(lia)) as [_ _ Hsp'].
    destruct (Hsp' h Hh) as [(i & Hi & ->) _]. split; [exists i; split; [lia|done]|].
    intros s [Hs|Hs%list_elem_of_singleton]%elem_of_app; [by apply Hn|subst s]. simpl. intros Heq%challenge_name_inj; lia.
Qed.
Lemma random_cases w :
  (exists fl, Identity.randomB64URL 32 w = (Ok (challenge_name (w_uuid w)),
     mkWorld (w_db w) (w_seq w) (S (w_uuid w)) (w_tick w) (w_tx w) fl (w_sent w))) \/
  (exists e fl, Identity.randomB64URL 32 w = (Err e,
     mkWorld (w_db w) (w_seq w) (w_uuid w) (w_tick w) (w_tx w) fl (w_sent w))).
Proof.
  unfold Identity.randomB64URL, bindM, rand_Read, next_fault. destruct w as [db sq u t tx fl sn].
  destruct fl as [|[] fl]; simpl; eauto.
Qed.
Lemma challenges_putSession kind uid sd : keeps challenge_inv (putSession kind uid sd).
Proof.
  intros w. unfold putSession. destruct (random_cases w) as [[fl Hr]|(e & fl & Hr)].
  2: { rewrite (bind_err _ _ _ _ _ Hr). done. }
  rewrite (bind_ok _ _ _ _ _ Hr). destruct (sd_Marshal sd) as [j|e].
  2: { simpl. split; [lia|]. by apply (drawn_more challenge_inv); lia. }
  rewrite (bind_ok (liftR (Ok j)) _ _ j _ eq_refl), now_run. cbn [w_tick].
  match goal with |- context [bindM (autoexec ?st) _ ?w0] => destruct (autoexec_cases st w0) as (r & w' & Hx & Hu & _ & Hc) end.
  assert (challenge_inv (w_db w) (w_uuid w) -> challenge_inv (w_db w') (w_uuid w')) as HJ.
  { rewrite Hu. simpl. intros HJ. destruct Hc as [(_ & -> & _)|(nw & sq & a & _ & Hst)].
    - simpl. by apply (drawn_more challenge_inv _ (w_uuid w)); [lia|].
    - by eapply challenges_insert. }
  destruct r as [x|e]; [rewrite (bind_ok _ _ _ _ _ Hx)|rewrite (bind_err _ _ _ _ _ Hx)]; simpl; rewrite Hu; simpl; split; try lia;
    by rewrite Hu in HJ.
Qed.
#[local] Hint Resolve challenges_putSession : keeps.

Ltac page_keeps :=
  intros; cbv beta zeta;
  lazymatch goal with
  | |- keeps _ (or_error _ _ _) => unfold or_error; page_keeps
  | |- keeps _ (with_session _ _ _ _) => unfold with_session; page_keeps
  | |- keeps _ (bindM _ _) => apply keeps_bind; page_keeps
  | |- keeps _ (tryM _) => apply keeps_try; page_keeps
  | |- keeps _ (match ?x with _ => _ end) => destruct x; page_keeps
  | |- _ => solve_keeps
  end.

Lemma challenges_user r u cookies pd :
  keeps challenge_inv (authorize_user grpc_user_agent grpc_authority r u cookies pd).
Proof. unfold authorize_user. page_keeps. Qed.
#[local] Hint Resolve challenges_user : keeps.
Lemma challenges_authorize r :
  keeps challenge_inv (oauth_authorize accessTTL refreshTTL no_pool grpc_user_agent grpc_authority gw r).
Proof.
  unfold oauth_authorize, authorize_get, authorize_post, authorize_login. destruct (ParseForm r) as [form ok].
  destruct (negb _); [apply challenges_zoom, gw_draws|]. page_keeps.
Qed.
Lemma challenges_token r : keeps challenge_inv (oauth_token accessTTL refreshTTL grpc_user_agent grpc_authority r).
Proof. unfold oauth_token. destruct (ParseForm r) as [form ok]. page_keeps. Qed.
Lemma challenges_verified r u cred : keeps challenge_inv (login_verified no_pool r u cred).
Proof. unfold login_verified. page_keeps. Qed.
Lemma challenges_registered r u cred : keeps challenge_inv (register_verified r u cred).
Proof. unfold register_verified. page_keeps. Qed.
#[local] Hint Resolve challenges_authorize challenges_token challenges_verified challenges_registered : keeps.
Lemma challenges_login_taken r u sd : keeps challenge_inv (login_taken no_pool r u sd).
Proof. unfold login_taken. page_keeps. Qed.
Lemma challenges_register_taken r u sd : keeps challenge_inv (register_taken r u sd).
Proof. unfold register_taken. page_keeps. Qed.
#[local] Hint Resolve challenges_login_taken challenges_register_taken : keeps.

Lemma challenges_route path h r : passkey_route no_pool webauthn path = Some h -> keeps challenge_inv (h r).
Proof.
  unfold passkey_route. repeat (case_match; try done); intros [= <-];
    unfold BeginLogin, FinishLogin, BeginRegister, FinishRegister, ListCredentials, DeleteCredential; page_keeps.
Qed.
Lemma challenges_request r :
  keeps challenge_inv (identity_handler no_pool accessTTL refreshTTL grpc_user_agent grpc_authority gw cfg jwks webauthn r).
Proof.
  unfold identity_handler. cbv zeta. destruct (passkey_route _ _ _) as [h|] eqn:Hh.
  - pose proof (challenges_route _ _ r Hh). unfold readyz, oauth_logout. page_keeps.
  - pose proof (challenges_zoom (gw r) (gw_draws r)). unfold readyz, oauth_logout. page_keeps.
Qed.
Lemma challenges_cleanup retention : keeps challenge_inv (cleanup_tick webauthn retention).
Proof.
  unfold cleanup_tick, CleanupSessions. apply keeps_bind; [|page_keeps]. apply keeps_try, challenges_zoom.
  intros v. by apply (op_draws _ (OpCleanup retention)).
Qed.
Lemma challenges_api op : keeps challenge_inv (zoom (run_op accessTTL refreshTTL op)).
Proof. apply challenges_zoom. intros v. by destruct (keeps_op rand_limit accessTTL refreshTTL [] [] op v). Qed.
End challenges.

Section single_use.
Context `{Env, Random, Argon2, NetLib, Collation, !TokenMaker AuthDB, !TokenMakerOk AuthDB, MimeLib, JsonReader, WebAuthnLib}.
Context (rand_limit : nat) `{!RandomOk rand_limit}.
Variables accessTTL refreshTTL : Z.
Variable no_pool : bool.
Variables grpc_user_agent grpc_authority : string.
Variable gw : request -> M AuthDB reply.
Hypothesis gw_draws : forall r w, (w_uuid w <= w_uuid (gw r w).2)%nat.
Variables (cfg : openIDConfiguration) (jwks : JWKS) (webauthn : bool).
Implicit Types w : World IdentityDB.

(** The runs of the service: requests, calls of the API, the clean-up job,
    any failures. *)
Inductive passkey_step : World IdentityDB -> World IdentityDB -> Prop :=
| passkey_request r w :
    passkey_step w (identity_handler no_pool accessTTL refreshTTL grpc_user_agent grpc_authority gw cfg jwks webauthn r w).2
| passkey_api op w : passkey_step w (zoom (run_op accessTTL refreshTTL op) w).2
| passkey_cleanup retention w : passkey_step w (cleanup_tick webauthn retention w).2
| passkey_faults fl w :
    passkey_step w (mkWorld (w_db w) (w_seq w) (w_uuid w) (w_tick w) (w_tx w) fl (w_sent w)).

Lemma passkey_steps spent w w' : rtc passkey_step w w' ->
  (w_uuid w <= w_uuid w')%nat /\
  (challenge_inv rand_limit spent (w_db w) (w_uuid w) -> challenge_inv rand_limit spent (w_db w') (w_uuid w')).
Proof.
  induction 1 as [w|w w1 w2 Hs _ [Hu HJ]]; [done|].
  assert ((w_uuid w <= w_uuid w1)%nat /\
    (challenge_inv rand_limit spent (w_db w) (w_uuid w) -> challenge_inv rand_limit spent (w_db w1) (w_uuid w1))) as [Hu1 HJ1].
  { destruct Hs as [r w|op w|ret w|fl w]; [by apply challenges_request|by apply challenges_api|by apply challenges_cleanup|done]. }
  split; [lia|auto].
Qed.

(** The two ceremonies, from the moment the challenge is taken. *)
Inductive ceremony : Type := SigningIn | Registering.
Definition kind_of (c : ceremony) : string := match c with SigningIn => kind_login | Registering => kind_register end.
Definition finish (c : ceremony) (r : request) : M IdentityDB reply :=
  match c with SigningIn => FinishLogin no_pool r | Registering => FinishRegister r end.
Definition finish_taken (c : ceremony) (r : request) (uid : string) (sd : SessionData) : M IdentityDB reply :=
  match c with SigningIn => login_taken no_pool r uid sd | Registering => register_taken r uid sd end.

Lemma finish_inv c r w rep w' : finish c r w = (Ok rep, w') -> re_Status rep = 200 ->
  exists uid sd w1, popSession (cookieSessionID r) (kind_of c) w = (Ok (Some (uid, sd)), w1) /\
    finish_taken c r uid sd w1 = (Ok rep, w').
Proof.
  intros Hr Hst. destruct c; apply or_error_inv in Hr as (row & w1 & Hp & Hr); try done;
    (destruct row as [[uid sd]|]; [by exists uid, sd, w1|by injection Hr as <- <-]).
Qed.

Lemma taken_spent id kind w uid sd w' :
  challenges_ok [] (w_db w) (w_uuid w) -> popSession id kind w = (Ok (Some (uid, sd)), w') ->
  challenges_ok [id] (w_db w') (w_uuid w').
Proof.
  intros [Hnd Hdr _] (s & Hin & Hl & _ & _ & Hu & _ & Hdb)%popSession_ok.
  assert (ws_id s = id) as Hid by (apply andb_prop in Hl as [[Hl _]%andb_prop _]; by apply bool_decide_eq_true in Hl).
  rewrite Hdb, Hu. split; simpl.
  - by apply NoDup_map_filter.
  - intros s' [Hs' _]%elem_of_filter_list. by apply Hdr.
  - intros h ->%list_elem_of_singleton. split; [rewrite <-Hid; by apply Hdr|].
    intros s' [Hs' Hn]%elem_of_filter_list Hid'.
    assert (s' = s) as -> by (eapply (NoDup_map_inj ws_id); [done..|congruence]). by rewrite Hl in Hn.
Qed.

(** C17. A challenge works once: after a ceremony, signing in or registering,
    has succeeded with the challenge its cookie names, no ceremony of either
    kind with that cookie succeeds again, whatever requests, calls of the API
    and failures come in between. *)
Theorem challenge_single_use c r w0 w rep w1 w2 c' r' rep' w3 :
  id_challenges (w_db w0) = [] -> rtc passkey_step w0 w ->
  finish c r w = (Ok rep, w1) -> re_Status rep = 200 ->
  rtc passkey_step w1 w2 -> (w_uuid w2 <= rand_limit)%nat ->
  cookieSessionID r' = cookieSessionID r -> finish c' r' w2 = (Ok rep', w3) -> re_Status rep' <> 200.
Proof.
  intros Hinit Hst0 Hr Hok Hst Hlim Hid Hr' Hok'.
  destruct (finish_inv _ _ _ _ _ Hr Hok) as (uid & sd & wp & Hp & Hrest).
  destruct (finish_inv _ _ _ _ _ Hr' Hok') as (uid' & sd' & wp' & Hp' & _).
  apply (passkey_steps [cookieSessionID r]) in Hst as [Hu2 HJ2].
  assert (challenge_inv rand_limit [] (w_db w) (w_uuid w)) as HJw.
  { apply (passkey_steps []) in Hst0 as [_ HJ0]. apply HJ0. intros _. split; rewrite ?Hinit; simpl.
    - constructor.
    - by intros s Hs%not_elem_of_nil.
    - by intros h Hh%not_elem_of_nil. }
  assert (keeps (challenge_inv rand_limit [cookieSessionID r]) (finish_taken c r uid sd)) as Hk.
  { destruct c; [by apply challenges_login_taken|by apply challenges_register_taken]. }
  destruct (Hk wp) as [Hup HJp]. rewrite Hrest in Hup, HJp. simpl in Hup, HJp.
  pose proof (popSession_ok _ _ _ _ _ _ Hp) as (_ & _ & _ & _ & _ & Huw & _).
  assert (challenges_ok [cookieSessionID r] (w_db w2) (w_uuid w2)) as [_ _ Hsp].
  { apply HJ2; [|done]. apply HJp. intros Hl. eapply taken_spent; [|exact Hp]. apply HJw. lia. }
  apply popSession_ok in Hp' as (s & Hin & Hl & _).
  destruct (Hsp (cookieSessionID r)) as [_ Hn]; [by left|]. apply (Hn s Hin).
  apply andb_prop in Hl as [[Hl _]%andb_prop _]. apply bool_decide_eq_true in Hl. congruence.
Qed.
End single_use.
