(* ===== verification/Startup.v ===== *)
(** * How the services start

    What [main] of the services decides from the environment: settings with
    their defaults, secrets from Vault ([src/pkg/secrets]), mutual TLS with
    SPIFFE ([src/pkg/security/spiffe_mtls.go]) and the signing keys. A fatal
    error is an error of the model. The process environment, the Vault
    server and the SPIFFE library are parameters. *)
From S2P Require Import Prelude GoStrings Json Base64 Http Authz Tokens LoginLimiter Auth Identity Duration.
From Stdlib Require Import Ascii String.
#[local] Open Scope Z_scope.
#[local] Open Scope go_scope.

(** An unset variable reads as the empty string. *)
Class Process := {
  os_Getenv : string -> string;
  os_ReadFile : string -> result string;
}.
(** [http.Client.Do] of a GET of the URL with the token: status and body *)
Class VaultHTTP := { vault_Get : string -> string -> result (Z * bytes) }.
Class SpiffeLib := {
  X509Source : Type;
  spiffeid_FromString : string -> result string;
  TrustDomainFromString : string -> result string;
  NewX509Source : string -> result X509Source;
}.

(** ** [path.Join] of a rooted path *)
Definition clean_segment (acc : list string) (seg : string) : list string :=
  if is_empty seg || bool_decide (seg = ".") then acc
  else if bool_decide (seg = "..") then tail acc else seg :: acc.
Definition path_Clean (p : string) : string :=
  "/" +:+ Join (reverse (foldl clean_segment [] (Split "/"%char p))) "/".
Definition path_Join (l : list string) : string := path_Clean (Join (List.filter (fun s => negb (is_empty s)) l) "/").

Definition TrimLeft_slash (s : string) : string :=
  string_of_list_ascii (trim_right_slash (list_ascii_of_string s)).

(** ** [vault_token.go] and [vault_kv.go] *)
Section secrets.
Context `{Process, VaultHTTP, NetLib}.

Definition VaultTokenFromEnvOrFile : result (option string) :=
  let v := TrimSpace (os_Getenv "VAULT_TOKEN") in
  if negb (is_empty v) then Ok (Some v)
  else
    let p := TrimSpace (os_Getenv "VAULT_TOKEN_FILE") in
    if is_empty p then Ok None
    else
      let? b := os_ReadFile p in
      if is_empty (TrimSpace b) then Err (ENew "vault token file is empty") else Ok (Some (TrimSpace b)).

Record VaultKVClient : Type := mkKVClient {
  kv_addr : string;
  kv_token : string;
  kv_mount : string;
}.
Definition NewVaultKVClient (addr token mount : string) : result VaultKVClient :=
  let addr := TrimSpace addr in let token := TrimSpace token in let mount := TrimSpace mount in
  if is_empty addr then Err (ENew "vault addr required")
  else if is_empty token then Err (ENew "vault token required")
  else match url_Parse addr with
       | None => Err (ENew "invalid url")
       | Some _ => Ok (mkKVClient (TrimRight_slash addr) token (if is_empty mount then "secret" else mount))
       end.

(** [struct { Data struct { Data map[string]any } }]: a repeated member adds
    to the map, null empties it, another kind is an error. *)
Definition kv_inner (acc : result (list (string * json))) (kv : string * json) : result (list (string * json)) :=
  let? m := acc in
  if negb (EqualFold kv.1 "data") then Ok m
  else match kv.2 with JNull => Ok [] | JObj l => Ok (m ++ l) | _ => Err json_type_error end.
Definition kv_outer (acc : result (list (string * json))) (kv : string * json) : result (list (string * json)) :=
  let? m := acc in
  if negb (EqualFold kv.1 "data") then Ok m
  else match kv.2 with JNull => Ok m | JObj l => foldl kv_inner (Ok m) l | _ => Err json_type_error end.
Definition kv_Decode (b : bytes) : result (list (string * json)) :=
  match b with
  | BJson JNull => Ok []
  | BJson (JObj l) => foldl kv_outer (Ok []) l
  | BJson _ => Err json_type_error
  | _ => Err json_syntax_error
  end.

Definition ReadKVV2 (c : VaultKVClient) (secretPath : string) : result (list (string * json)) :=
  let p := TrimLeft_slash (TrimSpace secretPath) in
  if is_empty p then Err (ENew "secret path required")
  else
    let u := kv_addr c +:+ path_Join ["/v1/"; kv_mount c; "data"; p] in
    match url_Parse u with
    | None => Err (ENew "invalid url")
    | Some _ =>
        match vault_Get u (kv_token c) with
        | Err e => Err e
        | Ok (status, body) =>
            if negb (status =? 200) then Err (ENew ("vault read failed: status=" +:+ pretty status))
            else kv_Decode body
        end
    end.
(** [data[k].(string)] *)
Definition kv_string (m : list (string * json)) (k : string) : string :=
  match snd <$> last (List.filter (fun kv => bool_decide (kv.1 = k)) m) with Some (JStr s) => s | _ => "" end.

(** The secret at a path the environment can change, when Vault is set up *)
Definition vault_secret (pathVar default : string) : result (option (list (string * json))) :=
  let addr := TrimSpace (os_Getenv "VAULT_ADDR") in
  let? token := VaultTokenFromEnvOrFile in
  match token with
  | None => Ok None
  | Some token =>
      if is_empty addr then Ok None
      else
        let mount := TrimSpace (os_Getenv "VAULT_KV_MOUNT") in
        let mount := if is_empty mount then "secret" else mount in
        let secretPath := TrimSpace (os_Getenv pathVar) in
        let secretPath := if is_empty secretPath then default else secretPath in
        let? c := NewVaultKVClient addr token mount in
        let? data := ReadKVV2 c secretPath in
        Ok (Some data)
  end.

Definition maybeLoadDSN (pathVar default : string) : result (option string) :=
  let? data := vault_secret pathVar default in
  Ok (match data with
      | None => None
      | Some m => let dsn := kv_string m "dsn" in if is_empty (TrimSpace dsn) then None else Some dsn
      end).
Definition maybeLoadLedgerDBDSNFromVault : result (option string) :=
  maybeLoadDSN "VAULT_LEDGER_DB_DSN_SECRET_PATH" "ledger".
Definition maybeLoadAccountDBDSNFromVault : result (option string) :=
  maybeLoadDSN "VAULT_ACCOUNT_DB_DSN_SECRET_PATH" "account".
Definition maybeLoadPaymentDBDSNFromVault : result (option string) :=
  maybeLoadDSN "VAULT_PAYMENT_DB_DSN_SECRET_PATH" "payment".

(** Kid and private key *)
Definition maybeLoadIdentityJWTFromVault : result (option (string * string)) :=
  let? data := vault_secret "VAULT_IDENTITY_JWT_SECRET_PATH" "identity" in
  Ok (match data with
      | None => None
      | Some m =>
          let kid := kv_string m "kid" in let priv := kv_string m "jwt_ed25519_private_key" in
          if is_empty (TrimSpace kid) || is_empty (TrimSpace priv) then None else Some (kid, priv)
      end).

(** The DSN of a service: the variable, else what Vault holds *)
Definition service_dsn (var : string) (load : result (option string)) : result string :=
  let dsn := os_Getenv var in
  if is_empty (TrimSpace dsn)
  then let? v := load in Ok (match v with Some v => v | None => dsn end)
  else Ok dsn.
Definition ledger_dsn : result string := service_dsn "LEDGER_DB_DSN" maybeLoadLedgerDBDSNFromVault.
Definition account_dsn : result string := service_dsn "ACCOUNT_DB_DSN" maybeLoadAccountDBDSNFromVault.
Definition payment_dsn : result string := service_dsn "PAYMENT_DB_DSN" maybeLoadPaymentDBDSNFromVault.
End secrets.

(** ** [spiffe_mtls.go] *)
Inductive authorizer : Type :=
| AuthorizeOneOf (ids : list string)
| AuthorizeMemberOf (trustDomain : string).

Section spiffe.
Context `{Process, SpiffeLib}.

Definition spiffeMTLSEnabled : bool :=
  bool_decide (ToLower (TrimSpace (os_Getenv "SPIFFE_MTLS_ENABLED")) ∈ ["1"; "true"; "yes"; "on"]).
Definition spiffeWorkloadAPIAddr : string :=
  let v := TrimSpace (os_Getenv "SPIFFE_WORKLOAD_API_ADDR") in
  if is_empty v then "unix:///run/spire/sockets/agent.sock" else v.
Definition spiffeTrustDomain : result string :=
  let v := TrimSpace (os_Getenv "SPIFFE_TRUST_DOMAIN") in
  TrustDomainFromString (if is_empty v then "fincore.local" else v).

Fixpoint parse_ids (parts : list string) : result (list string) :=
  match parts with
  | [] => Ok []
  | p :: parts =>
      let p := TrimSpace p in
      if is_empty p then parse_ids parts
      else let? id := spiffeid_FromString p in let? ids := parse_ids parts in Ok (id :: ids)
  end.
Definition spiffeAllowedIDsFromEnv (key : string) : result (option (list string)) :=
  let raw := TrimSpace (os_Getenv key) in
  if is_empty raw then Ok None
  else let? ids := parse_ids (Split ","%char raw) in
       Ok (match ids with [] => None | _ => Some ids end).

Definition spiffe_authorizer (key : string) : result authorizer :=
  let? ids := spiffeAllowedIDsFromEnv key in
  match ids with
  | Some ids => Ok (AuthorizeOneOf ids)
  | None => let? td := spiffeTrustDomain in Ok (AuthorizeMemberOf td)
  end.
Definition spiffeClientAuthorizer : result authorizer := spiffe_authorizer "SPIFFE_MTLS_CLIENT_ALLOWED_SVIDS".
Definition spiffeServerAuthorizer : result authorizer := spiffe_authorizer "SPIFFE_MTLS_SERVER_ALLOWED_SVIDS".

(** The credentials: who this service is and whom it talks to *)
Definition spiffe_credentials (auth : result authorizer) : result (X509Source * authorizer) :=
  if negb spiffeMTLSEnabled then Err (ENew "spiffe mtls not enabled")
  else
    let? source := NewX509Source spiffeWorkloadAPIAddr in
    let? a := auth in
    Ok (source, a).
Definition NewSpiffeMTLSClientCredentials : result (X509Source * authorizer) := spiffe_credentials spiffeClientAuthorizer.
Definition NewSpiffeMTLSServerCredentials : result (X509Source * authorizer) := spiffe_credentials spiffeServerAuthorizer.

(** [if creds, closeSrc, err := ...; err == nil]: an error leaves the server,
    or the connection, without TLS. *)
Definition server_credentials : option (X509Source * authorizer) :=
  match NewSpiffeMTLSServerCredentials with Ok c => Some c | Err _ => None end.
Definition client_credentials : option (X509Source * authorizer) :=
  match NewSpiffeMTLSClientCredentials with Ok c => Some c | Err _ => None end.
End spiffe.

(** ** Settings of the auth and identity services *)
Definition minute_ns : Z := 60 * 1000000000.
Definition hour_ns : Z := 60 * minute_ns.
Record AuthConfig : Type := mkAuthConfig {
  cf_dsn : string;
  cf_kid : string;
  cf_priv : string;
  cf_grpcAddr : string;
  cf_httpAddr : string;
  cf_issuer : string;
  cf_accessTTL : Z;
  cf_refreshTTL : Z;
  cf_loginMaxAttempts : Z;
  cf_loginWindow : Z;
  cf_loginLockout : Z;
  cf_cleanupInterval : Z;
  cf_revokedRetention : Z;
}.

(** [if v != "" { if n, err := strconv.Atoi(v); err == nil && n > 0 { ... } }] *)
Definition int_setting (v : string) (default : Z) : Z :=
  match Atoi v with Some n => if 0 <? n then n else default | None => default end.
(** the same with [time.ParseDuration]; [positive] when the code asks for it *)
Definition duration_setting (positive : bool) (v : string) (default : Z) : Z :=
  match ParseDuration v with Some d => if positive && (d <=? 0) then default else d | None => default end.

(** [lookup] is how the service reads a setting *)
Definition settings (lookup : string -> string) (dsn kid priv grpcAddr httpAddr issuer : string) : AuthConfig :=
  mkAuthConfig dsn kid priv grpcAddr httpAddr issuer (15 * minute_ns) (30 * 24 * hour_ns)
    (int_setting (lookup "LOGIN_MAX_ATTEMPTS") 5)
    (duration_setting true (lookup "LOGIN_WINDOW") (5 * minute_ns))
    (duration_setting false (lookup "LOGIN_LOCKOUT") (15 * minute_ns))
    (duration_setting true (lookup "REFRESH_CLEANUP_INTERVAL") (5 * minute_ns))
    (duration_setting false (lookup "REFRESH_REVOKED_RETENTION") (30 * 24 * hour_ns)).

Section config.
Context `{Process, VaultHTTP, NetLib}.

Definition getenv (key : string) : string := TrimSpace (os_Getenv key).
Fixpoint getenvAny (keys : list string) : string :=
  match keys with
  | [] => ""
  | k :: keys => if is_empty (getenv k) then getenvAny keys else getenv k
  end.
Definition or_default (v default : string) : string := if is_empty v then default else v.

Definition auth_lookup (name : string) : string := TrimSpace (os_Getenv ("AUTH_" +:+ name)).
Definition auth_config : result AuthConfig :=
  let dsn := os_Getenv "AUTH_DB_DSN" in
  let kid := TrimSpace (os_Getenv "AUTH_JWT_KID") in
  let priv := TrimSpace (os_Getenv "AUTH_JWT_ED25519_PRIVATE_KEY") in
  if is_empty (TrimSpace dsn) then Err (ENew "AUTH_DB_DSN is required")
  else if is_empty kid then Err (ENew "AUTH_JWT_KID is required")
  else if is_empty priv then Err (ENew "AUTH_JWT_ED25519_PRIVATE_KEY is required")
  else Ok (settings auth_lookup dsn kid priv (or_default (os_Getenv "AUTH_GRPC_ADDR") ":50055")
             (or_default (os_Getenv "AUTH_HTTP_ADDR") ":8082") "").

Definition identity_any (name : string) : string := getenvAny ["IDENTITY_" +:+ name; "AUTH_" +:+ name].
Definition identity_lookup (name : string) : string := TrimSpace (identity_any name).
(** Kid and key: from the environment, and from Vault what is missing there *)
Definition identity_key_material : result (string * string) :=
  let kid := identity_any "JWT_KID" in
  let priv := identity_any "JWT_ED25519_PRIVATE_KEY" in
  if is_empty kid || is_empty priv then
    match maybeLoadIdentityJWTFromVault with
    | Err e => Err (EWrap "failed to load identity jwt secret from vault" e)
    | Ok None => Ok (kid, priv)
    | Ok (Some (k, p)) => Ok (or_default kid k, or_default priv p)
    end
  else Ok (kid, priv).
Definition identity_config : result AuthConfig :=
  let dsn := identity_any "DB_DSN" in
  let? km := identity_key_material in
  if is_empty (TrimSpace dsn) then Err (ENew "IDENTITY_DB_DSN (or AUTH_DB_DSN) is required")
  else if is_empty km.1 then Err (ENew "IDENTITY_JWT_KID (or AUTH_JWT_KID) is required")
  else if is_empty km.2 then Err (ENew "IDENTITY_JWT_ED25519_PRIVATE_KEY (or AUTH_JWT_ED25519_PRIVATE_KEY) is required")
  else
    let httpAddr := or_default (identity_any "HTTP_ADDR") ":8084" in
    Ok (settings identity_lookup dsn km.1 km.2 (or_default (identity_any "GRPC_ADDR") ":50056") httpAddr
          (or_default (identity_any "ISSUER") ("http://localhost" +:+ httpAddr))).
End config.

(** The token maker and the key set the service publishes *)
Definition signing_keys (c : AuthConfig) : result (Ed25519JWTMaker * JWKS) :=
  let? priv := ParseEd25519PrivateKeyBase64URL (cf_priv c) in
  let? maker := NewEd25519JWTMaker (cf_kid c) priv in
  let? jwk := Ed25519PublicJWK (cf_kid c) (ed25519_Public priv) in
  Ok (maker, [jwk]).
Definition login_limiter (c : AuthConfig) : loginLimiter :=
  newLoginLimiter (cf_loginMaxAttempts c) (cf_loginWindow c) (cf_loginLockout c).
(** [time.NewTicker] panics unless the interval is positive. *)
Definition NewTicker (d : Z) : result Z := if d <=? 0 then Err (EPanic "non-positive interval for NewTicker") else Ok d.

(** The headers the proxies of the services pass on: [default] is
    [runtime.DefaultHeaderMatcher]. *)
Definition forward_incoming (default : string -> option string) (key : string) : option string :=
  if EqualFold key "Authorization" then Some "authorization" else default key.
Definition forward_outgoing (default : string -> option string) (key : string) : option string :=
  if EqualFold key "www-authenticate" then Some "WWW-Authenticate" else default key.

(** * Properties *)
Lemma Atoi_range s n : Atoi s = Some n -> - 2 ^ 63 <= n < 2 ^ 63.
Proof.
  unfold Atoi. destruct (split_sign s) as [neg t]. destruct (is_empty t); [done|].
  destruct (digits_value 0 t) as [v|]; [|done]. cbv zeta. destruct (_ && _) eqn:Hr; [|done]. intros [= <-]. lia.
Qed.
Lemma int_setting_sane v d : 0 < d < 2 ^ 63 -> 0 < int_setting v d < 2 ^ 63.
Proof.
  intros Hd. unfold int_setting. destruct (Atoi v) as [n|] eqn:Ha; [|done]. apply Atoi_range in Ha.
  destruct (Z.ltb_spec 0 n); lia.
Qed.
Lemma duration_setting_sane p v d : 0 < d < 2 ^ 63 ->
  - 2 ^ 63 <= duration_setting p v d < 2 ^ 63 /\ (p = true -> 0 < duration_setting p v d).
Proof.
  intros Hd. unfold duration_setting. destruct (ParseDuration v) as [n|] eqn:Hn; [|split; intros; lia].
  apply ParseDuration_range in Hn. destruct p; simpl; [|split; [lia|done]]. destruct (Z.leb_spec n 0); split; intros; lia.
Qed.

Definition config_sane (c : AuthConfig) : Prop :=
  cf_dsn c <> "" /\ cf_kid c <> "" /\ cf_priv c <> "" /\ 0 < cf_loginMaxAttempts c < 2 ^ 63 /\
  0 < cf_loginWindow c < 2 ^ 63 /\ - 2 ^ 63 <= cf_loginLockout c < 2 ^ 63 /\
  NewTicker (cf_cleanupInterval c) = Ok (cf_cleanupInterval c) /\
  login_limiter c = mkLoginLimiter (cf_loginMaxAttempts c) (cf_loginWindow c) (Z.max 0 (cf_loginLockout c)) ∅.

Lemma settings_sane lookup dsn kid priv g h i :
  dsn <> "" -> kid <> "" -> priv <> "" -> config_sane (settings lookup dsn kid priv g h i).
Proof.
  intros Hd Hk Hp. unfold config_sane, login_limiter, newLoginLimiter, NewTicker. simpl.
  pose proof (int_setting_sane (lookup "LOGIN_MAX_ATTEMPTS") 5 ltac:(lia)) as Ha.
  destruct (duration_setting_sane true (lookup "LOGIN_WINDOW") (5 * minute_ns)) as [Hw1 Hw2]; [done|].
  destruct (duration_setting_sane false (lookup "LOGIN_LOCKOUT") (15 * minute_ns)) as [Hl _]; [done|].
  destruct (duration_setting_sane true (lookup "REFRESH_CLEANUP_INTERVAL") (5 * minute_ns)) as [_ Hc2]; [done|].
  specialize (Hw2 eq_refl). specialize (Hc2 eq_refl).
  set (a := int_setting _ _) in *. set (wd := duration_setting true (lookup "LOGIN_WINDOW") _) in *.
  set (lk := duration_setting false (lookup "LOGIN_LOCKOUT") _) in *. set (ci := duration_setting true _ _) in Hc2 |- *.
  split_and!; try done; try lia.
  - destruct (Z.leb_spec ci 0); [lia|done].
  - destruct (Z.leb_spec a 0), (Z.leb_spec wd 0), (Z.ltb_spec lk 0); try lia; f_equal; lia.
Qed.

Lemma signing_keys_published c maker ks : signing_keys c = Ok (maker, ks) ->
  mk_kid maker = cf_kid c /\ usable_keys ks = {[ cf_kid c := ed25519_Public (mk_priv maker) ]}.
Proof.
  unfold signing_keys. destruct (ParseEd25519PrivateKeyBase64URL _) as [priv|]; [|done]. simpl.
  unfold NewEd25519JWTMaker. destruct (is_empty _); [done|]. destruct (negb _); [done|]. simpl.
  destruct (Ed25519PublicJWK _ _) as [k|] eqn:Hk; [|done]. simpl. intros [= <- <-]. split; [done|].
  change [k] with (@nil JWK ++ [k]). by rewrite usable_keys_snoc, (usable_published _ _ _ Hk).
Qed.

Section startup.
Context `{Process, VaultHTTP, NetLib}.

Lemma getenvAny_trimmed keys : TrimSpace (getenvAny keys) = getenvAny keys.
Proof. induction keys as [|k keys IH]; simpl; [done|]. destruct (is_empty _); [done|]. apply TrimSpace_idem. Qed.

(** C35. Whatever the environment and Vault hold, the auth service and the
    identity service either refuse to start or start with a sane
    configuration: a DSN, a key identifier and a private key, a positive
    number of attempts and window, exactly as configured in the limiter (a
    negative lockout as none), a clean-up interval [NewTicker] accepts; and
    the key set they publish is the one public key of the key they sign
    with. *)
Theorem startup_sane c : auth_config = Ok c \/ identity_config = Ok c ->
  config_sane c /\
  forall maker ks, signing_keys c = Ok (maker, ks) ->
    mk_kid maker = cf_kid c /\ usable_keys ks = {[ cf_kid c := ed25519_Public (mk_priv maker) ]}.
Proof.
  intros Hc. split; [|apply signing_keys_published]. destruct Hc as [Hc|Hc].
  - unfold auth_config in Hc. cbv zeta in Hc. destruct (is_empty (TrimSpace (os_Getenv "AUTH_DB_DSN"))) eqn:Hd; [done|].
    destruct (is_empty _) eqn:Hk in Hc; [done|]. destruct (is_empty _) eqn:Hp in Hc; [done|].
    apply is_empty_false in Hd, Hk, Hp. injection Hc as <-. apply settings_sane; [|done..]. by apply TrimSpace_nonempty.
  - unfold identity_config in Hc. destruct identity_key_material as [[kid priv]|]; [|done]. cbn [result_bind fst snd] in Hc.
    unfold identity_any in Hc at 1. rewrite getenvAny_trimmed in Hc. destruct (is_empty _) eqn:Hd in Hc; [done|].
    destruct (is_empty kid) eqn:Hk; [done|]. destruct (is_empty priv) eqn:Hp; [done|].
    apply is_empty_false in Hd, Hk, Hp. injection Hc as <-. by apply settings_sane.
Qed.
End startup.

(** A setting written as a number of units is that many of them. *)
Lemma duration_setting_units p n u ns d : 0 < n -> u ∈ units -> unitMap u = Some ns -> n * ns < 2 ^ 63 ->
  duration_setting p (pretty n +:+ u) d = n * ns.
Proof.
  intros Hn Hu Hns Hlt. unfold duration_setting. rewrite (ParseDuration_units n u ns) by (done || lia).
  destruct (unit_shape u Hu) as (ns' & Hns' & Hpos & _). rewrite Hns in Hns'. injection Hns' as <-.
  destruct (Z.leb_spec (n * ns) 0); [nia|]. by rewrite andb_false_r.
Qed.

(** Mutual TLS that is switched on but whose agent cannot be reached leaves
    the server without TLS. *)
Lemma mtls_fails_open `{Process, SpiffeLib} e :
  spiffeMTLSEnabled = true -> NewX509Source spiffeWorkloadAPIAddr = Err e -> server_credentials = None.
Proof.
  intros He Hs. unfold server_credentials, NewSpiffeMTLSServerCredentials, spiffe_credentials. by rewrite He, Hs.
Qed.

(** A server with mutual TLS talks to the listed identities if any are
    listed, and to the trust domain only otherwise. *)
Lemma mtls_authorized `{Process, SpiffeLib} src a : server_credentials = Some (src, a) ->
  spiffeMTLSEnabled = true /\
  match spiffeAllowedIDsFromEnv "SPIFFE_MTLS_SERVER_ALLOWED_SVIDS" with
  | Ok (Some ids) => a = AuthorizeOneOf ids /\ ids <> []
  | Ok None => exists td, spiffeTrustDomain = Ok td /\ a = AuthorizeMemberOf td
  | Err _ => False
  end.
Proof.
  unfold server_credentials, NewSpiffeMTLSServerCredentials, spiffe_credentials, spiffeServerAuthorizer, spiffe_authorizer.
  destruct spiffeMTLSEnabled; [|done]. simpl. destruct (NewX509Source _); [|done]. simpl.
  destruct (spiffeAllowedIDsFromEnv _) as [[ids|]|] eqn:Hids; simpl; [| |done].
  - intros [= <- <-]. split_and!; [done..|]. intros ->. unfold spiffeAllowedIDsFromEnv in Hids.
    destruct (is_empty _); [done|]. destruct (parse_ids _) as [[|]|]; done.
  - destruct spiffeTrustDomain as [td|]; [|done]. simpl. intros [= <- <-]. eauto.
Qed.

Example vault_path : path_Join ["/v1/"; "secret"; "data"; "identity/../ledger"] = "/v1/secret/data/ledger".
Proof. vm_compute. reflexivity. Qed.
