(* ===== verification/Fraud.v ===== *)
(** * The fraud engine ([src/services/fraud-engine])

    [domain/rules.go], [infrastructure/rules/heuristic_evaluator.go] and the
    handler of [cmd/fraud-engine/main.go]. *)
From S2P Require Import Prelude GoStrings Floats BigFloat.
From Stdlib Require Import QArith Lqa.
#[local] Open Scope Z_scope.
#[local] Open Scope go_scope.

Record RuleResult : Type := mkRuleResult {
  rr_Score : float32;
  rr_Decision : string;
  rr_Reasons : list string;
}.

Record Transaction : Type := mkTransaction {
  tx_ID : string;
  tx_UserID : string;
  tx_Amount : bigFloat;
  tx_Currency : string;
  tx_DeviceID : string;
  tx_IPAddress : string;
  tx_IsNewDevice : bool;
}.

Definition threshold : bigFloat := BigFinite false 10000 0.

(** [score += c; reasons = append(reasons, reason)] under a condition *)
Definition add_rule (cond : bool) (c : float32) (reason : string) (acc : float32 * list string)
  : float32 * list string :=
  if cond then (f32_add acc.1 c, acc.2 ++ [reason]) else acc.

Definition high_value (txn : Transaction) : bool :=
  match big_Cmp (tx_Amount txn) threshold with Gt => true | _ => false end.

Definition Evaluate (txn : Transaction) : RuleResult :=
  let acc := (f32_const 1 100, []) in
  let acc := add_rule (high_value txn) (f32_const 4 10) "high_value_transaction" acc in
  let acc := add_rule (tx_IsNewDevice txn) (f32_const 3 10) "new_device_detected" acc in
  let acc := add_rule (is_empty (tx_DeviceID txn)) (f32_const 2 10) "missing_device_id" acc in
  let decision :=
    if f_leb (f32_const 8 10) acc.1 then "reject"
    else if f_leb (f32_const 4 10) acc.1 then "review" else "approve" in
  mkRuleResult acc.1 decision acc.2.

(** The request: [sr_Metadata] are the fields of the metadata struct, with
    the boolean value of those that are booleans ([GetBoolValue] is false of
    the others). *)
Record ScoreTransactionRequest : Type := mkScoreRequest {
  sr_TransactionId : string;
  sr_UserId : string;
  sr_Amount : string;
  sr_Currency : string;
  sr_DeviceId : string;
  sr_IpAddress : string;
  sr_Metadata : option (gmap string (option bool));
}.

Definition ScoreTransaction `{BigFloatLib} (req : ScoreTransactionRequest) : result RuleResult :=
  match big_SetString (sr_Amount req) with
  | None => Err (EStatus "InvalidArgument" "invalid amount format")
  | Some amount =>
      let isNewDevice :=
        match sr_Metadata req with
        | Some fields => match fields !! "is_new_device" with Some (Some b) => b | _ => false end
        | None => false
        end in
      Ok (Evaluate (mkTransaction (sr_TransactionId req) (sr_UserId req) amount (sr_Currency req)
                      (sr_DeviceId req) (sr_IpAddress req) isNewDevice))
  end.

(** ** The decision *)
Definition flags (txn : Transaction) : nat :=
  Nat.b2n (high_value txn) + Nat.b2n (tx_IsNewDevice txn) + Nat.b2n (is_empty (tx_DeviceID txn)).

(** The decision does not depend on rounding: a transaction is rejected
    exactly when it is above 10,000, from a new device and without a device
    id; approved exactly when it is not above 10,000 and at most one of the
    two device rules holds; reviewed otherwise. Every rule that holds is
    listed as a reason, in order. *)
Theorem fraud_decision txn :
  rr_Decision (Evaluate txn) =
    (if (flags txn =? 3)%nat then "reject"
     else if negb (high_value txn) && (flags txn <=? 1)%nat then "approve" else "review") /\
  rr_Reasons (Evaluate txn) =
    (if high_value txn then ["high_value_transaction"] else []) ++
    (if tx_IsNewDevice txn then ["new_device_detected"] else []) ++
    (if is_empty (tx_DeviceID txn) then ["missing_device_id"] else []).
Proof.
  unfold Evaluate, flags.
  destruct (high_value txn), (tx_IsNewDevice txn), (is_empty (tx_DeviceID txn)); vm_compute; split; reflexivity.
Qed.

(** ** Amounts

    [ScoreTransaction] on amounts in decimal notation. *)
Lemma decimal_above neg n k m e z : 0 <= n < 2 ^ 200 -> 0 <= m -> 0 <= z < 2 ^ 200 -> near (ratio n k) (value m e) ->
  (forall z, n = z * 10 ^ Z.of_nat k -> (value m e == inject_Z z)%Q) ->
  match big_Cmp (BigFinite neg m e) (BigFinite false z 0) with Gt => true | _ => false end =
  negb neg && (z * 10 ^ Z.of_nat k <? n).
Proof.
  intros Hn Hm Hz [Hlo Hhi] Hint. set (T := 10 ^ Z.of_nat k) in *. assert (0 < T) as HT by (apply Z.pow_pos_nonneg; lia).
  destruct neg; simpl negb; rewrite ?andb_true_l, ?andb_false_l.
  { unfold big_Cmp, signed. cbv zeta.
    destruct (Z.compare_spec (- m * 2 ^ (e - Z.min e 0)) (z * 2 ^ (0 - Z.min e 0))) as [| |Hgt]; [done..|].
    assert (0 < 2 ^ (e - Z.min e 0) /\ 0 < 2 ^ (0 - Z.min e 0)) as [H1 H2] by (split; apply Z.pow_pos_nonneg; lia). nia. }
  assert (forall b : bool, ((inject_Z z < value m e)%Q <-> b = true) ->
    match big_Cmp (BigFinite false m e) (BigFinite false z 0) with Gt => true | _ => false end = b) as Hgoal.
  { intros b Hb. pose proof (big_Cmp_integer m e z) as Hc. destruct (big_Cmp _ _), b; try done; naive_solver. }
  apply Hgoal. rewrite Z.ltb_lt. pose proof (ratio_mult n k) as HX. fold T in HX.
  assert (0 < inject_Z T)%Q as HTq by (change 0%Q with (inject_Z 0); by rewrite <-Zlt_Qlt).
  destruct eps_bounds as (He & _ & HN).
  assert (inject_Z n * eps < 1)%Q as Hsmall.
  { assert (inject_Z n <= inject_Z (2 ^ 200))%Q by (rewrite <-Zle_Qle; lia).
    assert (inject_Z (2 ^ 200) * eps < 1)%Q by (by vm_compute). nra. }
  destruct (Z.lt_trichotomy (z * T) n) as [Hlt|[Heq|Hgt]].
  - split; [done|]. intros _. apply (Qmult_lt_r _ _ (inject_Z T)); [done|].
    assert (inject_Z (z * T) + 1 <= inject_Z n)%Q as H1.
    { change 1%Q with (inject_Z 1). rewrite <-inject_Z_plus, <-Zle_Qle. lia. }
    rewrite inject_Z_mult in H1. apply (Qmult_le_compat_r _ _ (inject_Z T)) in Hlo; [|lra]. nra.
  - rewrite (Hint z) by lia. split; [intros E; exfalso; lra|lia].
  - split; [|lia]. intros Hv. exfalso. apply (Qmult_lt_r _ _ (inject_Z T)) in Hv; [|done].
    assert (inject_Z n + 1 <= inject_Z (z * T))%Q as H1.
    { change 1%Q with (inject_Z 1). rewrite <-inject_Z_plus, <-Zle_Qle. lia. }
    rewrite inject_Z_mult in H1. apply (Qmult_le_compat_r _ _ (inject_Z T)) in Hhi; [|lra]. nra.
Qed.

Definition new_device (req : ScoreTransactionRequest) : bool :=
  match sr_Metadata req with
  | Some fields => match fields !! "is_new_device" with Some (Some b) => b | _ => false end
  | None => false
  end.

(** C34. The score of a transaction with a decimal amount of at most 100
    decimals and below 2^200 units of its last decimal follows the amount as
    written, not its binary rounding: the request is answered; it is rejected
    exactly when the amount is above 10,000, the device is new and no device
    is named, approved exactly when the amount is at most 10,000 and at most
    one of the other two holds, sent to review otherwise; and the reasons list
    the rules that hold, in order. *)
Theorem fraud_score_exact `{BigFloatOk} req neg n k :
  0 <= n < 2 ^ 200 -> (k <= 100)%nat -> sr_Amount req = decimal_text neg n k ->
  let high := negb neg && (10000 * 10 ^ Z.of_nat k <? n) in
  let fresh := new_device req in let nameless := is_empty (sr_DeviceId req) in
  exists res, ScoreTransaction req = Ok res /\
    rr_Decision res = (if high && fresh && nameless then "reject"
                       else if negb high && negb (fresh && nameless) then "approve" else "review") /\
    rr_Reasons res = (if high then ["high_value_transaction"] else []) ++
                     (if fresh then ["new_device_detected"] else []) ++
                     (if nameless then ["missing_device_id"] else []).
Proof.
  intros Hn Hk Hreq. destruct (big_SetString_decimal neg n k) as (m & e & Ha & Hm & Hnear & Hint); [lia|done|].
  unfold ScoreTransaction. rewrite Hreq, Ha. cbv zeta. eexists. split; [done|].
  match goal with |- context [Evaluate ?t] => set (txn := t) end.
  assert (high_value txn = negb neg && (10000 * 10 ^ Z.of_nat k <? n)) as Hh by (by apply decimal_above).
  destruct (fraud_decision txn) as [-> ->]. unfold flags. rewrite Hh.
  change (tx_IsNewDevice txn) with (new_device req). change (tx_DeviceID txn) with (sr_DeviceId req).
  split; [|done]. by destruct (negb neg && _), (new_device req), (is_empty _).
Qed.
