(* ===== verification/Fx.v ===== *)
(** * The FX service ([src/services/fx-service])

    The two handlers of [cmd/fx-service/main.go], the rate of
    [domain/rate.go] and the cache of [infrastructure/rates/redis_cache.go]
    (which [main] does not wire up). The Redis client is a parameter. *)
From S2P Require Import Prelude GoStrings BigFloat.
From Stdlib Require Import QArith Qabs Lqa.
#[local] Open Scope Z_scope.
#[local] Open Scope go_scope.

Record ConvertRequest : Type := mkConvertRequest {
  cv_Amount : string;
  cv_FromCurrency : string;
  cv_ToCurrency : string;
}.
Record ConvertResponse : Type := mkConvertResponse {
  cv_ConvertedAmount : string;
  cv_Rate : string;
  cv_ConvertedAt : Z;
}.
Record Rate : Type := mkRate {
  rt_BaseCurrency : string;
  rt_TargetCurrency : string;
  rt_Value : bigFloat;
  rt_FetchedAt : Z;
}.
(** Redis: [Get] of a key that is not there is [redis.Nil]. *)
Class RedisClient (DB : Type) := {
  redis_Get : string -> M DB (option string);
  redis_Set : string -> string -> Z -> M DB unit;
}.

Section fx.
Context `{Env, BigFloatLib} {DB : Type}.

Definition rateStr : string := "0.92345678".

(** The rate and when it was fetched *)
Definition GetRate (base target : string) : M DB (string * Z) :=
  let! now := time_Now in retM (rateStr, now).

(** A rate that could not be read would be a nil pointer. *)
Definition Convert (req : ConvertRequest) : M DB ConvertResponse :=
  match big_SetString (cv_Amount req) with
  | None => failM (EStatus "InvalidArgument" "invalid amount format")
  | Some amount =>
      match big_SetString rateStr with
      | None => failM (EPanic "nil pointer dereference")
      | Some rate =>
          let! converted := liftR (big_Mul amount rate) in
          let! now := time_Now in
          retM (mkConvertResponse (big_Text_f8 converted) rateStr now)
      end
  end.

Definition NewRate (base target val : string) : M DB Rate :=
  match big_SetString val with
  | None => failM (ENew ("invalid rate format: " +:+ val))
  | Some v => let! now := time_Now in retM (mkRate base target v now)
  end.
Definition Rate_Convert (r : Rate) (amount : bigFloat) : result bigFloat := big_Mul amount (rt_Value r).

Definition rate_cache_key (base target : string) : string := "fx:rate:" +:+ base +:+ ":" +:+ target.
Definition RateCache_Get `{RedisClient DB} (base target : string) : M DB (option string) :=
  redis_Get (rate_cache_key base target).
Definition RateCache_Set `{RedisClient DB} (base target rate : string) (ttl : Z) : M DB unit :=
  redis_Set (rate_cache_key base target) rate ttl.
End fx.

(** ** Conversion is correctly rounded *)
#[local] Open Scope Q_scope.

Lemma near_mul x y v u : 0 <= x -> 0 <= y -> near x v -> near y u ->
  x * y * (1 - 2 * eps) <= v * u /\ v * u <= x * y * (1 + 3 * eps).
Proof.
  intros Hx Hy [Hv1 Hv2] [Hu1 Hu2]. destruct eps_bounds as (He & H4 & _).
  assert (0 <= x * y) as Hxy by (by apply Qmult_le_0_compat).
  assert (0 <= x * (1 - eps) /\ 0 <= y * (1 - eps)) as [A B] by (split; apply Qmult_le_0_compat; lra).
  split.
  - apply Qle_trans with (x * (1 - eps) * (y * (1 - eps))); [nra|]. apply Qmult_le_compat_nonneg; split; done.
  - apply Qle_trans with (x * (1 + eps) * (y * (1 + eps))); [apply Qmult_le_compat_nonneg; split; lra|nra].
Qed.

Lemma near_widen x v a b c d : 0 <= x -> a <= c -> b <= d -> x * (1 - a) <= v -> v <= x * (1 + b) ->
  x * (1 - c) <= v /\ v <= x * (1 + d).
Proof. intros Hx Ha Hb H1 H2. nra. Qed.

Definition rate_units : Z := 92345678.
Lemma rateStr_decimal : rateStr = decimal_text false rate_units 8.
Proof. vm_compute. reflexivity. Qed.

(** The bounds of an amount of at most 200 bits and 100 decimals *)
Lemma ratio_bounds n k : (0 < n < 2 ^ 200)%Z -> (k <= 100)%nat -> pow2 (-400) <= ratio n k /\ ratio n k <= pow2 200.
Proof.
  intros [Hn Hn2] Hk. pose proof (ratio_mult n k) as Hr. pose proof (ratio_nonneg n k ltac:(lia)) as Hr0.
  assert (1 <= inject_Z (10 ^ Z.of_nat k) /\ inject_Z (10 ^ Z.of_nat k) <= pow2 400) as [H1 H2].
  { rewrite (pow2_Z 400) by lia. change 1 with (inject_Z 1). rewrite <-!Zle_Qle. split.
    - pose proof (Z.pow_pos_nonneg 10 (Z.of_nat k) ltac:(lia) ltac:(lia)). lia.
    - apply Z.le_trans with (10 ^ 100)%Z; [apply Z.pow_le_mono_r; lia|by vm_compute]. }
  assert (1 <= inject_Z n /\ inject_Z n <= pow2 200) as [H3 H4].
  { rewrite (pow2_Z 200) by lia. change 1 with (inject_Z 1). rewrite <-!Zle_Qle. lia. }
  set (T := inject_Z (10 ^ _)) in *. split; [|nra].
  assert (pow2 (-400) * pow2 400 == 1) as Hp by (by rewrite <-pow2_add).
  pose proof (pow2_pos (-400)) as Hm. pose proof (pow2_pos 400).
  destruct (Qlt_le_dec (ratio n k) (pow2 (-400))) as [Hlt|]; [|done]. exfalso.
  assert (ratio n k * T < pow2 (-400) * pow2 400); [|lra].
  apply Qle_lt_trans with (ratio n k * pow2 400); [|by apply Qmult_lt_compat_r].
  rewrite !(Qmult_comm (ratio n k)). by apply Qmult_le_compat_r.
Qed.

(** The product of the amount and the rate as [Convert] computes it *)
Lemma product_near neg n k m e m' e' : (0 <= n < 2 ^ 200)%Z -> (k <= 100)%nat -> (0 <= m)%Z -> (0 <= m')%Z ->
  near (ratio n k) (value m e) -> near (ratio rate_units 8) (value m' e') ->
  exists q f, big_round neg (m * m') (e + e') = BigFinite neg q f /\
    ratio n k * ratio rate_units 8 * (1 - 4 * eps) <= value q f /\
    value q f <= ratio n k * ratio rate_units 8 * (1 + 5 * eps).
Proof.
  intros Hn Hk Hm Hm' Ha Hr. set (x := ratio n k) in *. set (y := ratio rate_units 8) in *.
  assert (0 <= x) as Hx by (apply ratio_nonneg; lia). assert (0 <= y) as Hy by (by apply ratio_nonneg).
  destruct (near_mul _ _ _ _ Hx Hy Ha Hr) as [Hlo Hhi]. rewrite <-value_mul in Hlo, Hhi.
  destruct eps_bounds as (He & H4 & _).
  assert (pow2 (-1) <= y /\ y <= 1) as [Hy1 Hy2] by (split; by vm_compute).
  assert (eps * 100 <= 1) as Hs by (by vm_compute).
  destruct (big_round_near neg (m * m') (e + e')) as (q & f & Hq & Hq0 & [Hnl Hnu]); [nia| |].
  { intros Hpos. assert (0 < n)%Z as Hn0.
    { destruct (Z.eq_dec n 0) as [->|]; [|lia]. exfalso. assert (x == 0) as Hx0 by done. pose proof (value_pos _ (e + e') Hpos). nra. }
    destruct (ratio_bounds n k ltac:(lia) Hk) as [Hl Hu]. fold x in Hl, Hu.
    enough (-402 <= exponent (m * m') (e + e') <= 202 + 1)%Z by lia. apply exponent_range; [done| |].
    - change (-402)%Z with (-400 + -1 + -1)%Z. rewrite !pow2_add. change (pow2 (-1)) with (1 # 2) in *.
      pose proof (pow2_pos (-400)). assert (pow2 (-400) * (1 # 2) <= x * y) by (apply Qmult_le_compat_nonneg; lra). nra.
    - change 202%Z with (200 + 2)%Z. rewrite pow2_add. change (pow2 2) with 4. pose proof (pow2_pos 200).
      assert (x * y <= pow2 200 * 1) by (apply Qmult_le_compat_nonneg; lra). nra. }
  exists q, f. split; [done|]. set (v := value (m * m') (e + e')) in *. set (z := x * y) in *.
  assert (0 <= z) as Hz by (by apply Qmult_le_0_compat). split; nra.
Qed.

(** Eight decimals of a value near the product are the product to the nearest
    unit of the eighth decimal. *)
Lemma scaled8_rounds n k q f : (0 <= n < 2 ^ 200)%Z ->
  ratio n k * ratio rate_units 8 * (1 - 4 * eps) <= value q f ->
  value q f <= ratio n k * ratio rate_units 8 * (1 + 5 * eps) ->
  (2 * Z.abs (scaled8 q f * 10 ^ Z.of_nat k - n * rate_units) <= 10 ^ Z.of_nat k)%Z.
Proof.
  intros Hn Hlo Hhi. pose proof (scaled8_near q f) as Hs. apply Qabs_Qle_condition in Hs as [Hs1 Hs2].
  pose proof (ratio_mult n k) as HX. pose proof (ratio_mult rate_units 8) as HY. change (Z.of_nat 8) with 8%Z in HY.
  pose proof (Z.pow_pos_nonneg 10 (Z.of_nat k) ltac:(lia) ltac:(lia)) as HT.
  assert (10 * eps * (inject_Z n * inject_Z rate_units) < 1) as Hsmall.
  { assert (inject_Z n * inject_Z rate_units <= inject_Z (2 ^ 200 * rate_units)).
    { rewrite <-inject_Z_mult, <-Zle_Qle. unfold rate_units. lia. }
    assert (10 * eps * inject_Z (2 ^ 200 * rate_units) < 1) by (by vm_compute). destruct eps_bounds as (He & _). nra. }
  set (E8 := inject_Z (10 ^ 8)) in *. set (T := (10 ^ Z.of_nat k)%Z) in *. set (s := scaled8 q f) in *.
  set (N := inject_Z n * inject_Z rate_units) in *.
  assert (0 < inject_Z T) as HTq by (change 0 with (inject_Z 0); by rewrite <-Zlt_Qlt).
  assert (0 < E8) as HE by (by vm_compute).
  assert (N * (1 - 4 * eps) <= value q f * E8 * inject_Z T /\ value q f * E8 * inject_Z T <= N * (1 + 5 * eps)) as [A B].
  { unfold N. rewrite <-HX, <-HY. assert (0 < E8 * inject_Z T) as HET by (by apply Qmult_lt_0_compat).
    split.
    - apply (Qmult_le_compat_r _ _ (E8 * inject_Z T)) in Hlo; [|lra]. lra.
    - apply (Qmult_le_compat_r _ _ (E8 * inject_Z T)) in Hhi; [|lra]. lra. }
  assert (2 * (inject_Z s * inject_Z T - N) < inject_Z T + 1 /\ 2 * (N - inject_Z s * inject_Z T) < inject_Z T + 1)
    as [C D].
  { apply (Qmult_le_compat_r _ _ (inject_Z T)) in Hs1, Hs2; [|lra..]. split; lra. }
  unfold N in C, D. rewrite <-!inject_Z_mult in C, D.
  enough (2 * (s * T - n * rate_units) < T + 1 /\ 2 * (n * rate_units - s * T) < T + 1)%Z by lia.
  rewrite !Zlt_Qlt. unfold Z.sub. rewrite !inject_Z_mult, !inject_Z_plus, !inject_Z_opp in *. rewrite !inject_Z_mult in *.
  change (inject_Z 2) with 2. change (inject_Z 1) with 1. lra.
Qed.

Section convert.
Context `{Env, BigFloatLib, !BigFloatOk} {DB : Type}.

(** C33. A conversion is correctly rounded: of every amount written as a
    decimal with at most 100 decimals and below 2^200 units of its last
    decimal, of either sign, [Convert] returns its product with the rate of
    the response to the nearest unit of the eighth decimal. The binary
    arithmetic never shows. *)
Theorem fx_convert_rounds req neg n k (w : World DB) :
  (0 <= n < 2 ^ 200)%Z -> (k <= 100)%nat -> cv_Amount req = decimal_text neg n k ->
  exists q w', Convert req w =
      (Ok (mkConvertResponse (decimal_text neg q 8) (decimal_text false rate_units 8) (clock_Now (w_tick w))), w') /\
    (2 * Z.abs (q * 10 ^ Z.of_nat k - n * rate_units) <= 10 ^ Z.of_nat k)%Z.
Proof.
  intros Hn Hk Hreq. destruct (big_SetString_decimal neg n k) as (m & e & Ha & Hm & Hna & _); [lia|done|].
  destruct (big_SetString_decimal false rate_units 8) as (m' & e' & Hr & Hm' & Hnr & _); [done|lia|].
  destruct (product_near neg n k m e m' e' Hn Hk Hm Hm' Hna Hnr) as (q & f & Hq & Hlo & Hhi).
  exists (scaled8 q f). eexists. split; [|by apply scaled8_rounds].
  unfold Convert. rewrite Hreq, Ha, rateStr_decimal, Hr. unfold liftR, bindM, time_Now, retM. simpl big_Mul.
  rewrite xorb_false_r, Hq. reflexivity.
Qed.
End convert.
