(* ===== verification/BackOffice.v ===== *)
(** * Back-office services
    ([src/services/admin-service], [notification-service],
    [reporting-service], [vault-service])

    Each is a gRPC server over a port. The repositories behind the first
    three are stand-ins that log what they were asked and answer with fixed
    values; the state of the model is that log, an entry per call of
    [log.Printf] with the values it prints. The vault service calls
    HashiCorp Vault, whose answers are a parameter. *)
From S2P Require Import Prelude GoStrings Json Base64 Floats.
#[local] Open Scope Z_scope.
#[local] Open Scope go_scope.

Inductive log_line : Type :=
| Proposed (action resource operator : string)
| Approved (opID approver : string)
| FlagSet (key : string) (enabled : bool) (rollout : float32)
| Sending (template user channel : string) (data : gmap string json)
| LoginAlert (user : option json)
| DetokenizeAudit (token reason : string)
| VaultError (what : string) (e : error).
Definition Log : Type := list log_line.

Definition log_Printf (l : log_line) : M Log unit := fun w => (Ok tt, set_db (DB' := Log) (w_db w ++ [l]) w).

(** [status.Errorf(code, "msg: %v", err)] on an error *)
Definition status_Errorf {DB A} (code msg : string) (m : M DB A) : M DB A :=
  let! r := tryM m in
  match r with Ok a => retM a | Err e => failM (EStatus code (msg +:+ ": " +:+ Error e)) end.

(** ** Admin: operations under the four-eyes principle *)
Record AdminOperation : Type := mkOperation {
  op_OperatorID : string;
  op_Action : string;
  op_ResourceID : string;
  op_Details : gmap string json;
}.
Definition Propose (op : AdminOperation) : M Log string :=
  log_Printf (Proposed (op_Action op) (op_ResourceID op) (op_OperatorID op)) ;;; retM "op_94302".
Definition Approve (opID approverID : string) : M Log unit := log_Printf (Approved opID approverID).
Definition SetFlag (key : string) (enabled : bool) (rollout : float32) : M Log unit :=
  log_Printf (FlagSet key enabled rollout).

(** The identifier and the status of the operation *)
Definition ProposeOperation (operator action resource : string) (details : gmap string json) : M Log (string * string) :=
  let! id := status_Errorf "Internal" "failed to propose operation" (Propose (mkOperation operator action resource details)) in
  retM (id, "pending_approval").
Definition ApproveOperation (opID approverID : string) : M Log (bool * string) :=
  status_Errorf "PermissionDenied" "approval failed" (Approve opID approverID) ;;; retM (true, "executed").
Definition SetFeatureFlag (key : string) (enabled : bool) (rollout : float32) : M Log bool :=
  status_Errorf "Internal" "failed to set feature flag" (SetFlag key enabled rollout) ;;; retM true.

Record AdminAuditLogEntry : Type := mkAdminLog {
  al_Id : string;
  al_OperatorId : string;
  al_Action : string;
  al_ResourceId : string;
  al_Timestamp : Z;
}.
Definition ListAdminAuditLogs `{Env} : M Log (list AdminAuditLogEntry) :=
  let! now := time_Now in
  retM [mkAdminLog "audit_1" "admin_jdoe" "USER_UNSUSPEND" "user_777" now].

(** ** Notifications *)
Record Notification : Type := mkNotification {
  nf_UserID : string;
  nf_TemplateID : string;
  nf_Channel : string;
  nf_Data : gmap string json;
}.
Definition notifier_Send (n : Notification) : M Log string :=
  log_Printf (Sending (nf_TemplateID n) (nf_UserID n) (nf_Channel n) (nf_Data n)) ;;;
  retM ("notif_" +:+ nf_Channel n +:+ "_" +:+ nf_UserID n).
(** identifier, status, error *)
Definition notifier_GetStatus (id : string) : M Log (string * string * string) := retM (id, "sent", "").

Definition SendNotification (userID templateID channel : string) (data : gmap string json) : M Log (string * string) :=
  let! id := status_Errorf "Internal" "failed to send notification"
               (notifier_Send (mkNotification userID templateID channel data)) in
  retM (id, "sent").
Definition GetNotificationStatus (id : string) : M Log (string * string * string) :=
  status_Errorf "NotFound" "notification not found" (notifier_GetStatus id).
(** The subscription to [auth.user.login]: a message that is no JSON object
    leaves the map nil, and looking up [user_id] gives nil. *)
Definition login_alert (data : bytes) : M Log unit :=
  log_Printf (LoginAlert
    match data with
    | BJson (JObj fs) => snd <$> last (List.filter (fun kv => bool_decide (kv.1 = "user_id")) fs)
    | _ => None
    end).

(** ** Reports *)
Record BaselIIIReport : Type := mkBasel {
  bl_CapitalRatio : string;
  bl_LiquidityCoverageRatio : string;
  bl_GeneratedAt : Z;
}.
Record AMLAlert : Type := mkAlert {
  am_UserID : string;
  am_TransactionID : string;
  am_RiskScore : float32;
  am_Reason : string;
}.
Record DashboardStats : Type := mkStats {
  ds_TotalTransactions : Z;
  ds_TotalVolumeKobo : string;
  ds_AvgFraudScore : float32;
}.
Definition reporter_BaselIII `{Env} (start stop : Z) : M Log BaselIIIReport :=
  let! now := time_Now in retM (mkBasel "12.8%" "118.5%" now).
Definition reporter_AML (start stop : Z) (threshold : float32) : M Log (list AMLAlert) :=
  retM [mkAlert "user_789" "tx_999" (f32_const 92 100) "Structuring detected"].
Definition reporter_Stats (period : string) : M Log DashboardStats :=
  retM (mkStats 2450000 "10500400300200" (f32_const 35 1000)).

Definition GetBaselIIIReport `{Env} (start stop : Z) : M Log BaselIIIReport :=
  status_Errorf "Internal" "failed to generate Basel III report" (reporter_BaselIII start stop).
(** The alerts and [int32(len(alerts))] *)
Definition GetAMLMonitoringReport (start stop : Z) (threshold : float32) : M Log (list AMLAlert * Z) :=
  let! alerts := status_Errorf "Internal" "failed to generate AML report" (reporter_AML start stop threshold) in
  retM (alerts, (Z.of_nat (List.length alerts) + 2 ^ 31) mod 2 ^ 32 - 2 ^ 31).
Definition GetDashboardStats (period : string) : M Log DashboardStats :=
  status_Errorf "Internal" "failed to get dashboard stats" (reporter_Stats period).

(** ** The vault service

    [logical_answer n path data] is what Vault answers to the [n]th write: an
    error, nothing, or the data of a secret. *)
Class Logical := {
  logical_answer : nat -> string -> gmap string string -> result (option (gmap string json)) }.

Section vault.
Context `{Env, Logical}.

Definition logical_Write (path : string) (data : gmap string string) : M Log (option (gmap string json)) := fun w =>
  match next_fault w with
  | (FOk, w1) => (logical_answer (w_tick w1) path data, (time_Now w1).2)
  | (FErr, w1) => (Err ENet, w1)
  | (FLostAck, w1) => (Err ENet, (time_Now w1).2)
  end.

(** [secret.Data[field].(string)]; [secret] is nil when the answer was empty. *)
Definition secret_field (secret : option (gmap string json)) (field : string) : M Log string :=
  match secret with
  | None => failM (EPanic "nil pointer dereference")
  | Some data => match data !! field with
                 | Some (JStr s) => retM s
                 | _ => failM (ENew "invalid response from vault")
                 end
  end.

Definition client_Tokenize (category data : string) : M Log string :=
  let! secret := logical_Write ("transit/encrypt/" +:+ category) {[ "plaintext" := data ]} in
  secret_field secret "ciphertext".
Definition client_Detokenize (token reason : string) : M Log string :=
  log_Printf (DetokenizeAudit token reason) ;;;
  let! secret := logical_Write "transit/decrypt/card_pan" {[ "ciphertext" := token ]} in
  secret_field secret "plaintext".

(** A panic in a handler is not recovered: it does not become a status. *)
Definition on_error {A} (m : M Log A) (k : error -> M Log A) : M Log A :=
  let! r := tryM m in
  match r with Ok a => retM a | Err (EPanic e) => failM (EPanic e) | Err e => k e end.

(** The token and its time *)
Definition Tokenize (category data : string) : M Log (string * Z) :=
  let! token := on_error (client_Tokenize category data) (fun e =>
    log_Printf (VaultError "tokenize" e) ;;; failM (EStatus "Internal" ("failed to tokenize: " +:+ Error e))) in
  let! now := time_Now in
  retM (token, now).
Definition Detokenize (token reason : string) : M Log string :=
  if is_empty reason then failM (EStatus "InvalidArgument" "detokenize reason is required for audit")
  else on_error (client_Detokenize token reason) (fun e =>
    log_Printf (VaultError "detokenize" e) ;;; failM (EStatus "PermissionDenied" "failed to detokenize")).
End vault.

(** ** What holds *)

(** Nothing of an operation is kept: any approver, the proposer included,
    executes any identifier, proposed or not. *)
Lemma approve_anything opID approver (w : World Log) :
  ApproveOperation opID approver w = (Ok (true, "executed"), set_db (w_db w ++ [Approved opID approver]) w).
Proof. reflexivity. Qed.

(** Two notifications of one user and channel have one identifier, and every
    identifier, sent or not, has status "sent". *)
Lemma notifications_not_told_apart user channel t1 t2 d1 d2 (w w' : World Log) id :
  (SendNotification user t1 channel d1 w).1 = (SendNotification user t2 channel d2 w').1 /\
  (GetNotificationStatus id w).1 = Ok (id, "sent", "").
Proof. done. Qed.

(** The report does not look at the threshold. *)
Lemma aml_ignores_threshold start stop t1 t2 (w : World Log) :
  GetAMLMonitoringReport start stop t1 w = GetAMLMonitoringReport start stop t2 w.
Proof. reflexivity. Qed.

(** *** The vault

    The transit engine: a plaintext must be base64; what the key of a name
    has encrypted that key decrypts and no other does. [key] are the names of
    the keys. *)
Definition base64_text (p : string) : bool := bool_decide (is_Some (padded_DecodeString StdEncoding p)).
Class TransitOk `{Logical} (key : string -> Prop) : Prop := {
  transit_text n c p : base64_text p = false ->
    exists e, logical_answer n ("transit/encrypt/" +:+ c) {[ "plaintext" := p ]} = Err e /\ (forall s, e <> EPanic s);
  transit_keys n c p : key c -> base64_text p = true ->
    exists s ct, logical_answer n ("transit/encrypt/" +:+ c) {[ "plaintext" := p ]} = Ok (Some s) /\
      s !! "ciphertext" = Some (JStr ct) /\
      (forall n', exists s', logical_answer n' ("transit/decrypt/" +:+ c) {[ "ciphertext" := ct ]} = Ok (Some s') /\
         s' !! "plaintext" = Some (JStr p)) /\
      (forall n' c', c' <> c -> exists e,
         logical_answer n' ("transit/decrypt/" +:+ c') {[ "ciphertext" := ct ]} = Err e /\ (forall s, e <> EPanic s)) }.

Section vault_props.
Context `{Env, Logical} {key : string -> Prop} {Ht : TransitOk key}.

Lemma logical_run path data w : w_faults w = [] ->
  logical_Write path data w = (logical_answer (w_tick w) path data, (time_Now w).2).
Proof. intros Hf. unfold logical_Write, next_fault. by rewrite Hf. Qed.

Lemma on_error_ok {A} (m : M Log A) k w a w' : m w = (Ok a, w') -> on_error m k w = (Ok a, w').
Proof. intros Hm. unfold on_error, tryM, bindM. by rewrite Hm. Qed.
Lemma on_error_err {A} (m : M Log A) k w e w' :
  m w = (Err e, w') -> (forall s, e <> EPanic s) -> on_error m k w = k e w'.
Proof. intros Hm He. unfold on_error, tryM, bindM. rewrite Hm. destruct e; try done. by destruct (He msg). Qed.

(** A token gives its data back exactly when its category is card_pan:
    base64 data under the name of a key is tokenized; [Detokenize], later and
    with a reason, returns that data for the category card_pan and refuses
    the token of every other category, and either way leaves the token and
    the reason in the log. Data that is not base64 text is not tokenized. *)
Theorem vault_roundtrip c p reason w w2 :
  key c -> reason <> "" -> w_faults w = [] -> w_faults w2 = [] ->
  if base64_text p
  then exists t at_ w', Tokenize c p w = (Ok (t, at_), w') /\
    (Detokenize t reason w2).1 =
      (if bool_decide (c = "card_pan") then Ok p else Err (EStatus "PermissionDenied" "failed to detokenize")) /\
    DetokenizeAudit t reason ∈ w_db (Detokenize t reason w2).2
  else exists msg w', Tokenize c p w = (Err (EStatus "Internal" msg), w').
Proof.
  intros Hk Hr Hf Hf2. destruct (base64_text p) eqn:Hp.
  - destruct (transit_keys (w_tick w) c p Hk Hp) as (s & ct & Henc & Hct & Hdec & Hother).
    exists ct. eexists _, _. split.
    { unfold Tokenize. unfold bindM at 1. erewrite on_error_ok; [reflexivity|].
      unfold client_Tokenize, bindM. rewrite logical_run by done. rewrite Henc. unfold secret_field. by rewrite Hct. }
    unfold Detokenize. rewrite (proj2 (is_empty_false reason) Hr).
    set (w3 := set_db (DB' := Log) (w_db w2 ++ [DetokenizeAudit ct reason]) w2). case_bool_decide as Hc.
    + subst c. destruct (Hdec (w_tick w3)) as (s' & Ha & Hs').
      change (_ +:+ _) with "transit/decrypt/card_pan" in Ha.
      erewrite on_error_ok; [split; [reflexivity|]|].
      2: { unfold client_Detokenize, log_Printf. unfold bindM. fold w3. rewrite logical_run by done.
           rewrite Ha. unfold secret_field. by rewrite Hs'. }
      simpl. apply elem_of_app. right. by apply list_elem_of_singleton.
    + destruct (Hother (w_tick w3) "card_pan" (not_eq_sym Hc)) as (e & Ha & He).
      change (_ +:+ _) with "transit/decrypt/card_pan" in Ha.
      erewrite on_error_err; [split; [reflexivity|]| |done].
      2: { unfold client_Detokenize, log_Printf. unfold bindM. fold w3. rewrite logical_run by done. by rewrite Ha. }
      simpl. rewrite elem_of_app. left. apply elem_of_app. right. by apply list_elem_of_singleton.
  - destruct (transit_text (w_tick w) c p Hp) as (e & Ha & He). eexists _, _. unfold Tokenize. unfold bindM at 1.
    erewrite on_error_err; [reflexivity| |done]. unfold client_Tokenize. unfold bindM. rewrite logical_run by done. by rewrite Ha.
Qed.

(** Whatever fails, no data leaves the vault service without a reason and an
    entry in the log, made before Vault is asked. *)
Lemma detokenize_audited t reason w d w' :
  Detokenize t reason w = (Ok d, w') -> reason <> "" /\ DetokenizeAudit t reason ∈ w_db w'.
Proof.
  unfold Detokenize. destruct (is_empty reason) eqn:Hr; [done|]. apply is_empty_false in Hr. intros Hd. split; [done|].
  unfold on_error, tryM, bindM in Hd. unfold client_Detokenize, log_Printf, bindM, logical_Write in Hd.
  set (w1 := set_db _ w) in *. assert (DetokenizeAudit t reason ∈ w_db w1) as Hin.
  { apply elem_of_app. right. by apply list_elem_of_singleton. }
  destruct (next_fault w1) as [[] w2] eqn:Hnf.
  all: assert (w_db w2 = w_db w1) as E by (unfold next_fault in Hnf; destruct (w_faults w1); by simplify_eq/=).
  all: rewrite <-E in Hin; unfold secret_field, time_Now, retM, failM in Hd; simpl in Hd; repeat (case_match; simplify_eq/=); done.
Qed.
End vault_props.
