(* ===== verification/Gateway.v ===== *)
(** * The API gateway ([src/services/api-gateway/cmd/api-gateway/main.go])

    The HTTP middleware in front of the services: rate limits, token check,
    header stripping and chaos. A handler takes a request and runs on the
    gateway's memory: the buckets of its two rate limiters and the key cache
    of its verifier. What lies behind it, the generated gRPC proxy, is a
    handler the model takes as a parameter. [http.ServeMux] redirects paths
    that are not clean before the handlers see them; this is left out. *)
From S2P Require Import Prelude GoStrings Json Base64 Passwords Invariants Floats Authz Tokens Http.
From Stdlib Require Import Ascii String.
#[local] Open Scope Z_scope.
#[local] Open Scope go_scope.

(** ** Rate limits *)
Record tokenBucket : Type := mkBucket {
  tb_capacity : float64;
  tb_rate : float64;
  tb_tokens : float64;
  tb_last : Z;
}.

Definition newTokenBucket (now : Z) (reqPerSec : float64) (burst : Z) : tokenBucket :=
  let reqPerSec := if f_leb reqPerSec (f64_of_Z 0) then f64_of_Z 20 else reqPerSec in
  let burst := if burst <=? 0 then 40 else burst in
  mkBucket (f64_of_Z burst) reqPerSec (f64_of_Z burst) now.

Definition min (a b : float64) : float64 := if f_ltb a b then a else b.

Definition bucket_allow (now : Z) (b : tokenBucket) : bool * tokenBucket :=
  let elapsed := Seconds (now - tb_last b) in
  let tokens := min (tb_capacity b) (f64_add (tb_tokens b) (f64_mul elapsed (tb_rate b))) in
  if f_ltb tokens (f64_of_Z 1) then (false, mkBucket (tb_capacity b) (tb_rate b) tokens now)
  else (true, mkBucket (tb_capacity b) (tb_rate b) (f64_sub tokens (f64_of_Z 1)) now).

Record rateLimiter : Type := mkRateLimiter {
  rl_buckets : gmap string tokenBucket;
  rl_reqPerSec : float64;
  rl_burst : Z;
}.
Definition newRateLimiter (reqPerSec : float64) (burst : Z) : rateLimiter := mkRateLimiter ∅ reqPerSec burst.

Record GatewayState : Type := mkGateway {
  gw_lim : rateLimiter;
  gw_strict : rateLimiter;
  gw_verifier : JWKSVerifier;
}.
#[export] Instance gateway_verifier : Lens GatewayState JWKSVerifier := {|
  view := gw_verifier; upd v g := mkGateway (gw_lim g) (gw_strict g) v |}.
#[export] Instance gateway_verifier_ok : LensOk GatewayState JWKSVerifier.
Proof. split; [done|by intros []|done]. Qed.

(** Which of the two limiters. *)
Inductive limiter_name : Type := Default | Strict.
Definition limiter_of (n : limiter_name) (g : GatewayState) : rateLimiter :=
  match n with Default => gw_lim g | Strict => gw_strict g end.
Definition set_bucket (n : limiter_name) (key : string) (b : tokenBucket) (g : GatewayState) : GatewayState :=
  let l := limiter_of n g in
  let l := mkRateLimiter (<[key := b]> (rl_buckets l)) (rl_reqPerSec l) (rl_burst l) in
  match n with
  | Default => mkGateway l (gw_strict g) (gw_verifier g)
  | Strict => mkGateway (gw_lim g) l (gw_verifier g)
  end.

Definition handler : Type := request -> M GatewayState response.

Section gateway.
Context `{Env, Random, Jwt, JwksEndpoint}.
(** The environment of the process. *)
Variables ENABLE_CHAOS GATEWAY_PUBLIC_PATH_PREFIXES : string.

Definition get_state : M GatewayState GatewayState := fun w => (Ok (w_db w), w).
Definition put_bucket (n : limiter_name) (key : string) (b : tokenBucket) : M GatewayState unit := fun w =>
  (Ok tt, set_db (set_bucket n key b (w_db w)) w).

Definition bucketFor (n : limiter_name) (key : string) : M GatewayState tokenBucket :=
  let! g := get_state in
  match rl_buckets (limiter_of n g) !! key with
  | Some b => retM b
  | None =>
      let! now := time_Now in
      let b := newTokenBucket now (rl_reqPerSec (limiter_of n g)) (rl_burst (limiter_of n g)) in
      put_bucket n key b ;;; retM b
  end.

(** [bucketFor(key).allow()]: the bucket is changed in the map. *)
Definition allow (n : limiter_name) (key : string) : M GatewayState bool :=
  let! b := bucketFor n key in
  let! now := time_Now in
  let '(ok, b') := bucket_allow now b in
  put_bucket n key b' ;;; retM ok.

Definition rate_key (r : request) : string :=
  let key := TrimSpace (Header_Get (rq_Header r) "X-Fincore-Subject") in
  let key := if is_empty key then TrimSpace (rq_RemoteAddr r) else key in
  if is_empty key then "anonymous" else key.

Definition withRateLimit (n : limiter_name) (next : handler) : handler := fun r =>
  let! ok := allow n (rate_key r) in
  if negb ok then retM (http_Error (Header_Set "Retry-After" "1" ∅) "rate limit exceeded" 429)
  else next r.

Definition has_prefix_of (prefixes : list string) (path : string) : bool :=
  existsb (fun p => negb (is_empty p) && HasPrefix path p) prefixes.

Definition withRateLimitByPath (strictPrefixes : list string) (next : handler) : handler := fun r =>
  let lim := if has_prefix_of strictPrefixes (rq_Path r) then Strict else Default in
  withRateLimit lim next r.

(** ** Chaos

    [math/rand]: three random bytes make the 24 bits of [rand.Float32], which
    is [k / 2^24]. *)
Definition rand_24 : M GatewayState Z := fun w =>
  (Ok (foldl (fun k c => k * 256 + byte_val c) 0 (take 3 (list_ascii_of_string (rand_bytes (w_uuid w) 3)))),
   mkWorld (w_db w) (w_seq w) (S (w_uuid w)) (w_tick w) (w_tx w) (w_faults w) (w_sent w)).
Definition rand_Float32 : M GatewayState float32 :=
  let! k := rand_24 in retM (f32_const k 16777216).

(** [time.Sleep(time.Duration(500+rand.Intn(1500)) * time.Millisecond)]
    draws a number and lets time pass. *)
Definition chaos_delay : M GatewayState unit :=
  let! _ := rand_24 in
  let! _ := time_Now in
  retM tt.

Definition withChaos (next : handler) : handler := fun r =>
  if negb (bool_decide (ENABLE_CHAOS = "true")) && negb (bool_decide (Header_Get (rq_Header r) "X-Chaos-Enable" = "true"))
  then next r
  else
    let! x := rand_Float32 in
    if f_ltb x (f32_const 2 100) then retM (http_Error ∅ "CHAOS_MONKEY: Simulated Network Partition" 500)
    else
      let! y := rand_Float32 in
      (if f_ltb y (f32_const 5 100) then chaos_delay else retM tt) ;;;
      next r.

(** ** Identity *)
Definition stripUntrustedIdentityHeaders (next : handler) : handler := fun r =>
  next (with_header (Header_Del "X-Fincore-Permissions" (Header_Del "X-Fincore-Roles"
          (Header_Del "X-Fincore-Subject" (rq_Header r)))) r).

(** The headers of a verified token. *)
Definition identity_headers (payload : TokenPayload) (h : Header) : Header :=
  let h := if tp_LSN payload =? 0 then h else Header_Set "X-Fincore-LSN" (pretty (tp_LSN payload)) h in
  let h := Header_Set "X-Fincore-Subject" (tp_UserID payload) h in
  let h := match tp_Roles payload with [] => h | roles => Header_Set "X-Fincore-Roles" (Join roles ",") h end in
  match tp_Permissions payload with [] => h | perms => Header_Set "X-Fincore-Permissions" (Join perms ",") h end.

Definition withJWTAuth (publicPrefixes : list string) (next : handler) : handler := fun r =>
  if has_prefix_of publicPrefixes (rq_Path r) then next r
  else
    let v := TrimSpace (Header_Get (rq_Header r) "Authorization") in
    match prefix_tail "Bearer " v with
    | None => retM (http_Error ∅ "missing authorization" 401)
    | Some rest =>
        let tok := TrimSpace rest in
        if is_empty tok then retM (http_Error ∅ "missing authorization" 401)
        else
          let! payload := tryM (jwks_VerifyToken tok) in
          match payload with
          | Err _ => retM (http_Error ∅ "invalid token" 401)
          | Ok payload => next (with_header (identity_headers payload (rq_Header r)) r)
          end
    end.

Definition parsePublicPrefixesEnv : list string :=
  let v := TrimSpace GATEWAY_PUBLIC_PATH_PREFIXES in
  let v := if is_empty v then
    "/.well-known,/oauth/,/v1/auth/register,/v1/auth/login,/v1/auth/refresh,/v1/auth/logout,/v1/auth/logout_all"
    else v in
  List.filter (fun p => negb (is_empty p)) (map TrimSpace (Split ","%char v)).

(** [runtime.DefaultHeaderMatcher] of grpc-gateway is a parameter. *)
Definition gatewayHeaderForwarder (DefaultHeaderMatcher : string -> option string) (key : string) : option string :=
  if EqualFold key "Authorization" then Some "authorization"
  else if EqualFold key "X-Fincore-Subject" then Some "x-fincore-subject"
  else if EqualFold key "X-Fincore-Roles" then Some "x-fincore-roles"
  else if EqualFold key "X-Fincore-Permissions" then Some "x-fincore-permissions"
  else DefaultHeaderMatcher key.

(** ** [main] *)
Definition strictPrefixes : list string := ["/oauth/token"; "/v1/auth/login"; "/v1/auth/register"].
Definition lim0 : rateLimiter := newRateLimiter (f64_of_Z 20) 40.
Definition strict0 : rateLimiter := newRateLimiter (f64_of_Z 5) 10.

Definition gateway_chain (proxy : handler) : handler :=
  withRateLimitByPath strictPrefixes
    (withJWTAuth parsePublicPrefixesEnv
       (stripUntrustedIdentityHeaders (withChaos proxy))).

(** [strings.TrimRight(s, "/")] *)
Fixpoint drop_slashes (l : list ascii) : list ascii :=
  match l with c :: l' => if Ascii.eqb c "/" then drop_slashes l' else l | [] => [] end.
Definition TrimRight_slash (s : string) : string :=
  string_of_list_ascii (reverse (drop_slashes (reverse (list_ascii_of_string s)))).

(** The identity service answers, or does not. *)
Definition well_known (identityHTTP : string) (client_Do : string -> request -> option response) : handler := fun r =>
  let url := TrimRight_slash ("http://localhost" +:+ identityHTTP) +:+ rq_Path r +:+
    (if is_empty (rq_RawQuery r) then "" else "?" +:+ rq_RawQuery r) in
  retM (match client_Do url r with
        | None => http_Error ∅ "bad gateway" 502
        | Some resp => resp
        end).

Definition gateway_proxy (mux wellKnown : handler) : handler := fun r =>
  if HasPrefix (rq_Path r) "/.well-known/" then wellKnown r else mux r.

Definition gateway_root (h : handler) : handler := fun r =>
  if bool_decide (rq_Path r = "/healthz") then retM (mkResponse 200 ∅ "ok") else h r.
End gateway.
