(* ===== verification/GatewayProps.v ===== *)
(** * The API gateway: properties *)
From S2P Require Import Prelude GoStrings Json Base64 Passwords Invariants Floats Authz Tokens Http Gateway.
From Stdlib Require Import Ascii String.
#[local] Open Scope Z_scope.
#[local] Open Scope go_scope.

Section props.
Context `{Env, Random, Jwt, JwksEndpoint}.
Variables ENABLE_CHAOS GATEWAY_PUBLIC_PATH_PREFIXES : string.
Implicit Types (r : request) (w : World GatewayState) (proxy : handler).

Definition identity_keys : list string := ["X-Fincore-Subject"; "X-Fincore-Roles"; "X-Fincore-Permissions"].

(** Only the headers may differ. *)
Definition same_request r r' : Prop := exists h, r' = with_header h r.
Lemma same_refl r : same_request r r.
Proof. exists (rq_Header r). by destruct r. Qed.
Lemma same_trans r r' r'' : same_request r r' -> same_request r' r'' -> same_request r r''.
Proof. intros [h ->] [h' ->]. by exists h'. Qed.

(** The buckets stay, and time does not go back. *)
Definition same_limits w w' : Prop :=
  gw_lim (w_db w') = gw_lim (w_db w) /\ gw_strict (w_db w') = gw_strict (w_db w) /\ (w_tick w <= w_tick w')%nat.
#[local] Instance same_limits_preorder : PreOrder same_limits.
Proof.
  split; [done|]. intros w w' w'' (? & ? & ?) (? & ? & ?). unfold same_limits. split_and!; [congruence..|lia].
Qed.

(** What a stage behind the limiter does with a request, for every handler
    behind it: it answers with one of the statuses [codes] and the handler is
    not called, or it calls the handler, and [P] holds of the request and
    memory before and after. The buckets it leaves alone. *)
Definition stage (st : handler -> handler) (codes : list Z)
    (P : request -> World GatewayState -> request -> World GatewayState -> Prop) : Prop :=
  forall r w,
    (exists resp w', rp_Status resp ∈ codes /\ same_limits w w' /\ forall next, st next r w = (Ok resp, w')) \/
    (exists r' w', P r w r' w' /\ same_limits w w' /\ forall next, st next r w = next r' w').

Lemma stage_compose st st' codes codes' P P' Q :
  stage st codes P -> stage st' codes' P' ->
  (forall r w r' w' r'' w'', P r w r' w' -> P' r' w' r'' w'' -> Q r w r'' w'') ->
  stage (fun next => st (st' next)) (codes ++ codes') Q.
Proof.
  intros Hst Hst' HQ r w. destruct (Hst r w) as [(resp & w' & Hc & Hl & Hrun)|(r' & w' & HP & Hl & Hrun)].
  - left. exists resp, w'. split_and!; [apply elem_of_app; by left|done|]. intros next. apply Hrun.
  - destruct (Hst' r' w') as [(resp & w2 & Hc & Hl' & Hrun')|(r2 & w2 & HP' & Hl' & Hrun')].
    + left. exists resp, w2. split_and!; [apply elem_of_app; by right|by etrans|]. intros next. by rewrite Hrun, Hrun'.
    + right. exists r2, w2. split_and!; [by eapply HQ|by etrans|]. intros next. by rewrite Hrun, Hrun'.
Qed.

(** *** The limiter *)

(** The bucket of a key, a full one if there is none yet; and what it holds
    at [now], after refilling. *)
Definition bucket_of (n : limiter_name) (key : string) w : tokenBucket :=
  let l := limiter_of n (w_db w) in
  default (newTokenBucket (clock_Now (w_tick w)) (rl_reqPerSec l) (rl_burst l)) (rl_buckets l !! key).
Definition refill (now : Z) (b : tokenBucket) : float64 :=
  min (tb_capacity b) (f64_add (tb_tokens b) (f64_mul (Seconds (now - tb_last b)) (tb_rate b))).

(** Between [w] and [w'] the limiter was asked for a token of [key], and gave
    one ([ok]) exactly if the refilled bucket held one; the bucket is stored
    back, less the token given. *)
Definition charged (n : limiter_name) (key : string) w (ok : bool) w' : Prop :=
  exists t, (w_tick w <= t < w_tick w')%nat /\
    let b := bucket_of n key w in let tokens := refill (clock_Now t) b in
    ok = negb (f_ltb tokens (f64_of_Z 1)) /\
    rl_buckets (limiter_of n (w_db w')) !! key =
      Some (mkBucket (tb_capacity b) (tb_rate b) (if ok then f64_sub tokens (f64_of_Z 1) else tokens) (clock_Now t)).

Lemma charged_later n key w ok w' w'' : same_limits w' w'' -> charged n key w ok w' -> charged n key w ok w''.
Proof.
  intros (Hl & Hs & Ht) (t & Hlt & Hok & Hb). exists t. split; [lia|]. split; [done|].
  rewrite <-Hb. destruct n; simpl; congruence.
Qed.

(** The limiter leaves the verifier alone and time does not go back. *)
Definition same_verifier w w' : Prop := gw_verifier (w_db w') = gw_verifier (w_db w) /\ (w_tick w <= w_tick w')%nat.

Lemma bucket_allow_spec now b :
  let tokens := refill now b in let ok := negb (f_ltb tokens (f64_of_Z 1)) in
  bucket_allow now b =
    (ok, mkBucket (tb_capacity b) (tb_rate b) (if ok then f64_sub tokens (f64_of_Z 1) else tokens) now).
Proof. unfold bucket_allow, refill. cbv zeta. by destruct (f_ltb _ _). Qed.

Lemma allow_run n key w : exists ok w', allow n key w = (Ok ok, w') /\ same_verifier w w' /\ charged n key w ok w'.
Proof.
  unfold allow, bucketFor, bindM, get_state, charged, bucket_of. simpl.
  destruct (rl_buckets _ !! _) as [b|] eqn:Hb; simpl; rewrite bucket_allow_spec; cbv zeta; eexists _, _;
    (split; [done|]); (split; [split; [by destruct n|simpl; lia]|]).
  - exists (w_tick w). simpl. split; [lia|]. split; [done|]. destruct n; simpl; by rewrite lookup_insert_eq.
  - exists (S (w_tick w)). simpl. split; [lia|]. split; [done|]. destruct n; simpl; by rewrite lookup_insert_eq.
Qed.

(** *** The stages behind it *)
Lemma chaos_stage : stage (withChaos ENABLE_CHAOS) [500] (fun r _ r' _ => r' = r).
Proof.
  intros r w. unfold withChaos. destruct (_ && _); [right; by exists r, w|].
  unfold rand_Float32, bindM, rand_24, retM. simpl. destruct (f_ltb _ _).
  - left. eexists _, _. split_and!; [| |done]; [by left|done].
  - simpl. destruct (f_ltb _ _); simpl; right; eexists r, _; (split_and!; [done| |done]); unfold same_limits; simpl; auto.
Qed.

(** A header is passed on unless it is one of the identity headers or the
    sequence number, which the token check may set. *)
Definition passes r r' : Prop :=
  same_request r r' /\ forall k, k ∉ "X-Fincore-Lsn" :: identity_keys -> rq_Header r' !! k = rq_Header r !! k.

Lemma passes_trans r r' r'' : passes r r' -> passes r' r'' -> passes r r''.
Proof. intros [? Hk] [? Hk']. split; [by eapply same_trans|]. intros k Hn. by rewrite Hk', Hk. Qed.

(** What the strip stage makes of a request. *)
Definition stripped r (_ : World GatewayState) r' (_ : World GatewayState) : Prop :=
  passes r r' /\ (forall k, k ∈ identity_keys -> rq_Header r' !! k = None).

Lemma strip_stage : stage stripUntrustedIdentityHeaders [] stripped.
Proof.
  intros r w. right.
  exists (with_header (Header_Del "X-Fincore-Permissions" (Header_Del "X-Fincore-Roles"
            (Header_Del "X-Fincore-Subject" (rq_Header r)))) r), w.
  split; [|done]. split; [split; [by eexists|]|].
  - unfold identity_keys. intros k Hk. rewrite !not_elem_of_cons in Hk. simpl. unfold Header_Del.
    destruct Hk as (_ & ? & ? & ? & _). rewrite !lookup_delete_ne; done.
  - intros k Hk. simpl. unfold Header_Del. rewrite !lookup_delete_None. unfold identity_keys in Hk.
    rewrite !elem_of_cons, elem_of_nil in Hk. destruct Hk as [->|[->|[->|[]]]]; auto.
Qed.

(** The caller has a token the gateway's verifier accepts at [w]. *)
Definition bearer r w : Prop :=
  exists rest payload, prefix_tail "Bearer " (TrimSpace (Header_Get (rq_Header r) "Authorization")) = Some rest /\
    TrimSpace rest <> "" /\ (jwks_VerifyToken (TrimSpace rest) w).1 = Ok payload.

Lemma identity_passes payload r : passes r (with_header (identity_headers payload (rq_Header r)) r).
Proof.
  split; [by eexists|]. unfold identity_keys. intros k Hk. rewrite !not_elem_of_cons in Hk.
  destruct Hk as (? & ? & ? & ? & _). unfold identity_headers, Header_Set. simpl.
  destruct (tp_LSN payload =? 0), (tp_Roles payload), (tp_Permissions payload); rewrite ?lookup_insert_ne; done.
Qed.

(** Verifying a token changes the key cache at most. *)
Definition limits_kept {A} (m : M GatewayState A) : Prop := forall w, same_limits w (m w).2.
Lemma limits_bind {A B} (m : M GatewayState A) (k : A -> M GatewayState B) :
  limits_kept m -> (forall a, limits_kept (k a)) -> limits_kept (bindM m k).
Proof.
  intros Hm Hk w. specialize (Hm w). unfold bindM. destruct (m w) as [[a|e] w']; simpl in *; [|done].
  etrans; [exact Hm|apply Hk].
Qed.
Lemma limits_try {A} (m : M GatewayState A) : limits_kept m -> limits_kept (tryM m).
Proof. intros Hm w. specialize (Hm w). unfold tryM. by destruct (m w). Qed.
Lemma limits_time : limits_kept time_Now.
Proof. intros w. unfold same_limits. simpl. auto. Qed.

Lemma limits_verify tok : limits_kept (jwks_VerifyToken tok).
Proof.
  assert (forall A (r : result A), limits_kept (liftR r)) as Hlift by done.
  assert (forall b e, limits_kept (fail_if b e)) as Hfail by by intros [].
  unfold jwks_VerifyToken, verifyEd25519JWT, lookupKey, jwks_refresh, getCachedKey.
  repeat first [apply limits_time | apply Hlift | apply Hfail | apply limits_try | apply limits_bind; [|intros ?]
    | case_match | done].
Qed.

Definition checked (prefixes : list string) r w r' (_ : World GatewayState) : Prop :=
  passes r r' /\ (has_prefix_of prefixes (rq_Path r) = true \/ bearer r w).

Lemma jwt_stage prefixes : stage (withJWTAuth prefixes) [401] (checked prefixes).
Proof.
  intros r w. unfold withJWTAuth, checked.
  destruct (has_prefix_of _ _); [right; exists r, w; split; [split; [split; [apply same_refl|done]|by left]|done]|].
  destruct (prefix_tail _ _) as [rest|] eqn:Hb; [|left; eexists _, w; split_and!; [| |done]; [by left|done]].
  destruct (is_empty (TrimSpace rest)) eqn:He; [left; eexists _, w; split_and!; [| |done]; [by left|done]|].
  pose proof (limits_verify (TrimSpace rest) w) as Hl.
  unfold bindM, tryM. destruct (jwks_VerifyToken (TrimSpace rest) w) as [[payload|e] w'] eqn:Hv.
  - right. exists (with_header (identity_headers payload (rq_Header r)) r), w'. split; [|by split].
    split; [apply identity_passes|]. right.
    exists rest, payload. split_and!; [done|by apply is_empty_false|by rewrite Hv].
  - left. eexists _, w'. split_and!; [| |done]; [by left|done].
Qed.

(** *** The chain *)
Definition limiter_for r : limiter_name := if has_prefix_of strictPrefixes (rq_Path r) then Strict else Default.

Lemma chain_cases r w :
  let public := parsePublicPrefixesEnv GATEWAY_PUBLIC_PATH_PREFIXES in
  let chain proxy := gateway_chain ENABLE_CHAOS GATEWAY_PUBLIC_PATH_PREFIXES proxy r w in
  let asked := charged (limiter_for r) (rate_key r) w in
  (exists resp w', rp_Status resp = 429 /\ asked false w' /\ forall proxy, chain proxy = (Ok resp, w')) \/
  (exists resp w', rp_Status resp ∈ [401; 500] /\ asked true w' /\ forall proxy, chain proxy = (Ok resp, w')) \/
  (exists r' w', asked true w' /\ passes r r' /\ (forall k, k ∈ identity_keys -> rq_Header r' !! k = None) /\
     (has_prefix_of public (rq_Path r) = true \/ exists w1, same_verifier w w1 /\ (w_tick w1 <= w_tick w')%nat /\ bearer r w1) /\
     forall proxy, chain proxy = proxy r' w').
Proof.
  intros public chain asked.
  set (Q := fun r w r' w' => stripped r w r' w' /\ (has_prefix_of public (rq_Path r) = true \/ bearer r w)).
  assert (stage (fun next => stripUntrustedIdentityHeaders (withChaos ENABLE_CHAOS next)) [500] stripped) as Hinner.
  { eapply (stage_compose _ _ [] [500]); [apply strip_stage|apply chaos_stage|]. by intros ? ? ? ? ? ? ? ->. }
  assert (stage (fun next => withJWTAuth public (stripUntrustedIdentityHeaders (withChaos ENABLE_CHAOS next)))
    [401; 500] Q) as Hjwt.
  { eapply (stage_compose _ _ [401] [500]); [apply jwt_stage|exact Hinner|].
    intros r1 w1 r2 w2 r3 w3 [? ?] [? ?]. split; [|done]. split; [by eapply passes_trans|done]. }
  destruct (allow_run (limiter_for r) (rate_key r) w) as (ok & w1 & Hal & Hv & Hch).
  unfold chain, gateway_chain, withRateLimitByPath, withRateLimit. fold (limiter_for r) in *.
  destruct ok.
  - right. destruct (Hjwt r w1) as [(resp & w' & Hc & Hl & Hrun)|(r' & w' & ((? & ?) & Hb) & Hl & Hrun)].
    + left. exists resp, w'. split_and!; [done|by eapply charged_later|]. intros proxy. rewrite (bind_ok _ _ _ _ _ Hal). apply Hrun.
    + right. exists r', w'. split_and!; [by eapply charged_later|done|done| |].
      * destruct Hb as [Hb|Hb]; [by left|right]. exists w1. split_and!; [done|apply Hl|done].
      * intros proxy. rewrite (bind_ok _ _ _ _ _ Hal). apply Hrun.
  - left. eexists _, w1. split_and!; [|exact Hch|intros proxy; by rewrite (bind_ok _ _ _ _ _ Hal)]; done.
Qed.

(** C29. What passes the gateway. The limiter of the request's path is asked
    for a token of the bucket of the request's key; if the refilled bucket
    holds none the answer is 429. Otherwise the bucket is stored less the
    token, and the request reaches the services, or is answered with 401 or
    (chaos) 500 and reaches nothing. It reaches them only if its path has a
    public prefix or it carries a bearer token the gateway has verified; its
    headers are passed on (Authorization too, so that the services can check
    the token again), except X-Fincore-Subject, -Roles and -Permissions, which
    never reach the services, neither those the client sent nor those the
    gateway made from the token it verified, because they are stripped after
    the token check has set them; the token check may set X-Fincore-Lsn. This
    is about these three keys only: see [identity_smuggled]. *)
Theorem gateway_guards r w :
  let public := parsePublicPrefixesEnv GATEWAY_PUBLIC_PATH_PREFIXES in
  let chain proxy := gateway_chain ENABLE_CHAOS GATEWAY_PUBLIC_PATH_PREFIXES proxy r w in
  let asked := charged (limiter_for r) (rate_key r) w in
  (exists resp w', rp_Status resp = 429 /\ asked false w' /\ forall proxy, chain proxy = (Ok resp, w')) \/
  (exists resp w', rp_Status resp ∈ [401; 500] /\ asked true w' /\ forall proxy, chain proxy = (Ok resp, w')) \/
  (exists r' w', asked true w' /\ (forall proxy, chain proxy = proxy r' w') /\
     same_request r r' /\
     (forall k, k ∈ identity_keys -> rq_Header r' !! k = None) /\
     (forall k, k ∉ "X-Fincore-Lsn" :: identity_keys -> rq_Header r' !! k = rq_Header r !! k) /\
     Header_Get (rq_Header r') "Authorization" = Header_Get (rq_Header r) "Authorization" /\
     (has_prefix_of public (rq_Path r) = true \/
      exists w1, same_verifier w w1 /\ (w_tick w1 <= w_tick w')%nat /\ bearer r w1)).
Proof.
  intros public chain asked. destruct (chain_cases r w) as [?|[?|(r' & w' & ? & [? Hk] & ? & ? & ?)]]; [by left|by right; left|].
  right. right. exists r', w'. split_and!; try done. unfold Header_Get. rewrite Hk; [done|]. by apply (bool_decide_unpack _).
Qed.

(** The identity headers can be smuggled past the stripping. grpc-gateway's
    default matcher maps a header with the prefix Grpc-Metadata- to metadata
    without the prefix; such a header is passed on as the client sent it, so
    Grpc-Metadata-X-Fincore-Subject arrives at the services as the metadata
    the gateway's own identity headers would arrive as. *)
Theorem identity_smuggled (DefaultHeaderMatcher : string -> option string) r w r' w' k :
  (forall name, DefaultHeaderMatcher ("Grpc-Metadata-" +:+ name) = Some name) ->
  (forall proxy, gateway_chain ENABLE_CHAOS GATEWAY_PUBLIC_PATH_PREFIXES proxy r w = proxy r' w') ->
  k ∈ identity_keys ->
  rq_Header r' !! ("Grpc-Metadata-" +:+ k) = rq_Header r !! ("Grpc-Metadata-" +:+ k) /\
  gatewayHeaderForwarder DefaultHeaderMatcher ("Grpc-Metadata-" +:+ k) = Some k.
Proof.
  intros Hlaw Hrun Hk. split.
  - destruct (chain_cases r w) as [(? & ? & _ & _ & Hc)|[(? & ? & _ & _ & Hc)|(r2 & w2 & _ & [_ Hp] & _ & _ & Hc)]].
    1,2: specialize (Hrun (fun _ _ => (Err ENet, w))); by rewrite Hc in Hrun.
    specialize (Hrun (fun r w => (Ok (mkResponse 0 (rq_Header r) ""), w))). rewrite Hc in Hrun. injection Hrun as <- _.
    apply Hp. unfold identity_keys in *. rewrite !elem_of_cons, elem_of_nil in Hk.
    destruct Hk as [->|[->|[->|[]]]]; by apply (bool_decide_unpack _).
  - unfold gatewayHeaderForwarder. rewrite Hlaw. unfold identity_keys in Hk. rewrite !elem_of_cons, elem_of_nil in Hk.
    destruct Hk as [->|[->|[->|[]]]]; reflexivity.
Qed.

(** ** Rate limits *)

(** The requests a bucket admits of [n] that come at the same instant. *)
Fixpoint admitted (now : Z) (n : nat) (b : tokenBucket) : nat :=
  match n with
  | O => O
  | S n' => let '(ok, b') := bucket_allow now b in (Nat.b2n ok + admitted now n' b')%nat
  end.

(** The settings of [main]: requests per second and burst. *)
Definition main_settings : list (Z * Z) := [(20, 40); (5, 10)].

(** A bucket that holds [k] whole requests at [now]. *)
Definition holding (rate burst : Z) (now k : Z) : tokenBucket :=
  mkBucket (f64_of_Z burst) (f64_of_Z rate) (f64_of_Z k) now.

(** What the next request at the same instant does to it, evaluated for every
    [k]. *)
Lemma bucket_step rate burst now k :
  (rate, burst) ∈ main_settings -> 0 <= k <= burst ->
  bucket_allow now (holding rate burst now k) =
    (0 <? k, holding rate burst now (if 0 <? k then k - 1 else 0)).
Proof.
  intros Hs Hk. unfold bucket_allow, holding. cbn [tb_last tb_capacity tb_rate tb_tokens]. rewrite Z.sub_diag.
  assert (forallb (fun '(rate, burst) => forallb (fun i =>
    let k := Z.of_nat i in
    let tokens := min (f64_of_Z burst) (f64_add (f64_of_Z k) (f64_mul (Seconds 0) (f64_of_Z rate))) in
    Bool.eqb (f_ltb tokens (f64_of_Z 1)) (k =? 0) &&
    (if k =? 0 then bool_decide (tokens = f64_of_Z 0) else bool_decide (f64_sub tokens (f64_of_Z 1) = f64_of_Z (k - 1))))
    (seq 0 (S (Z.to_nat burst)))) main_settings = true) as Hchk by (vm_compute; reflexivity).
  rewrite forallb_forall in Hchk. apply list_elem_of_In in Hs. specialize (Hchk _ Hs). cbv beta iota in Hchk.
  rewrite forallb_forall in Hchk. specialize (Hchk (Z.to_nat k) ltac:(apply in_seq; lia)).
  cbv zeta in Hchk. rewrite Z2Nat.id in Hchk by lia. apply andb_prop in Hchk as [H1' H2'].
  apply Bool.eqb_prop in H1'. cbv zeta. rewrite H1'. destruct (Z.eqb_spec k 0) as [->|Hne].
  - apply bool_decide_eq_true in H2'. by rewrite H2'.
  - destruct (Z.ltb_spec 0 k); [|lia]. apply bool_decide_eq_true in H2'. by rewrite H2'.
Qed.

(** The burst is a bound: of any number of requests under one key that
    arrive at the same instant, a fresh bucket with the settings of [main]
    admits exactly the burst (40, or 10 on the strict paths), in double
    precision arithmetic, and refuses the rest. *)
Theorem rate_limit_burst rate burst now n :
  (rate, burst) ∈ main_settings ->
  admitted now n (newTokenBucket now (f64_of_Z rate) burst) = Nat.min n (Z.to_nat burst).
Proof.
  intros Hs. assert (newTokenBucket now (f64_of_Z rate) burst = holding rate burst now burst /\ 0 <= burst) as [-> Hb].
  { unfold main_settings in Hs. rewrite !elem_of_cons, elem_of_nil in Hs. by destruct Hs as [[= -> ->]|[[= -> ->]|[]]]. }
  assert (forall k, 0 <= k <= burst -> admitted now n (holding rate burst now k) = Nat.min n (Z.to_nat k)) as Hk; [|by apply Hk].
  induction n as [|n IH]; intros k Hk; [done|]. cbn [admitted]. rewrite bucket_step by done.
  destruct (Z.ltb_spec 0 k); rewrite IH by lia; cbn [Nat.b2n]; lia.
Qed.

(** A key no bucket has yet. *)
Lemma fresh_key (m : gmap string tokenBucket) : exists s, TrimSpace s = s /\ s <> "" /\ m !! s = None.
Proof.
  set (keys := map_to_list m). set (n := S (foldr (fun kv a => String.length kv.1 + a)%nat O keys)).
  exists (string_of_list_ascii (List.repeat "x"%char n)). split_and!.
  - apply TrimSpace_solid. intros c. rewrite list_ascii_of_string_of_list_ascii, list_elem_of_In. by intros ->%repeat_spec.
  - done.
  - destruct (m !! _) as [b|] eqn:Hm; [|done]. exfalso. apply elem_of_map_to_list in Hm. fold keys in Hm.
    assert (forall kv, kv ∈ keys -> (String.length kv.1 < n)%nat) as Hlen.
    { intros kv Hkv. subst n. clear -Hkv. induction Hkv as [kv l|kv kv' l _ IH]; simpl in *; lia. }
    specialize (Hlen _ Hm). simpl in Hlen. rewrite length_string_of_list_ascii, repeat_length in Hlen. lia.
Qed.

(** The rate limit can be evaded: whatever requests were made before,
    there is a value for the header X-Fincore-Subject with which the next
    request is admitted, because the limiter runs before the token check and
    the stripping of headers, and takes the key of the bucket from that
    header. (The clock is taken not to move between making the bucket and
    asking it.) *)
Theorem rate_limit_evaded n next r w :
  clock_Now (S (w_tick w)) = clock_Now (w_tick w) ->
  (rl_reqPerSec (limiter_of n (w_db w)), rl_burst (limiter_of n (w_db w))) ∈
    map (fun '(rate, burst) => (f64_of_Z rate, burst)) main_settings ->
  exists s w', let r' := with_header (Header_Set "X-Fincore-Subject" s (rq_Header r)) r in
    withRateLimit n next r' w = next r' w'.
Proof.
  intros Hclock Hs. destruct (fresh_key (rl_buckets (limiter_of n (w_db w)))) as (s & Htrim & Hne & Hfresh). exists s.
  assert (rate_key (with_header (Header_Set "X-Fincore-Subject" s (rq_Header r)) r) = s) as Hkey.
  { unfold rate_key, Header_Get, Header_Set. cbn [rq_Header with_header]. rewrite lookup_insert_eq, Htrim.
    apply is_empty_false in Hne. by rewrite Hne, Hne. }
  unfold withRateLimit. rewrite Hkey. apply list_elem_of_fmap in Hs as ([rate burst] & [= Hr Hb] & Hin).
  assert (exists w', allow n s w = (Ok true, w')) as [w' Ha]; [|exists w'; by rewrite (bind_ok _ _ _ _ _ Ha)].
  unfold allow, bucketFor, bindM, get_state. simpl. rewrite Hfresh. simpl. rewrite Hr, Hb, Hclock.
  assert (newTokenBucket (clock_Now (w_tick w)) (f64_of_Z rate) burst = holding rate burst (clock_Now (w_tick w)) burst /\ 0 < burst)
    as [-> Hpos].
  { unfold main_settings in Hin. rewrite !elem_of_cons, elem_of_nil in Hin. by destruct Hin as [[= -> ->]|[[= -> ->]|[]]]. }
  rewrite bucket_step by (done || lia). destruct (Z.ltb_spec 0 burst); [|lia]. simpl. eauto.
Qed.
End props.
