(* ===== verification/AuditLog.v ===== *)
(** * The audit service ([src/services/audit-service])

    The hash-chained audit log and the projection of money movements:
    [infrastructure/postgres/audit_repository.go] and
    [reporting_repository.go], the two NATS consumers and the gRPC server of
    [cmd/audit-service/main.go]. *)
From S2P Require Import Prelude GoStrings Json JsonText Base64 Sha256.
From Stdlib Require Import Ascii String.
#[local] Open Scope Z_scope.
#[local] Open Scope go_scope.

(** ** Data *)
Record AuditLogEntry : Type := mkEntry {
  ae_Id : string;
  ae_UserId : string;
  ae_Action : string;
  ae_ResourceType : string;
  ae_ResourceId : string;
  ae_Timestamp : option Z;
  ae_Payload : option pbValue;
  ae_CorrelationId : string;
  ae_TraceId : string;
  ae_ServiceName : string;
}.

Record audit_row : Type := mkAuditRow {
  ar_id : string;
  ar_user_id : string;
  ar_action : string;
  ar_resource_type : string;
  ar_resource_id : string;
  ar_payload : option pbValue;
  ar_correlation_id : string;
  ar_trace_id : string;
  ar_service_name : string;
  ar_previous_hash : string;
  ar_current_hash : string;
  ar_created_at : Z;
  ar_sequence : Z;
}.

Record MoneyMovement : Type := mkMovement {
  mm_EventType : string;
  mm_AmountKobo : Z;
  mm_Currency : string;
  mm_AccountID : string;
  mm_UserID : string;
  mm_CorrelationID : string;
  mm_TraceID : string;
  mm_OccurredAt : Z;
}.

Record AuditDB : Type := mkAuditDB {
  au_logs : list audit_row;
  au_movements : list (Z * MoneyMovement);
}.

(** [timestamptz] keeps microseconds. *)
Definition pg_micros (t : Z) : Z := t / 1000 * 1000.
Definition text_error : error := ESql "invalid byte sequence for encoding UTF8: 0x00".

Section audit.
Context `{Env}.
(** [gen_random_uuid()], by the sequence number of the row, and the parser of
    the type [uuid]. *)
Variables (gen_random_uuid : Z -> string) (pg_uuid : string -> option string).
(** Rows that still arrive when a query's connection breaks. *)
Variable rows_before_break : nat.

(** ** The repository *)
Definition payload_text (p : option pbValue) : string :=
  match p with None => "{}" | Some v => value_text v end.

Definition dataToHash (entry : AuditLogEntry) (previousHash : string) : string :=
  ae_UserId entry +:+ "|" +:+ ae_Action entry +:+ "|" +:+ ae_ResourceType entry +:+ "|" +:+
  ae_ResourceId entry +:+ "|" +:+ payload_text (ae_Payload entry) +:+ "|" +:+ previousHash.

Definition CalculateHash (entry : AuditLogEntry) (previousHash : string) : string :=
  hex_EncodeToString (Sum256 (dataToHash entry previousHash)).

(** [order by sequence] *)
Definition by_sequence (rows : list audit_row) : list audit_row := order_by ar_sequence rows.

Definition select_last_hash : stmt AuditDB (option string) := fun _ _ db =>
  Ok (ar_current_hash <$> last (by_sequence (au_logs db)), db).

(** The payload as the column keeps it; none is the SQL null. *)
Definition stored_payload (p : option pbValue) : option (option pbValue) :=
  match p with None => Some None | Some v => Some <$> jsonb v end.

(** The columns of type [text] and [jsonb] hold no NUL character. *)
Definition insert_audit (entry : AuditLogEntry) (prev curr : string) : stmt AuditDB unit := fun now seq db =>
  if existsb has_nul [ae_UserId entry; ae_Action entry; ae_ResourceType entry; ae_ResourceId entry;
                      ae_CorrelationId entry; ae_TraceId entry; ae_ServiceName entry; prev; curr]
  then Err text_error
  else match stored_payload (ae_Payload entry) with
       | None => Err text_error
       | Some payload =>
           Ok (tt, mkAuditDB (au_logs db ++
             [mkAuditRow (gen_random_uuid seq) (ae_UserId entry) (ae_Action entry) (ae_ResourceType entry)
                (ae_ResourceId entry) payload (ae_CorrelationId entry) (ae_TraceId entry) (ae_ServiceName entry)
                prev curr (pg_micros now) seq]) (au_movements db))
       end.

(** The two statements of [Save]: an error of the first is only logged. *)
Definition save_read : M AuditDB string :=
  let! r := tryM (autoexec select_last_hash) in
  retM (match r with Ok (Some h) => h | _ => "" end).
Definition save_write (entry : AuditLogEntry) (lastHash : string) : M AuditDB unit :=
  autoexec (insert_audit entry lastHash (CalculateHash entry lastHash)).

Definition Save (entry : AuditLogEntry) : M AuditDB unit :=
  let! lastHash := save_read in
  save_write entry lastHash.

(** The entry a row is read back as. *)
Definition row_entry (r : audit_row) : AuditLogEntry :=
  mkEntry (ar_id r) (ar_user_id r) (ar_action r) (ar_resource_type r) (ar_resource_id r) (Some (ar_created_at r))
    (ar_payload r) (ar_correlation_id r) (ar_trace_id r) (ar_service_name r).

(** A query for rows: it fails at once, or, when the connection breaks while
    rows are being read, the rows stop: no caller looks at [rows.Err()]. *)
Definition query_rows (s : stmt AuditDB (list audit_row)) : M AuditDB (list audit_row) := fun w =>
  match next_fault w with
  | (FOk, w1) => run_stmt s (start_tx w1)
  | (FErr, w1) => (Err ENet, w1)
  | (FLostAck, w1) =>
      match run_stmt s (start_tx w1) with
      | (Ok rows, w2) => (Ok (take rows_before_break rows), w2)
      | (Err e, w2) => (Err e, w2)
      end
  end.

Definition select_all : stmt AuditDB (list audit_row) := fun _ _ db => Ok (by_sequence (au_logs db), db).

Definition int32_inc (n : Z) : Z := (n + 1 + 2 ^ 31) `mod` 2 ^ 32 - 2 ^ 31.

(** The loop over the rows: is the chain intact, rows processed, failing
    row. *)
Fixpoint check_chain (rows : list audit_row) (count : Z) (expectedPrevHash : string) : bool * Z * string :=
  match rows with
  | [] => (true, count, "")
  | r :: rows' =>
      if negb (bool_decide (ar_previous_hash r = expectedPrevHash)) then (false, count, ar_id r)
      else if negb (bool_decide (CalculateHash (row_entry r) (ar_previous_hash r) = ar_current_hash r))
      then (false, count, ar_id r)
      else check_chain rows' (int32_inc count) (ar_current_hash r)
  end.

(** The identifiers of the request are not used. *)
Definition ValidateIntegrity (startID endID : string) : M AuditDB (bool * Z * string) :=
  let! rows := query_rows select_all in
  retM (check_chain rows 0 "").

Record ListAuditLogsRequest : Type := mkListRequest {
  lr_UserId : string;
  lr_ResourceType : string;
  lr_ResourceId : string;
  lr_Limit : Z;
}.

Definition list_limit (limit : Z) : Z :=
  let limit := if limit <=? 0 then 50 else limit in
  if 200 <? limit then 200 else limit.

Definition matches (req : ListAuditLogsRequest) (r : audit_row) : bool :=
  (is_empty (lr_UserId req) || bool_decide (ar_user_id r = lr_UserId req)) &&
  (is_empty (lr_ResourceType req) || bool_decide (ar_resource_type r = lr_ResourceType req)) &&
  (is_empty (lr_ResourceId req) || bool_decide (ar_resource_id r = lr_ResourceId req)).

Definition select_logs (req : ListAuditLogsRequest) (limit : Z) : stmt AuditDB (list audit_row) := fun _ _ db =>
  Ok (take (Z.to_nat limit) (reverse (by_sequence (List.filter (matches req) (au_logs db)))), db).

Definition List (req : ListAuditLogsRequest) : M AuditDB (list AuditLogEntry) :=
  let! rows := query_rows (select_logs req (list_limit (lr_Limit req))) in
  retM (map row_entry rows).

Definition select_log (id : string) : stmt AuditDB (option audit_row) := fun _ _ db =>
  match pg_uuid id with
  | None => Err (ESql "invalid input syntax for type uuid")
  | Some id => Ok (head (List.filter (fun r => bool_decide (ar_id r = id)) (au_logs db)), db)
  end.
Definition Get (id : string) : M AuditDB AuditLogEntry :=
  let! row := autoexec (select_log id) in
  match row with
  | None => failM (ESql "no rows in result set")
  | Some r => retM (row_entry r)
  end.

(** ** The server *)
Definition status_error (code msg : string) {A} (m : M AuditDB A) : M AuditDB A :=
  let! r := tryM m in
  match r with Ok a => retM a | Err e => failM (EStatus code (msg +:+ ": " +:+ Error e)) end.

Definition ListAuditLogs (req : ListAuditLogsRequest) : M AuditDB (list AuditLogEntry) :=
  status_error "Internal" "failed to list audit logs" (List req).
Definition GetAuditLog (id : string) : M AuditDB AuditLogEntry :=
  status_error "NotFound" "audit log not found" (Get id).
Definition server_ValidateIntegrity (startID endID : string) : M AuditDB (bool * Z * string) :=
  status_error "Internal" "failed to validate integrity" (ValidateIntegrity startID endID).

(** ** The consumers

    A callback per message; errors are logged. [audit_Unmarshal] is
    [json.Unmarshal] into the generated message, whose payload is read by the
    protobuf library. *)
Definition audit_subjects : list string :=
  ["auth.user.*"; "auth.client.*"; "payment.transfer.*"; "account.transaction.*"].

Definition audit_receive (audit_Unmarshal : bytes -> result AuditLogEntry) (data : bytes) : M AuditDB unit :=
  match audit_Unmarshal data with
  | Err _ => retM tt
  | Ok entry => let! _ := tryM (Save entry) in retM tt
  end.

Definition reporting_subjects : list string := ["ledger.entry_posted.v1"; "payment.settled.v1"].

Definition movement_Unmarshal (data : bytes) : result MoneyMovement :=
  let? fs := json_members data in
  let? ty := json_string (json_member "type" fs) in
  let? amount := json_int64 (json_member "amount_kobo" fs) in
  let? currency := json_string (json_member "currency" fs) in
  let? account := json_string (json_member "account_id" fs) in
  let? user := json_string (json_member "user_id" fs) in
  let? correlation := json_string (json_member "correlation_id" fs) in
  let? trace := json_string (json_member "trace_id" fs) in
  let? occurred := json_time (json_member "occurred_at" fs) in
  Ok (mkMovement ty amount currency account user correlation trace occurred).

Definition insert_movement (m : MoneyMovement) : stmt AuditDB unit := fun _ seq db =>
  if existsb has_nul [mm_EventType m; mm_Currency m; mm_AccountID m; mm_UserID m; mm_CorrelationID m; mm_TraceID m]
  then Err text_error
  else Ok (tt, mkAuditDB (au_logs db) (au_movements db ++ [(seq, m)])).

Definition UpsertMovement (m : MoneyMovement) : M AuditDB unit := autoexec (insert_movement m).

Definition reporting_receive (data : bytes) : M AuditDB unit :=
  match movement_Unmarshal data with
  | Err _ => retM tt
  | Ok m => let! _ := tryM (UpsertMovement m) in retM tt
  end.
End audit.
