(* ===== verification/AuditProps.v ===== *)
(** * The audit service: the hash chain *)
From S2P Require Import Prelude GoStrings Json JsonText Base64 Sha256 Passwords Invariants AuditLog.
From Stdlib Require Import Ascii String.
#[local] Open Scope Z_scope.
#[local] Open Scope go_scope.

(** ** The chain *)
Definition row_hashed (r : audit_row) : string := dataToHash (row_entry r) (ar_previous_hash r).

(** A row that follows [prev]. *)
Definition row_ok (prev : string) (r : audit_row) : Prop :=
  ar_previous_hash r = prev /\ ar_current_hash r = CalculateHash (row_entry r) prev.

Fixpoint linked (prev : string) (rows : list audit_row) : Prop :=
  match rows with
  | [] => True
  | r :: rows' => row_ok prev r /\ linked (ar_current_hash r) rows'
  end.

Definition last_hash (prev : string) (rows : list audit_row) : string :=
  default prev (ar_current_hash <$> last rows).

Lemma last_hash_cons prev r rows : last_hash prev (r :: rows) = last_hash (ar_current_hash r) rows.
Proof. unfold last_hash. rewrite last_cons. by destruct (last rows). Qed.
Lemma last_hash_snoc prev rows r : last_hash prev (rows ++ [r]) = ar_current_hash r.
Proof. unfold last_hash. by rewrite last_snoc. Qed.

Lemma linked_app prev l l' : linked prev (l ++ l') <-> linked prev l /\ linked (last_hash prev l) l'.
Proof.
  revert prev. induction l as [|r l IH]; intros prev; simpl; [tauto|]. rewrite IH, last_hash_cons. tauto.
Qed.

(** [check_chain] decides [linked], and otherwise names the first row that
    does not follow. *)
Definition int32_count (c : Z) (n : nat) : Z := Nat.iter n int32_inc c.

Lemma iter_inc n c : Nat.iter n int32_inc (int32_inc c) = int32_inc (Nat.iter n int32_inc c).
Proof. induction n as [|n IH]; simpl; [done|]. by rewrite IH. Qed.

Lemma check_linked rows c prev :
  linked prev rows -> check_chain rows c prev = (true, int32_count c (List.length rows), "").
Proof.
  revert c prev. induction rows as [|r rows IH]; intros c prev; simpl; [done|].
  intros [[-> Hc] Hl]. rewrite bool_decide_true by done. simpl. rewrite bool_decide_true by done. simpl.
  rewrite IH by done. unfold int32_count. simpl. by rewrite iter_inc.
Qed.

Lemma check_broken rows r rows' c prev :
  linked prev rows -> ~ row_ok (last_hash prev rows) r ->
  check_chain (rows ++ r :: rows') c prev = (false, int32_count c (List.length rows), ar_id r).
Proof.
  revert c prev. induction rows as [|r0 rows IH]; intros c prev Hl Hno; simpl in *.
  - unfold row_ok, last_hash in Hno. simpl in Hno. case_bool_decide as E1; simpl; [|done].
    case_bool_decide as E2; simpl; [|done]. destruct Hno. by subst prev.
  - destruct Hl as [[-> Hc] Hl]. rewrite last_hash_cons in Hno. rewrite bool_decide_true by done. simpl.
    rewrite bool_decide_true by done. simpl. rewrite IH by done. unfold int32_count. simpl. by rewrite iter_inc.
Qed.

Lemma chain_linked rows c prev : (check_chain rows c prev).1.1 = true -> linked prev rows.
Proof.
  revert c prev. induction rows as [|r rows IH]; intros c prev; simpl; [done|].
  case_bool_decide as E1; simpl; [|done]. case_bool_decide as E2; simpl; [|done].
  intros Hc. split; [|by eapply IH]. by subst prev.
Qed.

(** ** Tampering *)
Lemma hash_length e prev : String.length (CalculateHash e prev) = 64%nat.
Proof. unfold CalculateHash. by rewrite hex_Encode_length, Sum256_length. Qed.

Definition bar : ascii := "|"%char.
Lemma hash_no_bar e prev : bar ∉ list_ascii_of_string (CalculateHash e prev).
Proof.
  intros (v & Hv & Heq)%hex_Encode_chars.
  assert (forallb (fun i => negb (Ascii.eqb bar (hex_digit (Z.of_nat i)))) (seq 0 16) = true) as Hall by (vm_compute; reflexivity).
  rewrite forallb_forall in Hall. specialize (Hall (Z.to_nat v) ltac:(apply in_seq; lia)).
  rewrite Z2Nat.id, <-Heq in Hall by lia. by rewrite Ascii.eqb_refl in Hall.
Qed.

(** What follows the last bar. *)
Lemma after_bar (x y a b : list ascii) :
  bar ∉ a -> bar ∉ b -> x ++ bar :: a = y ++ bar :: b -> a = b.
Proof.
  revert y. induction x as [|c x IH]; intros [|d y] Ha Hb; simpl.
  - by intros [= ->].
  - intros [= <- ->]. destruct Ha. apply elem_of_app. right. left.
  - intros [= -> <-]. destruct Hb. apply elem_of_app. right. left.
  - intros [= _ Heq]. by eapply IH.
Qed.

Lemma list_ascii_app s t : list_ascii_of_string (s +:+ t) = list_ascii_of_string s ++ list_ascii_of_string t.
Proof. induction s as [|c s IH]; simpl; [done|]. by rewrite IH. Qed.

Lemma hashed_prev e e' p p' :
  bar ∉ list_ascii_of_string p -> bar ∉ list_ascii_of_string p' -> dataToHash e p = dataToHash e' p' -> p = p'.
Proof.
  intros Hp Hp' Heq. apply (f_equal list_ascii_of_string) in Heq. unfold dataToHash in Heq.
  rewrite !list_ascii_app in Heq. cbn [list_ascii_of_string] in Heq.
  rewrite <-(string_of_list_ascii_of_string p), <-(string_of_list_ascii_of_string p'). f_equal.
  rewrite !app_assoc in Heq. change ([bar] ++ ?l) with (bar :: l) in Heq.
  rewrite <-!(app_assoc _ ["|"%char] (list_ascii_of_string _)) in Heq. simpl in Heq.
  by eapply after_bar in Heq.
Qed.

Lemma linked_no_bar rows : linked "" rows -> bar ∉ list_ascii_of_string (last_hash "" rows).
Proof.
  destruct rows as [|r rows] using rev_ind; [by intros _ ?%not_elem_of_nil|].
  rewrite linked_app, last_hash_snoc. intros [_ [[_ ->] _]]. apply hash_no_bar.
Qed.

(** C32. The chain is evidence against tampering: if two tables both pass the
    integrity check and end in the same hash, then they have the same number
    of rows with the same hashed texts (user, action, resource, payload and
    previous hash, joined by bars) in the same order, or else a row of the one
    and a row of the other have different hashed texts with the same SHA-256
    sum: the two tables hold a collision. *)
Theorem audit_tamper_evident rows rows' :
  (check_chain rows 0 "").1.1 = true -> (check_chain rows' 0 "").1.1 = true ->
  last_hash "" rows = last_hash "" rows' ->
  map row_hashed rows = map row_hashed rows' \/
  exists r r', r ∈ rows /\ r' ∈ rows' /\ row_hashed r <> row_hashed r' /\ Sum256 (row_hashed r) = Sum256 (row_hashed r').
Proof.
  intros Hl%chain_linked Hl'%chain_linked. revert rows' Hl Hl'.
  induction rows as [|r rows IH] using rev_ind; intros rows' Hl Hl' Heq.
  - destruct rows' as [|r' rows' _] using rev_ind; [by left|]. exfalso.
    rewrite linked_app in Hl'. destruct Hl' as [_ [[_ Hc] _]]. rewrite last_hash_snoc, Hc in Heq.
    apply (f_equal String.length) in Heq. by rewrite hash_length in Heq.
  - rewrite linked_app, last_hash_snoc in *. destruct Hl as [Hl [[Hp Hc] _]]. destruct rows' as [|r' rows' _] using rev_ind.
    { exfalso. rewrite Hc in Heq. apply (f_equal String.length) in Heq. by rewrite hash_length in Heq. }
    rewrite linked_app, last_hash_snoc in *. destruct Hl' as [Hl' [[Hp' Hc'] _]].
    rewrite Hc, Hc' in Heq. apply (inj hex_EncodeToString) in Heq.
    destruct (decide (dataToHash (row_entry r) (last_hash "" rows) = dataToHash (row_entry r') (last_hash "" rows')))
      as [Hd|Hd]; [|right; exists r, r'; unfold row_hashed; rewrite Hp, Hp', !elem_of_app, !list_elem_of_singleton; by auto 6].
    apply hashed_prev in Hd as Hprev; [|by apply linked_no_bar..].
    destruct (IH rows' Hl Hl' Hprev) as [Hm|(r1 & r1' & ? & ? & ?)]; [left|right; exists r1, r1'; rewrite !elem_of_app; auto].
    rewrite !map_app, Hm. simpl. f_equal. unfold row_hashed. by rewrite Hp, Hp', Hd.
Qed.

(** Removing the newest rows leaves a table that passes. *)
Lemma truncation_passes rows n :
  (check_chain rows 0 "").1.1 = true -> (check_chain (take n rows) 0 "").1.1 = true.
Proof.
  intros Hl%chain_linked. rewrite <-(take_drop n rows), linked_app in Hl. destruct Hl as [Hl _]. by rewrite check_linked.
Qed.

(** ** Runs of the service *)
Section runs.
Context `{Env} (gen_random_uuid : Z -> string) (pg_uuid : string -> option string) (rows_before_break : nat)
  (audit_Unmarshal : bytes -> result AuditLogEntry).
Implicit Types w : World AuditDB.
Abbreviation Save := (Save gen_random_uuid).
Abbreviation ValidateIntegrity := (ValidateIntegrity rows_before_break).

(** Rows are stored in the order of their sequence numbers, which are below
    the next one. *)
Definition log_ok (rows : list audit_row) (seq : Z) : Prop :=
  key_sorted ar_sequence rows /\ Forall (fun r => ar_sequence r < seq) rows.

Lemma log_ok_snoc rows seq r : log_ok rows seq -> ar_sequence r = seq -> log_ok (rows ++ [r]) (seq + 1).
Proof.
  intros [Hs Hb] Hr. split.
  - unfold key_sorted in *. clear -Hs Hb Hr. induction Hs as [|x l Hl IH Hx]; simpl; [repeat constructor|].
    inversion Hb as [|? ? Hxb Hlb]; subst. constructor; [by apply IH|]. apply Forall_app. split; [done|].
    constructor; [lia|constructor].
  - apply Forall_app. split; [|constructor; [lia|constructor]]. eapply Forall_impl; [exact Hb|]. simpl. lia.
Qed.
Lemma log_ok_more rows seq seq' : seq <= seq' -> log_ok rows seq -> log_ok rows seq'.
Proof. intros Hle [Hs Hb]. split; [done|]. eapply Forall_impl; [exact Hb|]. simpl. lia. Qed.
Lemma by_sequence_id rows seq : log_ok rows seq -> by_sequence rows = rows.
Proof. intros [Hs _]. by apply order_by_id. Qed.

(** The row [Save] writes at [now] as number [seq]. *)
Definition new_row (entry : AuditLogEntry) (prev : string) (payload : option pbValue) (now seq : Z) : audit_row :=
  mkAuditRow (gen_random_uuid seq) (ae_UserId entry) (ae_Action entry) (ae_ResourceType entry) (ae_ResourceId entry)
    payload (ae_CorrelationId entry) (ae_TraceId entry) (ae_ServiceName entry) prev (CalculateHash entry prev)
    (pg_micros now) seq.

Lemma insert_audit_cases entry prev now seq db a db' :
  insert_audit gen_random_uuid entry prev (CalculateHash entry prev) now seq db = Ok (a, db') ->
  exists payload, stored_payload (ae_Payload entry) = Some payload /\
    au_logs db' = au_logs db ++ [new_row entry prev payload now seq].
Proof.
  unfold insert_audit. destruct (existsb _ _); [done|]. destruct (stored_payload _) as [payload|]; [|done].
  intros [= _ <-]. by exists payload.
Qed.

(** A statement on the pool: either the tables stay, or its effect is
    applied, at the sequence number it found; numbers are not given back. *)
Lemma autoexec_log {A} (s : stmt AuditDB A) w :
  w_seq w <= w_seq (autoexec s w).2 /\
  (w_db (autoexec s w).2 = w_db w \/
   exists now a, s now (w_seq w) (w_db w) = Ok (a, w_db (autoexec s w).2) /\ w_seq (autoexec s w).2 = w_seq w + 1).
Proof.
  unfold autoexec, next_fault, run_stmt, start_tx. destruct w as [db sq u t tx fl sn].
  destruct fl as [|[] fl]; simpl; try (split; [lia|by left]).
  all: destruct (s _ _ _) as [[a db']|e] eqn:E; simpl; (split; [lia|]); [right|by left]; eauto.
Qed.

(** Reading the last hash. *)
Lemma save_read_run w : log_ok (au_logs (w_db w)) (w_seq w) ->
  exists h w', save_read w = (Ok h, w') /\ w_db w' = w_db w /\ w_seq w <= w_seq w' /\
    (w_faults w = [] \/ head (w_faults w) = Some FOk ->
     h = last_hash "" (au_logs (w_db w)) /\ w_faults w' = tail (w_faults w)).
Proof.
  intros Hok. unfold save_read, bindM, tryM, autoexec, next_fault, run_stmt, start_tx, select_last_hash.
  destruct w as [db sq u t tx fl sn]. simpl in *.
  destruct fl as [|[] fl]; simpl; rewrite ?(by_sequence_id _ _ Hok); eexists _, _; (split; [done|]); simpl; split_and!; try done; try lia.
  all: intros Hf; try (by destruct Hf as [Hf|Hf]).
  all: split; [|done]; unfold last_hash; by destruct (ar_current_hash <$> last (au_logs db)).
Qed.

(** *** The log only grows *)
Definition grows w w' : Prop := w_seq w <= w_seq w' /\ exists rows,
  au_logs (w_db w') = au_logs (w_db w) ++ rows /\
  (log_ok (au_logs (w_db w)) (w_seq w) -> log_ok (au_logs (w_db w')) (w_seq w')).

Lemma grows_same w w' : w_seq w <= w_seq w' -> au_logs (w_db w') = au_logs (w_db w) -> grows w w'.
Proof.
  intros Hs Hl. split; [done|]. exists []. rewrite app_nil_r, Hl. split; [done|]. by apply log_ok_more.
Qed.
Lemma grows_trans w1 w2 w3 : grows w1 w2 -> grows w2 w3 -> grows w1 w3.
Proof.
  intros [Hs1 (l1 & E1 & H1)] [Hs2 (l2 & E2 & H2)]. split; [lia|]. exists (l1 ++ l2).
  rewrite E2, E1, app_assoc. split; [done|]. rewrite <-E1, <-E2. auto.
Qed.

(** A statement that adds at most one row, under the next number. *)
Definition adds_row {A} (s : stmt AuditDB A) : Prop := forall now seq db a db',
  s now seq db = Ok (a, db') ->
  au_logs db' = au_logs db \/ exists r, ar_sequence r = seq /\ au_logs db' = au_logs db ++ [r].

Lemma autoexec_grows {A} (s : stmt AuditDB A) w : adds_row s -> grows w (autoexec s w).2.
Proof.
  intros Hs. destruct (autoexec_log s w) as [Hseq [Hdb|(now & a & Hst & Hsq)]].
  - apply grows_same; [done|by rewrite Hdb].
  - destruct (Hs _ _ _ _ _ Hst) as [Hl|(r & Hr & Hl)]; [by apply grows_same|].
    split; [done|]. exists [r]. split; [done|]. rewrite Hl, Hsq. intros Hok. by apply log_ok_snoc.
Qed.

Lemma bind_grows {A B} (m : M AuditDB A) (k : A -> M AuditDB B) w :
  (forall w, grows w (m w).2) -> (forall a w, grows w (k a w).2) -> grows w (bindM m k w).2.
Proof.
  intros Hm Hk. unfold bindM. specialize (Hm w). destruct (m w) as [[a|e] w']; [|done].
  eapply grows_trans; [exact Hm|apply Hk].
Qed.
Lemma ret_grows {A} (r : result A) w : grows w (liftR r w).2.
Proof. apply grows_same; simpl; [lia|done]. Qed.
Lemma try_grows {A} (m : M AuditDB A) : (forall w, grows w (m w).2) -> forall w, grows w (tryM m w).2.
Proof. intros Hm w. specialize (Hm w). unfold tryM. by destruct (m w). Qed.

Lemma query_grows s w : (forall now seq db a db', s now seq db = Ok (a, db') -> db' = db) ->
  grows w (query_rows rows_before_break s w).2.
Proof.
  intros Hs. unfold query_rows, next_fault, run_stmt, start_tx. destruct w as [db sq u t tx fl sn].
  destruct fl as [|[] fl]; simpl; try (apply grows_same; simpl; [lia|done]).
  all: destruct (s _ _ _) as [[a db']|e] eqn:E; simpl; apply grows_same; simpl; try lia; try done; by apply Hs in E as ->.
Qed.

Lemma save_write_grows entry h w : grows w (save_write gen_random_uuid entry h w).2.
Proof.
  apply autoexec_grows. intros now seq db a db' (payload & _ & Hl)%insert_audit_cases. right. eexists. split; [|exact Hl]. done.
Qed.
Lemma save_read_grows w : grows w (save_read w).2.
Proof.
  apply bind_grows; [apply try_grows; intros; apply autoexec_grows|intros; apply (ret_grows (Ok _))].
  intros now seq db a db' [= _ <-]. by left.
Qed.
Lemma Save_grows entry w : grows w (Save entry w).2.
Proof. apply bind_grows; [apply save_read_grows|intros; apply save_write_grows]. Qed.

(** Requests, messages and failures. *)
Inductive audit_step : World AuditDB -> World AuditDB -> Prop :=
| step_save entry w : audit_step w (Save entry w).2
| step_receive data w : audit_step w (audit_receive gen_random_uuid audit_Unmarshal data w).2
| step_report data w : audit_step w (reporting_receive data w).2
| step_validate s e w : audit_step w (ValidateIntegrity s e w).2
| step_list req w : audit_step w (List rows_before_break req w).2
| step_get id w : audit_step w (Get pg_uuid id w).2
| step_audit_faults fl w :
    audit_step w (mkWorld (w_db w) (w_seq w) (w_uuid w) (w_tick w) (w_tx w) fl (w_sent w)).

Lemma step_grows w w' : audit_step w w' -> grows w w'.
Proof.
  destruct 1 as [entry w|data w|data w|s e w|req w|id w|fl w].
  - apply Save_grows.
  - unfold audit_receive. destruct (audit_Unmarshal data); [|apply (ret_grows (Ok tt))].
    apply bind_grows; [apply try_grows, Save_grows|intros; apply (ret_grows (Ok tt))].
  - unfold reporting_receive. destruct (movement_Unmarshal data); [|apply (ret_grows (Ok tt))].
    apply bind_grows; [apply try_grows; intros; apply autoexec_grows|intros; apply (ret_grows (Ok tt))].
    intros now seq db x db'. unfold insert_movement. destruct (existsb _ _); [done|]. intros [= _ <-]. by left.
  - apply bind_grows; [|intros; apply (ret_grows (Ok _))]. intros w'. apply query_grows. by intros ? ? ? ? ? [= _ <-].
  - apply bind_grows; [|intros; apply (ret_grows (Ok _))]. intros w'. apply query_grows. by intros ? ? ? ? ? [= _ <-].
  - apply bind_grows; [|intros [r|] w'; [apply (ret_grows (Ok _))|apply (ret_grows (A := AuditLogEntry) (Err _))]].
    intros w'. apply autoexec_grows. intros now seq db a db'. unfold select_log. destruct (pg_uuid id); [|done].
    intros [= _ <-]. by left.
  - apply grows_same; simpl; [lia|done].
Qed.
Lemma steps_grow w w' : rtc audit_step w w' -> grows w w'.
Proof.
  induction 1 as [w|w w1 w2 Hs _ IH]; [by apply grows_same|]. eapply grows_trans; [by apply step_grows|done].
Qed.

(** The check, when nothing fails. *)
Lemma validate_run s e w : w_faults w = [] -> log_ok (au_logs (w_db w)) (w_seq w) ->
  (ValidateIntegrity s e w).1 = Ok (check_chain (au_logs (w_db w)) 0 "").
Proof.
  destruct w as [db sq u t tx fl sn]. simpl. intros -> Hok.
  unfold ValidateIntegrity, AuditLog.ValidateIntegrity, bindM, query_rows, next_fault, run_stmt, select_all. simpl.
  by rewrite (by_sequence_id _ _ Hok).
Qed.

(** *** Saves one after the other *)

(** The column keeps the payload's text: it holds no negative zero. *)
Definition faithful (entry : AuditLogEntry) : Prop := forall payload,
  stored_payload (ae_Payload entry) = Some payload -> payload_text payload = payload_text (ae_Payload entry).

Lemma new_row_ok entry prev payload now seq :
  payload_text payload = payload_text (ae_Payload entry) -> row_ok prev (new_row entry prev payload now seq).
Proof. intros Hp. split; [done|]. unfold CalculateHash, dataToHash. simpl. by rewrite Hp. Qed.

(** A save whose read of the last hash does not fail, or anything else that
    writes no audit row. *)
Inductive careful_step : World AuditDB -> World AuditDB -> Prop :=
| careful_save entry w :
    w_faults w = [] \/ head (w_faults w) = Some FOk -> faithful entry -> careful_step w (Save entry w).2
| careful_other w w' :
    audit_step w w' -> au_logs (w_db w') = au_logs (w_db w) -> careful_step w w'.

Lemma Save_linked entry w :
  log_ok (au_logs (w_db w)) (w_seq w) -> w_faults w = [] \/ head (w_faults w) = Some FOk -> faithful entry ->
  linked "" (au_logs (w_db w)) -> linked "" (au_logs (w_db (Save entry w).2)).
Proof.
  intros Hok Hf Hfa Hl. destruct (save_read_run w Hok) as (h & w1 & Hr & Hdb & _ & Hh). destruct (Hh Hf) as [-> _].
  unfold Save, AuditLog.Save. rewrite (bind_ok _ _ _ _ _ Hr). unfold save_write.
  match goal with |- context [autoexec ?st w1] => destruct (autoexec_log st w1) as [_ [->|(now & a & Hst & _)]] end.
  - by rewrite Hdb.
  - apply insert_audit_cases in Hst as (payload & Hp & ->). rewrite Hdb. apply linked_app. split; [done|].
    split; [|done]. apply new_row_ok. by apply Hfa.
Qed.

Lemma careful_ok w w' : careful_step w w' ->
  log_ok (au_logs (w_db w)) (w_seq w) /\ linked "" (au_logs (w_db w)) ->
  log_ok (au_logs (w_db w')) (w_seq w') /\ linked "" (au_logs (w_db w')).
Proof.
  destruct 1 as [entry w Hf Hfa|w w' Hst Hsame]; intros [Hok Hl].
  - destruct (Save_grows entry w) as [_ (rows & _ & Hgrow)]. split; [by apply Hgrow|]. by apply Save_linked.
  - destruct (step_grows w w' Hst) as [_ (rows & _ & Hgrow)]. split; [by apply Hgrow|]. by rewrite Hsame.
Qed.

(** Saves that come one after the other keep the chain intact: from an
    empty log, after any saves (of entries whose payload the column keeps as
    it is) in which reading the last hash did not fail, whatever else fails,
    the integrity check passes and counts every row. *)
Theorem audit_chain_intact w0 w startID endID :
  au_logs (w_db w0) = [] -> rtc careful_step w0 w -> w_faults w = [] ->
  (ValidateIntegrity startID endID w).1 = Ok (true, int32_count 0 (List.length (au_logs (w_db w))), "").
Proof.
  intros H0 Hst Hf.
  assert (log_ok (au_logs (w_db w)) (w_seq w) /\ linked "" (au_logs (w_db w))) as [Hok Hl].
  { revert H0. clear Hf. intros H0. assert (log_ok (au_logs (w_db w0)) (w_seq w0) /\ linked "" (au_logs (w_db w0))) as Hinit.
    { rewrite H0. split; [split; constructor|done]. }
    clear H0. induction Hst as [w|w w1 w2 Hs _ IH]; [done|]. by apply IH, (careful_ok w). }
  rewrite validate_run by done. by rewrite check_linked.
Qed.

(** *** Saves at the same time

    Each subscription of the consumer runs its callbacks in a goroutine of
    its own, so two saves can both read the last hash before either
    writes. *)
Definition save_interleaved (e1 e2 : AuditLogEntry) : M AuditDB unit :=
  let! h1 := save_read in
  let! h2 := save_read in
  save_write gen_random_uuid e1 h1 ;;;
  save_write gen_random_uuid e2 h2.

Lemma save_interleaved_grows e1 e2 w : grows w (save_interleaved e1 e2 w).2.
Proof.
  unfold save_interleaved. do 2 (apply bind_grows; [apply save_read_grows|intros]).
  apply bind_grows; [apply save_write_grows|intros]. apply save_write_grows.
Qed.

Lemma save_write_ok entry h w u w' :
  save_write gen_random_uuid entry h w = (Ok u, w') ->
  exists payload now, au_logs (w_db w') = au_logs (w_db w) ++ [new_row entry h payload now (w_seq w)].
Proof.
  intros Hr. unfold save_write in Hr.
  match type of Hr with autoexec ?st w = _ => destruct (autoexec_log st w) as [_ [Hdb|(now & a & Hst & _)]] end;
    rewrite Hr in *; simpl in *.
  - apply autoexec_ok in Hr as ((now & sq & Hst) & _). apply insert_audit_cases in Hst as (payload & _ & Hl).
    exfalso. rewrite Hdb in Hl. apply (f_equal (@List.length _)) in Hl. rewrite length_app in Hl. simpl in Hl. lia.
  - apply insert_audit_cases in Hst as (payload & _ & ->). eauto.
Qed.

(** Two saves at the same time break the chain for good: when both have
    read the last hash before either writes, both succeed, and from then on,
    whatever is saved or fails later, the integrity check reports tampering
    at a row of theirs. (Unless the hash of the first entry is, against all
    odds, the very hash it was computed from.) *)
Theorem audit_fork_permanent e1 e2 w w1 w2 startID endID :
  log_ok (au_logs (w_db w)) (w_seq w) -> linked "" (au_logs (w_db w)) -> w_faults w = [] ->
  CalculateHash e1 (last_hash "" (au_logs (w_db w))) <> last_hash "" (au_logs (w_db w)) ->
  save_interleaved e1 e2 w = (Ok tt, w1) -> rtc audit_step w1 w2 -> w_faults w2 = [] ->
  exists count id, (ValidateIntegrity startID endID w2).1 = Ok (false, count, id) /\
    id ∈ map ar_id (drop (List.length (au_logs (w_db w))) (au_logs (w_db w1))).
Proof.
  intros Hok Hl Hf Hne Hr Hst Hf2. set (logs := au_logs (w_db w)) in *.
  assert (grows w w1) as Hg.
  { replace w1 with (save_interleaved e1 e2 w).2 by by rewrite Hr. apply save_interleaved_grows. }
  unfold save_interleaved in Hr. destruct (save_read_run w Hok) as (h1 & wa & Hra & Hdba & Hsa & Hha).
  destruct (Hha (or_introl Hf)) as [-> Hfa]. rewrite (bind_ok _ _ _ _ _ Hra) in Hr. rewrite Hf in Hfa. simpl in Hfa.
  assert (log_ok (au_logs (w_db wa)) (w_seq wa)) as Hoka by (rewrite Hdba; by eapply log_ok_more).
  destruct (save_read_run wa Hoka) as (h2 & wb & Hrb & Hdbb & _ & Hhb). destruct (Hhb (or_introl Hfa)) as [-> _].
  rewrite (bind_ok _ _ _ _ _ Hrb) in Hr. apply bind_inv in Hr as (u & wc & H1 & H2). rewrite Hdba in H2.
  apply save_write_ok in H1 as (p1 & n1 & Hl1). apply save_write_ok in H2 as (p2 & n2 & Hl2).
  rewrite Hdbb, Hdba in Hl1. fold logs in Hl1, Hl2. rewrite Hl1 in Hl2.
  set (r1 := new_row e1 _ p1 n1 _) in *. set (r2 := new_row e2 _ p2 n2 _) in *.
  destruct Hg as [_ (_ & _ & Hok1)]. specialize (Hok1 Hok).
  destruct (steps_grow _ _ Hst) as [_ (rows & Hrows & Hok2)]. specialize (Hok2 Hok1).
  rewrite (validate_run startID endID w2 Hf2 Hok2), Hrows, Hl2.
  assert (drop (List.length logs) ((logs ++ [r1]) ++ [r2]) = [r1; r2]) as -> by (rewrite <-app_assoc, drop_app_length; done).
  destruct (decide (ar_current_hash r1 = CalculateHash (row_entry r1) (last_hash "" logs))) as [Hr1|Hr1].
  - rewrite <-app_assoc. simpl. rewrite (check_broken (logs ++ [r1]) r2 rows).
    + eexists _, _. split; [done|]. simpl. right. left.
    + apply linked_app. split; [done|]. by split.
    + rewrite last_hash_snoc. intros [Hp _]. by apply Hne.
  - rewrite <-!app_assoc. simpl. rewrite (check_broken logs r1 (r2 :: rows)) by (done || by intros [_ ?]).
    eexists _, _. split; [done|]. left.
Qed.
End runs.
