(* ===== verification/System.v ===== *)
(** * The services together

    Ledger, account and payment service, each with its own database, calling
    one another over gRPC through the interceptor of [Authz]. *)
From S2P Require Import Prelude GoStrings Json Money EventStore Outbox Ledger Account Payment Transfer Authz.
#[local] Open Scope Z_scope.
#[local] Open Scope go_scope.

Record SystemDB : Type := mkSystemDB {
  sys_ledger : LedgerDB;
  sys_account : AccountDB;
  sys_payment : PaymentDB;
}.

#[export] Instance SystemDB_ledger : Lens SystemDB LedgerDB := {|
  view := sys_ledger;
  upd t db := mkSystemDB t (sys_account db) (sys_payment db);
|}.
#[export] Instance SystemDB_account : Lens SystemDB AccountDB := {|
  view := sys_account;
  upd t db := mkSystemDB (sys_ledger db) t (sys_payment db);
|}.
#[export] Instance SystemDB_payment : Lens SystemDB PaymentDB := {|
  view := sys_payment;
  upd t db := mkSystemDB (sys_ledger db) (sys_account db) t;
|}.
#[export] Instance SystemDB_ledger_ok : LensOk SystemDB LedgerDB.
Proof. by split; intros; try destruct s. Qed.
#[export] Instance SystemDB_account_ok : LensOk SystemDB AccountDB.
Proof. by split; intros; try destruct s. Qed.
#[export] Instance SystemDB_payment_ok : LensOk SystemDB PaymentDB.
Proof. by split; intros; try destruct s. Qed.

(** The permission maps the [main] functions pass to the interceptor. *)
Definition ledger_perms : list (string * string) :=
  [("/PostEntry", "ledger:write"); ("/GetBalance", "ledger:read")].
Definition account_perms : list (string * string) :=
  [("/OpenAccount", "account:write"); ("/Deposit", "account:write");
   ("/Withdraw", "account:write"); ("/GetAccount", "account:read")].

(** What the internal callers present: the metadata and the peer certificate
    of the account service's and the payment service's connections. *)
Class Deployment := {
  spiffe_parse : string -> option string;
  verify_token : string -> result TokenPayload;
  gateway_id : string;
  service_md : metadata;
  service_peer : peer;
}.

Section system.
Context `{Env} `{Deployment}.

Definition authorized {A} (perms : list (string * string)) (fullMethod : string)
    (handler : Z -> M SystemDB A) : M SystemDB A :=
  rpc (UnaryAuthzInterceptor spiffe_parse verify_token gateway_id perms fullMethod
         (Some service_md) service_peer handler).

(** The generated stubs: a call on the wire. *)
Definition call_PostEntry (req : option PostEntryRequest) : M SystemDB string :=
  authorized ledger_perms "/fincore.ledger.v1.LedgerService/PostEntry" (fun _ => zoom (server_PostEntry req)).

Definition call_GetBalance (req : option (option string)) : M SystemDB (option proto_Money) :=
  authorized ledger_perms "/fincore.ledger.v1.LedgerService/GetBalance" (fun lsn =>
    let! pm := zoom (server_GetBalance [] lsn req) in retM (Some pm)).

#[export] Instance system_LedgerClient : LedgerClient SystemDB := {|
  ledger_PostEntry := LedgerClient_PostEntry call_PostEntry;
  ledger_GetBalance := LedgerClient_GetBalance call_GetBalance;
|}.

Definition call_Deposit (req : MoneyRequest) : M SystemDB string :=
  authorized account_perms "/fincore.account.v1.AccountService/Deposit" (fun _ => account_server_Deposit req).

Definition call_Withdraw (req : MoneyRequest) : M SystemDB string :=
  authorized account_perms "/fincore.account.v1.AccountService/Withdraw" (fun _ => account_server_Withdraw req).

#[export] Instance system_TransferLedger : TransferLedger SystemDB := {|
  tl_PostEntry := ledgerClient_PostEntry call_PostEntry;
|}.
#[export] Instance system_TransferAccount : TransferAccount SystemDB := {|
  ta_Deposit := accountClient_Deposit call_Deposit;
  ta_Withdraw := accountClient_Withdraw call_Withdraw;
|}.
End system.
