(* ===== verification/SystemProps.v ===== *)
(** * Properties of the services together

    What a deposit and a transfer do to the ledger, the accounts and the
    payment when the three services run as [System] composes them. *)
From S2P Require Import Prelude GoStrings Json Money EventStore Streams Outbox Ledger LedgerSpec LedgerProps.
From S2P Require Import Account AccountSpec AccountStore Payment PaymentSpec PaymentStore PaymentProps.
From S2P Require Import Transfer Authz System.
#[local] Open Scope Z_scope.
#[local] Open Scope go_scope.

Section system.
Context `{Hev : Env} `{Henv : !EnvOk} `{Hdep : Deployment}.
Implicit Types (w : World SystemDB) (s : list posting).
Implicit Types (st : gmap string (list AccountEvent)) (pst : gmap string (list PaymentEvent)).

(** Internal calls carry credentials with the permissions they need. *)
Definition service_permissions : list string := ["ledger:write"; "ledger:read"; "account:write"].
Definition trusted : Prop :=
  exists payload, call_payload spiffe_parse verify_token gateway_id service_md service_peer = Ok payload /\
    service_permissions ⊆ tp_Permissions payload.

(** The databases are those of an abstract ledger and of well-formed streams;
    nothing fails from here on. *)
Record sys_inv w s st pst : Prop := {
  si_quiet : w_faults w = [];
  si_ledger : refines (set_db (sys_ledger (w_db w)) w) s;
  si_account : account_inv (set_db (sys_account (w_db w)) w) st;
  si_payment : payment_inv (set_db (sys_payment (w_db w)) w) pst;
}.

Lemma authorized_run {A} perms method perm (handler : Z -> M SystemDB A) w r w' :
  trusted -> required_perm perms method = Some perm -> perm ∈ service_permissions -> w_faults w = [] ->
  (forall lsn, handler lsn w = (r, w')) ->
  authorized perms method handler w = (rpc_result r, w').
Proof.
  intros (payload & Hp & Hsub) Hperm Hin Hfl Hh. unfold authorized. apply rpc_quiet; [done|].
  unfold UnaryAuthzInterceptor, bindM, liftR. rewrite Hperm, Hp.
  rewrite (proj2 (existsb_true_list _ _)).
  - rewrite andb_false_r. simpl. apply Hh.
  - exists perm. split; [by apply Hsub|by apply bool_decide_eq_true].
Qed.

(** What one service does to its own database leaves the others alone. *)
Lemma sys_inv_account w s st pst (wa : World AccountDB) st' :
  sys_inv w s st pst -> later (set_db (sys_account (w_db w)) w) wa -> account_inv wa st' ->
  sys_inv (set_db (upd (w_db wa) (w_db w)) wa) s st' pst.
Proof.
  intros [Hfl Hl Ha Hp] (Hsq & Hu & Hf) Hst'. split; simpl.
  - by apply Hf.
  - eapply refines_mono; [..|exact Hl]; done.
  - by apply (account_inv_same wa).
  - eapply payment_inv_later; [..|exact Hp]; [done|]. by split_and!.
Qed.

Lemma sys_inv_payment w s st pst (wp : World PaymentDB) pst' :
  sys_inv w s st pst -> later (set_db (sys_payment (w_db w)) w) wp -> payment_inv wp pst' ->
  sys_inv (set_db (upd (w_db wp) (w_db w)) wp) s st pst'.
Proof.
  intros [Hfl Hl Ha Hp] (Hsq & Hu & Hf) Hst'. split; simpl.
  - by apply Hf.
  - eapply refines_mono; [..|exact Hl]; done.
  - eapply account_inv_later; [..|exact Ha]; [done|]. by split_and!.
  - by apply (payment_inv_same wp).
Qed.

(** ** The ledger behind its endpoint *)
Definition entry_type (typ : string) : proto_EntryType :=
  if bool_decide (typ = EntryTypeDeposit) then ENTRY_TYPE_DEPOSIT else ENTRY_TYPE_WITHDRAWAL.

Definition post_request (key acc typ narr : string) (a : Z) : PostEntryRequest :=
  mkPostEntryRequest key (entry_type typ) (Some acc) (Some (mkProtoMoney NGN a)) narr.

Definition post_cmd (key acc typ narr : string) (a : Z) : PostEntry :=
  mkPostEntry key acc typ (mkMoney a NGN) narr 0.

Lemma server_PostEntry_run key acc typ narr a (wl : World LedgerDB) :
  TrimSpace acc <> "" -> typ = EntryTypeDeposit \/ typ = EntryTypeWithdrawal ->
  server_PostEntry (Some (post_request key acc typ narr a)) wl =
  PostEntryHandler_Handle (post_cmd key acc typ narr a) wl.
Proof.
  intros Ha Ht. apply is_empty_false in Ha. unfold server_PostEntry, bindM, fail_if. simpl. rewrite Ha.
  by destruct Ht as [->| ->].
Qed.

Lemma call_PostEntry_run key acc typ narr a w s st pst :
  trusted -> sys_inv w s st pst -> TrimSpace acc <> "" -> in_int64 a ->
  typ = EntryTypeDeposit \/ typ = EntryTypeWithdrawal ->
  let '(r, s') := spec_post (uuid_NewString (w_uuid w)) (post_cmd key acc typ narr a) s in
  exists w', call_PostEntry (Some (post_request key acc typ narr a)) w = (rpc_result r, w') /\
    sys_inv w' s' st pst /\ later w w' /\
    sys_account (w_db w') = sys_account (w_db w) /\ sys_payment (w_db w') = sys_payment (w_db w).
Proof.
  intros Htr [Hfl Hl Ha Hp] Hacc Hamt Ht.
  destruct (PostEntry_quiet (post_cmd key acc typ narr a) (set_db (sys_ledger (w_db w)) w) s Hl Hamt Hfl)
    as (wl & Hrun & Hl' & Hlater). simpl in Hrun, Hl'.
  destruct (spec_post _ _ s) as [r s'] eqn:Hsp; simpl in Hrun, Hl'.
  assert (zoom (server_PostEntry (Some (post_request key acc typ narr a))) w =
    (r, set_db (upd (w_db wl) (w_db w)) wl)) as Hz.
  { apply zoom_run. rewrite server_PostEntry_run by done. exact Hrun. }
  exists (set_db (upd (w_db wl) (w_db w)) wl). split_and!; [| | |done|done].
  - eapply authorized_run; [done|done|set_solver|done|]. intros _. exact Hz.
  - destruct Hlater as (Hsq & Hu & Hf). split; simpl.
    + by apply Hf.
    + by apply (refines_mono wl).
    + eapply account_inv_later; [..|exact Ha]; [done|]. by split_and!.
    + eapply payment_inv_later; [..|exact Hp]; [done|]. by split_and!.
  - destruct Hlater as (Hsq & Hu & Hf). by split_and!.
Qed.

(** ** Deposits and withdrawals at the account service *)
Definition move_request (key acc narr : string) (a : Z) : MoneyRequest :=
  mkMoneyRequest acc (Some (mkProtoMoney NGN a)) key narr.

Definition account_server_move (typ : string) (req : MoneyRequest) : M SystemDB string :=
  if bool_decide (typ = EntryTypeDeposit) then account_server_Deposit req else account_server_Withdraw req.

Definition move_event (typ : string) (amt : Money) (entry acc : string) (now : Z) : AccountEvent :=
  if bool_decide (typ = EntryTypeDeposit) then MoneyDeposited acc amt entry now else MoneyWithdrawn acc amt entry now.

(** The two methods, up to the ledger call and the transaction. *)
Lemma account_server_move_unfold typ key acc narr a w :
  typ = EntryTypeDeposit \/ typ = EntryTypeWithdrawal -> TrimSpace acc <> "" -> key <> "" -> 0 < a ->
  account_server_move typ (move_request key acc narr a) w =
  (let! entry := call_PostEntry (Some (post_request key acc typ narr a)) in
   zoom (with_tx (account_record acc (move_event typ (mkMoney a NGN) entry))) ;;;
   retM entry) w.
Proof.
  intros Ht Ha Hk Hpos.
  assert (is_empty acc = false) as Hacc.
  { apply is_empty_false. intros ->. by rewrite TrimSpace_nil in Ha. }
  apply is_empty_false in Hk. unfold account_server_move.
  assert (IsNegativeOrZero (mkMoney a NGN) = false) as Hn by (unfold IsNegativeOrZero; simpl; lia).
  assert (forall typ', LedgerClient_PostEntry call_PostEntry key acc typ' (mkMoney a NGN) narr w =
    if bool_decide (typ' = EntryTypeDeposit \/ typ' = EntryTypeWithdrawal)
    then call_PostEntry (Some (post_request key acc typ' narr a)) w
    else LedgerClient_PostEntry call_PostEntry key acc typ' (mkMoney a NGN) narr w) as Hclient.
  { intros typ'. case_bool_decide as Htyp; [|done]. by destruct Htyp as [->| ->]. }
  destruct Ht as [->| ->]; simpl; unfold account_server_Deposit, account_server_Withdraw; simpl;
    unfold bindM at 1, liftR, DepositMoneyHandler_Handle, WithdrawMoneyHandler_Handle, money_command_check,
      ValidateNGNAmountPositive, bindM, fail_if; simpl; rewrite Hacc, Hk; simpl; rewrite Hn; simpl;
    rewrite Hclient, bool_decide_true by (by (left + right)).
  - destruct (call_PostEntry _ w) as [[e|er] w1]; [|done].
    change (move_event EntryTypeDeposit (mkMoney a NGN) e) with (fun acc now => MoneyDeposited acc (mkMoney a NGN) e now).
    by destruct (zoom (with_tx (account_record _ _)) w1) as [[[]|er] w2].
  - destruct (call_PostEntry _ w) as [[e|er] w1]; [|done].
    change (move_event EntryTypeWithdrawal (mkMoney a NGN) e) with (fun acc now => MoneyWithdrawn acc (mkMoney a NGN) e now).
    by destruct (zoom (with_tx (account_record _ _)) w1) as [[[]|er] w2].
Qed.

Lemma zoom_account_record acc mk w s st pst :
  sys_inv w s st pst -> roomy st acc -> (forall now, is_money (mk acc now) = true) ->
  exists r w', zoom (with_tx (account_record acc mk)) w = (r, w') /\ later w w' /\
    sys_ledger (w_db w') = sys_ledger (w_db w) /\ sys_payment (w_db w') = sys_payment (w_db w) /\
    (if bool_decide (a_status (account_at (events_of st acc)) = StatusActive)
     then r = Ok tt /\ exists ev, is_money ev = true /\
       sys_inv w' s (<[acc := events_of st acc ++ [ev]]> st) pst
     else r = Err ErrAccountNotActive /\ sys_inv w' s st pst).
Proof.
  intros Hinv Hroom Hmk. pose proof (si_account _ _ _ _ Hinv) as Ha.
  pose proof (account_record_tx acc mk (set_db (sys_account (w_db w)) w) st Ha Hroom Hmk) as Hpost.
  unfold wpm in Hpost. destruct (with_tx (account_record acc mk) _) as [r wa] eqn:Hrun; simpl in Hpost.
  destruct Hpost as [Hlater Hr]. exists r, (set_db (upd (w_db wa) (w_db w)) wa).
  assert (later w (set_db (upd (w_db wa) (w_db w)) wa)) as Hlater'
    by (destruct Hlater as (? & ? & ?); by split_and!).
  split; [by apply zoom_run|]. split; [done|]. split; [done|]. split; [done|].
  assert (forall st', account_inv wa st' -> sys_inv (set_db (upd (w_db wa) (w_db w)) wa) s st' pst) as Hsys.
  { intros st' Hst'. by apply (sys_inv_account w s st pst). }
  destruct r as [[]|e].
  - destruct Hr as [Hact [now Hinv1]]. rewrite bool_decide_true by done. split; [done|].
    exists (erase_amount (mk acc now)). split; [|by apply Hsys]. specialize (Hmk now). by destruct (mk acc now).
  - destruct Hr as [(Hact & -> & Hdb)|[Hne _]]; [|by destruct Hne; apply (si_quiet _ _ _ _ Hinv)].
    rewrite bool_decide_false by done. split; [done|].
    apply Hsys. apply (account_inv_later (set_db (sys_account (w_db w)) w)); [exact Hdb|exact Hlater|exact Ha].
Qed.

Lemma account_server_move_run typ key acc narr a w s st pst :
  trusted -> sys_inv w s st pst -> typ = EntryTypeDeposit \/ typ = EntryTypeWithdrawal ->
  TrimSpace acc <> "" -> key <> "" -> 0 < a <= max_int64 -> roomy st acc ->
  let '(r, s') := spec_post (uuid_NewString (w_uuid w)) (post_cmd key acc typ narr a) s in
  exists w', later w w' /\ sys_payment (w_db w') = sys_payment (w_db w) /\
  match r with
  | Err e => account_server_move typ (move_request key acc narr a) w = (Err (rpc_error e), w') /\ sys_inv w' s' st pst
  | Ok entry =>
      if bool_decide (a_status (account_at (events_of st acc)) = StatusActive)
      then account_server_move typ (move_request key acc narr a) w = (Ok entry, w') /\
        exists ev, is_money ev = true /\ sys_inv w' s' (<[acc := events_of st acc ++ [ev]]> st) pst
      else account_server_move typ (move_request key acc narr a) w = (Err ErrAccountNotActive, w') /\
        sys_inv w' s' st pst
  end.
Proof.
  intros Htr Hinv Ht Ha Hk Hamt Hroom.
  pose proof (call_PostEntry_run key acc typ narr a w s st pst Htr Hinv Ha) as Hcall.
  specialize (Hcall ltac:(unfold in_int64, min_int64, max_int64 in *; lia) Ht).
  destruct (spec_post _ _ s) as [r s'] eqn:Hsp. destruct Hcall as (w1 & Hrun & Hinv1 & Hl1 & Hacc1 & Hp1).
  rewrite account_server_move_unfold by (done || lia). unfold bindM. rewrite Hrun.
  destruct r as [entry|e]; simpl; [|by exists w1].
  destruct (zoom_account_record acc (move_event typ (mkMoney a NGN) entry) w1 s' st pst Hinv1 Hroom)
    as (r2 & w2 & Hrun2 & Hl2 & Hled2 & Hp2 & Hr2).
  { intros now. unfold move_event. by case_bool_decide. }
  exists w2. rewrite Hrun2. split; [by eapply later_trans|]. split; [congruence|].
  case_bool_decide.
  - destruct Hr2 as [-> Hev']. done.
  - by destruct Hr2 as [-> ?].
Qed.
End system.
