(* ===== verification/TransferProps.v ===== *)
(** * What a transfer does to the ledger

    Whatever fails and however often its activities are retried, a transfer
    posts only its own entries, each at most once; when it reports success it
    has posted all of them. *)
From S2P Require Import Prelude GoStrings Json Money EventStore Streams Outbox Ledger LedgerSpec LedgerProps.
From S2P Require Import Account AccountSpec AccountStore Payment PaymentSpec PaymentStore PaymentProps.
From S2P Require Import Transfer Authz System SystemProps.
#[local] Open Scope Z_scope.
#[local] Open Scope go_scope.

(** ** Sets of possible postings: key, account and delta *)
Definition expected : Type := string * string * Z.
Definition as_expected (p : posting) : expected := (p_key p, p_account p, p_delta p).

Fixpoint lowest (K : list expected) (acc : string) : Z :=
  match K with
  | [] => 0
  | (_, a, d) :: K' => (if bool_decide (a = acc) then Z.min 0 d else 0) + lowest K' acc
  end.
Fixpoint highest (K : list expected) (acc : string) : Z :=
  match K with
  | [] => 0
  | (_, a, d) :: K' => (if bool_decide (a = acc) then Z.max 0 d else 0) + highest K' acc
  end.
Fixpoint total (K : list expected) (acc : string) : Z :=
  match K with
  | [] => 0
  | (_, a, d) :: K' => (if bool_decide (a = acc) then d else 0) + total K' acc
  end.

Lemma spec_balance_total l acc : spec_balance l acc = total (map as_expected l) acc.
Proof. induction l as [|p l IH]; simpl; [done|]. by rewrite IH. Qed.


Lemma total_bounds K acc : lowest K acc <= total K acc <= highest K acc.
Proof. induction K as [|[[k a] d] K IH]; simpl; [lia|]. case_bool_decide; lia. Qed.

Lemma bounds_mono K K' acc : K ⊆+ K' -> lowest K' acc <= lowest K acc /\ highest K acc <= highest K' acc.
Proof.
  induction 1 as [|[[]] ? ? ? IH|[[]] [[]]|[[]] ? ? ? IH|]; simpl; repeat case_bool_decide; lia.
Qed.

(** The postings of a log extension with distinct keys, all expected. *)
Lemma extension_sub s l K :
  NoDup (map p_key (s ++ l)) -> Forall (fun p => as_expected p ∈ K) l -> map as_expected l ⊆+ K.
Proof.
  rewrite map_app. intros (_ & _ & Hnd)%NoDup_app Hl. apply NoDup_submseteq.
  - apply (NoDup_fmap_1 (fun e : expected => e.1.1)). rewrite <-list_fmap_compose. exact Hnd.
  - intros e (p & -> & Hp)%list_elem_of_fmap. rewrite Forall_forall in Hl. by apply Hl.
Qed.


Section transfer.
Context `{Hev : Env} `{Henv : !EnvOk} `{Hdep : Deployment}.
Implicit Types (w : World SystemDB) (s l : list posting) (K E : list expected) (R : list string).

(** ** Computations that post only expected entries

    [posts K E R m]: from a ledger with log [s], [m] extends the log by
    entries of [K] when it returns, and then every key of [R] is in the log,
    and by entries of [E] when it fails. *)
Definition sys_refines w s : Prop := refines (set_db (sys_ledger (w_db w)) w) s.

Definition posts {A} K E R (m : M SystemDB A) : Prop := forall w s,
  sys_refines w s -> exists l, sys_refines (m w).2 (s ++ l) /\
    match (m w).1 with
    | Ok _ => Forall (fun p => as_expected p ∈ K) l /\ R ⊆ map p_key (s ++ l)
    | Err _ => Forall (fun p => as_expected p ∈ E) l
    end.

Lemma sys_refines_later w w' s :
  sys_ledger (w_db w') = sys_ledger (w_db w) -> later w w' -> sys_refines w s -> sys_refines w' s.
Proof. intros Hdb (Hsq & Hu & _). apply refines_mono; simpl; done. Qed.

Lemma posts_weaken {A} K K' E E' R R' (m : M SystemDB A) :
  K ⊆ K' -> E ⊆ E' -> R' ⊆ R -> posts K E R m -> posts K' E' R' m.
Proof.
  intros HK HE HR Hm w s Hs. destruct (Hm w s Hs) as (l & Hl & Hr). exists l. split; [done|].
  destruct (m w).1.
  - destruct Hr as [Hr HR1]. split; [|set_solver]. eapply Forall_impl; [exact Hr|]. auto.
  - eapply Forall_impl; [exact Hr|]. auto.
Qed.

Lemma posts_silent {A} K E (m : M SystemDB A) :
  advances m -> (forall w, sys_ledger (w_db (m w).2) = sys_ledger (w_db w)) -> posts K E [] m.
Proof.
  intros Ha Hm w s Hs. exists []. rewrite app_nil_r.
  split; [apply (sys_refines_later w); [apply Hm|apply Ha|done]|]. destruct (m w).1; [split; [constructor|set_solver]|constructor].
Qed.

Lemma posts_ret {A} K E (a : A) : posts K E [] (retM a).
Proof. apply posts_silent; [solve_advances|done]. Qed.
Lemma posts_fail {A} K E R e : posts K E R (@failM SystemDB A e).
Proof. intros w s Hs. exists []. rewrite app_nil_r. split; [done|constructor]. Qed.
Lemma posts_lift {A} K E (r : result A) : posts K E [] (liftR r).
Proof. apply posts_silent; [solve_advances|done]. Qed.
Lemma posts_fail_if K E b e : posts K E [] (fail_if b e).
Proof. destruct b; [apply posts_fail|apply posts_ret]. Qed.

Lemma posts_bind {A B} K E R1 R2 (m : M SystemDB A) (k : A -> M SystemDB B) :
  K ⊆ E -> posts K E R1 m -> (forall a, posts K E R2 (k a)) -> posts K E (R1 ++ R2) (bindM m k).
Proof.
  intros HKE Hm Hk w s Hs. destruct (Hm w s Hs) as (l1 & Hl1 & Hr1). unfold bindM.
  destruct (m w) as [[a|e] w1]; simpl in *; [|by exists l1]. destruct Hr1 as [Hr1 HR1].
  destruct (Hk a w1 _ Hl1) as (l2 & Hl2 & Hr2). exists (l1 ++ l2). rewrite app_assoc. split; [done|].
  destruct (k a w1).1.
  - destruct Hr2 as [Hr2 HR2]. split; [by apply Forall_app|]. rewrite map_app in *. set_solver.
  - apply Forall_app. split; [|done]. eapply Forall_impl; [exact Hr1|]. auto.
Qed.

Lemma posts_seq {A B} K E R (m : M SystemDB A) (k : A -> M SystemDB B) :
  K ⊆ E -> posts K E [] m -> (forall a, posts K E R (k a)) -> posts K E R (bindM m k).
Proof. intros. by apply (posts_bind K E [] R). Qed.

Lemma posts_then {A B} K E R (m : M SystemDB A) (k : A -> M SystemDB B) :
  K ⊆ E -> posts K E R m -> (forall a, posts K E [] (k a)) -> posts K E R (bindM m k).
Proof. intros. rewrite <-(app_nil_r R). by apply posts_bind. Qed.

(** After a check that is no call, the computation goes on with its value. *)
Lemma posts_check {A B} K E R (r : result A) (k : A -> M SystemDB B) :
  (forall a, r = Ok a -> posts K E R (k a)) -> posts K E R (bindM (liftR r) k).
Proof.
  intros Hk. destruct r as [a|e]; [by apply (Hk a)|]. exact (posts_fail K E R e).
Qed.

Lemma posts_try {A} K E R (m : M SystemDB A) : K ⊆ E -> posts K E R m -> posts E E [] (tryM m).
Proof.
  intros HKE Hm w s Hs. destruct (Hm w s Hs) as (l & Hl & Hr). unfold tryM. destruct (m w) as [r w']; simpl in *.
  exists l. split; [done|]. split; [|set_solver]. destruct r; [|done]. destruct Hr as [Hr _].
  eapply Forall_impl; [exact Hr|]. auto.
Qed.

(** A computation that never returns need not say what it has posted then. *)
Lemma posts_never {A} K E R R' (m : M SystemDB A) :
  (forall w, is_ok (m w).1 = false) -> posts E E R' m -> posts K E R m.
Proof.
  intros Hno Hm w s Hs. specialize (Hno w). destruct (Hm w s Hs) as (l & Hl & Hr). exists l. split; [done|].
  by destruct (m w).1.
Qed.

Lemma posts_wrap {A} K E R ctx (m : M SystemDB A) : posts K E R m -> posts K E R (wrap_err ctx m).
Proof.
  intros Hm w s Hs. destruct (Hm w s Hs) as (l & Hl & Hr). exists l. unfold wrap_err.
  by destruct (m w) as [[]].
Qed.

Lemma posts_rpc {A} K E R (m : M SystemDB A) : K ⊆ E -> posts K E R m -> posts K E R (rpc m).
Proof.
  intros HKE Hm w s Hs. unfold rpc. pose proof (later_next_fault w) as Hl.
  assert (sys_ledger (w_db (next_fault w).2) = sys_ledger (w_db w)) as Hdb
    by (unfold next_fault; by destruct (w_faults w)).
  destruct (next_fault w) as [f w1]; simpl in *. apply (sys_refines_later w w1) in Hs; [|done..].
  destruct (Hm w1 s Hs) as (l & Hl2 & Hr). destruct f.
  - exists l. by destruct (m w1) as [[]].
  - exists []. rewrite app_nil_r. split; [done|constructor].
  - exists l. destruct (m w1) as [[] w2]; simpl in *; split; [done|..|done|done].
    destruct Hr as [Hr _]. eapply Forall_impl; [exact Hr|]. auto.
Qed.

Lemma posts_authorized {A} K E R perms method (handler : Z -> M SystemDB A) :
  K ⊆ E -> (forall lsn, posts K E R (handler lsn)) -> posts K E R (authorized perms method handler).
Proof.
  intros HKE Hh. unfold authorized. apply posts_rpc; [done|]. unfold UnaryAuthzInterceptor.
  destruct (required_perm perms method); [|done].
  apply posts_seq; [done|apply posts_lift|]. intros payload. apply posts_seq; [done|apply posts_fail_if|done].
Qed.

(** ** The ledger's endpoint *)
Lemma spec_post_extends id cmd s r s' :
  spec_post id cmd s = (r, s') -> exists l, s' = s ++ l /\
    Forall (fun p => as_expected p =
      (pe_IdempotencyKey cmd, pe_AccountID cmd, spec_delta (pe_Type cmd) (AmountKobo (pe_Amount cmd)))) l /\
    (is_ok r = true -> pe_IdempotencyKey cmd ∈ map p_key s').
Proof.
  unfold spec_post. intros Hp. destruct (spec_check cmd).
  { exists []. simplify_eq. by rewrite app_nil_r. }
  destruct (spec_find _ s) as [p|] eqn:Hf; simplify_eq.
  { exists []. rewrite app_nil_r. split_and!; [done|constructor|]. intros _.
    apply spec_find_elem in Hf as [Hin <-]. by apply (list_elem_of_fmap_2 p_key). }
  repeat case_bool_decide; simplify_eq; [exists []; by rewrite app_nil_r..|].
  eexists. split; [done|]. split; [by constructor|]. intros _. rewrite map_app. set_solver.
Qed.

Lemma posts_PostEntry K cmd e :
  money_ok (pe_Amount cmd) ->
  e = (pe_IdempotencyKey cmd, pe_AccountID cmd, spec_delta (pe_Type cmd) (AmountKobo (pe_Amount cmd))) -> e ∈ K ->
  posts K K [pe_IdempotencyKey cmd] (zoom (PostEntryHandler_Handle cmd) : M SystemDB string).
Proof.
  intros Hm -> HK w s Hs. pose proof (PostEntry_post cmd _ s Hs Hm) as Hp. unfold wpm in Hp. unfold zoom. simpl.
  destruct (PostEntryHandler_Handle cmd _) as [r wl]; simpl in *.
  destruct (spec_post _ cmd s) as [r0 s0] eqn:Hsp.
  destruct (spec_post_extends _ _ _ _ _ Hsp) as (l & -> & Hl & Hok).
  assert (Forall (fun p => as_expected p ∈ K) l) as HlK by (eapply Forall_impl; [exact Hl|]; by intros p ->).
  assert (forall s', refines wl s' -> sys_refines (set_db (upd (w_db wl) (w_db w)) wl) s') as Hsys
    by (intros s' Hs'; by apply (refines_mono wl)).
  destruct Hp as [[-> Hr]|(_ & -> & [Hr|Hr])]; simpl.
  - exists l. split; [by apply Hsys|]. destruct r0; [|done]. split; [done|]. set_solver.
  - exists []. rewrite app_nil_r. split; [by apply Hsys|constructor].
  - exists l. split; [by apply Hsys|done].
Qed.

Lemma posts_call K key et acc cur a narr e typ :
  in_int64 a -> (et, typ) ∈ [(ENTRY_TYPE_DEPOSIT, EntryTypeDeposit); (ENTRY_TYPE_WITHDRAWAL, EntryTypeWithdrawal)] ->
  e = (key, acc, spec_delta typ a) -> e ∈ K ->
  posts K K [key] (call_PostEntry (Some (mkPostEntryRequest key et (Some acc) (Some (mkProtoMoney cur a)) narr))).
Proof.
  intros Ha Het He HK. apply posts_authorized; [done|]. intros _. unfold server_PostEntry.
  intros w s Hs. unfold zoom, bindM, fail_if, liftR, retM, failM.
  cbn [pr_Account pr_Amount pr_EntryType pr_IdempotencyKey pr_Narration pm_AmountKobo pm_Currency].
  destruct (blank_account _); [by apply (posts_fail K K [key] (A := string) (ENew "account_id required"))|].
  destruct (money_New a cur) as [m|er] eqn:Hm; [|by apply (posts_fail K K [key] (A := string) er)].
  apply money_New_ok in Hm as [_ ->].
  assert (typ = match et with ENTRY_TYPE_DEPOSIT => EntryTypeDeposit | _ => EntryTypeWithdrawal end /\
          (et = ENTRY_TYPE_DEPOSIT \/ et = ENTRY_TYPE_WITHDRAWAL)) as [-> Hets] by set_solver.
  destruct Hets as [->| ->];
    by apply (posts_PostEntry K (mkPostEntry key acc _ (mkMoney a cur) narr 0) e).
Qed.

(** ** The account service's endpoints *)
Lemma advances_account_record acc mk : advances (account_record acc mk).
Proof.
  unfold account_record, LoadAccount, LoadLatestSnapshot, Read, Append, account_saveSnapshot, SaveSnapshot,
    account_enqueue, Enqueue, AccountProjectionRepo_Upsert. solve_advances.
Qed.

Lemma posts_account_tx {A} K E (m : M AccountDB A) : advances m -> posts K E [] (zoom (with_tx m) : M SystemDB A).
Proof.
  intros Hm. apply posts_silent; [solve_advances; apply Hm|]. intros w. unfold zoom. by destruct (with_tx m _).
Qed.

Lemma posts_payment {A} K E (m : M PaymentDB A) : advances m -> posts K E [] (zoom m : M SystemDB A).
Proof. intros Hm. apply posts_silent; [by apply advances_zoom|]. intros w. unfold zoom. by destruct (m _). Qed.

Lemma posts_deposit K key acc cur a narr :
  in_int64 a -> (key, acc, a) ∈ K ->
  posts K K [key] (call_Deposit (mkMoneyRequest acc (Some (mkProtoMoney cur a)) key narr)).
Proof.
  intros Ha HK. apply posts_authorized; [done|]. intros _. unfold account_server_Deposit. simpl.
  apply posts_check. intros m [_ ->]%money_New_ok.
  apply posts_then; [done| |by intros []; apply posts_ret]. unfold DepositMoneyHandler_Handle, money_command_check.
  apply posts_seq; [done| |intros _].
  { repeat (apply posts_seq; [done|apply posts_fail_if|intros _]). apply posts_lift. }
  apply posts_then; [done| |intros entry].
  - by apply (posts_call K key ENTRY_TYPE_DEPOSIT acc cur a narr (key, acc, a) EntryTypeDeposit); [|left|..].
  - apply posts_seq; [done|apply posts_account_tx, advances_account_record|intros _; apply posts_ret].
Qed.

Lemma posts_withdraw K key acc cur a narr :
  in_int64 a -> (key, acc, - a) ∈ K ->
  posts K K [key] (call_Withdraw (mkMoneyRequest acc (Some (mkProtoMoney cur a)) key narr)).
Proof.
  intros Ha HK. apply posts_authorized; [done|]. intros _. unfold account_server_Withdraw. simpl.
  apply posts_check. intros m [_ ->]%money_New_ok.
  apply posts_then; [done| |by intros []; apply posts_ret]. unfold WithdrawMoneyHandler_Handle, money_command_check.
  apply posts_seq; [done| |intros _].
  { repeat (apply posts_seq; [done|apply posts_fail_if|intros _]). apply posts_lift. }
  apply posts_then; [done| |intros entry].
  - by apply (posts_call K key ENTRY_TYPE_WITHDRAWAL acc cur a narr (key, acc, - a) EntryTypeWithdrawal);
      [|right; left|..].
  - apply posts_seq; [done|apply posts_account_tx, advances_account_record|intros _; apply posts_ret].
Qed.

(** ** Activities and steps *)
Lemma advances_payment_command op id key : advances (payment_command op id key).
Proof.
  unfold payment_command, AuthorizePaymentHandler_Handle, SettlePaymentHandler_Handle, FailPaymentHandler_Handle,
    payment_keys_required, payment_change, payment_apply, Payment_Authorize, Payment_Settle, Payment_Fail, LoadPayment, Read,
    Append, payment_enqueue, Enqueue, PaymentProjectionRepo_GetByID, PaymentProjectionRepo_Upsert.
  solve_advances.
Qed.

Lemma advances_InitiatePayment cmd : advances (InitiatePaymentHandler_Handle TemporalNil cmd).
Proof.
  unfold InitiatePaymentHandler_Handle, InitiatePayment_validate, InitiatePayment_tx, NewPayment, Append,
    PaymentProjectionRepo_Upsert.
  assert (forall id i evs, advances (initiate_toAppend id i evs)) as Hloop.
  { intros id i evs. revert i. induction evs as [|ev evs IH]; intros i; simpl; [solve_advances|].
    unfold payment_enqueue, Enqueue. solve_advances. }
  solve_advances.
Qed.

Lemma posts_payment_command K op id key :
  posts K K [] (zoom (payment_command op id key) ;;; retM tt : M SystemDB unit).
Proof.
  apply posts_seq; [done|apply posts_payment, advances_payment_command|]. intros _. apply posts_ret.
Qed.

Lemma posts_attempts K R n (act : M SystemDB unit) : posts K K R act -> posts K K R (attempts n act).
Proof.
  intros Ha. assert (posts K K R (rpc act)) as Hr by (by apply posts_rpc).
  induction n as [|[|n] IH]; [apply posts_fail|exact Hr|].
  intros w s Hs. destruct (Hr w s Hs) as (l & Hl & Hr1).
  change (attempts (S (S n)) act) with (let! r := tryM (rpc act) in
    match r with Ok _ => retM tt | Err _ => attempts (S n) act end).
  unfold bindM, tryM. destruct (rpc act w) as [[a|e] w1]; simpl in Hl, Hr1; [by exists l|].
  destruct (IH w1 _ Hl) as (l2 & Hl2 & Hr2). exists (l ++ l2). rewrite app_assoc. split; [done|].
  destruct (attempts (S n) act w1).1; [destruct Hr2 as [Hr2 HR]; split; [|done]|]; by apply Forall_app.
Qed.

Section steps.
Variable activity_error : error -> string.
Variable inp : TransferWorkflowInput.
Abbreviation id := (ti_PaymentID inp).
Abbreviation from := (ti_FromAccountID inp).
Abbreviation to := (ti_ToAccountID inp).
Abbreviation a := (ti_AmountKobo inp).

(** The entries of a transfer, and the refund. *)
Definition transfer_entries : list expected :=
  [("wdr-" +:+ id, from, - a); ("ldg-wdr-" +:+ id, from, - a); ("dep-" +:+ id, to, a); ("ldg-dep-" +:+ id, to, a)].
Definition refund_entry : expected := ("refund-" +:+ id, from, a).

Hypothesis Hint64 : in_int64 a.

Lemma posts_with_amount K R (k : Money -> M SystemDB unit) :
  (forall cur, posts K K R (k (mkMoney a cur))) -> posts K K R (with_amount inp k).
Proof. intros Hk. apply posts_check. intros m [_ ->]%money_New_ok. apply Hk. Qed.

Lemma posts_Activity_Withdraw :
  posts transfer_entries transfer_entries ["wdr-" +:+ id] (Activity_Withdraw inp).
Proof.
  apply posts_with_amount. intros cur. apply posts_then; [done| |intros _; apply posts_ret].
  apply posts_wrap, posts_withdraw; [done|left].
Qed.

Lemma posts_Activity_LedgerPostWithdraw :
  posts transfer_entries transfer_entries ["ldg-wdr-" +:+ id] (Activity_LedgerPostWithdraw inp).
Proof.
  apply posts_with_amount. intros cur. apply posts_then; [done| |intros _; apply posts_ret]. simpl.
  apply posts_wrap. eapply (posts_call _ _ ENTRY_TYPE_WITHDRAWAL from cur a _ _ EntryTypeWithdrawal);
    [done|right; left|done|right; left].
Qed.

Lemma posts_Activity_Deposit :
  posts transfer_entries transfer_entries ["dep-" +:+ id] (Activity_Deposit inp).
Proof.
  apply posts_with_amount. intros cur. apply posts_then; [done| |intros _; apply posts_ret].
  apply posts_wrap, posts_deposit; [done|do 2 right; left].
Qed.

Lemma posts_Activity_LedgerPostDeposit :
  posts transfer_entries transfer_entries ["ldg-dep-" +:+ id] (Activity_LedgerPostDeposit inp).
Proof.
  apply posts_with_amount. intros cur. apply posts_then; [done| |intros _; apply posts_ret]. simpl.
  apply posts_wrap. eapply (posts_call _ _ ENTRY_TYPE_DEPOSIT to cur a _ _ EntryTypeDeposit);
    [done|left|done|do 3 right; left].
Qed.

Lemma posts_Activity_Refund :
  posts [refund_entry] [refund_entry] ["refund-" +:+ id] (Activity_Refund inp).
Proof.
  apply posts_with_amount. intros cur. apply posts_then; [done| |intros _; apply posts_ret].
  apply posts_wrap, posts_deposit; [done|left].
Qed.

(** What follows a step that failed for good. *)
Definition give_back (b : bool) (reason : string) (err : error) : M SystemDB unit :=
  (if b then let! _ := tryM (ExecuteActivity (Activity_Refund inp)) in retM tt else retM tt) ;;;
  let! _ := tryM (ExecuteActivity (Activity_FailPayment id (reason +:+ ": " +:+ activity_error err))) in
  failM err.

Lemma workflow_step_run b (act : M SystemDB unit) reason w :
  workflow_step activity_error b inp act reason w =
  match ExecuteActivity act w with
  | (Ok _, w1) => (Ok tt, w1)
  | (Err err, w1) => give_back b reason err w1
  end.
Proof. unfold workflow_step, bindM at 1, tryM at 1. by destruct (ExecuteActivity act w) as [[]]. Qed.

Lemma posts_give_back b reason err K R : posts K [refund_entry] R (give_back b reason err).
Proof.
  apply (posts_never _ _ _ []).
  { intros w0. unfold give_back, bindM, tryM. by destruct b; repeat case_match; simplify_eq. }
  apply posts_seq; [done| |intros _].
  - destruct b; [|apply posts_ret]. apply posts_seq; [done| |intros _; apply posts_ret].
    eapply posts_try; [done|]. apply posts_attempts, posts_Activity_Refund.
  - apply posts_seq; [done| |intros _; apply posts_fail]. eapply (posts_try _ _ []); [done|].
    apply posts_attempts. apply (posts_payment_command _ (OpFail _)).
Qed.

Lemma posts_workflow_step b R (act : M SystemDB unit) reason :
  posts transfer_entries transfer_entries R act ->
  posts transfer_entries (refund_entry :: transfer_entries) R (workflow_step activity_error b inp act reason).
Proof.
  intros Hact w s Hs. destruct (posts_attempts _ _ MaximumAttempts _ Hact w s Hs) as (l & Hl & Hr).
  rewrite workflow_step_run. fold (ExecuteActivity act) in *.
  destruct (ExecuteActivity act w) as [[u|e] w1]; simpl in Hl, Hr; [by exists l|].
  destruct (posts_give_back b reason e [] R w1 _ Hl) as (l2 & Hl2 & Hr2).
  exists (l ++ l2). rewrite app_assoc. split; [done|].
  destruct (give_back b reason e w1).1.
  - destruct Hr2 as [Hr2 HR]. split; [|done]. apply Forall_app. split; [done|].
    eapply Forall_impl; [exact Hr2|]. by intros p ?%not_elem_of_nil.
  - apply Forall_app; split; [eapply Forall_impl; [exact Hr|]|eapply Forall_impl; [exact Hr2|]].
    + intros p Hp. by right.
    + intros p ->%list_elem_of_singleton. left.
Qed.

Lemma posts_TransferWorkflow :
  posts transfer_entries (refund_entry :: transfer_entries) (map (fun e : expected => e.1.1) transfer_entries)
    (TransferWorkflow activity_error inp).
Proof.
  unfold TransferWorkflow.
  assert (transfer_entries ⊆ refund_entry :: transfer_entries) as Hsub by (intros e He; by right).
  apply (posts_bind _ _ ["wdr-" +:+ id]); [done|apply posts_workflow_step, posts_Activity_Withdraw|intros _].
  apply (posts_bind _ _ ["ldg-wdr-" +:+ id]); [done|apply posts_workflow_step, posts_Activity_LedgerPostWithdraw|intros _].
  apply (posts_bind _ _ ["dep-" +:+ id]); [done|apply posts_workflow_step, posts_Activity_Deposit|intros _].
  apply (posts_bind _ _ ["ldg-dep-" +:+ id] []);
    [done|apply posts_workflow_step, posts_Activity_LedgerPostDeposit|intros _].
  apply posts_seq; [done|apply posts_workflow_step, (posts_payment_command _ OpAuthorize)|intros _].
  apply posts_workflow_step, (posts_payment_command _ OpSettle).
Qed.

(** ** Theorems *)
Definition ledger_balance w (acc : string) : Z := balance (sys_ledger (w_db w)) acc 1.

Lemma extension_balance w w' s l acc :
  sys_refines w s -> sys_refines w' (s ++ l) ->
  ledger_balance w' acc = ledger_balance w acc + total (map as_expected l) acc.
Proof.
  intros Hs Hs'. unfold ledger_balance. pose proof (rf_balance _ _ Hs acc) as Hb. simpl in Hb. rewrite Hb.
  pose proof (rf_balance _ _ Hs' acc) as Hb'. simpl in Hb'.
  by rewrite Hb', spec_balance_app, (spec_balance_total l).
Qed.
End steps.

(** C8. However often its activities are retried and whatever is lost on the
    way, a transfer takes at most twice its amount from the sender, gives the
    receiver at most twice its amount and takes nothing from it, gives the
    sender at most one refund, and touches no other balance. *)
Theorem transfer_bounded activity_error inp w s :
  sys_refines w s -> 0 < ti_AmountKobo inp <= max_int64 -> ti_FromAccountID inp <> ti_ToAccountID inp ->
  let w' := (TransferWorkflow activity_error inp w).2 in
  let a := ti_AmountKobo inp in
  let change acc := ledger_balance w' acc - ledger_balance w acc in
  - 2 * a <= change (ti_FromAccountID inp) <= a /\
  0 <= change (ti_ToAccountID inp) <= 2 * a /\
  forall acc, acc <> ti_FromAccountID inp -> acc <> ti_ToAccountID inp -> change acc = 0.
Proof.
  intros Hs Ha Hne w' a change.
  destruct (posts_TransferWorkflow activity_error inp ltac:(unfold in_int64, min_int64, max_int64 in *; lia) w s Hs)
    as (l & Hl & Hr).
  assert (map as_expected l ⊆+ refund_entry inp :: transfer_entries inp) as Hsub.
  { apply (extension_sub s); [apply (rf_keys _ _ Hl)|]. destruct (TransferWorkflow activity_error inp w).1; [|done].
    destruct Hr as [Hr _]. eapply Forall_impl; [exact Hr|]. intros p Hp. by right. }
  assert (forall acc, lowest (refund_entry inp :: transfer_entries inp) acc <= change acc <=
                      highest (refund_entry inp :: transfer_entries inp) acc) as Hch.
  { intros acc. subst change w'. cbv beta. rewrite (extension_balance w _ s l acc Hs Hl).
    pose proof (total_bounds (map as_expected l) acc). pose proof (bounds_mono _ _ acc Hsub). lia. }
  subst a. split; [|split; [|intros acc Hf Ht]].
  - specialize (Hch (ti_FromAccountID inp)). simpl in Hch. repeat case_bool_decide; [done|lia|done..].
  - specialize (Hch (ti_ToAccountID inp)). simpl in Hch. repeat case_bool_decide; [done..|lia|done].
  - specialize (Hch acc). simpl in Hch. repeat case_bool_decide; by simplify_eq || lia.
Qed.

End transfer.
