(* ===== verification/TransferRun.v ===== *)
(** * A transfer when nothing fails

    The services at work: with credentials, active accounts and enough money
    a transfer completes; towards an account that is not active it fails and
    the money has moved all the same. *)
From S2P Require Import Prelude GoStrings Json Money EventStore Streams Outbox Ledger LedgerSpec LedgerProps.
From S2P Require Import Account AccountSpec AccountStore Payment PaymentSpec PaymentStore PaymentProps.
From S2P Require Import Transfer Authz System SystemProps TransferProps.
#[local] Open Scope Z_scope.
#[local] Open Scope go_scope.

Section run.
Context `{Hev : Env} `{Henv : !EnvOk} `{Hdep : Deployment}.
Implicit Types (w : World SystemDB) (s : list posting).
Implicit Types (st : gmap string (list AccountEvent)) (pst : gmap string (list PaymentEvent)).

(** ** One posting *)
Definition open_key s (key : string) : Prop := spec_find key s = None.

Lemma open_key_snoc s key p k acc d :
  open_key s key -> as_expected p = (k, acc, d) -> k <> key -> open_key (s ++ [p]) key.
Proof.
  unfold open_key. intros Hk [= <- _ _] Hp. rewrite spec_find_snoc, Hk. by rewrite bool_decide_false.
Qed.

Lemma trimmed_nonempty acc : TrimSpace acc <> "" -> acc <> "".
Proof. intros Ha ->. by rewrite TrimSpace_nil in Ha. Qed.

Lemma spec_check_post key acc typ narr a :
  key <> "" -> TrimSpace acc <> "" -> typ = EntryTypeDeposit \/ typ = EntryTypeWithdrawal -> 0 < a ->
  spec_check (post_cmd key acc typ narr a) = None.
Proof.
  intros Hk Ha%trimmed_nonempty Ht Hpos. unfold spec_check. repeat case_bool_decide; try done.
  - by destruct Ht as [->| ->]; set_solver.
  - simpl in *. lia.
Qed.

Lemma spec_post_fresh id key acc typ narr a s :
  key <> "" -> TrimSpace acc <> "" -> typ = EntryTypeDeposit \/ typ = EntryTypeWithdrawal -> 0 < a -> open_key s key ->
  0 <= spec_balance s acc + spec_delta typ a <= max_int64 ->
  spec_post id (post_cmd key acc typ narr a) s = (Ok id, s ++ [mkPosting key id acc (spec_delta typ a)]).
Proof.
  intros Hk Ha Ht Hpos Hopen Hb. unfold spec_post.
  rewrite spec_check_post by done.
  unfold open_key in Hopen. simpl. rewrite Hopen. by rewrite !bool_decide_false by lia.
Qed.

Lemma balance_snoc s p k acc d acc' :
  as_expected p = (k, acc, d) ->
  spec_balance (s ++ [p]) acc' = spec_balance s acc' + (if bool_decide (acc = acc') then d else 0).
Proof. destruct p. intros [= <- <- <-]. rewrite spec_balance_app. simpl. lia. Qed.

(** The workflow's own posting. *)
Lemma ledger_step_run key acc typ narr a w s st pst :
  trusted -> sys_inv w s st pst -> TrimSpace acc <> "" -> key <> "" -> 0 < a <= max_int64 ->
  typ = EntryTypeDeposit \/ typ = EntryTypeWithdrawal -> open_key s key ->
  0 <= spec_balance s acc + spec_delta typ a <= max_int64 ->
  exists w' p, call_PostEntry (Some (post_request key acc typ narr a)) w = (Ok (p_entry p), w') /\
    as_expected p = (key, acc, spec_delta typ a) /\ sys_inv w' (s ++ [p]) st pst.
Proof.
  intros Htr Hinv Hacc Hkey Ha Ht Hopen Hb.
  pose proof (call_PostEntry_run key acc typ narr a w s st pst Htr Hinv Hacc
    ltac:(unfold in_int64, min_int64, max_int64 in *; lia) Ht) as Hrun.
  rewrite spec_post_fresh in Hrun by (done || lia).
  destruct Hrun as (w' & Hrun & Hinv' & _). exists w'. eexists (mkPosting key _ acc _). split; [exact Hrun|]. by split.
Qed.

Lemma events_of_status st acc acc' ev :
  is_money ev = true ->
  a_status (account_at (events_of (<[acc := events_of st acc ++ [ev]]> st) acc')) =
  a_status (account_at (events_of st acc')).
Proof.
  intros Hev'. rewrite events_of_insert. case_bool_decide; [subst|done].
  unfold account_at, Account_Rehydrate. rewrite Account_replay_app. by destruct ev.
Qed.

(** ** One deposit or withdrawal over the wire *)
Definition call_move (typ : string) (req : MoneyRequest) : M SystemDB string :=
  if bool_decide (typ = EntryTypeDeposit) then call_Deposit req else call_Withdraw req.

Lemma call_move_run typ req w r w' :
  trusted -> w_faults w = [] -> account_server_move typ req w = (r, w') -> call_move typ req w = (rpc_result r, w').
Proof.
  intros Htr Hfl Hrun. unfold call_move, account_server_move in *.
  case_bool_decide; (eapply authorized_run; [done|done|set_solver|done|]); by intros _.
Qed.

Definition active st acc : Prop := a_status (account_at (events_of st acc)) = StatusActive.

(** Room for two more events. *)
Definition roomier st acc : Prop := Z.of_nat (length (events_of st acc)) + 1 < max_int64.

Lemma roomier_roomy st acc : roomier st acc -> roomy st acc.
Proof. unfold roomier, roomy. lia. Qed.

Lemma move_step_run typ key acc narr a w s st pst :
  trusted -> sys_inv w s st pst -> TrimSpace acc <> "" -> key <> "" -> 0 < a <= max_int64 ->
  typ = EntryTypeDeposit \/ typ = EntryTypeWithdrawal -> open_key s key ->
  0 <= spec_balance s acc + spec_delta typ a <= max_int64 -> active st acc -> roomy st acc ->
  exists w' p st', call_move typ (move_request key acc narr a) w = (Ok (p_entry p), w') /\
    as_expected p = (key, acc, spec_delta typ a) /\ sys_inv w' (s ++ [p]) st' pst /\
    (forall acc', active st acc' <-> active st' acc') /\
    (forall acc', roomier st acc' -> roomy st' acc').
Proof.
  intros Htr Hinv Hacc Hkey Ha Ht Hopen Hb Hact Hroom.
  pose proof (account_server_move_run typ key acc narr a w s st pst Htr Hinv Ht Hacc Hkey Ha Hroom) as Hrun.
  rewrite spec_post_fresh in Hrun by (done || lia).
  destruct Hrun as (w' & _ & _ & Hrun). rewrite bool_decide_true in Hrun by done.
  destruct Hrun as (Hrun & ev & Hev' & Hinv').
  exists w'. eexists (mkPosting key _ acc _), _. split.
  { by apply (call_move_run _ _ _ _ _ Htr (si_quiet _ _ _ _ Hinv)) in Hrun. }
  split_and!; [done|exact Hinv'|..].
  - intros acc'. unfold active. by rewrite events_of_status.
  - intros acc' Hr. unfold roomy, roomier in *. rewrite events_of_insert. case_bool_decide; [subst|lia].
    rewrite length_app. simpl. lia.
Qed.

(** The account is not active: the entry is in the ledger when the command is
    refused, and a retry finds it there. *)
Lemma move_refused_run typ key acc narr a w s st pst :
  trusted -> sys_inv w s st pst -> TrimSpace acc <> "" -> key <> "" -> 0 < a <= max_int64 ->
  typ = EntryTypeDeposit \/ typ = EntryTypeWithdrawal ->
  ~ active st acc -> roomy st acc ->
  (open_key s key -> 0 <= spec_balance s acc + spec_delta typ a <= max_int64) ->
  exists w' l, account_server_move typ (move_request key acc narr a) w = (Err ErrAccountNotActive, w') /\
    sys_inv w' (s ++ l) st pst /\
    (open_key s key -> map as_expected l = [(key, acc, spec_delta typ a)]) /\ (~ open_key s key -> l = []).
Proof.
  intros Htr Hinv Hacc Hkey Ha Ht Hina Hroom Hb.
  pose proof (account_server_move_run typ key acc narr a w s st pst Htr Hinv Ht Hacc Hkey Ha Hroom) as Hrun.
  destruct (spec_find key s) as [p|] eqn:Hf.
  - assert (spec_post (uuid_NewString (w_uuid w)) (post_cmd key acc typ narr a) s = (Ok (p_entry p), s)) as Hsp.
    { unfold spec_post. rewrite spec_check_post by (done || lia). simpl. by rewrite Hf. }
    rewrite Hsp in Hrun. destruct Hrun as (w' & _ & _ & Hrun). rewrite bool_decide_false in Hrun by done.
    destruct Hrun as [Hrun Hinv']. exists w', []. rewrite app_nil_r. split_and!; [done|done| |done].
    unfold open_key. congruence.
  - rewrite spec_post_fresh in Hrun by (done || lia || by apply Hb).
    destruct Hrun as (w' & _ & _ & Hrun). rewrite bool_decide_false in Hrun by done.
    destruct Hrun as [Hrun Hinv']. eexists w', [_]. by split_and!.
Qed.

(** ** The payment *)
Lemma payment_step_run op id key w s st pst :
  sys_inv w s st pst -> short pst id -> id <> "" -> key <> "" ->
  allowed op (status_of pst id) = true -> is_Some (pst !! id) ->
  exists res w' now, zoom (payment_command op id key) w = (Ok res, w') /\
    sys_inv w' s st (<[id := events_of pst id ++ [op_event (trimmed op) id now]]> pst).
Proof.
  intros Hinv Hshort Hid Hkey Hall Hsome.
  pose proof (payment_command_post op id key _ pst (si_payment _ _ _ _ Hinv) Hshort Hid Hkey) as Hpost. unfold wpm in Hpost.
  destruct (payment_command op id key _) as [r wp] eqn:Hrun. simpl in Hpost.
  destruct Hpost as [Hl Hr]. destruct r as [res|e].
  - destruct Hr as (-> & _ & _ & now & Hinv'). eexists _, _, now. split; [by apply zoom_run|].
    by apply (sys_inv_payment w s st pst).
  - exfalso. destruct Hr as [[He _]|[Hne _]]; [|by apply Hne, (si_quiet _ _ _ _ Hinv)].
    destruct He as [[? _]|(_ & Hnone & _)]; [congruence|]. by rewrite Hnone in Hsome; destruct Hsome.
Qed.

Lemma status_of_op op id now pst :
  status_of (<[id := events_of pst id ++ [op_event (trimmed op) id now]]> pst) id = op_target op.
Proof.
  unfold status_of. unfold events_of at 1. rewrite lookup_insert_eq. simpl. rewrite payment_at_snoc. by destruct op.
Qed.

(** ** Steps of the workflow *)
Section workflow.
Variable activity_error : error -> string.
Variable inp : TransferWorkflowInput.
Abbreviation id := (ti_PaymentID inp).
Abbreviation from := (ti_FromAccountID inp).
Abbreviation to := (ti_ToAccountID inp).
Abbreviation a := (ti_AmountKobo inp).

Lemma workflow_step_ok b (act : M SystemDB unit) reason w w' :
  w_faults w = [] -> act w = (Ok tt, w') -> workflow_step activity_error b inp act reason w = (Ok tt, w').
Proof.
  intros Hfl Hact. rewrite workflow_step_run. unfold ExecuteActivity, MaximumAttempts. simpl.
  unfold bindM, tryM. by rewrite (rpc_quiet _ _ _ _ Hfl Hact).
Qed.

(** An activity that fails every time: [P] before, [Q] after each attempt. *)
Lemma attempts_fail (P Q : World SystemDB -> Prop) (act : M SystemDB unit) e n w :
  (forall w0, Q w0 -> P w0) ->
  (forall w0, P w0 -> w_faults w0 = [] /\ exists w1, act w0 = (Err e, w1) /\ Q w1) -> P w ->
  exists w', attempts (S n) act w = (Err (rpc_error e), w') /\ Q w'.
Proof.
  intros HQP Hact. revert w. induction n as [|n IH]; intros w Hw; destruct (Hact w Hw) as (Hfl & w1 & Hrun & Hw1).
  - exists w1. split; [|done]. simpl. by rewrite (rpc_quiet _ _ _ _ Hfl Hrun).
  - destruct (IH w1 (HQP w1 Hw1)) as (w' & Hrun' & Hw'). exists w'. split; [|done].
    change (attempts (S (S n)) act) with (let! r := tryM (rpc act) in
      match r with Ok _ => retM tt | Err _ => attempts (S n) act end).
    unfold bindM, tryM. by rewrite (rpc_quiet _ _ _ _ Hfl Hrun).
Qed.

Hypothesis Hcur : ti_Currency inp = NGN.

Lemma Activity_Withdraw_run w r w' :
  call_move EntryTypeWithdrawal (move_request ("wdr-" +:+ id) from (ti_Narration inp) a) w = (r, w') ->
  Activity_Withdraw inp w = (match r with Ok _ => Ok tt | Err e => Err (EWrap "account withdraw" e) end, w').
Proof.
  intros Hrun. unfold Activity_Withdraw, with_amount, bindM, liftR, money_New. rewrite Hcur. simpl.
  unfold accountClient_Withdraw, wrap_err. unfold call_move, move_request in Hrun. simpl in Hrun. simpl.
  rewrite Hrun. by destruct r.
Qed.

Lemma Activity_Deposit_run w r w' :
  call_move EntryTypeDeposit (move_request ("dep-" +:+ id) to (ti_Narration inp) a) w = (r, w') ->
  Activity_Deposit inp w = (match r with Ok _ => Ok tt | Err e => Err (EWrap "account deposit" e) end, w').
Proof.
  intros Hrun. unfold Activity_Deposit, with_amount, bindM, liftR, money_New. rewrite Hcur. simpl.
  unfold accountClient_Deposit, wrap_err. unfold call_move, move_request in Hrun. simpl in Hrun. simpl.
  rewrite Hrun. by destruct r.
Qed.

Lemma Activity_Refund_run w r w' :
  call_move EntryTypeDeposit (move_request ("refund-" +:+ id) from (ti_Narration inp) a) w = (r, w') ->
  Activity_Refund inp w = (match r with Ok _ => Ok tt | Err e => Err (EWrap "account deposit" e) end, w').
Proof.
  intros Hrun. unfold Activity_Refund, with_amount, bindM, liftR, money_New. rewrite Hcur. simpl.
  unfold accountClient_Deposit, wrap_err. unfold call_move, move_request in Hrun. simpl in Hrun. simpl.
  rewrite Hrun. by destruct r.
Qed.

Lemma Activity_LedgerPost_run w entry w' :
  (call_PostEntry (Some (post_request ("ldg-wdr-" +:+ id) from EntryTypeWithdrawal (ti_Narration inp) a)) w =
     (Ok entry, w') -> Activity_LedgerPostWithdraw inp w = (Ok tt, w')) /\
  (call_PostEntry (Some (post_request ("ldg-dep-" +:+ id) to EntryTypeDeposit (ti_Narration inp) a)) w =
     (Ok entry, w') -> Activity_LedgerPostDeposit inp w = (Ok tt, w')).
Proof.
  split; intros Hrun; unfold Activity_LedgerPostWithdraw, Activity_LedgerPostDeposit, with_amount, bindM, liftR, money_New;
    rewrite Hcur; simpl; unfold ledgerClient_PostEntry, bindM, wrap_err; simpl; unfold post_request in Hrun.
  - change (entry_type EntryTypeWithdrawal) with ENTRY_TYPE_WITHDRAWAL in Hrun. simpl in Hrun. by rewrite Hrun.
  - change (entry_type EntryTypeDeposit) with ENTRY_TYPE_DEPOSIT in Hrun. simpl in Hrun. by rewrite Hrun.
Qed.

(** What a transfer needs. *)
Record transfer_ready s st : Prop := {
  tr_distinct : from <> to;
  tr_from : TrimSpace from <> "";
  tr_to : TrimSpace to <> "";
  tr_amount : 0 < a;
  tr_funds : 2 * a <= spec_balance s from;
  tr_fits : spec_balance s to + 2 * a <= max_int64;
  tr_keys : Forall (fun e => open_key s e.1.1) (transfer_entries inp);
  tr_active : active st from;
  tr_room_from : roomier st from;
  tr_room_to : roomier st to;
}.

(** The sender's side: both postings are in the ledger. *)
Lemma transfer_sender_run w s st pst :
  trusted -> sys_inv w s st pst -> transfer_ready s st ->
  exists w1 w2 s' st',
    workflow_step activity_error false inp (Activity_Withdraw inp) "withdrawal failed" w = (Ok tt, w1) /\
    workflow_step activity_error true inp (Activity_LedgerPostWithdraw inp) "ledger withdrawal entry failed" w1 =
      (Ok tt, w2) /\
    sys_inv w2 s' st' pst /\
    (forall acc, spec_balance s' acc = spec_balance s acc - (if bool_decide (from = acc) then 2 * a else 0)) /\
    (forall key, open_key s key -> "wdr-" +:+ id <> key -> "ldg-wdr-" +:+ id <> key -> open_key s' key) /\
    (forall acc, active st acc <-> active st' acc) /\ (forall acc, roomier st acc -> roomy st' acc).
Proof.
  intros Htr Hinv [Hne Hf Ht Ha Hfunds Hfits Hkeys Hact Hrf Hrt].
  assert (spec_balance s from <= max_int64) as Hmax
    by (apply (rf_range _ _ (si_ledger _ _ _ _ Hinv)); done).
  assert (0 < a <= max_int64) as Hamt by lia.
  inversion_clear Hkeys as [|? ? Hk1 Hkeys']. inversion_clear Hkeys' as [|? ? Hk2 _]. simpl in Hk1, Hk2.
  destruct (move_step_run EntryTypeWithdrawal ("wdr-" +:+ id) from (ti_Narration inp) a w s st pst)
    as (w1 & p1 & st1 & Hrun1 & Hp1 & Hinv1 & Hact1 & Hroom1); try done; [by right|change (spec_delta _ a) with (- a); lia|by apply roomier_roomy|].
  destruct (ledger_step_run ("ldg-wdr-" +:+ id) from EntryTypeWithdrawal (ti_Narration inp) a w1 (s ++ [p1]) st1 pst)
    as (w2 & p2 & Hrun2 & Hp2 & Hinv2); try done; [by right|..].
  { by eapply open_key_snoc; [done|exact Hp1|]. }
  { rewrite (balance_snoc _ _ _ _ _ _ Hp1), bool_decide_true by done.
    change (spec_delta _ a) with (- a). lia. }
  exists w1, w2, ((s ++ [p1]) ++ [p2]), st1. split_and!; try done.
  - apply workflow_step_ok; [apply (si_quiet _ _ _ _ Hinv)|]. exact (Activity_Withdraw_run _ _ _ Hrun1).
  - apply workflow_step_ok; [apply (si_quiet _ _ _ _ Hinv1)|].
    exact (proj1 (Activity_LedgerPost_run w1 (p_entry p2) w2) Hrun2).
  - intros acc. rewrite (balance_snoc _ _ _ _ _ _ Hp2), (balance_snoc _ _ _ _ _ _ Hp1).
    change (spec_delta _ a) with (- a). case_bool_decide; lia.
  - intros key Hk Hne1 Hne2. eapply open_key_snoc; [|exact Hp2|done]. by eapply open_key_snoc; [|exact Hp1|].
Qed.



(** The receiver's side, its account not active: the entry is posted by the
    first attempt, and every attempt is refused. *)
Lemma transfer_receiver_refused w s st pst :
  trusted -> sys_inv w s st pst -> TrimSpace to <> "" -> 0 < a -> 0 <= spec_balance s to ->
  spec_balance s to + a <= max_int64 ->
  open_key s ("dep-" +:+ id) -> ~ active st to -> roomy st to ->
  exists w' p, ExecuteActivity (Activity_Deposit inp) w =
      (Err (rpc_error (EWrap "account deposit" (rpc_error ErrAccountNotActive))), w') /\
    as_expected p = ("dep-" +:+ id, to, a) /\ sys_inv w' (s ++ [p]) st pst.
Proof.
  intros Htr Hinv Ht Ha Hnn Hfits Hk Hina Hroom. assert (0 < a <= max_int64) as Hamt by lia.
  set (Q := fun w' => exists p, as_expected p = ("dep-" +:+ id, to, a) /\ sys_inv w' (s ++ [p]) st pst).
  destruct (attempts_fail (fun w0 => sys_inv w0 s st pst \/ Q w0) Q (Activity_Deposit inp)
    (EWrap "account deposit" (rpc_error ErrAccountNotActive)) 4 w) as (w' & Hrun & p & Hp & Hinv'); [by right| |by left|].
  2: { by exists w', p. }
  intros w0 Hw0.
  assert (exists s0, sys_inv w0 s0 st pst /\ (s0 = s \/ exists p, as_expected p = ("dep-" +:+ id, to, a) /\ s0 = s ++ [p]))
    as (s0 & Hinv0 & Hs0) by (destruct Hw0 as [?|(p & ? & ?)]; eauto 10).
  split; [apply (si_quiet _ _ _ _ Hinv0)|].
  destruct (move_refused_run EntryTypeDeposit ("dep-" +:+ id) to (ti_Narration inp) a w0 s0 st pst)
    as (w1 & l & Hrun & Hinv1 & Hopen & Hclosed); try done; [by left| |].
  { intros Hk0. change (spec_delta _ a) with a. destruct Hs0 as [->|(p & Hp & ->)]; [lia|].
    unfold open_key in Hk0. rewrite spec_find_snoc, Hk in Hk0. injection Hp as Hp _ _.
    by rewrite bool_decide_true in Hk0. }
  exists w1. split.
  - apply (call_move_run _ _ _ _ _ Htr (si_quiet _ _ _ _ Hinv0)) in Hrun. exact (Activity_Deposit_run _ _ _ Hrun).
  - destruct Hs0 as [->|(p & Hp & ->)].
    + specialize (Hopen Hk). change (spec_delta _ a) with a in Hopen. destruct l as [|p [|]]; [done| |done].
      exists p. split; [|done]. unfold as_expected in *. simpl in Hopen. congruence.
    + rewrite Hclosed, app_nil_r in Hinv1; [by exists p|]. unfold open_key. rewrite spec_find_snoc, Hk.
      injection Hp as Hp _ _. by rewrite bool_decide_true.
Qed.

(** The compensation: the refund and the failure of the payment. *)
Lemma give_back_run reason err w s st pst :
  trusted -> sys_inv w s st pst -> TrimSpace from <> "" -> 0 < a -> 0 <= spec_balance s from ->
  spec_balance s from + a <= max_int64 -> open_key s ("refund-" +:+ id) -> active st from -> roomy st from ->
  id <> "" -> is_Some (pst !! id) -> status_of pst id <> StatusSettled -> short pst id ->
  exists w' p st' pst', give_back activity_error inp true reason err w = (Err err, w') /\
    as_expected p = ("refund-" +:+ id, from, a) /\ sys_inv w' (s ++ [p]) st' pst' /\
    status_of pst' id = StatusFailed /\ is_Some (pst' !! id).
Proof.
  intros Htr Hinv Hf Ha Hnn Hfits Hk Hact Hroom Hid Hsome Hns Hshort. assert (0 < a <= max_int64) as Hamt by lia.
  destruct (move_step_run EntryTypeDeposit ("refund-" +:+ id) from (ti_Narration inp) a w s st pst)
    as (w1 & p & st1 & Hrun1 & Hp & Hinv1 & _); try done; [by left|change (spec_delta _ a) with a; lia|].
  destruct (payment_step_run (OpFail (reason +:+ ": " +:+ activity_error err)) id ("fail-" +:+ id) w1 (s ++ [p]) st1 pst)
    as (res & w2 & now & Hrun2 & Hinv2); try done; [by apply negb_true_iff, bool_decide_eq_false|].
  exists w2, p, st1. eexists. split_and!; [|done|exact Hinv2|apply (status_of_op (OpFail _))|rewrite lookup_insert_eq; by eexists].
  assert (rpc (Activity_Refund inp) w = (Ok tt, w1)) as Hrefund.
  { apply (rpc_quiet _ _ (Ok tt)); [apply (si_quiet _ _ _ _ Hinv)|]. exact (Activity_Refund_run _ _ _ Hrun1). }
  assert (rpc (Activity_FailPayment id (reason +:+ ": " +:+ activity_error err)) w1 = (Ok tt, w2)) as Hfail.
  { apply (rpc_quiet _ _ (Ok tt)); [apply (si_quiet _ _ _ _ Hinv1)|]. unfold Activity_FailPayment, bindM.
    change (FailPaymentHandler_Handle ?x ?y ?z) with (payment_command (OpFail z) x y). by rewrite Hrun2. }
  unfold give_back, ExecuteActivity, MaximumAttempts. cbn [attempts]. unfold bindM, tryM, retM. by rewrite Hrefund, Hfail.
Qed.
End workflow.

(** ** The preconditions, as the databases show them *)
Definition sys_ok w : Prop := exists s st pst, sys_inv w s st pst.

Definition active_account w (acc : string) : Prop :=
  exists p, ac_projection (sys_account (w_db w)) !! acc = Some p /\ ap_Status p = StatusActive /\
    ap_Version p + 1 < max_int64.

Record transferable (inp : TransferWorkflowInput) w : Prop := {
  td_currency : ti_Currency inp = NGN;
  td_distinct : ti_FromAccountID inp <> ti_ToAccountID inp;
  td_from : TrimSpace (ti_FromAccountID inp) <> "";
  td_to : TrimSpace (ti_ToAccountID inp) <> "";
  td_id : ti_PaymentID inp <> "";
  td_amount : 0 < ti_AmountKobo inp;
  td_funds : 2 * ti_AmountKobo inp <= ledger_balance w (ti_FromAccountID inp);
  td_fits : ledger_balance w (ti_ToAccountID inp) + 2 * ti_AmountKobo inp <= max_int64;
  td_keys : forall e, e ∈ refund_entry inp :: transfer_entries inp -> l_idem (sys_ledger (w_db w)) !! e.1.1 = None;
  td_sender : active_account w (ti_FromAccountID inp);
  td_payment : exists p, pd_projection (sys_payment (w_db w)) !! ti_PaymentID inp = Some p /\
    pp_Status p = StatusInitiated /\ pp_Version p < 10000;
}.

Lemma sys_balance w s st pst acc : sys_inv w s st pst -> ledger_balance w acc = spec_balance s acc.
Proof. intros Hinv. apply (rf_balance _ _ (si_ledger _ _ _ _ Hinv)). Qed.

Lemma active_account_inv w s st pst acc :
  sys_inv w s st pst -> active_account w acc -> active st acc /\ roomier st acc.
Proof.
  intros Hinv (p & Hp & Hst & Hv). pose proof (ai_projection _ _ (si_account _ _ _ _ Hinv) acc) as Hproj.
  simpl in Hproj. rewrite Hp in Hproj. symmetry in Hproj. apply fmap_Some in Hproj as (ds & Hds & ->).
  unfold active, roomier, events_of. rewrite Hds. by split.
Qed.

Lemma unknown_account_inv w s st pst acc :
  sys_inv w s st pst -> ac_projection (sys_account (w_db w)) !! acc = None -> events_of st acc = [].
Proof.
  intros Hinv Hp. pose proof (ai_projection _ _ (si_account _ _ _ _ Hinv) acc) as Hproj.
  simpl in Hproj. rewrite Hp in Hproj. symmetry in Hproj. apply fmap_None in Hproj.
  unfold events_of. by rewrite Hproj.
Qed.

Lemma payment_projection_inv w s st pst id p :
  sys_inv w s st pst -> pd_projection (sys_payment (w_db w)) !! id = Some p ->
  is_Some (pst !! id) /\ status_of pst id = pp_Status p /\ Z.of_nat (length (events_of pst id)) = pp_Version p.
Proof.
  intros Hinv Hp. pose proof (pi_projection _ _ (si_payment _ _ _ _ Hinv) id) as Hproj. simpl in Hproj.
  rewrite Hp in Hproj. unfold status_of, events_of. destruct (pst !! id) as [ds|]; [|done].
  destruct Hproj as (_ & -> & ->). by split_and!.
Qed.

Lemma payment_status_shown w s st pst id :
  sys_inv w s st pst -> is_Some (pst !! id) ->
  exists p, pd_projection (sys_payment (w_db w)) !! id = Some p /\ pp_Status p = status_of pst id.
Proof.
  intros Hinv [ds Hds]. pose proof (pi_projection _ _ (si_payment _ _ _ _ Hinv) id) as Hproj. simpl in Hproj.
  unfold status_of, events_of. rewrite Hds in *. destruct (pd_projection _ !! id) as [p|]; [|done].
  exists p. by destruct Hproj as (_ & -> & _).
Qed.

Lemma open_key_inv w s st pst key :
  sys_inv w s st pst -> l_idem (sys_ledger (w_db w)) !! key = None -> open_key s key.
Proof.
  intros Hinv Hk. pose proof (rf_idem _ _ (si_ledger _ _ _ _ Hinv) key) as Hi. simpl in Hi. rewrite Hi in Hk.
  by apply fmap_None in Hk.
Qed.

Lemma sys_balance_nonneg w s st pst acc : sys_inv w s st pst -> 0 <= spec_balance s acc <= max_int64.
Proof. intros Hinv. by apply (rf_range _ _ (si_ledger _ _ _ _ Hinv)). Qed.

Lemma transferable_ready inp w s st pst :
  sys_inv w s st pst -> transferable inp w -> roomier st (ti_ToAccountID inp) -> transfer_ready inp s st.
Proof.
  intros Hinv [] Hroom. destruct (active_account_inv _ _ _ _ _ Hinv td_sender0) as [Hact Hr].
  rewrite (sys_balance _ _ _ _ _ Hinv) in td_funds0. rewrite (sys_balance _ _ _ _ _ Hinv) in td_fits0.
  split; try done. apply Forall_forall. intros e He. eapply open_key_inv; [done|]. apply td_keys0. by right.
Qed.

(** ** Theorems *)


(** A transfer to an account that does not exist fails and moves the
    money all the same: nothing is lost on the way, the deposit is refused
    five times, the one refund gives back one of the two withdrawals, the
    payment is marked failed, and yet the sender is short of the amount and
    the ledger shows it on the account that does not exist. *)
Theorem transfer_to_unknown_account_moves_money activity_error inp w :
  trusted -> sys_ok w -> transferable inp w ->
  ac_projection (sys_account (w_db w)) !! ti_ToAccountID inp = None ->
  exists e w', TransferWorkflow activity_error inp w = (Err e, w') /\
    ledger_balance w' (ti_FromAccountID inp) = ledger_balance w (ti_FromAccountID inp) - ti_AmountKobo inp /\
    ledger_balance w' (ti_ToAccountID inp) = ledger_balance w (ti_ToAccountID inp) + ti_AmountKobo inp /\
    exists p, pd_projection (sys_payment (w_db w')) !! ti_PaymentID inp = Some p /\ pp_Status p = StatusFailed.
Proof.
  intros Htr (s & st & pst & Hinv) Htd Hto.
  pose proof (unknown_account_inv _ _ _ _ _ Hinv Hto) as Hnil.
  assert (roomier st (ti_ToAccountID inp)) as Hroom by (unfold roomier, max_int64; rewrite Hnil; simpl; lia).
  assert (~ active st (ti_ToAccountID inp)) as Hina by (unfold active; by rewrite Hnil).
  pose proof (transferable_ready _ _ _ _ _ Hinv Htd Hroom) as Hready. pose proof Hready as [].
  destruct Htd as [Hcur _ _ _ Hid _ _ _ Hkeys _ (p & Hp & Hst & Hv)].
  assert (open_key s ("refund-" +:+ ti_PaymentID inp)) as Hkr.
  { eapply open_key_inv; [done|]. apply (Hkeys (refund_entry inp)). left. }
  destruct (payment_projection_inv _ _ _ _ _ _ Hinv Hp) as (Hsome & Hstat & Hlen).
  destruct (transfer_sender_run activity_error inp Hcur w s st pst Htr Hinv Hready)
    as (w1 & w2 & s2 & st2 & Hrun1 & Hrun2 & Hinv2 & Hb & Hopen & Hact2 & Hroom2).
  inversion_clear tr_keys0 as [|? ? _ Hk]. inversion_clear Hk as [|? ? _ Hk'].
  inversion_clear Hk' as [|? ? Hk3 _]. simpl in Hk3.
  pose proof (sys_balance_nonneg _ _ _ _ (ti_FromAccountID inp) Hinv) as Hmax.
  destruct (transfer_receiver_refused inp Hcur w2 s2 st2 pst)
    as (w3 & p3 & Hrun3 & Hp3 & Hinv3); try done.
  { by eapply sys_balance_nonneg. }
  { rewrite Hb, bool_decide_false by done. lia. }
  { by apply Hopen. }
  { by rewrite <-Hact2. }
  { by apply Hroom2. }
  set (err := rpc_error (EWrap "account deposit" _)) in Hrun3.
  destruct (give_back_run activity_error inp Hcur "deposit failed" err w3 (s2 ++ [p3]) st2 pst)
    as (w4 & p4 & st4 & pst4 & Hrun4 & Hp4 & Hinv4 & Hst4 & Hs4); try done.
  { by eapply sys_balance_nonneg. }
  { rewrite (balance_snoc _ _ _ _ _ _ Hp3), Hb, bool_decide_true, bool_decide_false by done. lia. }
  { eapply open_key_snoc; [|exact Hp3|done]. by apply Hopen. }
  { by apply Hact2. }
  { by apply Hroom2. }
  { by rewrite Hstat, Hst. }
  { unfold short. lia. }
  exists err, w4. split.
  { unfold TransferWorkflow, bindM. rewrite Hrun1, Hrun2, workflow_step_run, Hrun3, Hrun4. done. }
  rewrite !(sys_balance _ _ _ _ _ Hinv4), !(sys_balance _ _ _ _ _ Hinv).
  rewrite !(balance_snoc _ _ _ _ _ _ Hp4), !(balance_snoc _ _ _ _ _ _ Hp3), !Hb.
  split; [|split].
  - rewrite !(bool_decide_true (ti_FromAccountID inp = ti_FromAccountID inp)), bool_decide_false by done. lia.
  - rewrite !(bool_decide_true (ti_ToAccountID inp = ti_ToAccountID inp)), !bool_decide_false by done. lia.
  - destruct (payment_status_shown _ _ _ _ _ Hinv4 Hs4) as (pr & Hpr & Hprs). exists pr. by rewrite Hprs.
Qed.

(** Depositing into an account that does not exist is refused by the
    account service, and the ledger has credited the account by then. *)
Theorem refused_deposit_credits_ledger key acc narr a w :
  trusted -> sys_ok w -> TrimSpace acc <> "" -> key <> "" -> 0 < a ->
  ledger_balance w acc + a <= max_int64 -> l_idem (sys_ledger (w_db w)) !! key = None ->
  ac_projection (sys_account (w_db w)) !! acc = None ->
  exists w', account_server_Deposit (move_request key acc narr a) w = (Err ErrAccountNotActive, w') /\
    ledger_balance w' acc = ledger_balance w acc + a /\ ac_projection (sys_account (w_db w')) !! acc = None.
Proof.
  intros Htr (s & st & pst & Hinv) Hacc Hkey Ha Hfits Hk Hun.
  pose proof (unknown_account_inv _ _ _ _ _ Hinv Hun) as Hnil. rewrite (sys_balance _ _ _ _ _ Hinv) in Hfits.
  pose proof (sys_balance_nonneg _ _ _ _ acc Hinv) as Hnn.
  destruct (move_refused_run EntryTypeDeposit key acc narr a w s st pst) as (w' & l & Hrun & Hinv' & Hl & _);
    try done; [lia|by left|unfold active; by rewrite Hnil|unfold roomy, max_int64; rewrite Hnil; simpl; lia|
               intros _; change (spec_delta _ a) with a; lia|].
  exists w'. split; [done|]. split.
  - rewrite (sys_balance _ _ _ _ _ Hinv'), (sys_balance _ _ _ _ _ Hinv), spec_balance_app, (spec_balance_total l), Hl
      by (by eapply open_key_inv). simpl. rewrite bool_decide_true by done. change (spec_delta _ a) with a. lia.
  - pose proof (ai_projection _ _ (si_account _ _ _ _ Hinv') acc) as Hp'. simpl in Hp'. rewrite Hp'.
    pose proof (ai_projection _ _ (si_account _ _ _ _ Hinv) acc) as Hp. simpl in Hp. rewrite Hp in Hun. done.
Qed.

(** ** Calls without credentials *)
Definition refused {A} (m : M SystemDB A) : Prop := forall w, is_ok (m w).1 = false /\ w_db (m w).2 = w_db w.

Lemma refused_bind {A B} (m : M SystemDB A) (k : A -> M SystemDB B) : refused m -> refused (bindM m k).
Proof. intros Hm w. destruct (Hm w) as [Hr Hdb]. unfold bindM. by destruct (m w) as [[] w']. Qed.
Lemma refused_after {A B} (r : result A) (k : A -> M SystemDB B) :
  (forall a, refused (k a)) -> refused (bindM (liftR r) k).
Proof. intros Hk w. destruct r as [a|e]; [apply (Hk a)|done]. Qed.
Lemma refused_check {B} b e (k : unit -> M SystemDB B) : refused (k tt) -> refused (bindM (fail_if b e) k).
Proof. intros Hk w. destruct b; [done|apply (Hk w)]. Qed.
Lemma refused_wrap {A} ctx (m : M SystemDB A) : refused m -> refused (wrap_err ctx m).
Proof. intros Hm w. destruct (Hm w) as [Hr Hdb]. unfold wrap_err. by destruct (m w) as [[] w']. Qed.
Lemma refused_rpc {A} (m : M SystemDB A) : refused m -> refused (rpc m).
Proof.
  intros Hm w. unfold rpc, next_fault. destruct (w_faults w) as [|[] fl]; [..|done|].
  - destruct (Hm w) as [Hr Hdb]. by destruct (m w) as [[] w'].
  - set (w1 := mkWorld _ _ _ _ _ _ _). destruct (Hm w1) as [Hr Hdb]. by destruct (m w1) as [[] w'].
  - set (w1 := mkWorld _ _ _ _ _ _ _). destruct (Hm w1) as [Hr Hdb]. by destruct (m w1) as [[] w'].
Qed.
Lemma refused_attempts n (act : M SystemDB unit) : refused act -> refused (attempts n act).
Proof.
  intros Ha. apply refused_rpc in Ha. induction n as [|[|n] IH]; [by intros w|exact Ha|]. intros w.
  change (attempts (S (S n)) act) with (let! r := tryM (rpc act) in
    match r with Ok _ => retM tt | Err _ => attempts (S n) act end).
  unfold bindM, tryM. destruct (Ha w) as [Hr Hdb]. destruct (rpc act w) as [[] w1]; [done|]. simpl in Hdb.
  destruct (IH w1) as [Hr' Hdb']. by rewrite Hdb', Hdb.
Qed.

(** Computations that leave the ledger and the accounts alone. *)
Definition same_money w w' : Prop :=
  sys_ledger (w_db w') = sys_ledger (w_db w) /\ sys_account (w_db w') = sys_account (w_db w).
Definition payment_only {A} (m : M SystemDB A) : Prop := forall w, same_money w (m w).2.

Lemma same_money_trans w1 w2 w3 : same_money w1 w2 -> same_money w2 w3 -> same_money w1 w3.
Proof. unfold same_money. intros [-> ->] [-> ->]. done. Qed.
Lemma payment_only_zoom {A} (m : M PaymentDB A) : payment_only (zoom m : M SystemDB A).
Proof. intros w. unfold zoom. by destruct (m _). Qed.
Lemma payment_only_bind {A B} (m : M SystemDB A) (k : A -> M SystemDB B) :
  payment_only m -> (forall a, payment_only (k a)) -> payment_only (bindM m k).
Proof.
  intros Hm Hk w. specialize (Hm w). unfold bindM. destruct (m w) as [[a|e] w']; [|done].
  by eapply same_money_trans; [exact Hm|apply Hk].
Qed.
Lemma payment_only_try {A} (m : M SystemDB A) : payment_only m -> payment_only (tryM m).
Proof. intros Hm w. specialize (Hm w). unfold tryM. by destruct (m w). Qed.
Lemma payment_only_rpc {A} (m : M SystemDB A) : payment_only m -> payment_only (rpc m).
Proof.
  intros Hm w. unfold rpc, next_fault. destruct (w_faults w) as [|[] fl]; [..|done|].
  - specialize (Hm w). by destruct (m w).
  - match goal with |- context [m ?w1] => specialize (Hm w1); by destruct (m w1) end.
  - match goal with |- context [m ?w1] => specialize (Hm w1); by destruct (m w1) end.
Qed.
Lemma payment_only_attempts n (act : M SystemDB unit) : payment_only act -> payment_only (attempts n act).
Proof.
  intros Ha%payment_only_rpc. induction n as [|[|n] IH]; [done|exact Ha|].
  apply payment_only_bind; [by apply payment_only_try|]. by intros [].
Qed.

(** A step of a transfer that is refused only fails the payment. *)
Lemma refused_step activity_error inp (act : M SystemDB unit) reason w :
  refused act ->
  let '(r, w') := workflow_step activity_error false inp act reason w in is_ok r = false /\ same_money w w'.
Proof.
  intros Hact. rewrite workflow_step_run. unfold ExecuteActivity.
  destruct (refused_attempts MaximumAttempts act Hact w) as [_ Hdb].
  destruct (attempts MaximumAttempts act w) as [[] w1] eqn:Hrun.
  { destruct (refused_attempts MaximumAttempts act Hact w) as [Hr _]. by rewrite Hrun in Hr. }
  simpl in Hdb. assert (same_money w w1) as Hs by (unfold same_money; by rewrite Hdb).
  unfold give_back, bindM, retM, tryM, failM, ExecuteActivity.
  assert (payment_only (attempts MaximumAttempts (Activity_FailPayment (DB := SystemDB) (ti_PaymentID inp)
    (reason +:+ ": " +:+ activity_error e)))) as Hp.
  { apply payment_only_attempts, payment_only_bind; [apply payment_only_zoom|done]. }
  specialize (Hp w1). destruct (attempts _ _ w1) as [r w2]. split; [done|]. by eapply same_money_trans.
Qed.

(** The services refuse one another: as the clients are written they
    send no authorization, so without a gateway certificate every internal
    call is refused; no deposit or withdrawal succeeds or changes anything,
    and no transfer succeeds or moves money. *)
Theorem internal_calls_refused :
  md_Get service_md "authorization" = [] -> ~ from_gateway spiffe_parse gateway_id service_peer ->
  (forall req, refused (account_server_Deposit req) /\ refused (account_server_Withdraw req)) /\
  (forall activity_error inp w, let '(r, w') := TransferWorkflow activity_error inp w in
     is_ok r = false /\ same_money w w').
Proof.
  intros Hmd Hgw.
  assert (forall {A} perms method perm (handler : Z -> M SystemDB A),
    required_perm perms method = Some perm -> refused (authorized perms method handler)) as Hcall.
  { intros A perms method perm handler Hperm. apply refused_rpc. intros w.
    unfold UnaryAuthzInterceptor, call_payload. rewrite Hperm, Hmd.
    destruct (payloadFromGatewayHeaders _ _ _ _) eqn:Hg; [|done]. by apply gateway_headers_peer in Hg. }
  split.
  - intros [acc [pm|] key narr]; [|by split].
    split; (apply refused_after; intros m; apply refused_bind;
      intros w; unfold DepositMoneyHandler_Handle, WithdrawMoneyHandler_Handle, money_command_check, bindM, fail_if;
      simpl; destruct (is_empty acc), (is_empty key); try done; simpl; unfold liftR;
      destruct (ValidateNGNAmountPositive m); try done; simpl;
      unfold LedgerClient_PostEntry, bindM; simpl;
      match goal with |- context [call_PostEntry ?req w] =>
        destruct (Hcall string ledger_perms "/fincore.ledger.v1.LedgerService/PostEntry" "ledger:write"
          (fun _ => zoom (server_PostEntry req)) eq_refl w) as [Hr Hdb];
        unfold call_PostEntry; by destruct (authorized _ _ _ w) as [[] w'] end).
  - intros activity_error inp w.
    assert (refused (Activity_Withdraw inp)) as Hact.
    { apply refused_after. intros m. apply refused_bind, refused_wrap. by eapply Hcall. }
    pose proof (refused_step activity_error inp _ "withdrawal failed" w Hact) as Hs.
    unfold TransferWorkflow, bindM at 1. destruct (workflow_step _ _ _ _ _ w) as [[] w']; naive_solver.
Qed.

(** The saga moves no money on the events the service itself writes: the
    amount is lost when the event is marshalled, the first withdrawal is
    refused for lack of a currency, and the saga fails the payment. *)
Theorem saga_moves_nothing id from to amount narr t w :
  let '(r, w') := ProcessEvent EventPaymentInitiated
    (BJson (PaymentEvent_Marshal (PaymentInitiated id from to amount narr t))) w in
  is_ok r = false /\ same_money w w'.
Proof.
  unfold ProcessEvent, handlePaymentInitiated. rewrite bool_decide_true by done.
  pose proof (UnmarshalPaymentEvent_Marshal (PaymentInitiated id from to amount narr t)) as Hu.
  change (UnmarshalPaymentEvent _ ?b) with (json_PaymentInitiated b) in Hu. rewrite Hu. simpl erase_payment.
  unfold bindM at 1, liftR. unfold saga_transfer, bindM at 1, saga_step at 1, bindM at 1, tryM at 1.
  assert (refused (ta_Withdraw from Money_zero ("wdr-" +:+ id) narr)) as Hact.
  { apply refused_wrap, refused_rpc. intros w0. unfold UnaryAuthzInterceptor. simpl. unfold bindM, liftR, fail_if.
    destruct (call_payload _ _ _ _ _); [|done]. by destruct (existsb _ _). }
  destruct (Hact w) as [Hr Hdb]. destruct (ta_Withdraw _ _ _ _ w) as [[] w1]; [done|]. simpl in Hdb.
  assert (same_money w w1) as Hs by (unfold same_money; by rewrite Hdb).
  unfold bindM, bestEffortFailPayment.
  match goal with |- context [tryM ?m] => assert (payment_only (tryM m)) as Hp
    by apply payment_only_try, payment_only_zoom end.
  specialize (Hp w1). unfold bindM. destruct (tryM _ w1) as [[] w2]; simpl in *; (split; [done|]);
    by eapply same_money_trans.
Qed.
End run.
