(* ===== verification/AccountRetry.v ===== *)
(** * A command sent again to the account service

    The ledger recognises the idempotency key of a deposit or a withdrawal,
    the account service does not look at it. *)
From S2P Require Import Prelude GoStrings Json Money EventStore Streams Outbox Ledger LedgerSpec LedgerProps.
From S2P Require Import Account AccountSpec AccountStore Payment PaymentSpec PaymentStore PaymentProps.
From S2P Require Import Transfer Authz System SystemProps TransferProps TransferRun.
#[local] Open Scope Z_scope.
#[local] Open Scope go_scope.

Section retry.
Context `{Hev : Env} `{Henv : !EnvOk} `{Hdep : Deployment}.
Implicit Types (w : World SystemDB) (s : list posting).
Implicit Types (st : gmap string (list AccountEvent)) (pst : gmap string (list PaymentEvent)).

Lemma sys_rows w s st pst acc : sys_inv w s st pst ->
  length (rows_for acc (ac_events (sys_account (w_db w)))) = length (events_of st acc).
Proof. intros Hinv. apply (encodes_length _ _ _ _ (ai_streams _ _ (si_account _ _ _ _ Hinv) acc)). Qed.
(** A posting whose key is known returns its entry and posts nothing. *)
Lemma spec_post_known id key acc typ narr a s p :
  key <> "" -> TrimSpace acc <> "" -> typ = EntryTypeDeposit \/ typ = EntryTypeWithdrawal -> 0 < a ->
  spec_find key s = Some p -> spec_post id (post_cmd key acc typ narr a) s = (Ok (p_entry p), s).
Proof. intros Hk Ha Ht Hpos Hf. unfold spec_post. rewrite spec_check_post by done. simpl. by rewrite Hf. Qed.

(** C7. A deposit or a withdrawal sent twice with one idempotency key moves
    the money once, if the calls between the services carry credentials with
    the permissions needed, the databases are consistent and nothing fails,
    the account is active with room for two more events, the key is new and
    the balance stays in range: both calls then succeed with the same ledger
    entry, and the balance changes by the amount once. The account service,
    however, records it twice: the stream of the account is two events longer.
    (As the processes are wired the calls between the services carry no
    credentials and are refused: [internal_calls_refused].) *)
Theorem deposit_retry typ key acc narr a w :
  trusted -> sys_ok w -> typ = EntryTypeDeposit \/ typ = EntryTypeWithdrawal ->
  TrimSpace acc <> "" -> key <> "" -> 0 < a <= max_int64 -> l_idem (sys_ledger (w_db w)) !! key = None ->
  0 <= ledger_balance w acc + spec_delta typ a <= max_int64 -> active_account w acc ->
  let call := account_server_move typ (move_request key acc narr a) in
  exists entry w1 w2, call w = (Ok entry, w1) /\ call w1 = (Ok entry, w2) /\
    ledger_balance w2 acc = ledger_balance w acc + spec_delta typ a /\
    length (rows_for acc (ac_events (sys_account (w_db w2)))) =
      S (S (length (rows_for acc (ac_events (sys_account (w_db w)))))).
Proof.
  intros Htr (s & st & pst & Hinv) Ht Hacc Hkey Ha Hfree Hb Hactive call.
  destruct (active_account_inv _ _ _ _ _ Hinv Hactive) as [Hact Hroom]. rewrite (sys_balance _ _ _ _ _ Hinv) in Hb.
  assert (open_key s key) as Hopen.
  { pose proof (rf_idem _ _ (si_ledger _ _ _ _ Hinv) key) as Hi. simpl in Hi. rewrite Hfree in Hi.
    unfold open_key. by destruct (spec_find key s). }
  pose proof (account_server_move_run typ key acc narr a w s st pst Htr Hinv Ht Hacc Hkey Ha (roomier_roomy _ _ Hroom)) as Hrun.
  rewrite spec_post_fresh in Hrun by (done || lia). destruct Hrun as (w1 & _ & _ & Hrun).
  rewrite bool_decide_true in Hrun by done. destruct Hrun as (Hrun1 & ev & Hev1 & Hinv1).
  set (p := mkPosting key _ acc _) in *. set (st1 := <[acc := _]> st) in *.
  assert (events_of st1 acc = events_of st acc ++ [ev]) as He1 by (unfold st1; by rewrite events_of_insert, bool_decide_true).
  assert (roomy st1 acc) as Hroom1 by (unfold roomy, roomier in *; rewrite He1, length_app; simpl; lia).
  assert (a_status (account_at (events_of st1 acc)) = StatusActive) as Hact1 by (unfold st1; by rewrite events_of_status).
  pose proof (account_server_move_run typ key acc narr a w1 (s ++ [p]) st1 pst Htr Hinv1 Ht Hacc Hkey Ha Hroom1) as Hrun.
  rewrite (spec_post_known _ _ _ _ _ _ _ p) in Hrun; [|done..|lia|].
  2: { unfold open_key in Hopen. rewrite spec_find_snoc, Hopen. by rewrite bool_decide_true. }
  destruct Hrun as (w2 & _ & _ & Hrun). rewrite bool_decide_true in Hrun by done. destruct Hrun as (Hrun2 & ev2 & _ & Hinv2).
  exists (p_entry p), w1, w2. split_and!; [done|done|..].
  - rewrite (sys_balance _ _ _ _ _ Hinv2), (sys_balance _ _ _ _ _ Hinv), (balance_snoc s p key acc (spec_delta typ a)) by done.
    by rewrite bool_decide_true.
  - rewrite (sys_rows _ _ _ _ _ Hinv2), (sys_rows _ _ _ _ _ Hinv), events_of_insert, bool_decide_true by done.
    rewrite He1, !length_app. simpl. lia.
Qed.
End retry.
