(* ===== verification/Sample.v ===== *)
(** * A sample deployment

    A concrete environment and small databases on which the theorems are
    evaluated: identifiers are numbered, the clock counts, the services trust
    one another, and two customers hold accounts. *)
From S2P Require Import Prelude GoStrings Json Money EventStore Streams Outbox Ledger LedgerSpec LedgerProps.
From S2P Require Import Account AccountSpec AccountStore AccountProps Payment PaymentSpec PaymentStore.
From S2P Require Import PaymentProps Transfer Authz System SystemProps TransferProps TransferRun.
#[local] Open Scope Z_scope.
#[local] Open Scope go_scope.

#[export] Instance sample_env : Env := {|
  uuid_NewString n := "id-" +:+ pretty n;
  clock_Now n := Z.of_nat n + 1;
|}.

#[export] Instance sample_env_ok : EnvOk.
Proof.
  split.
  - intros n m Heq. apply (inj (String.append "id-")) in Heq. by apply (inj pretty) in Heq.
  - intros n. done.
  - intros n. simpl. lia.
Qed.

(** ** The ledger *)
Definition ledger0 : World LedgerDB :=
  mkWorld (mkLedgerDB (mkEventTables [] []) upsert_columns ∅ ∅ (mkOutboxTable migrated_columns [])) 1 0 0 0 [] [].

Definition salary : PostEntry := mkPostEntry "k1" "alice" EntryTypeDeposit (mkMoney 500 NGN) "salary" 0.
Definition rent (amount : Z) : PostEntry := mkPostEntry "k2" "alice" EntryTypeWithdrawal (mkMoney amount NGN) "rent" 0.

Definition ledger1 : World LedgerDB := (PostEntryHandler_Handle salary ledger0).2.

Lemma money_in_range a cur : 0 <= a <= max_int64 -> money_ok (mkMoney a cur).
Proof. unfold money_ok, in_int64, min_int64, max_int64. simpl. lia. Qed.

Lemma ledger0_init : ledger_init ledger0.
Proof. split; [done|]. by exists upsert_columns. Qed.

Lemma ledger1_reachable : ledger_reachable ledger1.
Proof.
  exists ledger0. split; [apply ledger0_init|]. apply rtc_once, step_post. by apply money_in_range.
Qed.

Definition ledger1_log : list posting := [mkPosting "k1" "id-0" "alice" 500].

Lemma ledger1_refines : refines ledger1 ledger1_log.
Proof.
  pose proof (PostEntry_quiet salary ledger0 [] (refines_init _ ledger0_init) ltac:(by apply money_in_range) eq_refl)
    as (w' & Hrun & Hr & _). unfold ledger1. rewrite Hrun. exact Hr.
Qed.

Lemma ledger1_balances : l_balances (w_db ledger1) = {[("alice", 1) := 500]}.
Proof. vm_compute. reflexivity. Qed.

(** ** Accounts and payments *)
Definition accounts0 : World AccountDB :=
  mkWorld (mkAccountDB (mkEventTables [] []) (mkOutboxTable migrated_columns []) ∅) 1 0 0 0 [] [].
Definition accounts1 : World AccountDB := (OpenAccountHandler_Handle "alice" "open-1" accounts0).2.

Lemma accounts1_reachable : account_reachable accounts1.
Proof. exists accounts0. split; [done|]. apply rtc_once, step_open. Qed.

Definition payments0 : World PaymentDB :=
  mkWorld (mkPaymentDB (mkEventTables [] []) (mkOutboxTable migrated_columns []) ∅) 1 0 0 0 [] [].
Definition payment_request : InitiatePayment := mkInitiatePayment "alice" "bob" (mkMoney 100 NGN) "rent" "pay-1".
Definition payments1 : World PaymentDB := (InitiatePaymentHandler_Handle TemporalNil payment_request payments0).2.
Definition payments2 : World PaymentDB := (payment_command OpAuthorize "id-0" "auth" payments1).2.
Definition payments3 : World PaymentDB := (payment_command OpSettle "id-0" "settle" payments2).2.

Lemma payments0_reachable : payment_reachable payments0.
Proof. by exists payments0. Qed.
Lemma payments1_reachable : payment_reachable payments1.
Proof. exists payments0. split; [done|]. apply rtc_once, step_initiate. Qed.

Lemma stream_shortb w id : Nat.leb (length (rows_for id (pd_events (w_db w)))) 10 = true -> stream_short w id.
Proof. intros Hl%Nat.leb_le. unfold stream_short. lia. Qed.

Lemma change_reachable op id key w :
  payment_reachable w -> stream_short w id -> payment_reachable (payment_command op id key w).2.
Proof.
  intros (w0 & Hinit & Hst) Hs. exists w0. split; [done|]. eapply rtc_r; [exact Hst|]. by apply step_change.
Qed.

Lemma payments2_reachable : payment_reachable payments2.
Proof.
  apply change_reachable; [apply payments1_reachable|]. apply stream_shortb. vm_compute. reflexivity.
Qed.

Lemma payments3_reachable : payment_reachable payments3.
Proof.
  apply change_reachable; [apply payments2_reachable|]. apply stream_shortb. vm_compute. reflexivity.
Qed.

(** ** The three services *)
#[export] Instance sample_deployment : Deployment := {|
  spiffe_parse s := Some s;
  verify_token _ := Ok (mkTokenPayload "payment-service" [] ["ledger:write"; "ledger:read"; "account:write"] 0 0 0);
  gateway_id := "";
  service_md := {["authorization" := ["Bearer t"]]};
  service_peer := None;
|}.

(** The clients as shipped: no metadata, a certificate of their own. *)
Definition bare_deployment : Deployment := {|
  spiffe_parse s := Some s;
  verify_token _ := Err (ENew "invalid token");
  gateway_id := "";
  service_md := ∅;
  service_peer := Some [Some "spiffe://fincore.local/ns/default/sa/payment-service"];
|}.

Lemma sample_trusted : trusted.
Proof. eexists. split; [reflexivity|]. done. Qed.

Definition system0 : World SystemDB :=
  mkWorld (mkSystemDB (w_db ledger0) (w_db accounts0) (w_db payments0)) 1 0 0 0 [] [].

Lemma system0_inv : sys_inv system0 [] ∅ ∅.
Proof.
  split; [done|..].
  - apply refines_init, ledger0_init.
  - by apply account_inv_init.
  - by apply payment_inv_init.
Qed.

(** Two accounts, a deposit of 1000 on the first, and a payment of 100. *)
Definition system1 : World SystemDB := (zoom (OpenAccountHandler_Handle "alice" "open-1") system0).2.
Definition system2 : World SystemDB := (zoom (OpenAccountHandler_Handle "bob" "open-2") system1).2.
Definition alice : string := "id-0".
Definition bob : string := "id-3".
Definition system3 : World SystemDB := (account_server_Deposit (move_request "dep-1" alice "" 1000) system2).2.
Definition sample_payment (from to : string) : InitiatePayment :=
  mkInitiatePayment from to (mkMoney 100 NGN) "rent" "pay-1".
Definition system4 (to : string) : World SystemDB :=
  (zoom (InitiatePaymentHandler_Handle TemporalNil (sample_payment alice to)) system3).2.

Lemma open_ok cust key w : cust <> "" -> sys_ok w -> sys_ok (zoom (OpenAccountHandler_Handle cust key) w).2.
Proof.
  intros Hc (s & st & pst & Hinv).
  pose proof (OpenAccount_post cust key _ st (si_account _ _ _ _ Hinv)) as [Hl Hr].
  destruct (OpenAccountHandler_Handle cust key _) as [r wa] eqn:Hrun; simpl in Hl, Hr.
  rewrite (zoom_run _ _ _ _ Hrun). destruct r as [[id v]|e].
  - destruct Hr as (_ & _ & now & Hi). eexists s, _, pst. by apply (sys_inv_account w s st pst).
  - destruct Hr as [Hdb|[Hne _]]; [|by destruct Hne; apply (si_quiet _ _ _ _ Hinv)].
    exists s, st, pst. apply (sys_inv_account w s st pst); [done|done|].
    apply (account_inv_later (set_db (sys_account (w_db w)) w)); [exact Hdb|exact Hl|apply (si_account _ _ _ _ Hinv)].
Qed.

Lemma initiate_ok cmd w : sys_ok w -> sys_ok (zoom (InitiatePaymentHandler_Handle TemporalNil cmd) w).2.
Proof.
  intros (s & st & pst & Hinv).
  destruct (InitiatePayment_inv TemporalNil cmd _ pst (si_payment _ _ _ _ Hinv)) as [pst' Hi].
  pose proof (advances_InitiatePayment cmd (set_db (sys_payment (w_db w)) w)) as Hl.
  destruct (InitiatePaymentHandler_Handle TemporalNil cmd _) as [r wp] eqn:Hrun; simpl in Hi, Hl.
  rewrite (zoom_run _ _ _ _ Hrun). exists s, st, pst'. by apply (sys_inv_payment w s st pst).
Qed.

Lemma system2_ok : sys_ok system2.
Proof. apply open_ok; [done|]. apply open_ok; [done|]. eexists _, _, _. apply system0_inv. Qed.

Lemma deposit_ok key acc narr a w :
  sys_ok w -> TrimSpace acc <> "" -> key <> "" -> 0 < a -> active_account w acc ->
  l_idem (sys_ledger (w_db w)) !! key = None -> ledger_balance w acc + a <= max_int64 ->
  sys_ok (account_server_Deposit (move_request key acc narr a) w).2.
Proof.
  intros (s & st & pst & Hinv) Hacc Hkey Ha Hact Hk Hfits. rewrite (sys_balance _ _ _ _ _ Hinv) in Hfits.
  destruct (active_account_inv _ _ _ _ _ Hinv Hact) as [Hact' Hroom].
  pose proof (sys_balance_nonneg _ _ _ _ acc Hinv) as Hnn.
  pose proof (account_server_move_run EntryTypeDeposit key acc narr a w s st pst sample_trusted Hinv
    (or_introl eq_refl) Hacc Hkey ltac:(lia) (roomier_roomy _ _ Hroom)) as Hrun.
  rewrite spec_post_fresh in Hrun;
    [|done..|by left|done|by eapply open_key_inv|change (spec_delta _ a) with a; lia].
  destruct Hrun as (w' & _ & _ & Hrun). rewrite bool_decide_true in Hrun by exact Hact'.
  destruct Hrun as (Hrun & ev & _ & Hinv').
  change (account_server_move EntryTypeDeposit) with (account_server_Deposit (DB := SystemDB)) in Hrun.
  rewrite Hrun. by eexists _, _, _.
Qed.

Lemma active_accountb w acc :
  match ac_projection (sys_account (w_db w)) !! acc with
  | Some p => bool_decide (ap_Status p = StatusActive) && (ap_Version p <? 1000)
  | None => false
  end = true -> active_account w acc.
Proof.
  unfold active_account. destruct (ac_projection _ !! acc) as [p|]; [|done].
  intros [Hs%bool_decide_eq_true Hv%Z.ltb_lt]%andb_true_iff. exists p. unfold max_int64. split_and!; [done|done|lia].
Qed.

Lemma system3_ok : sys_ok system3.
Proof.
  apply (deposit_ok "dep-1" alice "" 1000 system2).
  - apply system2_ok.
  - vm_compute. discriminate.
  - discriminate.
  - lia.
  - apply active_accountb. vm_compute. reflexivity.
  - vm_compute. reflexivity.
  - assert (ledger_balance system2 alice = 0) as -> by (vm_compute; reflexivity). unfold max_int64. lia.
Qed.

Lemma system4_ok to : sys_ok (system4 to).
Proof. apply initiate_ok, system3_ok. Qed.

Definition sample_transfer (to : string) : TransferWorkflowInput :=
  mkTransferWorkflowInput "id-11" alice to NGN 100 "rent" "pay-1".
