(* ===== verification/AuthSample.v ===== *)
(** * A sample auth service

    Concrete instances of what the auth service takes from other packages,
    and a small database: one registered user who is logged in, a public
    OAuth client and a code. *)
From S2P Require Import Prelude GoStrings Base64 Sha256 Passwords Invariants Authz Tokens LoginLimiter.
From S2P Require Import Auth AuthSpec AuthProps AuthCodes AuthFlows Sample.
From Stdlib Require Import Ascii String.
#[local] Open Scope Z_scope.
#[local] Open Scope go_scope.

(** ** Randomness, key derivation, addresses, collation *)
Definition repeat_char (n : nat) (c : ascii) : string := string_of_list_ascii (List.repeat c n).

#[export] Instance sample_random : Random := {| rand_bytes i n := repeat_char n (ascii_of_nat (i + 1)) |}.

#[export] Instance sample_random_ok : RandomOk 8.
Proof.
  split. intros i j Hi Hj Heq.
  assert (forall a b, (a < 8)%nat -> (b < 8)%nat -> token_hash_at a = token_hash_at b -> a = b) as Hall.
  { assert (forallb (fun a => forallb (fun b => bool_decide (a = b) ||
      negb (bool_decide (token_hash_at a = token_hash_at b))) (seq 0 8)) (seq 0 8) = true) as Hchk by (vm_compute; reflexivity).
    intros a b Ha Hb Hab. rewrite forallb_forall in Hchk. specialize (Hchk a ltac:(apply in_seq; lia)).
    rewrite forallb_forall in Hchk. specialize (Hchk b ltac:(apply in_seq; lia)).
    apply orb_prop in Hchk as [Hab'%bool_decide_eq_true|Hn]; [done|].
    apply negb_true_iff, bool_decide_eq_false in Hn. done. }
  by apply Hall.
Qed.

Definition fit (n : nat) (s : string) : string :=
  string_of_list_ascii (take n (list_ascii_of_string s ++ List.repeat "000"%char n)).
Lemma fit_length n s : String.length (fit n s) = n.
Proof.
  unfold fit. rewrite length_string_of_list_ascii.
  rewrite length_take, length_app, repeat_length. lia.
Qed.

#[export] Instance sample_argon2 : Argon2 := {|
  argon2_IDKey password salt time memory threads keyLen :=
    if (1 <=? time) && (1 <=? threads) then Ok (fit (Z.to_nat keyLen) (Sum256 (salt +:+ password)))
    else Err (EPanic "argon2");
|}.
#[export] Instance sample_argon2_ok : Argon2Ok.
Proof.
  split. intros pw salt t m p n Ht Hp Hn. simpl.
  destruct (Z.leb_spec 1 t); [|lia]. destruct (Z.leb_spec 1 p); [|lia]. simpl.
  eexists. split; [done|]. rewrite fit_length. lia.
Qed.

#[export] Instance sample_net : NetLib := {|
  url_Parse s := if HasPrefix s "https://" then Some (mkURL "https" "app.example" "" s) else None;
  url_with_query u q := u_text u;
  mail_ParseAddress s := (2 <=? List.length (Split "@"%char s))%nat;
|}.
#[export] Instance sample_collation : Collation := {| text_leb a b := String.leb a b |}.

(** ** Tokens: the signed content spelled out in bits, with the public key *)
Definition claims_tuple (c : jwtClaims) : list string * list string * Z * string * option Z * option Z :=
  (jc_Roles c, jc_Permissions c, jc_LSN c, jc_Subject c, jc_IssuedAt c, jc_ExpiresAt c).
Definition tuple_claims (t : list string * list string * Z * string * option Z * option Z) : jwtClaims :=
  let '(r, p, l, s, i, e) := t in mkClaims r p l s i e.

Fixpoint bits_text (p : positive) : list ascii :=
  match p with xH => ["2"%char] | xO p => "0"%char :: bits_text p | xI p => "1"%char :: bits_text p end.
Fixpoint text_bits (l : list ascii) : option positive :=
  match l with
  | [] => None
  | c :: l' => if Ascii.eqb c "2" then Some xH else if Ascii.eqb c "0" then xO <$> text_bits l' else xI <$> text_bits l'
  end.
Lemma text_bits_text p : text_bits (bits_text p) = Some p.
Proof. induction p as [p IH|p IH|]; simpl; rewrite ?IH; done. Qed.
Lemma bits_solid p c : c ∈ bits_text p -> solid c = true.
Proof. induction p as [p IH|p IH|]; simpl; rewrite ?elem_of_cons, ?elem_of_nil; naive_solver. Qed.

Definition signed_content (tok : string) :=
  text_bits (list_ascii_of_string tok) ≫=
  decode (A := string * (list string * list string * Z * string * option Z * option Z) * string).

#[export] Instance sample_jwt : Jwt := {|
  jwt_SignedString kid c priv :=
    Ok (string_of_list_ascii (bits_text (encode (kid, claims_tuple c, ed25519_Public priv))));
  jwt_ParseUnverified tok := (fun x => (EdDSA, x.1.1)) <$> signed_content tok;
  jwt_Verify now tok pub :=
    match signed_content tok with
    | Some (_, t, pub') =>
        if bool_decide (pub = pub') then if claims_live now (tuple_claims t) then Parsed (tuple_claims t) else Refused true
        else Refused false
    | None => Refused false
    end;
|}.

Lemma signed_content_of x :
  signed_content (string_of_list_ascii (bits_text (encode x))) = Some x.
Proof. unfold signed_content. rewrite list_ascii_of_string_of_list_ascii, text_bits_text. simpl. apply decode_encode. Qed.

#[export] Instance sample_jwt_ok : JwtOk.
Proof.
  split.
  - intros kid c priv _. eexists. split; [done|]. split.
    + simpl. by destruct (encode _).
    + apply TrimSpace_solid. intros a. rewrite list_ascii_of_string_of_list_ascii. apply bits_solid.
  - intros kid c priv tok [= <-]. simpl. by rewrite signed_content_of.
  - intros kid c priv tok pub now [= <-]. simpl. rewrite signed_content_of. by destruct c.
Qed.

Definition sample_maker : Ed25519JWTMaker := mkMaker "key-1" (repeat_char 64 "s"%char).
#[export] Instance sample_tokens : TokenMaker AuthDB := maker_TokenMaker sample_maker.
#[export] Instance sample_tokens_ok : TokenMakerOk AuthDB := maker_ok sample_maker.

Lemma sample_issues : issues_tokens.
Proof. done. Qed.

(** ** The service *)
Definition accessTTL : Z := 900000000000.
Definition refreshTTL : Z := 2592000000000000.

Definition sample_client : oauthClientRecord :=
  mkClient "app" "App" "public" None ["https://app.example/cb"] ["openid"] 0 None.

Definition auth0 : World AuthDB :=
  mkWorld (mkAuthDB [] migrated_roles migrated_permissions [] migrated_role_permissions [] [sample_client]
             migrated_client_columns [] [] [] None) 1 0 0 0 [] [].

Definition visitor : context := Some {["user-agent" := ["curl"]; "x-forwarded-for" := ["10.0.0.1"]]}.

Definition auth_steps (ops : list auth_op) (w : World AuthDB) : World AuthDB :=
  foldl (fun w op => (run_op accessTTL refreshTTL op w).2) w ops.

Lemma auth_steps_rtc ops w : rtc (auth_step accessTTL refreshTTL) w (auth_steps ops w).
Proof.
  revert w. induction ops as [|op ops IH]; intros w; [done|]. eapply rtc_l; [apply step_op|]. apply IH.
Qed.
Lemma auth_steps_reachable ops : auth_reachable accessTTL refreshTTL (auth_steps ops auth0).
Proof. exists auth0. split; [done|]. apply auth_steps_rtc. Qed.

Definition auth1 : World AuthDB := auth_steps [OpRegister "Ada@Example.com" "correct horse" "Ada"] auth0.
Definition login : M AuthDB Auth.Tokens := Login accessTTL refreshTTL visitor "ada@example.com" "correct horse".
Definition auth2 : World AuthDB := auth_steps [OpLogin visitor "ada@example.com" "correct horse"] auth1.

(** An operation leaves the world its handler leaves. *)
Lemma op_world {A} (m : M AuthDB A) w : (m w).2 = ((m ;;; retM tt) w).2.
Proof. unfold bindM. by destruct (m w) as [[]]. Qed.
Lemma auth2_login : (login auth1).2 = auth2.
Proof. unfold auth2, auth_steps, login. cbn [foldl run_op]. apply op_world. Qed.

(** The [i]-th token drawn. *)
Definition token_at (i : nat) : string := raw_EncodeToString URLEncoding (rand_bytes i 32).

(** The result of a step known to succeed. *)
Definition get_ok {A} (d : A) (r : result A) : A := match r with Ok a => a | Err _ => d end.
Lemma ok_run {DB A} (d : A) (m : M DB A) w :
  is_ok (m w).1 = true -> m w = (Ok (get_ok d (m w).1), (m w).2).
Proof. by destruct (m w) as [[a|e] w']. Qed.

Definition no_tokens : Auth.Tokens := mkTokens "" "" 0.

Lemma sample_login : is_ok (login auth1).1 = true.
Proof. vm_compute. reflexivity. Qed.
Definition login_tokens : Auth.Tokens := get_ok no_tokens (login auth1).1.
Lemma login_run : login auth1 = (Ok login_tokens, auth2).
Proof. rewrite (ok_run no_tokens login auth1 sample_login), auth2_login. reflexivity. Qed.

Lemma sample_refresh : is_ok (RefreshToken accessTTL refreshTTL visitor (token_at 2) auth2).1 = true.
Proof. vm_compute. reflexivity. Qed.

(** The session of the login. *)
Definition no_session : RefreshSession := mkSession "" "" "" 0 0 0 None None None None None.
Definition session1 : RefreshSession := default no_session (head (ad_sessions (w_db auth2))).
Lemma head_elem {A} (d : A) l : (1 <=? List.length l)%nat = true -> default d (head l) ∈ l.
Proof. destruct l; [done|]. intros _. left. Qed.
Lemma session1_stored : session1 ∈ ad_sessions (w_db auth2).
Proof. apply head_elem. vm_compute. reflexivity. Qed.

(** Ada's browser asks for a code, with the access token of the login, and
    redeems it. *)
Definition signed_in : context := Some {["authorization" := ["Bearer " +:+ tk_AccessToken login_tokens]]}.
Definition pkce_verifier : string := "dBjftJeZ4CVP-mB92K27uhbUJU1p1r_wW1gFWFOEjXk".
Definition authorize_request : OAuthAuthorizeRequest :=
  mkAuthorizeRequest "code" "app" "https://app.example/cb" "openid" "xyz" (hashB64URLSHA256 pkce_verifier) "S256".
Definition auth3 : World AuthDB := auth_steps [OpOAuthAuthorize signed_in authorize_request] auth2.
Definition token_request : OAuthTokenRequest :=
  mkTokenRequest "authorization_code" "app" "" (token_at 3) "https://app.example/cb" pkce_verifier.
Lemma sample_redeem : is_ok (OAuthToken accessTTL refreshTTL None token_request auth3).1 = true.
Proof. vm_compute. reflexivity. Qed.
