(* ===== verification/WiringProps.v ===== *)
(** * What the processes of [Wiring] guarantee

    Who can change the data of the ledger, account and payment services; which
    connections between the processes work with and without mutual TLS. *)
From S2P Require Import Prelude GoStrings Json Http Authz Tokens Auth Identity Startup Invariants.
From S2P Require Import Money EventStore Outbox Ledger Account Payment Transfer System Wiring.
From Stdlib Require Import Ascii String.
#[local] Open Scope Z_scope.
#[local] Open Scope go_scope.

(** A process that has started has passed every step of its [main]. *)
Ltac invert_main Hr :=
  repeat (match type of Hr with
          | context [result_bind ?m _] => destruct m; simpl in Hr; [|discriminate Hr]
          end).

(** ** The order of the map does not matter

    A method that ends in exactly one of the suffixes has the permission of
    that suffix in whatever order Go ranges over the map. *)
Definition suffix_of (fullMethod : string) (kv : string * string) : bool := HasSuffix fullMethod kv.1.

Lemma required_perm_filter perms m :
  required_perm perms m = snd <$> head (List.filter (suffix_of m) perms).
Proof.
  induction perms as [|[k v] perms IH]; simpl; [done|]. unfold suffix_of at 1. simpl. by destruct (HasSuffix m k).
Qed.
Lemma list_filter_perm {A} (f : A -> bool) l l' : l ≡ₚ l' -> List.filter f l ≡ₚ List.filter f l'.
Proof.
  induction 1 as [|x l l' _ IH|x y l|l l' l'' _ IH1 _ IH2]; simpl; [done|..].
  - destruct (f x); [by constructor|done].
  - destruct (f x), (f y); done || apply Permutation_swap.
  - by etrans.
Qed.
Lemma required_perm_ordered perms perms' m kv :
  perms' ≡ₚ perms -> List.filter (suffix_of m) perms = [kv] -> required_perm perms' m = Some kv.2.
Proof.
  intros Hp Hf. rewrite required_perm_filter. apply (list_filter_perm (suffix_of m)) in Hp. rewrite Hf in Hp.
  by apply Permutation_singleton_r in Hp as ->.
Qed.

(** ** Reads change nothing *)
Section reads.
Context `{Env}.

Lemma await_lsn_reads db0 n lsn : kept (eq db0) (await_lsn (repeat (fun db => db) n) lsn).
Proof.
  induction n as [|n IH]; simpl; [apply kept_fail|]. apply kept_bind; [by apply kept_step; intros []|intros _].
  apply kept_bind; [|intros cur; destruct (_ <=? _); [apply kept_ret|apply IH]].
  apply kept_autoexec. intros now sq db a db' -> [= _ <-]. done.
Qed.
Lemma GetBalance_reads db0 n lsn req : kept (eq db0) (server_GetBalance (repeat (fun db => db) n) lsn req).
Proof.
  destruct req as [acc|]; [|apply kept_fail]. apply kept_bind; [apply kept_fail_if|intros _].
  apply kept_bind; [|intros; apply kept_ret].
  apply kept_bind; [destruct (lsn =? 0); [apply kept_ret|apply await_lsn_reads]|intros _].
  apply kept_autoexec. intros now sq db a db' -> [= _ <-]. done.
Qed.
Lemma GetPayment_reads db0 req : kept (eq db0) (payment_server_GetPayment req).
Proof.
  destruct req as [id|]; [|apply kept_fail]. apply kept_bind; [apply kept_fail_if|intros _].
  apply kept_bind; [|intros [p|]; [apply kept_ret|apply kept_fail]].
  apply kept_autoexec. intros now sq db a db' -> [= _ <-]. done.
Qed.
Lemma kept_zoom_reads {S T A} `{LensOk S T} (m : M T A) : (forall t0, kept (eq t0) m) -> forall s0, kept (eq s0) (zoom m).
Proof.
  intros Hm s0 w ->. specialize (Hm _ (set_db (view (w_db w)) w) eq_refl). unfold zoom. simpl in Hm.
  destruct (m _) as [r w']. simpl in *. by rewrite <-Hm, upd_view.
Qed.
Lemma kept_interceptor {DB A} (P : DB -> Prop) spiffe verify gw perms m md p (handler : Z -> M DB A) :
  (forall lsn, kept P (handler lsn)) -> kept P (UnaryAuthzInterceptor spiffe verify gw perms m md p handler).
Proof.
  intros Hh. unfold UnaryAuthzInterceptor. destruct (required_perm _ _); [|apply Hh].
  destruct md; [|apply kept_fail]. apply kept_bind; [apply kept_lift|intros payload].
  apply kept_bind; [apply kept_fail_if|intros _; apply Hh].
Qed.
Lemma GetAccount_reads `{Deployment} db0 id : kept (eq db0) (account_server_GetAccount id).
Proof.
  apply kept_bind; [apply kept_fail_if|intros _]. apply kept_bind.
  - apply kept_zoom_reads. intros t0. apply kept_tx, kept_bind; [|intros [o|]; [apply kept_ret|apply kept_fail]].
    apply kept_exec. intros now sq db a db' -> [= _ <-]. done.
  - intros pr. apply kept_bind; [|intros; apply kept_ret]. simpl. apply kept_bind.
    + apply kept_rpc, kept_interceptor. intros lsn. apply kept_bind; [|intros; apply kept_ret].
      apply kept_zoom_reads. intros t0. apply (GetBalance_reads t0 0).
    + intros [pm|]; apply kept_lift.
Qed.
End reads.

(** ** Who can call *)
Section guards.
Context `{Env, Process, VaultHTTP, NetLib, SpiffeLib, Host, Deployment}.
Variable range : list (string * string) -> list (string * string).
Variable verify : JWKSVerifier -> string -> result TokenPayload.

(** The caller proves with the call to be somebody who has the permission. *)
Definition holder (s : GrpcServer) (md : option metadata) (p : peer) (perm : string) : Prop :=
  match gs_interceptor s with
  | None => False
  | Some (tokens, _) => exists md' payload, md = Some md' /\
      authenticated spiffe_id (verify tokens) (os_Getenv "GATEWAY_SPIFFE_ID") md' (tls_peer s p) payload /\
      perm ∈ tp_Permissions payload
  end.

Definition guarded {DB C A} (main : result Running) (method : C -> string) (handler : C -> Z -> M DB A)
    (read write : string) : Prop :=
  forall r, main = Ok r -> forall c md p w,
  let call := serve range verify (rn_server r) (method c) md p (handler c) in
  (forall a, (call w).1 = Ok a -> holder (rn_server r) md p read \/ holder (rn_server r) md p write) /\
  (w_db (call w).2 <> w_db w -> holder (rn_server r) md p write).

Hypothesis range_perm : forall l, range l ≡ₚ l.

Lemma serve_guarded {DB A} s tokens perms m kv md p (handler : Z -> M DB A) w :
  gs_interceptor s = Some (tokens, perms) -> List.filter (suffix_of m) perms = [kv] -> kv.2 <> "" ->
  (holder s md p kv.2 /\ exists lsn, serve range verify s m md p handler w = handler lsn w) \/
  (exists e, serve range verify s m md p handler w = (Err e, w)).
Proof.
  intros Hi Hf Hne. unfold serve, holder. rewrite Hi.
  destruct (interceptor_guards spiffe_id (verify tokens) (os_Getenv "GATEWAY_SPIFFE_ID") (range perms) m kv.2 md
              (tls_peer s p) handler w) as [(md' & pl & Hmd & Ha & Hin & Hc)|(code & msg & _ & Hc)].
  - eapply required_perm_ordered; [apply range_perm|done].
  - done.
  - left. split; [by exists md', pl|by exists (tp_LSN pl)].
  - right. by eexists.
Qed.

Lemma guarded_intro {DB C A} main perms (method : C -> string) (handler : C -> Z -> M DB A) read write :
  (forall r, main = Ok r -> exists tokens, gs_interceptor (rn_server r) = Some (tokens, perms)) ->
  (forall c, exists suffix perm, List.filter (suffix_of (method c)) perms = [(suffix, perm)] /\ perm <> "" /\
     (perm = write \/ perm = read /\ forall db0 lsn, kept (eq db0) (handler c lsn))) ->
  guarded main method handler read write.
Proof.
  intros Hm Hc r Hr c md p w call. destruct (Hm r Hr) as [tokens Hi]. destruct (Hc c) as (suf & perm & Hf & Hne & Hp).
  destruct (serve_guarded (rn_server r) tokens perms (method c) (suf, perm) md p (handler c) w Hi Hf Hne)
    as [[Hh [lsn Hs]]|[e Hs]]; unfold call; rewrite Hs; simpl in *; [|done].
  destruct Hp as [-> |[-> Hk]]; [by auto|]. split; [by auto|]. intros Hch. destruct Hch. symmetry. by apply Hk.
Qed.

(** C11. Only a caller with the permission gets anything out of the three
    services, and only a caller with the write permission changes their data.
    In whatever order Go ranges over the permission maps, a call that a
    process started by [main] answers comes with a verified bearer token, or
    over TLS from the gateway, for somebody who holds the read or the write
    permission of the service; and if it changed anything in the database,
    for the account service also in the databases it calls, for somebody who
    holds the write permission. *)
Theorem rpc_permissions polls sdk :
  guarded ledger_main ledger_method (ledger_handler polls) "ledger:read" "ledger:write" /\
  guarded account_main account_method account_handler "account:read" "account:write" /\
  guarded payment_main payment_method (payment_handler sdk) "payment:read" "payment:write".
Proof.
  split_and!.
  - apply (guarded_intro _ ledger_perms); [intros r Hr; unfold ledger_main in Hr; invert_main Hr; injection Hr as <-; by eexists|].
    intros [req|req]; do 2 eexists; (split; [reflexivity|]); (split; [done|]); [by left|right].
    split; [done|]. intros. apply kept_bind; [apply GetBalance_reads|intros; apply kept_ret].
  - apply (guarded_intro _ account_perms); [intros r Hr; unfold account_main in Hr; invert_main Hr; injection Hr as <-; by eexists|].
    intros [? ?|?|?|id]; do 2 eexists; (split; [reflexivity|]); (split; [done|]); [by left..|right].
    split; [done|]. intros. apply kept_bind; [apply GetAccount_reads|intros; apply kept_ret].
  - apply (guarded_intro _ payment_perms); [intros r Hr; unfold payment_main in Hr; invert_main Hr; injection Hr as <-; by eexists|].
    intros [?|?|?|? ?|req]; do 2 eexists; (split; [reflexivity|]); (split; [done|]); [by left..|right].
    split; [done|]. intros. apply kept_bind; [apply GetPayment_reads|intros; apply kept_ret].
Qed.
End guards.

(** ** Which connections work

    A connection works if its target leads to the address the server listens
    on, and the two transports agree. What gRPC documents of its transports:
    plain text meets plain text, and TLS meets only TLS. Whether two sides
    with mutual TLS accept each other is up to their certificates. *)
Class TransportLib `{SpiffeLib} := {
  handshake : transport -> transport -> bool;
  handshake_plain : handshake Insecure Insecure = true;
  handshake_plain_tls : forall source peers, handshake Insecure (MutualTLS source peers) = false;
  handshake_tls_plain : forall source peers, handshake (MutualTLS source peers) Insecure = false;
}.

(** Where a process runs, and the port of an address: what follows the last
    colon. A server that listens on port 0 gets some other port. *)
Inductive node : Type := AtGateway | AtAccount | AtLedger | AtPayment.
Definition port (addr : string) : string := List.last (Split ":"%char addr) "".
Definition fixed_port (addr : string) : bool :=
  negb (forallb (fun c => Ascii.eqb c "0") (list_ascii_of_string (port addr))).

(** The network: whether dialling [target] at one node arrives at a server
    that listens on [addr] at another. What the [net] package documents of it
    is that a process reaches its own listener by the address it listens on;
    all else (names, routes, port mappings) is up to the deployment. *)
Class Network := {
  reaches : node -> node -> string -> string -> bool;
  reaches_self : forall n addr, fixed_port addr = true -> reaches n n addr addr = true;
}.

Section connections.
Context `{VaultHTTP, NetLib, SpiffeLib, Host, !TransportLib, !Network}.

Definition connects (n m : node) (c : Connection) (r : Running) : bool :=
  reaches n m (cn_target c) (gs_addr (rn_server r)) && handshake (cn_creds c) (gs_creds (rn_server r)).
(** The proxy for REST calls reaches the gRPC server of its own process. *)
Definition proxy_connects (n : node) (r : Running) : bool :=
  match rn_http r with Some (_, c) => connects n n c r | None => false end.

Lemma server_credentials_off `{Process} : spiffeMTLSEnabled = false -> server_credentials = None.
Proof. intros He. unfold server_credentials, NewSpiffeMTLSServerCredentials, spiffe_credentials. by rewrite He. Qed.
Lemma client_credentials_off `{Process} : spiffeMTLSEnabled = false -> client_credentials = None.
Proof. intros He. unfold client_credentials, NewSpiffeMTLSClientCredentials, spiffe_credentials. by rewrite He. Qed.

(** What the connections of the processes look like. *)
Lemma ledger_wires `{Process} r : ledger_main = Ok r ->
  gs_creds (rn_server r) = transport_of server_credentials /\
  gs_addr (rn_server r) = or_default (os_Getenv "LEDGER_LISTEN_ADDR") ":50053" /\
  exists h, rn_http r = Some (h, mkConnection (gs_addr (rn_server r)) Insecure).
Proof. unfold ledger_main. intros Hr. invert_main Hr. injection Hr as <-. split_and!; [done..|by eexists]. Qed.
Lemma account_wires `{Process} r : account_main = Ok r ->
  gs_creds (rn_server r) = Insecure /\
  gs_addr (rn_server r) = or_default (os_Getenv "ACCOUNT_GRPC_ADDR") ":50051" /\
  (exists h, rn_http r = Some (h, mkConnection (gs_addr (rn_server r)) Insecure)) /\
  rn_clients r = [mkConnection (os_Getenv "LEDGER_ADDR") (transport_of client_credentials)].
Proof. unfold account_main. intros Hr. invert_main Hr. injection Hr as <-. split_and!; [done..|by eexists|done]. Qed.
Lemma payment_wires `{Process} r : payment_main = Ok r ->
  gs_creds (rn_server r) = transport_of server_credentials /\
  (exists h, rn_http r = Some (h, mkConnection (gs_addr (rn_server r)) Insecure)) /\
  rn_clients r =
    [mkConnection (or_default (TrimSpace (os_Getenv "LEDGER_GRPC_ADDR")) "ledger-service:8080") Insecure;
     mkConnection (or_default (TrimSpace (os_Getenv "ACCOUNT_GRPC_ADDR")) "account-service:8080") Insecure].
Proof. unfold payment_main. intros Hr. invert_main Hr. injection Hr as <-. split_and!; [done|by eexists|done]. Qed.
Lemma gateway_wires `{Process} h conns : gateway_main = Ok (h, conns) ->
  conns = map (fun a => mkConnection a (transport_of client_credentials))
    [or_default (getenv "ACCOUNT_GRPC_ADDR") ":50051"; or_default (getenv "LEDGER_LISTEN_ADDR") ":50053";
     or_default (getenv "IDENTITY_GRPC_ADDR") ":50056"].
Proof. unfold gateway_main. intros Hr. invert_main Hr. by injection Hr as _ <-. Qed.

(** The two ends of a connection agree: both have mutual TLS or neither. *)
Lemma handshake_agree c s : handshake (transport_of c) (transport_of s) = true -> c <> None <-> s <> None.
Proof.
  destruct c as [[? ?]|], s as [[? ?]|]; simpl; rewrite ?handshake_plain_tls, ?handshake_tls_plain; done.
Qed.

(** C31. Which calls can arrive between the gateway, the account, ledger and
    payment services, each started in an environment of its own, at the
    addresses its environment says. The gateway dials the very addresses the
    ledger and the account service listen on where they have the same settings
    for them. Where mutual TLS is switched off everywhere, the proxy of each service reaches its own server (if that
    listens on a fixed port), and a connection works exactly if its target
    leads to the server: that of the account service and of the payment
    service to the ledger, of the payment service to the accounts, of the
    gateway to the accounts and to the ledger. With mutual TLS, wherever the
    targets lead: a ledger service with it can be reached neither by its own
    proxy nor by the payment service, a payment service with it not by its own
    proxy; a gateway with it cannot reach the account service, whose server
    never has TLS; and the account service or the gateway reach the ledger
    only if both ends have it or neither. (The third connection of the
    gateway, to the identity service, is left out.) *)
Theorem mutual_tls_reach (El Ea Ep Eg : Process) l a p h g :
  ledger_main (H := El) = Ok l -> account_main (H := Ea) = Ok a -> payment_main (H := Ep) = Ok p ->
  gateway_main (H := Eg) = Ok (h, g) ->
  exists al pl pa ga gl gi, rn_clients a = [al] /\ rn_clients p = [pl; pa] /\ g = [ga; gl; gi] /\
  (getenv (H := Eg) "LEDGER_LISTEN_ADDR" = os_Getenv (Process := El) "LEDGER_LISTEN_ADDR" ->
     cn_target gl = gs_addr (rn_server l)) /\
  (getenv (H := Eg) "ACCOUNT_GRPC_ADDR" = os_Getenv (Process := Ea) "ACCOUNT_GRPC_ADDR" ->
     cn_target ga = gs_addr (rn_server a)) /\
  (Forall (fun E => spiffeMTLSEnabled (H := E) = false) [El; Ea; Ep; Eg] ->
     Forall (fun '(n, r) => fixed_port (gs_addr (rn_server r)) = true -> proxy_connects n r = true)
       [(AtLedger, l); (AtAccount, a); (AtPayment, p)] /\
     Forall (fun '(n, m, c, r) => connects n m c r = reaches n m (cn_target c) (gs_addr (rn_server r)))
       [(AtAccount, AtLedger, al, l); (AtPayment, AtLedger, pl, l); (AtPayment, AtAccount, pa, a);
        (AtGateway, AtAccount, ga, a); (AtGateway, AtLedger, gl, l)]) /\
  (server_credentials (H := El) <> None ->
     proxy_connects AtLedger l = false /\ connects AtPayment AtLedger pl l = false) /\
  (server_credentials (H := Ep) <> None -> proxy_connects AtPayment p = false) /\
  (client_credentials (H := Eg) <> None -> connects AtGateway AtAccount ga a = false) /\
  (connects AtAccount AtLedger al l = true ->
     client_credentials (H := Ea) <> None <-> server_credentials (H := El) <> None) /\
  (connects AtGateway AtLedger gl l = true ->
     client_credentials (H := Eg) <> None <-> server_credentials (H := El) <> None).
Proof.
  intros Hl Ha Hp Hg. apply ledger_wires in Hl as (Cl & Al & hl & Pl).
  apply account_wires in Ha as (Ca & Aa & (ha & Pa) & La).
  apply payment_wires in Hp as (Cp & (hp & Pp) & Lp). apply gateway_wires in Hg as ->.
  do 6 eexists. split; [exact La|]. split; [exact Lp|]. split; [reflexivity|].
  unfold proxy_connects, connects. cbn [cn_target cn_creds]. split_and!.
  - intros He. by rewrite Al, He.
  - intros He. by rewrite Aa, He.
  - intros Hoff. apply Forall_cons in Hoff as [Ho1 Hoff]. apply Forall_cons in Hoff as [Ho2 Hoff].
    apply Forall_cons in Hoff as [Ho3 Hoff]. apply Forall_cons in Hoff as [Ho4 _].
    split; repeat apply Forall_cons_2; try apply Forall_nil_2; rewrite ?Pl, ?Pa, ?Pp; cbn [cn_target cn_creds];
      rewrite ?Cl, ?Ca, ?Cp, ?(@server_credentials_off _) , ?(@client_credentials_off _) by done; simpl transport_of;
      rewrite handshake_plain, andb_true_r; [apply reaches_self..|done|done|done|done|done].
  - rewrite Pl, Cl. destruct (server_credentials (H := El)) as [[src auth]|]; [|done]. intros _. cbn [cn_creds cn_target].
    simpl transport_of. by rewrite handshake_plain_tls, !andb_false_r.
  - rewrite Pp, Cp. destruct (server_credentials (H := Ep)) as [[src auth]|]; [|done]. intros _. cbn [cn_creds cn_target].
    simpl transport_of. by rewrite handshake_plain_tls, !andb_false_r.
  - rewrite Ca. destruct (client_credentials (H := Eg)) as [[src auth]|]; [|done]. intros _.
    simpl transport_of. by rewrite handshake_tls_plain, !andb_false_r.
  - rewrite Cl. intros [_ Hs]%andb_prop. by apply handshake_agree.
  - rewrite Cl. intros [_ Hs]%andb_prop. by apply handshake_agree.
Qed.

(** Where nothing is configured the payment service dials port 8080 of the
    hosts ledger-service and account-service, while the gRPC servers listen on
    the ports 50053 and 50051. Unless the network maps ports its calls arrive
    nowhere. *)
Theorem payment_targets_miss (El Ea Ep : Process) l a p :
  ledger_main (H := El) = Ok l -> account_main (H := Ea) = Ok a -> payment_main (H := Ep) = Ok p ->
  Forall (fun '(E, k) => os_Getenv (Process := E) k = "")
    [(El, "LEDGER_LISTEN_ADDR"); (Ea, "ACCOUNT_GRPC_ADDR"); (Ep, "LEDGER_GRPC_ADDR"); (Ep, "ACCOUNT_GRPC_ADDR")] ->
  (forall n m target addr, reaches n m target addr = true -> port target = port addr) ->
  exists pl pa, rn_clients p = [pl; pa] /\
    connects AtPayment AtLedger pl l = false /\ connects AtPayment AtAccount pa a = false.
Proof.
  intros (_ & Hl & _)%ledger_wires (_ & Ha & _)%account_wires (_ & _ & Hp)%payment_wires Hunset Hports.
  apply Forall_cons in Hunset as [U1 Hunset]. apply Forall_cons in Hunset as [U2 Hunset].
  apply Forall_cons in Hunset as [U3 Hunset]. apply Forall_cons in Hunset as [U4 _].
  rewrite U1 in Hl. rewrite U2 in Ha. rewrite U3, U4 in Hp. do 2 eexists. split; [exact Hp|].
  unfold connects. rewrite Hl, Ha. cbn [cn_target].
  split; apply andb_false_intro1, not_true_is_false; intros Hr%Hports; vm_compute in Hr; discriminate.
Qed.
End connections.

(** ** The services without an interceptor

    The servers of the fx, fraud, reporting, admin, notification, vault and
    audit services hand every call to its handler, whoever makes it. *)
Section open.
Context `{Process, VaultHTTP, NetLib, SpiffeLib, Host}.

Definition unguarded (main : result Running) : Prop :=
  forall r, main = Ok r -> gs_interceptor (rn_server r) = None.

Lemma plain_unguarded (k : GrpcServer -> Running) addr :
  (forall s, rn_server (k s) = s) -> unguarded (let? s := plain_server addr in Ok (k s)).
Proof. intros Hk r. unfold plain_server. destruct (fatal _ _); simpl; [|done]. intros [= <-]. by rewrite Hk. Qed.
Lemma bind_unguarded {A} (m : result A) k : (forall a, unguarded (k a)) -> unguarded (result_bind m k).
Proof. intros Hk r. destruct m as [a|]; [apply Hk|done]. Qed.

Lemma open_services :
  Forall (fun main => forall r, main = Ok r -> forall range verify DB A (handler : Z -> M DB A) m md p,
            serve range verify (rn_server r) m md p handler = handler 0)
    [fx_main; fraud_main; reporting_main; admin_main; notification_main; vault_main; audit_main].
Proof.
  apply (Forall_impl unguarded).
  - unfold notification_main, vault_main, audit_main.
    repeat first [apply Forall_nil_2 | apply Forall_cons_2 | by apply plain_unguarded | apply bind_unguarded; intros ?].
  - intros main Hm r Hr range verify DB A handler m md p. unfold serve. by rewrite (Hm r Hr).
Qed.
End open.

(** Two services listen on the same address unless one is configured. *)
Lemma default_addresses_clash `{Process, VaultHTTP, NetLib, SpiffeLib, Host} a p :
  os_Getenv "AUTH_GRPC_ADDR" = "" -> os_Getenv "PAYMENT_LISTEN_ADDR" = "" ->
  auth_main = Ok a -> payment_main = Ok p -> gs_addr (rn_server a) = gs_addr (rn_server p).
Proof.
  intros Ha Hp. unfold auth_main, payment_main, auth_config. rewrite Ha, Hp. intros Hra Hrp.
  invert_main Hrp. injection Hrp as <-.
  repeat (match type of Hra with context [if ?b then _ else _] => destruct b; simpl in Hra; [discriminate Hra|] end).
  invert_main Hra. by injection Hra as <-.
Qed.

(** ** Probes

    [/healthz] says ok whatever the database does, [/readyz] exactly when a
    ping goes through, and neither changes the tables; every other path is
    the proxy's, but for the key set where there is one. *)
Lemma probes `{Env} {DB} jwks (mux : request -> M DB reply) r w :
  let '(res, w') := service_mux pool_Ping jwks mux r w in
  (rq_Path r = "/healthz" -> res = Ok ok_reply /\ w' = w) /\
  (rq_Path r = "/readyz" -> w_db w' = w_db w /\
     exists rep, res = Ok rep /\ (re_Status rep = 200 <-> is_ok (pool_Ping w).1 = true)) /\
  (rq_Path r ∉ ["/healthz"; "/readyz"; "/jwks.json"] -> (res, w') = mux r w).
Proof.
  destruct (service_mux pool_Ping jwks mux r w) as [res w'] eqn:Hs. unfold service_mux in Hs. cbv zeta in Hs.
  split_and!.
  - intros Hp. rewrite Hp in Hs. by injection Hs as <- <-.
  - intros Hp. rewrite Hp in Hs. simpl in Hs. unfold bindM, tryM in Hs.
    pose proof (kept_autoexec (eq (w_db w)) (fun _ _ db => Ok (tt, db)) ltac:(by intros ? ? ? ? ? -> [= _ <-]) w eq_refl) as Hk.
    change (autoexec (fun _ _ db => Ok (tt, db)) w) with (pool_Ping (DB := DB) w) in Hk.
    destruct (pool_Ping w) as [[u|e] w1]; injection Hs as <- <-; (split; [by symmetry|]); by eexists.
  - intros Hp. rewrite !not_elem_of_cons in Hp. destruct Hp as (H1 & H2 & H3 & _).
    rewrite !bool_decide_false in Hs by done. by destruct jwks.
Qed.
