(* ===== verification/Bus.v ===== *)
(** * Events between the services

    Which messages the processes publish and who has subscribed to them. Only
    the payment service runs a worker that publishes its outbox; the
    subscriptions are those of the saga, the audit service and the
    notification service. *)
From S2P Require Import Prelude GoStrings Json Http Authz Tokens Auth Identity Startup Invariants.
From S2P Require Import Money EventStore Outbox Ledger LedgerSpec LedgerProps Account Payment PaymentProps Transfer System Wiring WiringProps.
From Stdlib Require Import Ascii String.
#[local] Open Scope Z_scope.
#[local] Open Scope go_scope.

(** ** Subjects and subscriptions

    What NATS documents of subjects: tokens separated by dots, [*] stands for
    one token, [>] at the end for one or more. *)
Fixpoint tokens_match (pattern subject : list string) : bool :=
  match pattern, subject with
  | [], [] => true
  | p :: pattern', t :: subject' =>
      if bool_decide (p = ">" /\ pattern' = []) then true
      else (bool_decide (p = "*") || bool_decide (p = t)) && tokens_match pattern' subject'
  | _, _ => false
  end.
Class NatsLib := {
  nats_matches : string -> string -> bool;
  nats_matches_tokens : forall pattern subject,
    nats_matches pattern subject = tokens_match (Split "."%char pattern) (Split "."%char subject);
}.

(** The subjects a part of a process has subscribed to *)
Definition subjects_of (b : background) : list string :=
  match b with
  | EventConsumer => consumer_subjects
  | AuditConsumer => audit_subjects
  | ReportingConsumer => reporting_subjects
  | LoginAlerts => ["auth.user.login"]
  | _ => []
  end.

(** ** Runs that publish nothing *)
Definition mute {DB A} (m : M DB A) : Prop := forall w, w_sent (m w).2 = w_sent w.

Section mute.
Context `{Env} {DB : Type}.

Lemma mute_ret {A} (a : A) : mute (DB := DB) (retM a).
Proof. done. Qed.
Lemma mute_fail {A} e : mute (DB := DB) (A := A) (failM e).
Proof. done. Qed.
Lemma mute_lift {A} (r : result A) : mute (DB := DB) (liftR r).
Proof. done. Qed.
Lemma mute_fail_if b e : mute (DB := DB) (fail_if b e).
Proof. by destruct b. Qed.
Lemma mute_ids : mute (DB := DB) ids_New.
Proof. done. Qed.
Lemma mute_now : mute (DB := DB) time_Now.
Proof. done. Qed.
Lemma mute_bind {A B} (m : M DB A) (k : A -> M DB B) : mute m -> (forall a, mute (k a)) -> mute (bindM m k).
Proof.
  intros Hm Hk w. specialize (Hm w). unfold bindM. destruct (m w) as [[a|e] w']; simpl in *; [|done]. by rewrite Hk.
Qed.
Lemma mute_wrap {A} ctx (m : M DB A) : mute m -> mute (wrap_err ctx m).
Proof. intros Hm w. specialize (Hm w). unfold wrap_err. by destruct (m w) as [[] ?]. Qed.
Lemma mute_exec {A} (s : stmt DB A) : mute (exec s).
Proof.
  intros w. unfold exec, next_fault, run_stmt. destruct (w_faults w) as [|[] fl]; simpl; try done.
  all: by destruct (s _ _ _) as [[]|].
Qed.
Lemma mute_autoexec {A} (s : stmt DB A) : mute (autoexec s).
Proof.
  intros w. unfold autoexec, next_fault, run_stmt. destruct (w_faults w) as [|[] fl]; simpl; try done.
  all: by destruct (s _ _ _) as [[]|].
Qed.
Lemma mute_tx {A} (fn : M DB A) : mute fn -> mute (with_tx fn).
Proof.
  intros Hf w. unfold with_tx, next_fault. destruct (w_faults w) as [|[] fl]; simpl; [..|done|done].
  all: match goal with H : mute ?f |- context [?f ?x] => specialize (H x); destruct (f x) as [[a|e] w2] end; [|done].
  all: by destruct (w_faults w2) as [|[] fl2].
Qed.
Lemma mute_forM {A} (l : list A) (f : A -> M DB unit) : (forall a, mute (f a)) -> mute (forM l f).
Proof. intros Hf. induction l as [|a l IH]; [done|]. apply mute_bind; [done|by intros _]. Qed.
End mute.

Create HintDb mute discriminated.
#[export] Hint Resolve mute_ret mute_fail mute_lift mute_fail_if mute_ids mute_now mute_exec mute_autoexec : mute.
Ltac solve_mute :=
  intros; cbv beta zeta;
  lazymatch goal with
  | |- mute (bindM _ _) => apply mute_bind; solve_mute
  | |- mute (wrap_err _ _) => apply mute_wrap; solve_mute
  | |- mute (with_tx _) => apply mute_tx; solve_mute
  | |- mute (forM _ _) => apply mute_forM; solve_mute
  | |- mute (match ?x with _ => _ end) => destruct x; solve_mute
  | |- mute _ => solve [eauto with mute nocore typeclass_instances]
  end.

(** ** The outbox of the payment service *)
Section topics.
Context `{Env}.

(** Every row of the outbox is on the topic of the service. *)
Definition one_topic (db : PaymentDB) : Prop :=
  Forall (fun r => or_topic r = paymentEventsTopicV1) (ob_rows (pd_outbox db)).

Lemma one_topic_events {A} (s : stmt EventTables A) : stmt_kept one_topic (on s).
Proof. intros now sq db a db' Hp. unfold on. destruct (s _ _ _) as [[x t]|]; simpl; [|done]. by intros [= <- <-]. Qed.
Lemma one_topic_upsert p : stmt_kept one_topic (upsert_payment p).
Proof. intros now sq db a db' Hp. by intros [= <- <-]. Qed.
Lemma one_topic_select id : stmt_kept one_topic (select_payment id).
Proof. intros now sq db a db' Hp. by intros [= <- <-]. Qed.
Lemma one_topic_enqueue id key v h now0 o :
  stmt_kept one_topic (on (insert_outbox (mkMsg id paymentEventsTopicV1 key v h now0 o))).
Proof.
  intros now sq db a db' Hp. unfold on, insert_outbox, with_columns. destruct (columns_exist _ _); simpl; [|done].
  destruct (existsb _ _); simpl; [done|]. intros [= <- <-]. unfold one_topic. simpl. apply Forall_app. by repeat constructor.
Qed.
#[local] Hint Resolve one_topic_events one_topic_upsert one_topic_select one_topic_enqueue : kept.

Lemma Append_topic evs : kept one_topic (Append (@exec PaymentDB) evs).
Proof. induction evs as [|e evs IH]; simpl; [apply kept_ret|]. apply kept_bind; [|done]. by apply kept_exec, one_topic_events. Qed.
Lemma enqueue_topic id v ev : kept one_topic (payment_enqueue id v ev) /\ mute (payment_enqueue id v ev).
Proof. split; [unfold payment_enqueue, Enqueue; solve_kept|unfold payment_enqueue, Enqueue; solve_mute]. Qed.
Lemma toAppend_topic id i evs : kept one_topic (initiate_toAppend id i evs) /\ mute (initiate_toAppend id i evs).
Proof.
  revert i. induction evs as [|ev evs IH]; intros i; simpl; [split; [apply kept_ret|done]|]. destruct (IH (i + 1)), (enqueue_topic id (i + 1) ev).
  split; [solve_kept|solve_mute].
Qed.
#[local] Hint Resolve Append_topic : kept.

Lemma Append_mute {DB} `{Lens DB EventTables} evs : mute (Append (@exec DB) evs).
Proof. apply mute_forM. intros. apply mute_exec. Qed.
#[local] Hint Resolve Append_mute : mute.

Lemma InitiatePayment_tx_topic cmd : kept one_topic (InitiatePayment_tx cmd) /\ mute (InitiatePayment_tx cmd).
Proof.
  unfold InitiatePayment_tx, NewPayment, PaymentProjectionRepo_Upsert.
  split; [apply kept_bind; [solve_kept|]|apply mute_bind; [solve_mute|]];
    intros p; destruct (Payment_PullChanges p) as [evs p']; destruct (toAppend_topic (py_id p') 0 evs).
  - solve_kept.
  - solve_mute.
Qed.
Lemma payment_apply_topic id tr ex p :
  (forall p, kept one_topic (tr p)) -> (forall p, mute (tr p)) ->
  kept one_topic (payment_apply id tr ex p) /\ mute (payment_apply id tr ex p).
Proof.
  intros Hk Hm. unfold payment_apply, PaymentProjectionRepo_GetByID, PaymentProjectionRepo_Upsert.
  split; [apply kept_bind; [done|]|apply mute_bind; [done|]];
    intros q; destruct (Payment_PullChanges q) as [evs p']; (destruct evs as [|ev [|]]; [auto with kept mute..| |auto with kept mute]).
  - destruct (enqueue_topic id (py_version p') ev). solve_kept.
  - destruct (enqueue_topic id (py_version p') ev). solve_mute.
Qed.

(** A run of the payment service keeps the rows on the topic and publishes
    nothing. *)
Definition silent {A} (m : M PaymentDB A) : Prop := kept one_topic m /\ mute m.

Lemma payment_change_silent id tr ex :
  (forall p, kept one_topic (tr p)) -> (forall p, mute (tr p)) -> silent (payment_change id tr ex).
Proof.
  intros Hk Hm. unfold payment_change, LoadPayment, Read.
  split; [apply kept_bind; [solve_kept|]|apply mute_bind; [solve_mute|]]; intros p; by apply payment_apply_topic.
Qed.
Lemma initiate_silent temporal cmd : silent (InitiatePaymentHandler_Handle temporal cmd).
Proof.
  destruct (InitiatePayment_tx_topic cmd). unfold silent, InitiatePaymentHandler_Handle, InitiatePayment_validate,
    InitiatePayment_link, PaymentProjectionRepo_GetByID, PaymentProjectionRepo_Upsert.
  split; [solve_kept|solve_mute].
Qed.
Lemma command_silent op id key : silent (payment_command op id key).
Proof.
  assert (forall tr ex, (forall p, kept one_topic (tr p)) -> (forall p, mute (tr p)) ->
    silent (payment_keys_required id key ;;; with_tx (payment_change id tr ex))) as Hc.
  { intros tr ex Hk Hm. destruct (payment_change_silent id tr ex Hk Hm). unfold payment_keys_required.
    split; [solve_kept|solve_mute]. }
  destruct op; apply Hc; intros; unfold Payment_Authorize, Payment_Settle, Payment_Fail; solve_kept || solve_mute.
Qed.
End topics.

(** ** Runs of the payment service with its outbox worker *)
Section bus.
Context `{Env}.

Inductive bus_step : World PaymentDB -> World PaymentDB -> Prop :=
| bus_initiate temporal cmd w : bus_step w (InitiatePaymentHandler_Handle temporal cmd w).2
| bus_command op id key w : bus_step w (payment_command op id key w).2
| bus_tick w : bus_step w (worker_processBatch broker_Publish w).2
| bus_faults fl w : bus_step w (set_faults fl w).
(** Empty tables, with whatever columns the outbox has *)
Definition bus_init (w : World PaymentDB) : Prop := ob_rows (pd_outbox (w_db w)) = [] /\ w_sent w = [].
Definition bus_reachable (w : World PaymentDB) : Prop := exists w0, bus_init w0 /\ rtc bus_step w0 w.

Definition bus_inv (w : World PaymentDB) : Prop :=
  one_topic (w_db w) /\ Forall (fun m => msg_topic m = paymentEventsTopicV1) (w_sent w).

Lemma silent_inv {A} (m : M PaymentDB A) w : silent m -> bus_inv w -> bus_inv (m w).2.
Proof. intros [Hk Hm] [Hd Hs]. split; [by apply Hk|by rewrite Hm]. Qed.
Lemma publish_inv r w : or_topic r = paymentEventsTopicV1 -> bus_inv w -> bus_inv (broker_Publish (nats_message r) w).2.
Proof.
  intros Hr [Hd Hs]. unfold broker_Publish, next_fault.
  destruct (w_faults w) as [|[] fl]; simpl; split; try done; apply Forall_app; by repeat constructor.
Qed.
Lemma publish_all_inv ms w : Forall (fun r => or_topic r = paymentEventsTopicV1) ms -> bus_inv w ->
  bus_inv (publish_all broker_Publish ms w).2.
Proof.
  intros Hms. revert w. induction Hms as [|r ms Hr _ IH]; intros w Hw; [done|]. simpl.
  apply (publish_inv r w Hr) in Hw. unfold bindM, tryM. destruct (broker_Publish _ w) as [res w1]. simpl in *.
  specialize (IH _ Hw). by destruct (publish_all _ _ w1) as [[ids|e] w2].
Qed.
Lemma mark_topic ids : stmt_kept one_topic (on (update_processed ids)).
Proof.
  intros now sq db a db' Hp. unfold on, update_processed, with_columns. destruct (columns_exist _ _); simpl; [|done].
  intros [= _ <-]. unfold one_topic. simpl. apply Forall_map. eapply Forall_impl; [exact Hp|].
  intros r Hr. unfold mark. by destruct (bool_decide _).
Qed.
Lemma pending_topic n w ms w' : bus_inv w -> GetPending (@autoexec _ PaymentDB) n w = (Ok ms, w') ->
  Forall (fun r => or_topic r = paymentEventsTopicV1) ms.
Proof.
  intros [Hd _] Hg. unfold GetPending in Hg.
  destruct (autoexec_cases (on (select_pending n)) w) as (r & w1 & Hr & _ & _ & Hc). rewrite Hg in Hr. simplify_eq.
  destruct Hc as [(He & _)|(now & sq & a & [Ha|Ha] & Hst)]; [done| |done]. injection Ha as <-.
  unfold on, select_pending, with_columns in Hst. destruct (columns_exist _ _); simpl in Hst; [|done].
  injection Hst as <- _. apply Forall_take. rewrite order_by_perm. unfold one_topic in Hd. rewrite Forall_forall in *.
  intros r [Hr _]%list_elem_of_In%filter_In. by apply Hd, list_elem_of_In.
Qed.
Lemma batch_inv w : bus_inv w -> bus_inv (worker_processBatch broker_Publish w).2.
Proof.
  intros Hw. unfold worker_processBatch, bindM, wrap_err at 1.
  pose proof (pending_topic worker_batchSize w) as Hp.
  assert (bus_inv (GetPending (@autoexec _ PaymentDB) worker_batchSize w).2) as Hw1.
  { apply silent_inv; [|done]. split; [|apply mute_autoexec]. apply kept_autoexec. intros now sq db a db' Hd.
    unfold on, select_pending, with_columns. destruct (columns_exist _ _); simpl; [|done]. by intros [= _ <-]. }
  destruct (GetPending _ _ w) as [[ms|e] w1]; simpl in *; [|done]. specialize (Hp ms w1 Hw eq_refl).
  destruct ms as [|m ms]; [done|]. pose proof (publish_all_inv (m :: ms) w1 Hp Hw1) as Hw2.
  destruct (publish_all _ _ w1) as [[ids|e] w2]; [|done]. simpl in Hw2. destruct ids as [|i ids]; [done|].
  apply silent_inv; [|done]. split; [apply kept_wrap, kept_autoexec, mark_topic|apply mute_wrap, mute_autoexec].
Qed.

Lemma bus_reachable_inv w : bus_reachable w -> bus_inv w.
Proof.
  intros (w0 & [Hr Hs] & Hst). assert (bus_inv w0) as Hw by (split; unfold one_topic; by rewrite ?Hr, ?Hs).
  clear Hr Hs. induction Hst as [w|w w1 w2 Hst _ IH]; [done|]. apply IH. destruct Hst.
  - apply silent_inv; [apply initiate_silent|done].
  - apply silent_inv; [apply command_silent|done].
  - by apply batch_inv.
  - done.
Qed.

Context `{Process, VaultHTTP, NetLib, SpiffeLib, Host, NatsLib}.

Lemma no_subscriber b s : s ∈ subjects_of b -> nats_matches s paymentEventsTopicV1 = false.
Proof.
  intros Hs. rewrite nats_matches_tokens. destruct b; simpl in Hs; try set_solver;
    repeat (apply elem_of_cons in Hs as [-> |Hs]; [by vm_compute|]); by apply elem_of_nil in Hs.
Qed.

(** C30. No event one service publishes reaches another. Whatever commands,
    ticks of the outbox worker and failures a payment service has been
    through, and whatever columns its outbox has, everything it has published
    is on the topic [banking.payments.v1], which matches none of the subjects
    that the saga, the audit service, its projection of money movements and the
    notification service have subscribed to; and no other process runs a
    worker that publishes an outbox. *)
Theorem events_reach_nobody w : bus_reachable w ->
  (forall m, m ∈ w_sent w -> msg_topic m = "banking.payments.v1") /\
  (forall m b s, m ∈ w_sent w -> s ∈ subjects_of b -> nats_matches s (msg_topic m) = false) /\
  Forall (fun main => forall r, main = Ok r -> OutboxWorker ∉ rn_workers r)
    [ledger_main; account_main; auth_main; identity_main; fx_main; fraud_main; reporting_main; admin_main;
     notification_main; vault_main; audit_main].
Proof.
  intros [_ Hs]%bus_reachable_inv. split_and!.
  - intros m Hm. rewrite Forall_forall in Hs. by apply Hs.
  - intros m b s Hm Hb. rewrite Forall_forall in Hs. rewrite (Hs m Hm). by eapply no_subscriber.
  - unfold ledger_main, account_main, auth_main, identity_main, fx_main, fraud_main, reporting_main, admin_main,
      notification_main, vault_main, audit_main.
    repeat apply Forall_cons_2; [..|apply Forall_nil_2]; intros r Hr; invert_main Hr; injection Hr as <-; simpl;
      try destruct (nats_Subscribe _); set_solver.
Qed.
End bus.
