(* ===== verification/WiringWitnesses.v ===== *)
(** * The theorems on the processes at work *)
From S2P Require Import Prelude GoStrings Json Http Authz Tokens Auth Identity Startup AuthSample.
From S2P Require Import Money EventStore Outbox Ledger LedgerSpec LedgerProps Account Payment PaymentProps Transfer System Sample.
From S2P Require Import Wiring WiringProps Bus.
From Stdlib Require Import Ascii String.
#[local] Open Scope Z_scope.
#[local] Open Scope go_scope.

(** ** An environment in which everything starts, with or without mutual TLS *)
Definition sample_settings (mtls : bool) (k : string) : string :=
  if bool_decide (k ∈ ["LEDGER_DB_DSN"; "ACCOUNT_DB_DSN"; "PAYMENT_DB_DSN"]) then "postgres://db"
  else if bool_decide (k = "AUTH_JWKS_URL") then "http://auth/jwks.json"
  else if bool_decide (k = "SPIFFE_MTLS_ENABLED") then (if mtls then "true" else "")
  else "".
Definition plain_env : Process := {| os_Getenv := sample_settings false; os_ReadFile _ := Err (ENew "no such file") |}.
Definition mtls_env : Process := {| os_Getenv := sample_settings true; os_ReadFile _ := Err (ENew "no such file") |}.
#[local] Instance sample_vault : VaultHTTP := {| vault_Get _ _ := Err ENet |}.
#[local] Instance sample_spiffe : SpiffeLib := {|
  X509Source := string;
  spiffeid_FromString s := Ok s;
  TrustDomainFromString s := Ok s;
  NewX509Source s := Ok s;
|}.
#[local] Instance sample_host : Host := {|
  pgxpool_New _ := Ok tt; net_Listen _ := Ok tt; grpc_NewClient _ := Ok tt; temporal_Dial _ := Ok tt;
  nats_Connect _ := Ok tt; nats_Subscribe _ := Ok tt; nats_DefaultURL := "nats://127.0.0.1:4222";
  vaultapi_NewClient _ := Ok tt;
|}.
Definition sample_handshake (client server : transport) : bool :=
  match client, server with
  | Insecure, Insecure | MutualTLS _ _, MutualTLS _ _ => true
  | _, _ => false
  end.
#[local] Instance sample_transports : TransportLib :=
  {| handshake := sample_handshake; handshake_plain := eq_refl; handshake_plain_tls _ _ := eq_refl;
     handshake_tls_plain _ _ := eq_refl |}.

Definition started {A} (d : A) (r : result A) : A := match r with Ok a => a | Err _ => d end.
Definition unstarted : Running := mkRunning None (mkGrpcServer "" None Insecure false) [] [] None.
Definition ledger_process (E : Process) : Running := started unstarted (ledger_main (H := E)).
Definition account_process (E : Process) : Running := started unstarted (account_main (H := E)).
Definition payment_process (E : Process) : Running := started unstarted (payment_main (H := E)).
Definition gateway_process (E : Process) : string * list Connection := started ("", []) (gateway_main (H := E)).

(** ** Permissions

    Ann's token has the write permission of the ledger; the map is ranged
    over from its end. *)
Definition ann_verifies (_ : JWKSVerifier) (tok : string) : result TokenPayload :=
  if bool_decide (tok = "ann") then Ok (mkTokenPayload "ann" [] ["ledger:write"] 0 0 0) else Err (ENew "invalid token").
Definition ann_md : option metadata := Some {["authorization" := ["Bearer ann"]]}.
Definition ann_deposit : ledger_call :=
  CallPostEntry (Some (mkPostEntryRequest "k-ann" ENTRY_TYPE_DEPOSIT (Some "ann") (Some (mkProtoMoney NGN 500)) "salary")).

Definition ann_ledger : Running := ledger_process plain_env.
Definition ann_call : M LedgerDB ledger_answer :=
  serve (H := plain_env) (@rev (string * string)) ann_verifies (rn_server ann_ledger) (ledger_method ann_deposit) ann_md None
    (ledger_handler 0 ann_deposit).
Example ann_posts : Nat.eqb (List.length (events (l_events (w_db (ann_call ledger0).2)))) 1 = true.
Proof. vm_compute. reflexivity. Qed.
Lemma ann_changes : w_db (ann_call ledger0).2 <> w_db ledger0.
Proof.
  intros He. pose proof ann_posts as Hp. rewrite He in Hp. vm_compute in Hp. discriminate.
Qed.

Lemma rpc_permissions_witness : holder (H0 := plain_env) ann_verifies (rn_server ann_ledger) ann_md None "ledger:write".
Proof.
  apply (rpc_permissions (H0 := plain_env) (@rev (string * string)) ann_verifies (fun l => symmetry (Permutation_rev l)) 0
           (fun _ _ => Ok "run")) with (c := ann_deposit) (w := ledger0).
  - vm_compute. reflexivity.
  - exact ann_changes.
Defined.

(** ** Connections *)
Lemma plain_processes :
  ledger_main (H := plain_env) = Ok (ledger_process plain_env) /\
  account_main (H := plain_env) = Ok (account_process plain_env) /\
  payment_main (H := plain_env) = Ok (payment_process plain_env) /\
  gateway_main (H := plain_env) = Ok ((gateway_process plain_env).1, (gateway_process plain_env).2).
Proof. split_and!; vm_compute; reflexivity. Qed.
Lemma mtls_processes :
  ledger_main (H := mtls_env) = Ok (ledger_process mtls_env) /\
  account_main (H := mtls_env) = Ok (account_process mtls_env) /\
  payment_main (H := mtls_env) = Ok (payment_process mtls_env) /\
  gateway_main (H := mtls_env) = Ok ((gateway_process mtls_env).1, (gateway_process mtls_env).2).
Proof. split_and!; vm_compute; reflexivity. Qed.
Lemma plain_off : Forall (fun E => spiffeMTLSEnabled (H := E) = false) [plain_env; plain_env; plain_env; plain_env].
Proof. repeat apply Forall_cons_2; [vm_compute; reflexivity..|apply Forall_nil_2]. Qed.
Lemma mtls_on : server_credentials (H := mtls_env) <> None /\ client_credentials (H := mtls_env) <> None.
Proof. split; vm_compute; discriminate. Qed.

(** One host, with no port mapped. *)
#[local] Instance sample_network : Network.
Proof. refine {| reaches _ _ target addr := bool_decide (port target = port addr) |}. intros. by apply bool_decide_eq_true. Defined.

Lemma mutual_tls_reach_witness :
  (proxy_connects AtLedger (ledger_process plain_env) = true /\
   exists ga gl gi, (gateway_process plain_env).2 = [ga; gl; gi] /\
     connects AtGateway AtAccount ga (account_process plain_env) = true /\
     connects AtGateway AtLedger gl (ledger_process plain_env) = true) /\
  (proxy_connects AtLedger (ledger_process mtls_env) = false /\
   exists ga gl gi, (gateway_process mtls_env).2 = [ga; gl; gi] /\
     connects AtGateway AtAccount ga (account_process mtls_env) = false).
Proof.
  destruct plain_processes as (Hl & Ha & Hp & Hg). destruct mtls_processes as (Ml & Ma & Mp & Mg).
  destruct mtls_on as [Hs Hc]. split.
  - destruct (mutual_tls_reach plain_env plain_env plain_env plain_env _ _ _ _ _ Hl Ha Hp Hg)
      as (al & pl & pa & ga & gl & gi & _ & _ & Hgs & _ & _ & Hoff & _).
    destruct (Hoff plain_off) as [Hown Hcon]. split; [apply Forall_cons in Hown as [Hown _]; apply Hown; reflexivity|].
    exists ga, gl, gi. split; [exact Hgs|]. do 3 apply Forall_cons in Hcon as [_ Hcon].
    apply Forall_cons in Hcon as [-> Hcon]. apply Forall_cons in Hcon as [-> _].
    injection Hgs as <- <- _. split; vm_compute; reflexivity.
  - destruct (mutual_tls_reach mtls_env mtls_env mtls_env mtls_env _ _ _ _ _ Ml Ma Mp Mg)
      as (al & pl & pa & ga & gl & gi & _ & _ & Hgs & _ & _ & _ & H1 & _ & H2 & _).
    split; [exact (proj1 (H1 Hs))|]. exists ga, gl, gi. split; [exact Hgs|]. exact (H2 Hc).
Defined.

Lemma payment_targets_miss_witness :
  exists pl pa, rn_clients (payment_process plain_env) = [pl; pa] /\
    connects AtPayment AtLedger pl (ledger_process plain_env) = false /\
    connects AtPayment AtAccount pa (account_process plain_env) = false.
Proof.
  destruct plain_processes as (Hl & Ha & Hp & Hg).
  apply (payment_targets_miss plain_env plain_env plain_env _ _ _ Hl Ha Hp).
  - repeat apply Forall_cons_2; [vm_compute; reflexivity..|apply Forall_nil_2].
  - intros n m target addr Hr. by apply bool_decide_eq_true in Hr.
Defined.

(** ** A payment whose event is published, on a schema with the column the
    worker asks for *)
Definition with_processed_at : World PaymentDB :=
  mkWorld (mkPaymentDB (mkEventTables [] []) (mkOutboxTable ("processed_at" :: migrated_columns) []) ∅) 1 0 0 0 [] [].
Definition published : World PaymentDB :=
  (worker_processBatch broker_Publish (InitiatePaymentHandler_Handle TemporalNil payment_request with_processed_at).2).2.
Example published_one : map msg_topic (w_sent published) = ["banking.payments.v1"].
Proof. vm_compute. reflexivity. Qed.
Lemma published_reachable : bus_reachable published.
Proof.
  exists with_processed_at. split; [done|]. eapply rtc_l; [apply (bus_initiate TemporalNil payment_request)|].
  apply rtc_once, bus_tick.
Qed.
#[local] Instance sample_nats : NatsLib := {|
  nats_matches p s := tokens_match (Split "."%char p) (Split "."%char s);
  nats_matches_tokens _ _ := eq_refl;
|}.
Example login_matched : nats_matches "auth.user.*" "auth.user.login" = true.
Proof. vm_compute. reflexivity. Qed.
Lemma events_reach_nobody_witness :
  Forall (fun m => msg_topic m = "banking.payments.v1" /\
    Forall (fun s => nats_matches s (msg_topic m) = false) (subjects_of AuditConsumer)) (w_sent published).
Proof.
  destruct (events_reach_nobody (H0 := plain_env) published published_reachable) as (Ht & Hn & _).
  apply Forall_forall. intros m Hm. split; [by apply Ht|]. apply Forall_forall. intros s. by apply Hn.
Defined.
