(* ===== verification/AuthWitnesses.v ===== *)
(** * The theorems on tokens and the auth service at work *)
From S2P Require Import Prelude GoStrings Json Base64 Sha256 Passwords Invariants Authz Tokens LoginLimiter.
From S2P Require Import Auth AuthSpec AuthProps AuthCodes AuthFlows Sample AuthSample.
From Stdlib Require Import Ascii String.
#[local] Open Scope Z_scope.
#[local] Open Scope go_scope.

(** ** Passwords and tokens *)
Definition empty_world : World unit := mkWorld tt 1 0 0 0 [] [].

Lemma password_roundtrip_witness :
  let h := get_ok "" (HashPassword "correct horse" empty_world).1 in
  VerifyPassword "correct horse" h = Ok true /\ VerifyPassword "wrong horse" h = Ok false.
Proof.
  destruct (password_roundtrip "correct horse" (get_ok "" (HashPassword "correct horse" empty_world).1)
    empty_world (HashPassword "correct horse" empty_world).2) as (salt & key & Hparse & Hok & Hany).
  - apply ok_run. vm_compute. reflexivity.
  - split; [exact Hok|]. vm_compute. reflexivity.
Defined.

Definition ada : TokenPayload := mkTokenPayload "ada" ["customer"] ["account:read"] 0 1 900000000001.


(** An endpoint that publishes the key, a verifier that has fetched
    nothing. *)
#[export] Instance sample_endpoint : JwksEndpoint := {|
  jwks_Get _ := match Ed25519PublicJWK "key-1" (ed25519_Public (mk_priv sample_maker)) with
                | Ok k => Answer 200 (BJson (Marshal [k]))
                | Err _ => NoAnswer
                end;
|}.
#[export] Instance whole_lens : Lens JWKSVerifier JWKSVerifier := {| view v := v; upd v _ := v |}.
#[export] Instance whole_lens_ok : LensOk JWKSVerifier JWKSVerifier.
Proof. by split. Qed.
Definition verifier_world : World JWKSVerifier := mkWorld (mkVerifier "https://auth/jwks" 60 [] 0 None) 1 0 0 0 [] [].

Definition ada_token : string := get_ok "" (jwt_SignedString "key-1" (maker_claims ada) (mk_priv sample_maker)).

Lemma jwks_verifies_published_witness :
  exists t, (jwks_VerifyToken ada_token verifier_world).1 =
    (if clock_Now t <? NewNumericDate (tp_ExpiredAt ada) then Ok (payload_seconds ada) else Err ErrExpiredToken).
Proof.
  destruct (jwks_verifies_published sample_maker ada ada_token verifier_world) as (t & _ & Hv);
    [discriminate|discriminate|reflexivity|].
  exists t. rewrite Hv. rewrite bool_decide_true; [reflexivity|]. vm_compute. reflexivity.
Defined.

(** ** The limiter *)
Definition attacked_limiter : loginLimiter :=
  limiter_onFailure (limiter_allow (mkLoginLimiter 3 60 90 ∅) 4 "k").2 5 "k".

Lemma sample_attack : attack "k" 3 60 90 1 attacked_limiter [5] 5 0.
Proof.
  apply (attack_failed "k" 3 60 90 1 _ [] 4 1 5); [|lia|lia].
  eapply (attack_admitted "k" 3 60 90 1 _ [] 0 0 4); [apply attack_start|lia|reflexivity|lia].
Qed.

Lemma limiter_bounds_failures_witness : in_window 60 20 [5] <= 3 + 1 - 1.
Proof.
  apply (limiter_bounds_failures "k" 3 60 90 eq_refl eq_refl ltac:(discriminate) 1 attacked_limiter [5] 5 0 20);
    [lia|apply sample_attack].
Defined.

Lemma limiter_recovers_witness : (limiter_allow attacked_limiter 155 "k").1 = (true, 0).
Proof.
  apply (limiter_recovers "k" 3 60 90 eq_refl eq_refl ltac:(discriminate) 1 attacked_limiter [5] 5 0 155);
    [lia|apply sample_attack|lia|]. repeat constructor. discriminate.
Defined.

(** ** Registration, login and sessions *)
Lemma login_sound_witness :
  exists e u p wc s,
    normalizeEmail "ada@example.com" = Ok e /\ u ∈ ad_users (w_db auth1) /\ au_email u = e /\
    VerifyPassword (TrimSpace "correct horse") (au_password_hash u) = Ok true /\
    (CreateToken p wc).1 = Ok (tk_AccessToken login_tokens) /\
    tp_UserID p = au_id u /\ tp_Roles p ≡ₚ roles_of (w_db auth1) (au_id u) /\
    ad_sessions (w_db auth2) = ad_sessions (w_db auth1) ++ [s].
Proof.
  destruct (login_sound accessTTL refreshTTL visitor "ada@example.com" "correct horse" auth1 login_tokens auth2 login_run)
    as (e & u & p & wc & s & H). exists e, u, p, wc, s. tauto.
Defined.

Lemma login_lifetime_bounded_witness :
  exists p wc, (CreateToken p wc).1 = Ok (tk_AccessToken login_tokens) /\
  clock_Now (S (w_tick auth2)) <= tp_IssuedAt p + refreshTTL.
Proof.
  destruct (login_lifetime_bounded 8 accessTTL refreshTTL visitor "ada@example.com" "correct horse" auth1 login_tokens auth2
    (auth_steps_reachable _) login_run) as (p & wc & Hc & Hall).
  exists p, wc. split; [exact Hc|].
  apply (Hall auth2 visitor (token_at 2) _ _ session1 (rtc_refl _ _)
    ltac:(apply Nat.leb_le; vm_compute; reflexivity) session1_stored ltac:(vm_compute; reflexivity)
    ltac:(vm_compute; reflexivity) (ok_run no_tokens _ auth2 sample_refresh)).
Defined.

Lemma refresh_sessions_consistent_witness :
  NoDup (map rs_token_hash (ad_sessions (w_db auth2))) /\
  (forall s, s ∈ ad_sessions (w_db auth2) ->
     has_user (w_db auth2) (rs_user_id s) = true /\ rs_expires_at s <= rs_absolute_expires_at s /\
     (rs_replaced_by_hash s <> None -> rs_revoked_at s <> None)).
Proof.
  destruct (refresh_sessions_consistent 8 accessTTL refreshTTL auth2) as (H1 & H2 & _).
  - exists auth0. split; [split; reflexivity|]. etransitivity; apply auth_steps_rtc.
  - apply Nat.leb_le. vm_compute. reflexivity.
  - split; [exact H1|exact H2].
Defined.

Lemma auth2_reachable : auth_reachable accessTTL refreshTTL auth2.
Proof. exists auth0. split; [done|]. etransitivity; apply auth_steps_rtc. Qed.
Lemma auth3_reachable : auth_reachable accessTTL refreshTTL auth3.
Proof. destruct auth2_reachable as (w0 & ? & ?). exists w0. split; [done|]. etransitivity; [done|]. apply auth_steps_rtc. Qed.

Definition refreshed : World AuthDB := (RefreshToken accessTTL refreshTTL visitor (token_at 2) auth2).2.

(** The token is used again after a clean-up. *)
Lemma refresh_token_single_use_witness :
  exists e, (RefreshToken accessTTL refreshTTL None (token_at 2) (auth_steps [OpCleanup 0] refreshed)).1 = Err e.
Proof.
  apply (refresh_token_single_use 8 accessTTL refreshTTL visitor (token_at 2) auth2 _ refreshed _ None auth2_reachable
    (ok_run no_tokens _ auth2 sample_refresh)).
  - apply auth_steps_rtc.
  - apply Nat.leb_le. vm_compute. reflexivity.
Defined.

Lemma refresh_reuse_revokes_nothing_witness :
  exists e w', RefreshToken accessTTL refreshTTL None (token_at 2) refreshed = (Err e, w') /\ w_db w' = w_db refreshed.
Proof.
  apply (refresh_reuse_revokes_nothing accessTTL refreshTTL None (token_at 2)
    (default no_session (head (ad_sessions (w_db refreshed)))) refreshed).
  - apply (bool_decide_unpack _). vm_compute. exact I.
  - apply head_elem. vm_compute. reflexivity.
  - vm_compute. reflexivity.
  - vm_compute. reflexivity.
Defined.

Lemma refresh_race_witness :
  exists r1 r2 w' s1 s2, refresh_interleaved refreshTTL visitor None (rs_token_hash session1) auth2 = (Ok (r1, r2), w') /\
    s1 ∈ ad_sessions (w_db w') /\ s2 ∈ ad_sessions (w_db w') /\
    rs_token_hash s1 = HashRefreshToken r1.1 /\ rs_token_hash s2 = HashRefreshToken r2.1 /\
    rs_token_hash s1 <> rs_token_hash s2 /\ rs_session_id s1 = rs_session_id s2 /\
    live s1 = true /\ live s2 = true.
Proof.
  apply (refresh_race 8 refreshTTL visitor None session1 auth2).
  - vm_compute. reflexivity.
  - apply Nat.leb_le. vm_compute. reflexivity.
  - apply (reachable_sessions_ok 8 accessTTL refreshTTL); [apply auth2_reachable|].
    apply Nat.leb_le. vm_compute. reflexivity.
  - apply session1_stored.
  - vm_compute. reflexivity.
  - intros k Hk. destruct k as [|[|k]]; [..|lia]; apply Z.leb_le; vm_compute; reflexivity.
Defined.

Lemma register_then_login_witness :
  exists tks w2 p wc, Login accessTTL refreshTTL visitor "Ada@Example.com" "correct horse" auth1 = (Ok tks, w2) /\
    (CreateToken p wc).1 = Ok (tk_AccessToken tks) /\ tp_UserID p = "id-1".
Proof.
  apply (register_then_login 8 accessTTL refreshTTL visitor "Ada@Example.com" "correct horse" "Ada" auth0 "id-1" auth1).
  - apply (auth_steps_reachable []).
  - assert ((Register "Ada@Example.com" "correct horse" "Ada" auth0).1 = Ok "id-1") as H1 by (vm_compute; reflexivity).
    assert ((Register "Ada@Example.com" "correct horse" "Ada" auth0).2 = auth1) as H2 by (unfold auth1, auth_steps; cbn [foldl run_op]; apply op_world).
    rewrite <-H1, <-H2. apply surjective_pairing.
  - apply sample_issues.
  - vm_compute. reflexivity.
  - apply Nat.ltb_lt. vm_compute. reflexivity.
  - intros e l _ Hl. vm_compute in Hl. discriminate Hl.
Defined.

(** ** OAuth and administration *)
Definition redeemed : World AuthDB := (OAuthToken accessTTL refreshTTL None token_request auth3).2.

(** The same request to a confidential client, its secret in the form. *)
Definition secret_hash : string := match (HashPassword "s3cret" auth0).1 with Ok h => h | Err _ => "" end.
Definition confidential_client : oauthClientRecord :=
  mkClient "app" "App" "confidential" (Some secret_hash) ["https://app.example/cb"] ["openid"] 0 None.
Definition auth3c : World AuthDB := set_db (set_clients [confidential_client] (w_db auth3)) auth3.
Definition secret_request : OAuthTokenRequest :=
  mkTokenRequest "authorization_code" "app" "s3cret" (token_at 3) "https://app.example/cb" pkce_verifier.
Definition redeemed_c : World AuthDB := (OAuthToken accessTTL refreshTTL None secret_request auth3c).2.
Lemma secret_redeem : is_ok (OAuthToken accessTTL refreshTTL None secret_request auth3c).1 = true.
Proof. vm_compute. reflexivity. Qed.
Lemma wrong_secret_refused : is_ok (OAuthToken accessTTL refreshTTL None token_request auth3c).1 = false.
Proof. vm_compute. reflexivity. Qed.

Lemma oauth_token_sound_witness :
  exists c, c ∈ ad_codes (w_db auth3c) /\ ac_client_id c = "app" /\ ac_consumed_at c = None /\
    VerifyPassword "s3cret" secret_hash = Ok true /\
    TrimSpace (ac_code_challenge c) = hashB64URLSHA256 (TrimSpace pkce_verifier).
Proof.
  destruct (oauth_token_sound accessTTL refreshTTL None secret_request auth3c _ redeemed_c
    (ok_run no_tokens _ auth3c secret_redeem)) as (rec & c & p & wc & s & t & Hrec & [Hid Hsec] & Hc & _ & Hcl & Hcon & _ & _ & _ & Hch & _).
  assert (rec = confidential_client) as -> by by apply list_elem_of_singleton in Hrec.
  destruct (Hsec eq_refl) as (_ & (h & [= <-] & Hv) & _).
  exists c. split; [exact Hc|]. split; [exact Hcl|]. split; [exact Hcon|]. split; [|exact Hch].
  assert (request_secret None secret_request = "s3cret") as <- by (vm_compute; reflexivity). exact Hv.
Defined.

Definition sample_code : AuthorizationCode := default (mkCode "" "" "" "" [] "" "" 0 None 0) (head (ad_codes (w_db auth3))).
Lemma code_race_witness :
  exists tks1 tks2 w' s1 s2,
    redeem_interleaved accessTTL refreshTTL (ac_code_hash sample_code) "app" "https://app.example/cb" pkce_verifier auth3 =
      (Ok (tks1, tks2), w') /\
    ad_sessions (w_db w') = ad_sessions (w_db auth3) ++ [s1; s2] /\
    rs_token_hash s1 = HashRefreshToken (tk_RefreshToken tks1) /\ rs_token_hash s2 = HashRefreshToken (tk_RefreshToken tks2) /\
    rs_token_hash s1 <> rs_token_hash s2 /\ rs_user_id s1 = ac_user_id sample_code /\ rs_user_id s2 = ac_user_id sample_code /\
    live s1 = true /\ live s2 = true.
Proof.
  apply (code_race 8).
  - apply sample_issues.
  - vm_compute. reflexivity.
  - apply Nat.leb_le. vm_compute. reflexivity.
  - apply (reachable_sessions_ok 8 accessTTL refreshTTL); [apply auth3_reachable|]. apply Nat.leb_le. vm_compute. reflexivity.
  - vm_compute. reflexivity.
  - intros k [->|[->|[]%not_elem_of_nil]%elem_of_cons]%elem_of_cons; vm_compute; reflexivity.
  - vm_compute. discriminate.
  - vm_compute. reflexivity.
Defined.

Lemma oauth_code_single_use_witness :
  exists e, (OAuthToken accessTTL refreshTTL visitor token_request (auth_steps [OpCleanup 0] redeemed)).1 = Err e.
Proof.
  apply (oauth_code_single_use 8 accessTTL refreshTTL None token_request auth3 _ redeemed _ visitor token_request
    auth3_reachable (ok_run no_tokens _ auth3 sample_redeem)).
  - apply auth_steps_rtc.
  - apply Nat.leb_le. vm_compute. reflexivity.
  - reflexivity.
Defined.

(** Ada is no administrator. *)
Lemma admin_only_witness :
  (exists p, (VerifyToken (token_of bearer_fold signed_in) auth2).1 = Ok p /\ "auth:admin" ∈ tp_Permissions p) \/
  (exists e, (run_op accessTTL refreshTTL (OpGrantRole signed_in "id-1" "admin") auth2).1 = Err e) /\
   w_db (run_op accessTTL refreshTTL (OpGrantRole signed_in "id-1" "admin") auth2).2 = w_db auth2.
Proof. apply (admin_only accessTTL refreshTTL (OpGrantRole signed_in "id-1" "admin") signed_in auth2). reflexivity. Defined.
