(* ===== verification/IdentityWitnesses.v ===== *)
(** * The theorems on the identity service at work

    A sample of what the service takes from libraries: a WebAuthn library
    whose assertions spell out credential, key and challenge, and tokens of
    three parts. *)
From S2P Require Import Prelude GoStrings Json JsonText Base64 Sha256 Http Passwords Invariants Authz Tokens LoginLimiter.
From S2P Require Import Auth AuthSpec AuthProps AuthCodes AuthFlows Identity Passkeys IdentityProps PasskeyProps Sample AuthSample.
From Stdlib Require Import Ascii String.
#[local] Open Scope Z_scope.
#[local] Open Scope go_scope.

#[export] Instance sample_mime : MimeLib := {| mime_ParseMediaType s := (s, true) |}.
#[export] Instance sample_reader : JsonReader := {|
  json_Decode b :=
    match text_bits (list_ascii_of_string b) ≫= decode (A := list string * list string * Z * string * option Z * option Z) with
    | Some t => BJson (claims_json (tuple_claims t))
    | None => BRaw b
    end;
|}.

Definition sample_credential : Type := string * string * Z.
#[export] Instance sample_webauthn : WebAuthnLib := {|
  Credential := sample_credential;
  SessionData := string;
  cred_ID c := c.1.1;
  cred_SignCount c := c.2;
  cred_Marshal c := Ok (JArr [JStr c.1.1; JStr c.1.2; JInt c.2]);
  cred_Unmarshal j := match j with JArr [JStr i; JStr k; JInt n] => Ok (i, k, n) | _ => Err json_type_error end;
  sd_Marshal sd := Ok (JStr sd);
  sd_Unmarshal j := match j with JStr sd => Ok sd | _ => Err json_type_error end;
  wa_New _ _ := None;
  wa_BeginLogin n _ := Ok (JStr (pretty n), pretty n);
  wa_FinishLogin _ u sd r :=
    match List.find (fun c => bool_decide (rq_Body r = c.1.1 +:+ ":" +:+ c.1.2 +:+ ":" +:+ sd)) (wu_credentials u) with
    | Some (i, k, n) => Ok (i, k, n + 1)
    | None => Err (ENew "no credential")
    end;
  wa_BeginRegistration n _ := Ok (JStr (pretty n), pretty n);
  wa_FinishRegistration _ _ _ r :=
    match cut_at ":"%char (rq_Body r) with Some (i, k) => Ok (i, k, 0) | None => Err (ENew "no credential") end;
|}.

(** ** Pages *)
Definition page_header (cookies : list string) : Header :=
  {["Accept" := ["text/html"]; "Content-Type" := ["application/x-www-form-urlencoded"]; "Cookie" := cookies]}.
Definition authorize_query : string :=
  "response_type=code&client_id=app&redirect_uri=https%3A%2F%2Fapp.example%2Fcb&scope=openid&state=s&code_challenge=ch".
Definition get_page : request := mkRequest "GET" "/oauth/authorize" authorize_query (page_header []) "" "" true.
Definition post_page : request :=
  mkRequest "POST" "/oauth/authorize" "" (page_header ["fincore_authorize_csrf=t0ken"]) ""
    (authorize_query +:+ "&csrf_token=t0ken&approve=yes&email=ada%40example.com&password=correct+horse") true.
Definition no_proxy : request -> M AuthDB reply := fun _ => retM (mkReply 404 ∅ [] NoBody).

Definition identity_world (a : World AuthDB) (b : list BrowserSession) (c : list WebAuthnCredential)
    (ch : list WebAuthnSession) : World IdentityDB :=
  mkWorld (mkIdentityDB (w_db a) b c ch) (w_seq a) (w_uuid a) (w_tick a) (w_tx a) [] [].

Abbreviation page_of_service := (oauth_authorize accessTTL refreshTTL false "grpc-go" "localhost" no_proxy).

Lemma authorize_guarded_witness :
  w_db (page_of_service get_page (identity_world auth2 [] [] [])).2 = w_db (identity_world auth2 [] [] []).
Proof.
  apply (authorize_guarded accessTTL refreshTTL false "grpc-go" "localhost" no_proxy get_page); [reflexivity|].
  intros [Hm _]. discriminate Hm.
Defined.

Definition ada_browser : BrowserSession := mkBrowserSession "sid" "id-0" "t" 1000 0.
Lemma authorize_issues_no_code_witness :
  exists rep w', page_of_service post_page (identity_world auth2 [ada_browser] [] []) = (Ok rep, w') /\
    ad_codes (id_auth (w_db w')) = [] /\ error_redirect rep.
Proof.
  destruct (authorize_issues_no_code accessTTL refreshTTL false "grpc-go" "localhost" no_proxy post_page
    (identity_world auth2 [ada_browser] [] []) eq_refl) as (rep & w' & Hr & Hc & He).
  exists rep, w'. split; [exact Hr|]. split; [|exact He]. rewrite Hc. vm_compute. reflexivity.
Defined.

(** ** The token endpoint *)
Definition token_post : request :=
  mkRequest "POST" "/oauth/token" "" (page_header []) ""
    ("grant_type=authorization_code&client_id=app&redirect_uri=https%3A%2F%2Fapp.example%2Fcb&code=" +:+ token_at 3 +:+
     "&code_verifier=" +:+ pkce_verifier) true.
Definition no_reply : reply := mkReply 0 ∅ [] NoBody.
Definition token_world : World IdentityDB := identity_world auth3 [] [] [].
Definition token_run := oauth_token accessTTL refreshTTL "grpc-go" "localhost" token_post token_world.
Lemma token_run_status : is_ok token_run.1 && (re_Status (get_ok no_reply token_run.1) =? 200) = true.
Proof. vm_compute. reflexivity. Qed.

Lemma token_endpoint_sound_witness :
  exists rec c, rec ∈ ad_clients (id_auth (w_db token_world)) /\ c ∈ ad_codes (id_auth (w_db token_world)) /\
    ac_client_id c = oc_id rec /\ ac_redirect_uri c = "https://app.example/cb".
Proof.
  destruct (andb_prop _ _ token_run_status) as [Hok Hst%Z.eqb_eq].
  destruct (token_endpoint_sound accessTTL refreshTTL "grpc-go" "localhost" token_post token_world
    (get_ok no_reply token_run.1) token_run.2 (ok_run no_reply _ token_world Hok) Hst)
    as (rec & c & tks & s & t & _ & _ & Hrec & _ & Hc & _ & Hcl & _ & _ & _ & Hre & _).
  exists rec, c. split; [exact Hrec|]. split; [exact Hc|]. split; [exact Hcl|]. rewrite Hre. vm_compute. reflexivity.
Defined.

(** ** Nobody signs in *)
Definition claims_text (c : jwtClaims) : string := string_of_list_ascii (bits_text (encode (claims_tuple c))).
#[local] Instance dotted_jwt : Jwt := {|
  jwt_SignedString kid c priv := Ok ("h" +:+ String "." (raw_EncodeToString URLEncoding (claims_text c) +:+ String "." "s"));
  jwt_ParseUnverified tok := Some (EdDSA, "key-1");
  jwt_Verify now tok pub := Refused false;
|}.
#[local] Instance dotted_text : JwtText.
Proof.
  split. intros kid c priv tok [= <-].
  exists "h", (raw_EncodeToString URLEncoding (claims_text c)), "s", (claims_text c). split_and!.
  - done.
  - by intros [|[]%not_elem_of_nil]%elem_of_cons.
  - intros (v & Hv & Hdot)%raw_Encode_chars.
    assert (forallb (fun v => negb (Ascii.eqb "." (encode_char URLEncoding v))) (map Z.of_nat (seq 0 64)) = true) as Hall
      by (vm_compute; reflexivity).
    rewrite forallb_forall in Hall. assert (In v (map Z.of_nat (seq 0 64))) as Hin.
    { apply in_map_iff. unfold is_sextet in Hv. exists (Z.to_nat v). split; [lia|]. apply in_seq. lia. }
    apply Hall in Hin. by rewrite <-Hdot in Hin.
  - by intros [|[]%not_elem_of_nil]%elem_of_cons.
  - by apply raw_Decode_Encode.
  - simpl. unfold claims_text. rewrite list_ascii_of_string_of_list_ascii, text_bits_text. simpl.
    rewrite decode_encode. by destruct c.
Qed.

Definition locked_world : World IdentityDB := identity_world auth1 [] [] [].
Definition locked_serve (r : request) : M IdentityDB reply :=
  identity_handler (TokenMaker0 := maker_TokenMaker sample_maker) false accessTTL refreshTTL "grpc-go" "localhost" no_proxy
    (main_config "https://id.example") [] true r.
Lemma identity_locked_out_witness :
  nobody (w_db (locked_serve post_page locked_world).2) /\
  re_Body (get_ok no_reply (locked_serve post_page locked_world).1) =
    AuthorizePage (mkPage "Login failed" "app" "https://app.example/cb" "openid" "s" "ch" "S256" "t0ken" false false).
Proof.
  split; [|vm_compute; reflexivity].
  apply (identity_locked_out sample_maker accessTTL refreshTTL false "grpc-go" "localhost" no_proxy
    (main_config "https://id.example") [] true locked_world).
  - by repeat split.
  - apply rtc_once, step_request.
Defined.

(** ** Passkeys *)
Definition people : World AuthDB :=
  mkWorld (mkAuthDB [mkUser "ada" "ada@example.com" "Ada" "" 0; mkUser "eve" "eve@example.com" "Eve" "" 0]
             [] [] [] [] [] [] [] [] [] [] None) 1 0 0 0 [] [].
Definition ada_passkey : WebAuthnCredential :=
  mkWebAuthnCredential "row" "ada" "K" (JArr [JStr "K"; JStr "secret"; JInt 0]) 0 0 0.
Definition passkeys0 : World IdentityDB := identity_world people [] [ada_passkey] [].
Definition begin_request : request :=
  mkRequest "GET" "/webauthn/login/begin" "email=Ada%40example.com" ∅ "" "" true.
Definition sample_serve (r : request) : M IdentityDB reply :=
  identity_handler false accessTTL refreshTTL "grpc-go" "localhost" no_proxy (main_config "https://id.example") [] true r.
Definition passkeys1 : World IdentityDB := (sample_serve begin_request passkeys0).2.
Definition finish_request (cookie body : string) : request :=
  mkRequest "POST" "/webauthn/login/finish" "" {["Cookie" := ["fincore_webauthn_session=" +:+ cookie]]} "" body true.
Definition ada_finish : request := finish_request (challenge_name 1) "K:secret:0".
Definition signing_in := FinishLogin false ada_finish passkeys1.
Definition passkeys2 : World IdentityDB := signing_in.2.
Lemma signing_in_status : is_ok signing_in.1 && (re_Status (get_ok no_reply signing_in.1) =? 200) = true.
Proof. vm_compute. reflexivity. Qed.

Lemma passkey_login_sound_witness :
  exists s b, s ∈ id_challenges (w_db passkeys1) /\ ws_kind s = kind_login /\
    clock_Now (w_tick passkeys1) < ws_expires_at s /\
    id_browser (w_db passkeys2) = id_browser (w_db passkeys1) ++ [b] /\ bs_user_id b = ws_user_id s.
Proof.
  destruct (andb_prop _ _ signing_in_status) as [Hok Hst%Z.eqb_eq].
  destruct (passkey_login_sound false ada_finish passkeys1 (get_ok no_reply signing_in.1) passkeys2
    (ok_run no_reply _ passkeys1 Hok) Hst) as (s & t & sd & creds & cred & b & Hs & _ & Hk & Hexp & _ & _ & _ & _ & _ & Hb & Hu & _).
  exists s, b. exact (conj Hs (conj Hk (conj Hexp (conj Hb Hu)))).
Defined.

Definition eve_finish : request := finish_request "c1" "K:evil".
Definition eve_challenge : WebAuthnSession := mkWebAuthnSession "c1" kind_register "eve" (JStr "7") 1000 0.
Definition takeover_world : World IdentityDB := identity_world people [] [ada_passkey] [eve_challenge].
Definition eve_data : @SessionData sample_webauthn := "7".
Definition eve_credential : @Credential sample_webauthn := ("K", "evil", 0).
Lemma passkey_takeover_witness :
  exists rep w' c', FinishRegister eve_finish takeover_world = (Ok rep, w') /\ re_Status rep = 200 /\
    c' ∈ id_credentials (w_db w') /\ wc_user_id c' = "ada" /\ wc_credential c' = JArr [JStr "K"; JStr "evil"; JInt 0].
Proof.
  destruct (passkey_takeover eve_finish takeover_world eve_challenge eve_data [] eve_credential
    (JArr [JStr "K"; JStr "evil"; JInt 0]) ada_passkey) as (rep & w' & c' & Hr & Hst & Hc & _ & Hu & Hd);
    try reflexivity; try discriminate.
  - repeat constructor. apply not_elem_of_nil.
  - left.
  - left.
  - exists rep, w', c'. exact (conj Hr (conj Hst (conj Hc (conj Hu Hd)))).
Defined.

Definition signing_in_again := finish false SigningIn ada_finish passkeys2.
Lemma signing_in_again_ok : is_ok signing_in_again.1 = true.
Proof. vm_compute. reflexivity. Qed.
Lemma challenge_single_use_witness : re_Status (get_ok no_reply signing_in_again.1) <> 200.
Proof.
  destruct (andb_prop _ _ signing_in_status) as [Hok Hst%Z.eqb_eq].
  apply (challenge_single_use 8 accessTTL refreshTTL false "grpc-go" "localhost" no_proxy (fun _ _ => Nat.le_refl _)
    (main_config "https://id.example") [] true SigningIn ada_finish passkeys0 passkeys1 (get_ok no_reply signing_in.1) passkeys2
    passkeys2 SigningIn ada_finish (get_ok no_reply signing_in_again.1) signing_in_again.2).
  - reflexivity.
  - apply rtc_once, passkey_request.
  - apply (ok_run no_reply _ passkeys1 Hok).
  - exact Hst.
  - apply rtc_refl.
  - apply Nat.leb_le. vm_compute. reflexivity.
  - reflexivity.
  - apply (ok_run no_reply _ passkeys2 signing_in_again_ok).
Defined.
