(* ===== verification/ServiceWitnesses.v ===== *)
(** * The theorems on the smaller services at work *)
From S2P Require Import Prelude GoStrings Json Base64 Floats BigFloat Fraud Fx BackOffice Passwords Tokens Auth Duration Startup AuthSample.
From Stdlib Require Import Ascii String QArith Lqa.
#[local] Open Scope Z_scope.
#[local] Open Scope go_scope.

(** ** Reading decimals

    An implementation of [big_SetString] on decimal notation: read the digits
    and divide. *)
Definition read_digits (neg : bool) (s : string) : option (bool * Z * nat) :=
  match Split "."%char s with
  | [i] => (fun n => (neg, n, 0%nat)) <$> digits_value 0 i
  | [i; f] => (fun n => (neg, n, String.length f)) <$> digits_value 0 (i +:+ f)
  | _ => None
  end.
Definition read_decimal (s : string) : option (bool * Z * nat) :=
  match s with
  | String a s' => if Ascii.eqb a "-" then read_digits true s' else read_digits false s
  | "" => None
  end.
Definition quotient (n d : Z) : Z * Z :=
  if n =? 0 then (0, 0)
  else
    let e := Z.log2 n - Z.log2 d - 256 in
    (if e <? 0 then div_even (n * 2 ^ (- e)) d else div_even n (d * 2 ^ e), e).
#[export] Instance decimal_reader : BigFloatLib := {|
  big_SetString s :=
    match read_decimal s with
    | Some (neg, n, k) => let '(m, e) := quotient n (10 ^ Z.of_nat k) in Some (BigFinite neg m e)
    | None => None
    end |}.

Lemma zeros_value j acc t : digits_value acc (zeros j +:+ t) = digits_value (acc * 10 ^ Z.of_nat j) t.
Proof.
  revert acc. induction j as [|j IH]; intros acc.
  - change (digits_value acc t = digits_value (acc * 1) t). f_equal. lia.
  - change (digits_value (10 * acc + 0) (zeros j +:+ t) = digits_value (acc * 10 ^ Z.of_nat (S j)) t).
    rewrite IH. f_equal. rewrite Nat2Z.inj_succ, Z.pow_succ_r by lia. lia.
Qed.
Lemma zeros_length j : String.length (zeros j) = j.
Proof. induction j as [|j IH]; [done|]. change (S (String.length (zeros j)) = S j). by rewrite IH. Qed.


(** The decimals of a number *)
Lemma pad_left_digits (k : nat) b : (0 < k)%nat -> 0 <= b < 10 ^ Z.of_nat k ->
  String.length (pad_left k (pretty b)) = k /\
  (forall acc, digits_value acc (pad_left k (pretty b)) = Some (acc * 10 ^ Z.of_nat k + b)).
Proof.
  intros Hk Hb. destruct (pretty_digits b ltac:(lia)) as [Hv Hl]. specialize (Hl k Hk ltac:(lia)).
  unfold pad_left. split; [rewrite length_append, zeros_length; lia|].
  intros acc. rewrite zeros_value, <-(append_empty (pretty b)), Hv, append_empty. simpl. f_equal.
  rewrite <-Z.mul_assoc, <-Z.pow_add_r by lia. do 3 f_equal. lia.
Qed.

Lemma read_digits_text neg n k : 0 <= n ->
  read_decimal (decimal_text neg n k) = Some (neg, n, k).
Proof.
  intros Hn. set (unit := 10 ^ Z.of_nat k). assert (0 < unit) as Hu by (apply Z.pow_pos_nonneg; lia).
  pose proof (Z.div_pos n unit Hn Hu) as Hi. pose proof (Z.mod_pos_bound n unit Hu) as Hf.
  destruct (pretty_digits (n / unit) Hi) as [Hv _].
  set (body := pretty (n / unit) +:+ (if (k =? 0)%nat then "" else "." +:+ pad_left k (pretty (n mod unit)))).
  assert (free_of "." (pretty (n / unit))) as Hfree.
  { apply (digits_value_free _ 0); [done|]. rewrite <-(append_empty (pretty _)), Hv. by eexists. }
  assert (forall neg, read_digits neg body = Some (neg, n, k)) as Hbody.
  { intros neg'. unfold read_digits, body. destruct (Nat.eqb_spec k 0) as [->|Hk].
    - rewrite append_empty, (Split_free _ _ Hfree), <-(append_empty (pretty _)), Hv. simpl. do 2 f_equal. subst unit.
      change (10 ^ Z.of_nat 0) with 1. rewrite Z.div_1_r. repeat f_equal; lia.
    - destruct (pad_left_digits k (n mod unit) ltac:(lia) Hf) as [Hl Hd].
      assert (free_of "." (pad_left k (pretty (n mod unit)))) as Hff.
      { apply (digits_value_free _ 0); [done|]. rewrite Hd. by eexists. }
      change ("." +:+ ?x) with (String "." x). rewrite (Split_app _ _ _ Hfree), (Split_free _ _ Hff), Hv, Hd, Hl. simpl. do 3 f_equal.
      fold unit. pose proof (Z.div_mod n unit ltac:(lia)). lia. }
  assert (exists a s, body = String a s /\ a <> "-"%char) as (a & s & Hs & Ha).
  { specialize (Hv 0 ""). unfold body. destruct (pretty (n / unit)) as [|a s] eqn:Hp.
    { injection Hv as Hz. assert (n / unit = 0) as E by lia. by rewrite E in Hp. }
    eexists a, _. split; [reflexivity|].
    intros ->. by rewrite append_empty in Hv. }
  change (decimal_text neg n k) with ((if neg then "-" else "") +:+ body). destruct neg.
  - change ("-" +:+ body) with (String "-" body). by apply Hbody.
  - change ("" +:+ body) with body. specialize (Hbody false). rewrite Hs in *. simpl.
    destruct (Ascii.eqb_spec a "-"); [done|]. exact Hbody.
Qed.

(** The quotient is near the ratio. *)
Lemma div_even_near a d : 0 < a -> 0 < d -> 2 ^ 255 * d <= a ->
  0 <= div_even a d /\ near (inject_Z a / inject_Z d)%Q (inject_Z (div_even a d)).
Proof.
  intros Ha Hd Hb. pose proof (div_even_spec a d Hd) as Hs. set (m := div_even a d) in *. split; [nia|].
  assert (2 ^ 256 * (m * d) - 2 ^ 256 * a <= a /\ 2 ^ 256 * a - 2 ^ 256 * (m * d) <= a) as [H1 H2].
  { change (2 ^ 256) with (2 ^ 255 * 2). nia. }
  rewrite Zle_Qle in H1, H2. unfold Z.sub in H1, H2.
  rewrite inject_Z_plus, inject_Z_opp, !(inject_Z_mult (2 ^ 256)), inject_Z_mult in H1, H2.
  destruct eps_bounds as (He & _ & HN). rewrite Zlt_Qlt in Hd. change (inject_Z 0) with 0%Q in Hd.
  set (N := inject_Z (2 ^ 256)) in *. set (A := inject_Z a) in *. set (D := inject_Z d) in *. set (Mq := inject_Z m) in *.
  apply (Qmult_le_compat_r _ _ eps) in H1, H2; [|lra..].
  assert (A * eps >= Mq * D - A /\ A * eps >= A - Mq * D)%Q as [H3 H4].
  { assert ((N * (Mq * D) + - (N * A)) * eps == (eps * N) * (Mq * D - A))%Q as E1 by ring.
    assert ((N * A + - (N * (Mq * D))) * eps == (eps * N) * (A - Mq * D))%Q as E2 by ring.
    rewrite E1, HN in H1. rewrite E2, HN in H2. split; lra. }
  assert (A / D * D == A)%Q as HAD by (field; lra). split.
  - apply (Qmult_le_r _ _ D); [done|]. assert (A / D * (1 - eps) * D == A * (1 - eps))%Q as E by (field; lra). rewrite E. lra.
  - apply (Qmult_le_r _ _ D); [done|]. assert (A / D * (1 + eps) * D == A * (1 + eps))%Q as E by (field; lra). rewrite E. lra.
Qed.

Lemma near_scale x v c : (0 < c)%Q -> near x v -> near (x * c) (v * c).
Proof.
  intros Hc [H1 H2]. split.
  - assert (x * c * (1 - eps) == x * (1 - eps) * c)%Q as E by ring. rewrite E. apply Qmult_le_compat_r; [done|lra].
  - assert (x * c * (1 + eps) == x * (1 + eps) * c)%Q as E by ring. rewrite E. apply Qmult_le_compat_r; [done|lra].
Qed.

Lemma quotient_near n k : 0 <= n ->
  0 <= (quotient n (10 ^ Z.of_nat k)).1 /\
  near (ratio n k) (value (quotient n (10 ^ Z.of_nat k)).1 (quotient n (10 ^ Z.of_nat k)).2).
Proof.
  intros Hn. unfold quotient, ratio. set (d := 10 ^ Z.of_nat k). assert (0 < d) as Hd by (apply Z.pow_pos_nonneg; lia).
  destruct (Z.eqb_spec n 0) as [->|Hn0].
  { split; [done|]. unfold near, value. simpl. change (inject_Z 0) with 0%Q. unfold Qdiv. rewrite !Qmult_0_l. split; done. }
  set (e := Z.log2 n - Z.log2 d - 256). destruct (Z.log2_spec n ltac:(lia)) as [Hln _]. destruct (Z.log2_spec d Hd) as [_ Hld].
  pose proof (Z.log2_nonneg n). pose proof (Z.log2_nonneg d).
  assert (0 < inject_Z d)%Q as Hdq by (change 0%Q with (inject_Z 0); by rewrite <-Zlt_Qlt).
  pose proof (pow2_pos e) as Hp. unfold value. cbv zeta. cbn [fst snd]. destruct (Z.ltb_spec e 0) as [He|He].
  - assert (0 < 2 ^ (- e)) as H2 by (apply Z.pow_pos_nonneg; lia).
    destruct (div_even_near (n * 2 ^ (- e)) d) as [Hq Hnear]; [nia|done| |].
    { apply Z.le_trans with (2 ^ Z.log2 n * 2 ^ (- e)); [|nia]. rewrite <-Z.pow_add_r by lia.
      replace (Z.log2 n + - e) with (255 + Z.succ (Z.log2 d)) by (unfold e; lia). rewrite Z.pow_add_r by lia. nia. }
    split; [done|]. apply (near_scale _ _ (pow2 e) Hp) in Hnear.
    assert (inject_Z (n * 2 ^ (- e)) / inject_Z d * pow2 e == inject_Z n / inject_Z d)%Q as E.
    { rewrite inject_Z_mult, <-(pow2_Z (- e)) by lia. assert (pow2 (- e) * pow2 e == 1)%Q as E1.
      { rewrite <-pow2_add. by replace (- e + e) with 0 by lia. }
      unfold Qdiv. rewrite <-(Qmult_1_r (inject_Z n)) at 2. rewrite <-E1. ring. }
    unfold near in *. rewrite E in Hnear. exact Hnear.
  - assert (0 < 2 ^ e) as H2 by (apply Z.pow_pos_nonneg; lia).
    destruct (div_even_near n (d * 2 ^ e)) as [Hq Hnear]; [lia|nia| |].
    { apply Z.le_trans with (2 ^ Z.log2 n); [|done]. replace (Z.log2 n) with (255 + Z.succ (Z.log2 d) + e) by (unfold e; lia).
      rewrite !Z.pow_add_r by lia. nia. }
    split; [done|]. apply (near_scale _ _ (pow2 e) Hp) in Hnear.
    assert (inject_Z n / inject_Z (d * 2 ^ e) * pow2 e == inject_Z n / inject_Z d)%Q as E.
    { rewrite inject_Z_mult, <-(pow2_Z e) by lia. field. split; lra. }
    unfold near in *. rewrite E in Hnear. exact Hnear.
Qed.

Lemma div_even_exact z d : 0 < d -> div_even (z * d) d = z.
Proof.
  intros Hd. unfold div_even. rewrite Z.mod_mul, Z.div_mul by lia. cbv zeta.
  replace (d <? 2 * 0) with false by lia. by replace (d =? 2 * 0) with false by lia.
Qed.
Lemma quotient_integer n k z : 0 <= n -> n = z * 10 ^ Z.of_nat k -> z < 2 ^ 200 ->
  (value (quotient n (10 ^ Z.of_nat k)).1 (quotient n (10 ^ Z.of_nat k)).2 == inject_Z z)%Q.
Proof.
  intros Hn Heq Hz. unfold quotient. set (d := 10 ^ Z.of_nat k) in *.
  assert (0 < d) as Hd by (apply Z.pow_pos_nonneg; lia). destruct (Z.eqb_spec n 0) as [->|Hn0].
  { assert (z = 0) as -> by nia. reflexivity. }
  assert (0 < z) as Hz0 by nia. set (e := Z.log2 n - Z.log2 d - 256). assert (e < 0) as He.
  { unfold e. rewrite Heq. pose proof (Z.log2_mul_above z d ltac:(lia) ltac:(lia)).
    assert (Z.log2 z < 200) by (apply Z.log2_lt_pow2; lia). lia. }
  cbv zeta. cbn [fst snd]. destruct (Z.ltb_spec e 0) as [_|?]; [|lia].
  replace (n * 2 ^ (- e)) with (z * 2 ^ (- e) * d) by (rewrite Heq; ring). rewrite div_even_exact by done.
  unfold value. rewrite inject_Z_mult, <-(pow2_Z (- e)), <-Qmult_assoc, <-pow2_add by lia.
  replace (- e + e) with 0 by lia. change (pow2 0) with 1%Q. ring.
Qed.

#[export] Instance decimal_reader_ok : BigFloatOk.
Proof.
  split. intros neg n k Hn _. simpl. rewrite (read_digits_text neg n k) by lia.
  destruct (quotient_near n k) as [Hm Hnear]; [lia|]. pose proof (quotient_integer n k) as Hint.
  destruct (quotient _ _) as [m e]. exists m, e. split_and!; [done..|]. intros z Hz. apply Hint; [lia|done|].
  assert (0 < 10 ^ Z.of_nat k) by (apply Z.pow_pos_nonneg; lia). nia.
Qed.

(** ** FX *)
Definition still_clock : Env := {| uuid_NewString n := "id-" +:+ pretty n; clock_Now n := 7 |}.
Definition idle : World unit := mkWorld tt 1 0 0 0 [] [].

(** 1234.5 units at the rate 0.92345678 *)
Lemma fx_convert_rounds_witness :
  exists q w', Convert (H := still_clock) (mkConvertRequest "1234.50" "USD" "EUR") idle =
      (Ok (mkConvertResponse (decimal_text false q 8) (decimal_text false rate_units 8) 7), w') /\
    2 * Z.abs (q * 10 ^ 2 - 123450 * rate_units) <= 10 ^ 2.
Proof. apply (fx_convert_rounds (H := still_clock) (mkConvertRequest "1234.50" "USD" "EUR") false 123450 2 idle); [lia|lia|reflexivity]. Defined.
Example fx_convert_runs : (Convert (H := still_clock) (mkConvertRequest "1234.50" "USD" "EUR") idle).1 =
  Ok (mkConvertResponse "1140.00739491" "0.92345678" 7).
Proof. vm_compute. reflexivity. Qed.

(** ** Fraud: 10,000.01 from a known device *)
Definition transfer_request : ScoreTransactionRequest :=
  mkScoreRequest "tx-1" "user-1" "10000.01" "NGN" "phone" "10.0.0.1" None.
Lemma fraud_score_exact_witness : exists res, ScoreTransaction transfer_request = Ok res /\
  rr_Decision res = "review" /\ rr_Reasons res = ["high_value_transaction"].
Proof. apply (fraud_score_exact transfer_request false 1000001 2); [lia|lia|reflexivity]. Defined.

(** ** The vault: two keys, whose ciphertext names the key *)
Fixpoint strip (p s : string) : option string :=
  match p, s with
  | "", _ => Some s
  | String a p', String b s' => if Ascii.eqb a b then strip p' s' else None
  | _, _ => None
  end.
Definition transit_names : list string := ["card_pan"; "account"].
Definition transit_encrypt (c p : string) : result (option (gmap string json)) :=
  if base64_text p then Ok (Some {[ "ciphertext" := JStr (c +:+ ":" +:+ p) ]}) else Err (ENew "illegal base64 data").
Definition transit_decrypt (c ct : string) : result (option (gmap string json)) :=
  match strip (c +:+ ":") ct with
  | Some p => Ok (Some {[ "plaintext" := JStr p ]})
  | None => Err (ENew "cipher: message authentication failed")
  end.
Definition transit_key (op path : string) : option string :=
  List.find (fun c => bool_decide (path = "transit/" +:+ op +:+ "/" +:+ c)) transit_names.
Definition transit_answer (path : string) (data : gmap string string) : result (option (gmap string json)) :=
    match transit_key "encrypt" path, transit_key "decrypt" path with
    | Some c, _ => match data !! "plaintext" with Some p => transit_encrypt c p | None => Err (ENew "missing plaintext") end
    | None, Some c => match data !! "ciphertext" with Some ct => transit_decrypt c ct | None => Err (ENew "missing ciphertext") end
    | None, None => Err (ENew "encryption key not found")
    end.
#[export] Instance transit : Logical := {| logical_answer _ := transit_answer |}.
Lemma transit_answer_eq n path data : logical_answer n path data = transit_answer path data.
Proof. reflexivity. Qed.

Lemma transit_key_same op c : transit_key op ("transit/" +:+ op +:+ "/" +:+ c) = List.find (fun k => bool_decide (c = k)) transit_names.
Proof.
  unfold transit_key, transit_names. simpl. assert (forall k, bool_decide ("transit/" +:+ op +:+ "/" +:+ c =
    "transit/" +:+ op +:+ "/" +:+ k) = bool_decide (c = k)) as E.
  { intros k. apply bool_decide_ext. split; [|by intros ->]. intros E. by repeat apply (inj (String.append _)) in E. }
  by rewrite !E.
Qed.
Lemma transit_key_other c : transit_key "encrypt" ("transit/" +:+ "decrypt" +:+ "/" +:+ c) = None /\
  transit_key "decrypt" ("transit/" +:+ "encrypt" +:+ "/" +:+ c) = None.
Proof. done. Qed.

#[export] Instance transit_ok : TransitOk (fun c => c ∈ transit_names).
Proof.
  split.
  - intros n c p Hp. rewrite transit_answer_eq. unfold transit_answer.
    change ("transit/encrypt/" +:+ c) with ("transit/" +:+ "encrypt" +:+ "/" +:+ c).
    rewrite transit_key_same, (proj2 (transit_key_other c)), lookup_singleton_eq.
    destruct (List.find _ _); cbv beta iota; unfold transit_encrypt; rewrite ?Hp; eexists; (split; [reflexivity|congruence]).
  - intros n c p Hc Hp. rewrite transit_answer_eq. unfold transit_answer at 1.
    change ("transit/encrypt/" +:+ c) with ("transit/" +:+ "encrypt" +:+ "/" +:+ c).
    assert (List.find (fun k => bool_decide (c = k)) transit_names = Some c) as Hfind.
    { apply elem_of_cons in Hc as [->|Hc]; [done|]. by apply list_elem_of_singleton in Hc as ->. }
    rewrite transit_key_same, lookup_singleton_eq, Hfind. cbv beta iota. unfold transit_encrypt. rewrite Hp.
    eexists _, _. split_and!; [done|apply lookup_singleton_eq| |]; intros n' c' || intros n'.
    + rewrite transit_answer_eq. unfold transit_answer. change ("transit/decrypt/" +:+ c) with ("transit/" +:+ "decrypt" +:+ "/" +:+ c).
      rewrite (proj1 (transit_key_other c)), transit_key_same, lookup_singleton_eq, Hfind. eexists. split; [|apply lookup_singleton_eq]. unfold transit_decrypt.
      apply elem_of_cons in Hc as [->|Hc]; [done|]. by apply list_elem_of_singleton in Hc as ->.
    + intros Hne. rewrite transit_answer_eq. unfold transit_answer. change ("transit/decrypt/" +:+ c') with ("transit/" +:+ "decrypt" +:+ "/" +:+ c').
      rewrite (proj1 (transit_key_other c')), transit_key_same, lookup_singleton_eq.
      cbn [transit_names List.find].
      apply elem_of_cons in Hc as [->|Hc]; [|apply list_elem_of_singleton in Hc as ->]; repeat case_bool_decide; subst;
        try (by destruct Hne); eexists; (split; [reflexivity|congruence]).
Qed.

(** A card number of sixteen digits happens to be base64. *)
Definition quiet : World Log := mkWorld [] 1 0 0 0 [] [].
Lemma vault_roundtrip_witness : exists t at_ w',
  Tokenize (H := still_clock) "card_pan" "4111111111111111" quiet = (Ok (t, at_), w') /\
  (Detokenize (H := still_clock) t "chargeback" quiet).1 = Ok "4111111111111111" /\
  DetokenizeAudit t "chargeback" ∈ w_db (Detokenize (H := still_clock) t "chargeback" quiet).2.
Proof.
  apply (vault_roundtrip (H := still_clock) "card_pan" "4111111111111111" "chargeback" quiet quiet); [|done..].
  apply elem_of_cons. by left.
Defined.
(** One of fifteen digits cannot be tokenized at all. *)
Example amex_refused : base64_text "378282246310005" = false.
Proof. vm_compute. reflexivity. Qed.

(** ** Startup *)
Definition sample_env (k : string) : string :=
  if bool_decide (k = "AUTH_DB_DSN") then "postgres://auth"
  else if bool_decide (k = "AUTH_JWT_KID") then " k1 "
  else if bool_decide (k = "AUTH_JWT_ED25519_PRIVATE_KEY") then encodeB64URL (String.concat "" (repeat "secret-0" 8))
  else if bool_decide (k = "AUTH_LOGIN_WINDOW") then "10m"
  else if bool_decide (k = "AUTH_LOGIN_MAX_ATTEMPTS") then "-3"
  else "".
#[export] Instance sample_process : Process := {| os_Getenv := sample_env; os_ReadFile _ := Err (ENew "no such file") |}.
Definition sample_config : AuthConfig :=
  mkAuthConfig "postgres://auth" "k1" (sample_env "AUTH_JWT_ED25519_PRIVATE_KEY") ":50055" ":8082" ""
    (15 * minute_ns) (30 * 24 * hour_ns) 5 (10 * minute_ns) (15 * minute_ns) (5 * minute_ns) (30 * 24 * hour_ns).
Example sample_config_runs : auth_config = Ok sample_config.
Proof. vm_compute. reflexivity. Qed.
#[export] Instance no_vault : VaultHTTP := {| vault_Get _ _ := Err ENet |}.
Lemma startup_sane_witness : config_sane sample_config /\
  forall maker ks, signing_keys sample_config = Ok (maker, ks) ->
    mk_kid maker = "k1" /\ usable_keys ks = {[ "k1" := ed25519_Public (mk_priv maker) ]}.
Proof. apply (startup_sane (H1 := sample_net) sample_config). left. exact sample_config_runs. Defined.
Example sample_keys : is_ok (signing_keys sample_config) = true.
Proof. vm_compute. reflexivity. Qed.
