(* ===== verification/EdgeWitnesses.v ===== *)
(** * The theorems on the gateway and the audit log at work *)
From S2P Require Import Prelude GoStrings Json JsonText Base64 Sha256 Passwords Invariants Floats Authz Tokens Http.
From S2P Require Import Gateway GatewayProps AuditLog AuditProps AuthSample.
From Stdlib Require Import Ascii String.
#[local] Open Scope Z_scope.
#[local] Open Scope go_scope.

(** A clock that stands still. *)
Definition still : Env := {| uuid_NewString n := "id-" +:+ pretty n; clock_Now n := 7 |}.

(** ** The gateway *)
Lemma rate_limit_burst_witness : admitted 7 100 (newTokenBucket 7 (f64_of_Z 5) 10) = 10%nat.
Proof. apply (rate_limit_burst 5 10 7 100). right. left. Defined.

Definition gateway0 : World GatewayState :=
  mkWorld (mkGateway lim0 strict0 (mkVerifier "https://auth/jwks" 60 [] 0 None)) 1 0 0 0 [] [].
Definition login_request : request := mkRequest "POST" "/v1/auth/login" "" ∅ "10.0.0.1:4711" "" false.
Definition backend : handler := fun r => retM (mkResponse 200 ∅ "ok").

(** Twenty logins from one address: ten are refused. *)
Definition busy : World GatewayState :=
  Nat.iter 20 (fun w => (withRateLimit (H := still) Strict backend login_request w).2) gateway0.
Example busy_refuses : (withRateLimit (H := still) Strict backend login_request busy).1 =
  Ok (http_Error (Header_Set "Retry-After" "1" ∅) "rate limit exceeded" 429).
Proof. vm_compute. reflexivity. Qed.

Lemma rate_limit_evaded_witness :
  exists s w', let r' := with_header (Header_Set "X-Fincore-Subject" s (rq_Header login_request)) login_request in
    withRateLimit (H := still) Strict backend r' busy = backend r' w'.
Proof.
  apply (rate_limit_evaded (H := still) Strict backend login_request busy).
  - reflexivity.
  - apply (bool_decide_unpack _). vm_compute. exact I.
Defined.

(** A login with a forged identity, on a public path. *)
Definition forged_request : request :=
  mkRequest "POST" "/v1/auth/login" "" {["Grpc-Metadata-X-Fincore-Subject" := ["root"]]} "10.0.0.1:4711" "" false.
Definition forwarded : request :=
  with_header (Header_Del "X-Fincore-Permissions" (Header_Del "X-Fincore-Roles"
    (Header_Del "X-Fincore-Subject" (rq_Header forged_request)))) forged_request.
Definition admitted_world : World GatewayState := (allow (H := still) Strict (rate_key forged_request) gateway0).2.
#[local] Instance no_endpoint : JwksEndpoint := {| jwks_Get _ := NoAnswer |}.

Lemma forged_forwarded proxy : gateway_chain (H := still) "" "" proxy forged_request gateway0 = proxy forwarded admitted_world.
Proof.
  assert (allow (H := still) Strict (rate_key forged_request) gateway0 = (Ok true, admitted_world)) as Ha
    by (vm_compute; reflexivity).
  unfold gateway_chain, withRateLimitByPath. change (if has_prefix_of _ _ then Strict else Default) with Strict.
  unfold withRateLimit. rewrite (bind_ok _ _ _ _ _ Ha). reflexivity.
Qed.

Lemma identity_smuggled_witness :
  rq_Header forwarded !! "Grpc-Metadata-X-Fincore-Subject" = Some ["root"] /\
  gatewayHeaderForwarder (prefix_tail "Grpc-Metadata-") "Grpc-Metadata-X-Fincore-Subject" = Some "X-Fincore-Subject".
Proof.
  destruct (identity_smuggled (H := still) "" "" (prefix_tail "Grpc-Metadata-") forged_request gateway0 forwarded
    admitted_world "X-Fincore-Subject") as [Hh Hf].
  - intros name. reflexivity.
  - intros proxy. apply forged_forwarded.
  - left.
  - split; [|exact Hf]. etransitivity; [exact Hh|]. vm_compute. reflexivity.
Defined.

(** ** The audit log *)
Definition row_uuid (seq : Z) : string := "row-" +:+ pretty seq.
Definition entry (user action : string) : AuditLogEntry :=
  mkEntry "" user action "payment" "p1" None (Some (PStruct [("amount", PNumber (mkDecimal false [5]%nat 3))])) "c" "t" "pay".

Lemma entry_faithful user action : faithful (entry user action).
Proof. intros payload [= <-]. reflexivity. Qed.

Definition audit0 : World AuditDB := mkWorld (mkAuditDB [] []) 1 0 0 0 [] [].
Definition audit1 : World AuditDB := (Save (H := still) row_uuid (entry "ada" "payment.settled") audit0).2.
Definition audit2 : World AuditDB := (Save (H := still) row_uuid (entry "bob" "payment.failed") audit1).2.

Lemma audit_chain_intact_witness :
  (ValidateIntegrity (H := still) 0 "" "" audit2).1 = Ok (true, 2, "").
Proof.
  rewrite (audit_chain_intact (H := still) row_uuid (fun s => Some s) 0 (fun _ => Err json_syntax_error) audit0 audit2 "" "").
  - vm_compute. reflexivity.
  - reflexivity.
  - eapply rtc_l; [apply (careful_save (H := still) _ _ _ _ (entry "ada" "payment.settled") audit0)|].
    + left. reflexivity.
    + apply entry_faithful.
    + apply rtc_once, (careful_save (H := still) _ _ _ _ (entry "bob" "payment.failed") audit1).
      * left. vm_compute. reflexivity.
      * apply entry_faithful.
  - vm_compute. reflexivity.
Defined.

(** A copy of the table with other identifiers and times, which are not
    hashed. *)
Definition copied (r : audit_row) : audit_row :=
  mkAuditRow ("copy of " +:+ ar_id r) (ar_user_id r) (ar_action r) (ar_resource_type r) (ar_resource_id r) (ar_payload r)
    (ar_correlation_id r) (ar_trace_id r) (ar_service_name r) (ar_previous_hash r) (ar_current_hash r) 99 (ar_sequence r).
Lemma audit_tamper_evident_witness :
  let rows := au_logs (w_db audit2) in let rows' := map copied rows in
  map row_hashed rows = map row_hashed rows' \/
  exists r r', r ∈ rows /\ r' ∈ rows' /\ row_hashed r <> row_hashed r' /\ Sum256 (row_hashed r) = Sum256 (row_hashed r').
Proof.
  apply (audit_tamper_evident (au_logs (w_db audit2)) (map copied (au_logs (w_db audit2)))).
  - vm_compute. reflexivity.
  - vm_compute. reflexivity.
  - vm_compute. reflexivity.
Defined.
(** A changed user is noticed. *)
Example tampering_noticed :
  (check_chain (map (fun r => mkAuditRow (ar_id r) "eve" (ar_action r) (ar_resource_type r) (ar_resource_id r) (ar_payload r)
    (ar_correlation_id r) (ar_trace_id r) (ar_service_name r) (ar_previous_hash r) (ar_current_hash r) (ar_created_at r)
    (ar_sequence r)) (au_logs (w_db audit2))) 0 "").1.1 = false.
Proof. vm_compute. reflexivity. Qed.

Lemma audit2_ok : log_ok (au_logs (w_db audit2)) (w_seq audit2) /\ linked "" (au_logs (w_db audit2)).
Proof.
  apply (careful_ok (H := still) row_uuid (fun s => Some s) 0 (fun _ => Err json_syntax_error) audit1).
  { apply (careful_save (H := still)); [left; vm_compute; reflexivity|apply entry_faithful]. }
  apply (careful_ok (H := still) row_uuid (fun s => Some s) 0 (fun _ => Err json_syntax_error) audit0).
  { apply (careful_save (H := still)); [left; reflexivity|apply entry_faithful]. }
  split; [split; constructor|exact I].
Qed.

Definition forked : World AuditDB :=
  (save_interleaved (H := still) row_uuid (entry "ada" "auth.login") (entry "bob" "auth.login") audit2).2.
Definition later_save : World AuditDB := (Save (H := still) row_uuid (entry "eve" "auth.login") forked).2.

Lemma audit_fork_permanent_witness :
  exists count id, (ValidateIntegrity (H := still) 0 "" "" later_save).1 = Ok (false, count, id) /\
    id ∈ map ar_id (drop (List.length (au_logs (w_db audit2))) (au_logs (w_db forked))).
Proof.
  apply (audit_fork_permanent (H := still) row_uuid (fun s => Some s) 0 (fun _ => Err json_syntax_error)
    (entry "ada" "auth.login") (entry "bob" "auth.login") audit2 forked later_save "" "").
  - exact (proj1 audit2_ok).
  - exact (proj2 audit2_ok).
  - vm_compute. reflexivity.
  - vm_compute. discriminate.
  - assert ((save_interleaved (H := still) row_uuid (entry "ada" "auth.login") (entry "bob" "auth.login") audit2).1 = Ok tt)
      as Hok by (vm_compute; reflexivity).
    rewrite <-Hok. apply surjective_pairing.
  - apply rtc_once, (step_save (H := still)).
  - vm_compute. reflexivity.
Defined.

(** A negative zero in a payload breaks the chain without any tampering. *)
Definition minus_zero : AuditLogEntry :=
  mkEntry "" "ada" "adjust" "account" "a1" None (Some (PStruct [("delta", PNumber (mkDecimal true [] 0))])) "" "" "".
Example minus_zero_breaks :
  (ValidateIntegrity (H := still) 0 "" "" (Save (H := still) row_uuid minus_zero audit0).2).1 = Ok (false, 0, "row-2").
Proof. vm_compute. reflexivity. Qed.
