(* ===== verification/Witnesses.v ===== *)
(** * The theorems at work

    Each theorem with hypotheses is applied to the sample deployment, where
    its hypotheses hold. *)
From S2P Require Import Prelude GoStrings Json Money EventStore Streams Outbox Ledger LedgerSpec LedgerProps.
From S2P Require Import LedgerProjection Account AccountSpec AccountStore AccountProps Payment PaymentSpec.
From S2P Require Import PaymentStore PaymentProps Transfer Authz System SystemProps TransferProps TransferRun.
From S2P Require Import LedgerConcurrent LedgerGaps AccountWorker AccountConcurrent AccountRetry PaymentConcurrent Sample.
#[local] Open Scope Z_scope.
#[local] Open Scope go_scope.

(** A goal about concrete data. *)
Ltac evaluate := vm_compute; first [reflexivity|discriminate|done].

(** ** Ledger *)
Definition ledger_faulty : World LedgerDB := set_faults [FOk; FOk; FOk; FErr] ledger1.

Lemma ledger_faulty_refines : refines ledger_faulty ledger1_log.
Proof. apply (refines_mono ledger1); [done..|apply ledger1_refines]. Qed.

Lemma PostEntry_refines_witness :
  exists r w', PostEntryHandler_Handle (rent 200) ledger_faulty = (r, w') /\
  let '(r0, s0) := spec_post (uuid_NewString (w_uuid ledger_faulty)) (rent 200) ledger1_log in
  (r = r0 /\ refines w' s0) \/
  (w_faults ledger_faulty <> [] /\ r = Err ENet /\ (refines w' ledger1_log \/ refines w' s0)).
Proof.
  eexists _, _. split; [apply surjective_pairing|].
  apply (PostEntry_refines (rent 200) ledger_faulty ledger1_log).
  - apply ledger_faulty_refines.
  - apply money_in_range. unfold max_int64. lia.
  - apply surjective_pairing.
Defined.

Lemma ledger_balances_sound_witness :
  0 <= balance (w_db ledger1) "alice" 1 <= max_int64 /\
  balance (w_db ledger1) "alice" 1 = events_balance (events (l_events (w_db ledger1))) "alice".
Proof. apply (ledger_balances_sound ledger1 "alice"), ledger1_reachable. Defined.

Lemma ledger_at_most_once_witness :
  (forall key id, l_idem (w_db ledger1) !! key = Some id ->
     length (entries_of id (events (l_events (w_db ledger1)))) = 1%nat) /\
  (forall r, r ∈ events (l_events (w_db ledger1)) ->
     exists! key, l_idem (w_db ledger1) !! key = Some (ev_AggregateID (er_event r))).
Proof. apply (ledger_at_most_once ledger1), ledger1_reachable. Defined.

(** The first attempt commits and the answer is lost. *)
Definition ledger_lost_ack : World LedgerDB := set_faults (repeat FOk 7 ++ [FLostAck]) ledger1.

Lemma PostEntry_retry_exactly_once_witness :
  exists r1 w1 r2 w2, PostEntryHandler_Handle (rent 200) ledger_lost_ack = (r1, w1) /\ r1 = Err ENet /\
    PostEntryHandler_Handle (rent 200) (set_faults [] w1) = (r2, w2) /\
    exists id s', spec_post id (rent 200) ledger1_log = (r2, s') /\ refines w2 s' /\ (is_ok r1 = true -> r1 = r2).
Proof.
  eexists _, _, _, _. split; [apply surjective_pairing|]. split; [evaluate|]. split; [apply surjective_pairing|].
  apply (PostEntry_retry_exactly_once (rent 200) ledger_lost_ack ledger1_log
    (PostEntryHandler_Handle (rent 200) ledger_lost_ack).1 (PostEntryHandler_Handle (rent 200) ledger_lost_ack).2).
  - apply (refines_mono ledger1); [done..|apply ledger1_refines].
  - apply money_in_range. unfold max_int64. lia.
  - apply surjective_pairing.
  - apply surjective_pairing.
Defined.

Lemma PostEntry_succeeds_witness :
  exists w', PostEntryHandler_Handle (rent 200) ledger1 = (Ok (uuid_NewString (w_uuid ledger1)), w') /\
    forall acc, balance (w_db w') acc 1 = balance (w_db ledger1) acc 1 +
      (if bool_decide (acc = "alice") then spec_delta EntryTypeWithdrawal 200 else 0).
Proof.
  apply (PostEntry_succeeds (rent 200) ledger1 ledger1_log); [apply ledger1_refines| |evaluate..|].
  - apply money_in_range. unfold max_int64. lia.
  - assert (balance (w_db ledger1) "alice" 1 = 500) as Hb by evaluate. simpl pe_AccountID. rewrite Hb.
    change (spec_delta _ _) with (- 200). unfold max_int64. lia.
Defined.

Lemma PostEntry_overdraft_refused_witness :
  exists w', PostEntryHandler_Handle (rent 501) ledger1 = (Err ErrInsufficientFunds, w') /\ w_db w' = w_db ledger1.
Proof.
  apply (PostEntry_overdraft_refused (rent 501) ledger1 ledger1_log); [apply ledger1_refines| |evaluate..].
  apply money_in_range. unfold max_int64. lia.
Defined.

Lemma PostEntry_all_or_nothing_witness :
  exists w', PostEntryHandler_Handle (rent 501) ledger1 = (Err ErrInsufficientFunds, w') /\ w_db w' = w_db ledger1.
Proof.
  exists (PostEntryHandler_Handle (rent 501) ledger1).2.
  assert (PostEntryHandler_Handle (rent 501) ledger1 =
    (Err ErrInsufficientFunds, (PostEntryHandler_Handle (rent 501) ledger1).2)) as Hrun by evaluate.
  split; [exact Hrun|]. apply (PostEntry_all_or_nothing (rent 501) ledger1 ErrInsufficientFunds); [exact Hrun|discriminate].
Defined.



Definition groceries (amount : Z) : PostEntry :=
  mkPostEntry "k3" "alice" EntryTypeWithdrawal (mkMoney amount NGN) "groceries" 0.
Lemma ledger_overdraft_race_witness : exists w', rtc (conc_step 2 500) (ledger1, []) (w', []) /\
  balance (w_db w') "alice" 1 = - 200.
Proof.
  assert (balance (w_db ledger1) "alice" 1 = 500) as Hb by evaluate.
  destruct (ledger_overdraft_race (rent 400) (groceries 300) ledger1 ledger1_log 500 ledger1_refines) as (w' & Hs & Hb');
    [evaluate..| | |evaluate|evaluate|discriminate|evaluate|evaluate| | |by apply Z.leb_le|by apply Z.leb_le|].
  - apply money_in_range. unfold max_int64. lia.
  - apply money_in_range. unfold max_int64. lia.
  - change (pe_AccountID (rent 400)) with "alice". rewrite Hb. by apply Z.leb_le.
  - change (pe_AccountID (rent 400)) with "alice". rewrite Hb. by apply Z.leb_le.
  - exists w'. split; [exact Hs|]. change (pe_AccountID (rent 400)) with "alice" in Hb'. rewrite Hb', Hb. reflexivity.
Defined.

Lemma ledger_outbox_complete_witness :
  Forall2 event_message (events (l_events (w_db ledger1))) (ob_rows (l_outbox (w_db ledger1))).
Proof. apply (ledger_outbox_complete ledger1), ledger1_reachable. Defined.

Definition ledger_migrated : World LedgerDB :=
  mkWorld (mkLedgerDB (mkEventTables [] []) migrated_balance_columns ∅ ∅ (mkOutboxTable migrated_columns []))
    1 0 0 0 [] [].

Lemma PostEntry_migrated_schema_fails_witness :
  exists r w', PostEntryHandler_Handle salary ledger_migrated = (r, w') /\
    is_ok r = false /\ w_db w' = w_db ledger_migrated.
Proof.
  eexists _, _. split; [apply surjective_pairing|].
  apply (PostEntry_migrated_schema_fails salary ledger_migrated); [evaluate..|apply surjective_pairing].
Defined.

Lemma entry_event_sourcing_witness :
  exists e w', NewEntry "alice" EntryTypeDeposit (mkMoney 500 NGN) "salary" 0 ledger0 = (Ok e, w') /\
  let '(evs, e') := Entry_PullChanges e in
  Forall (fun ev => Unmarshal (BJson (Marshal ev)) = Ok ev) evs /\
  Entry_Rehydrate evs = Ok e' /\ Entry_RehydrateFromSnapshot (Entry_Snapshot e) [] = Ok e'.
Proof.
  eexists _, _. split; [reflexivity|].
  eapply (entry_event_sourcing "alice" EntryTypeDeposit (mkMoney 500 NGN) "salary" 0 ledger0); [|reflexivity].
  by apply money_in_range.
Defined.

(** ** Projection worker and reads *)
Lemma ledger_worker_rebuilds_witness :
  exists seq w', ledger_worker_Start 1 2 ledger1 = (Ok seq, w') /\
    (forall acc, balance (w_db w') acc 2 = balance (w_db ledger1) acc 1) /\
    (forall acc, balance (w_db w') acc 1 = balance (w_db ledger1) acc 1) /\
    l_events (w_db w') = l_events (w_db ledger1) /\ l_idem (w_db w') = l_idem (w_db ledger1) /\
    l_outbox (w_db w') = l_outbox (w_db ledger1).
Proof.
  apply (ledger_worker_rebuilds 1 2 ledger1); [apply ledger1_reachable|evaluate|lia| |].
  - intros acc. unfold balance. by rewrite ledger1_balances, lookup_singleton_ne.
  - apply Nat.leb_le. evaluate.
Defined.

(** The one event of the log. *)
Definition ledger1_event : event_row := default (mkRow 0 (mkEvent "" "" "" 0 "" 0 (BRaw "") None))
  (head (events (l_events (w_db ledger1)))).

Lemma ledger1_event_delta acc : event_delta acc ledger1_event = if bool_decide ("alice" = acc) then 500 else 0.
Proof.
  unfold event_delta.
  assert (Unmarshal (ev_Data (er_event ledger1_event)) =
    Ok (mkEntryPosted "id-0" "alice" EntryTypeDeposit 500 NGN "salary" 2)) as -> by evaluate. done.
Qed.

Lemma ledger_worker_doubles_witness :
  exists seq w', ledger_worker_Start 1 main_projectionVersion ledger1 = (Ok seq, w') /\
    forall acc, balance (w_db w') acc 1 = 2 * balance (w_db ledger1) acc 1.
Proof.
  apply (ledger_worker_doubles 1 ledger1); [apply ledger1_reachable|evaluate| |apply Nat.leb_le; evaluate].
  intros n acc. assert (events (l_events (w_db ledger1)) = [ledger1_event]) as -> by evaluate.
  assert (events_balance (take n [ledger1_event]) acc <= 500) as He.
  { destruct n as [|n]; simpl; [lia|]. rewrite take_nil. simpl. rewrite ledger1_event_delta. case_bool_decide; lia. }
  assert (balance (w_db ledger1) acc 1 <= 500) as Hb.
  { unfold balance. rewrite ledger1_balances. destruct (decide (acc = "alice")) as [->|Hne].
    - by rewrite lookup_singleton_eq.
    - rewrite lookup_singleton_ne by congruence. simpl. lia. }
  unfold max_int64. lia.
Defined.

(** The posting arrives between two polls. *)
Definition arrivals : list (LedgerDB -> LedgerDB) := [fun db => db; fun _ => w_db ledger1].

Lemma GetBalance_waits_for_lsn_witness :
  exists w', BalanceQuery_GetBalanceKobo arrivals 1 "alice" 1 ledger0 = (Ok 500, w') /\
    500 = balance (w_db w') "alice" 1 /\ exists r, r ∈ events (l_events (w_db w')) /\ 1 <= er_sequence r.
Proof.
  assert (BalanceQuery_GetBalanceKobo arrivals 1 "alice" 1 ledger0 =
    (Ok 500, (BalanceQuery_GetBalanceKobo arrivals 1 "alice" 1 ledger0).2)) as Hrun by evaluate.
  eexists. split; [exact Hrun|].
  apply (GetBalance_waits_for_lsn arrivals 1 "alice" 1 ledger0 500 _); [lia| |exact Hrun].
  assert (events (l_events (w_db (BalanceQuery_GetBalanceKobo arrivals 1 "alice" 1 ledger0).2)) = [ledger1_event])
    as -> by evaluate.
  repeat constructor; apply Z.leb_le; evaluate.
Defined.

(** ** Event store *)
Definition sample_event (id : string) (ver : Z) : Event := mkEvent id "agg" "sample" ver "sample.v1" 1 (BRaw "") None.
Definition store0 : World EventTables := mkWorld (mkEventTables [] []) 1 0 0 0 [] [].
Definition store2 : World EventTables := (Append (@exec _) [sample_event "e1" 1; sample_event "e2" 2] store0).2.

#[local] Instance lens_id_ok {T} : LensOk T T.
Proof. by split. Qed.

Lemma store0_wf : world_wf store0.
Proof. split; simpl; by repeat constructor. Qed.

Lemma Append_append_only_witness :
  world_wf store2 /\ exists rows, events (view (w_db store2)) = events (view (w_db store0)) ++ rows /\
    map er_event rows = [sample_event "e1" 1; sample_event "e2" 2].
Proof.
  destruct (Append_append_only [sample_event "e1" 1; sample_event "e2" 2] store0 (Ok tt) store2 store0_wf)
    as (Hwf & k & rows & He & _ & Hm & Hk).
  - vm_compute. reflexivity.
  - split; [exact Hwf|]. exists rows. split; [exact He|]. rewrite Hm, Hk. reflexivity.
Defined.

Lemma store2_wf : world_wf store2.
Proof.
  split; simpl; repeat constructor; simpl; try done; set_solver by lia.
Qed.

Lemma Append_version_conflict_witness :
  exists r w2, Append (@exec _) [sample_event "e3" 2] store2 = (r, w2) /\ is_ok r = false /\ w_db w2 = w_db store2.
Proof.
  eexists _, _. split; [apply surjective_pairing|].
  apply (Append_version_conflict (sample_event "e2" 2) (sample_event "e3" 2)
    (Append (@exec _) [sample_event "e1" 1] store0).2 store2); [evaluate|done|done|apply surjective_pairing].
Defined.

Lemma ReadAll_pages_complete_witness :
  (read_pages 3 0 1 store2).1 = Ok (map er_event (log_after 0 (view (w_db store2)))).
Proof. apply (ReadAll_pages_complete 3 0 1 store2); [apply store2_wf|evaluate|apply Nat.ltb_lt; evaluate]. Defined.

(** ** Outbox *)
Definition outbox_message (id : string) : Message := mkMsg id "topic" (BRaw "") (BRaw id) ∅ 1 None.
Definition outbox2 : World OutboxTable :=
  ((Enqueue (@exec _) (outbox_message "m1") ;;; Enqueue (@exec _) (outbox_message "m2"))
     (mkWorld (mkOutboxTable migrated_columns []) 1 0 0 0 [] []))%go.2.
Definition sample_config : Config := mkConfig 0 0 0 0.

Lemma outbox2_ids : NoDup (map or_id (rows_of outbox2)).
Proof. apply (bool_decide_unpack _). evaluate. Qed.

Lemma relay_at_least_once_witness :
  let w' := (relay_tick broker_Publish [] sample_config (set_faults [FOk; FOk; FErr] outbox2)).2 in
  delivered w' /\ map row_key (rows_of w') = map row_key (rows_of (set_faults [FOk; FOk; FErr] outbox2)).
Proof.
  apply (relay_at_least_once broker_Publish [] sample_config (set_faults [FOk; FOk; FErr] outbox2));
    [apply outbox2_ids|].
  intros r Hr [t Ht]. assert (Forall (fun r => or_published_at r = None) (rows_of outbox2)) as Hnone
    by (repeat constructor). rewrite Forall_forall in Hnone. by rewrite Hnone in Ht.
Defined.

Lemma relay_drains_witness :
  let '(r, w') := relay_Run broker_Publish 1 [] sample_config outbox2 in
  r = Ok tt /\ pending (view (w_db w')) = [] /\
  w_sent w' = w_sent outbox2 ++ map row_message (pending (view (w_db outbox2))).
Proof.
  apply (relay_drains 1 sample_config outbox2); [|apply Nat.leb_le; evaluate].
  split_and!; [evaluate|done|apply outbox2_ids].
Defined.

Lemma worker_Start_stuck_witness :
  is_ok (worker_processBatch broker_Publish outbox2).1 = false /\
  let w' := (worker_Start broker_Publish 3 outbox2).2 in w_db w' = w_db outbox2 /\ w_sent w' = w_sent outbox2.
Proof. apply (worker_Start_stuck broker_Publish 3 outbox2). evaluate. Defined.

(** ** Money *)
Lemma money_Add_Sub_witness : money_Sub (mkMoney 30 NGN) (mkMoney 20 NGN) = Ok (mkMoney 10 NGN).
Proof. apply (money_Add_Sub (mkMoney 10 NGN) (mkMoney 20 NGN)); [by apply money_in_range|evaluate]. Defined.

(** ** Accounts *)
Lemma account_replay_stored_witness :
  exists des, unmarshal_account_events (zip_with (fun id e => account_event id "acc" 1 e) ["e1"; "e2"]
      [AccountOpened "acc" "alice" 1; MoneyDeposited "acc" (mkMoney 5 NGN) "entry" 2]) = Ok des /\
    des = map erase_amount [AccountOpened "acc" "alice" 1; MoneyDeposited "acc" (mkMoney 5 NGN) "entry" 2] /\
    Account_Rehydrate des =
      Account_Rehydrate [AccountOpened "acc" "alice" 1; MoneyDeposited "acc" (mkMoney 5 NGN) "entry" 2].
Proof. apply (account_replay_stored ["e1"; "e2"] "acc" 1). reflexivity. Defined.

Definition alice_account : Account := Account_raise (AccountOpened "id-0" "alice" 1) Account_zero.
Definition frozen_account : Account := Account_raise (AccountFrozen "id-0" 2) alice_account.

Lemma frozen_account_life : account_life (DB := unit) frozen_account.
Proof.
  eapply (life_op OpFreeze alice_account (mkWorld tt 1 1 1 0 [] [])); [|reflexivity].
  by eapply (life_new "alice" (mkWorld tt 1 0 0 0 [] [])).
Qed.

Lemma account_lifecycle_witness :
  Account_Rehydrate (a_changes frozen_account) = (Account_PullChanges frozen_account).2 /\
  a_status frozen_account ∈ [StatusActive; StatusFrozen; StatusClosed] /\
  forall op (w : World unit) a' w', a_status frozen_account <> StatusActive ->
    run_op op frozen_account w = (Ok a', w') -> a' = frozen_account.
Proof. apply (account_lifecycle (DB := unit) frozen_account), frozen_account_life. Defined.

(** A wrong row in the accounts table *)
Definition stale_accounts : gmap string AccountProjection :=
  {[ "id-0" := mkAccountProjection "id-0" "mallory" StatusFrozen 7 ]}.
Lemma account_worker_rebuilds_witness :
  exists seq w', account_worker_run 1 0
      (set_db (mkAccountDB (ac_events (w_db accounts1)) (ac_outbox (w_db accounts1)) stale_accounts) accounts1) = (Ok seq, w') /\
    ac_projection (w_db w') !! "id-0" = Some (mkAccountProjection "id-0" "alice" StatusActive 1).
Proof.
  assert (ac_projection (w_db accounts1) !! "id-0" = Some (mkAccountProjection "id-0" "alice" StatusActive 1)) as Hrow by evaluate.
  destruct (account_worker_rebuilds 1 stale_accounts accounts1 accounts1_reachable) as (seq & w' & Hrun & _ & _ & _ & Hall);
    [evaluate|by apply map_Forall_singleton|].
  exists seq, w'. split; [exact Hrun|]. rewrite Hall; [exact Hrow|apply Nat.leb_le; evaluate|]. rewrite Hrow. by eexists.
Defined.

Lemma account_load_is_replay_witness :
  exists ds, unmarshal_account_events (rows_for "id-0" (ac_events (w_db accounts1))) = Ok ds /\
    (LoadAccount "id-0" accounts1).1 = Ok (Account_Rehydrate ds) /\
    ac_projection (w_db accounts1) !! "id-0" =
      (if decide (ds = []) then None
       else Some (mkAccountProjection "id-0" (a_customerID (Account_Rehydrate ds)) (a_status (Account_Rehydrate ds))
                    (Z.of_nat (length ds)))).
Proof. apply (account_load_is_replay accounts1 "id-0"); [apply accounts1_reachable|evaluate]. Defined.

Lemma account_versions_contiguous_witness :
  map ev_Version (rows_for "id-0" (ac_events (w_db accounts1))) =
    seqZ 1 (Z.of_nat (length (rows_for "id-0" (ac_events (w_db accounts1))))) /\
  forall e, head (rows_for "id-0" (ac_events (w_db accounts1))) = Some e -> ev_Type e = "account.opened.v1".
Proof. apply (account_versions_contiguous accounts1 "id-0"), accounts1_reachable. Defined.

(** ** Payments *)
Definition initiated_payment : Payment :=
  Payment_raise (PaymentInitiated "id-0" "alice" "bob" (mkMoney 100 NGN) "rent" 1)
    (mkPayment "id-0" "alice" "bob" (mkMoney 100 NGN) "rent" StatusInitiated 0 []).
Definition authorized_payment : Payment := Payment_raise (PaymentAuthorized "id-0" 2) initiated_payment.
Definition settled_payment : Payment := Payment_raise (PaymentSettled "id-0" 3) authorized_payment.

Lemma settled_payment_life : payment_life (DB := unit) settled_payment.
Proof.
  eapply (plife_op OpSettle authorized_payment (mkWorld tt 1 1 2 0 [] [])); [|reflexivity].
  eapply (plife_op OpAuthorize initiated_payment (mkWorld tt 1 1 1 0 [] [])); [|reflexivity].
  by eapply (plife_new "alice" "bob" (mkMoney 100 NGN) "rent" (mkWorld tt 1 0 0 0 [] [])).
Qed.

Lemma payment_lifecycle_witness :
  payment_at (py_changes settled_payment) = (Payment_PullChanges settled_payment).2 /\
  status_path (py_changes settled_payment) (py_status settled_payment) /\
  (py_status settled_payment = StatusSettled ->
   forall op (w : World unit), run_payment_op op settled_payment w = (Err (refusal op), w)).
Proof. apply (payment_lifecycle (DB := unit) settled_payment), settled_payment_life. Defined.

Definition shown (w : World PaymentDB) : PaymentProjection :=
  default (mkPaymentProjection "" "" "" "" 0 "" "" "" "" 0) (pd_projection (w_db w) !! "id-0").

Lemma payment_store_consistent_witness :
  exists p, (LoadPayment "id-0" payments3).1 = Ok p /\
    match pd_projection (w_db payments3) !! "id-0" with
    | None => p = Payment_zero
    | Some pr => pp_Status pr = py_status p /\ pp_Version pr = py_version p /\
        pp_Version pr = Z.of_nat (length (rows_for "id-0" (pd_events (w_db payments3)))) /\
        exists ds, payment_at ds = p /\ status_path ds (pp_Status pr)
    end.
Proof.
  apply (payment_store_consistent payments3 "id-0"); [apply payments3_reachable|evaluate|apply stream_shortb; evaluate].
Defined.

Lemma payment_commands_follow_lifecycle_witness :
  exists w',
    (if allowed OpAuthorize (pp_Status (shown payments1))
     then payment_command OpAuthorize "id-0" "auth" payments1 =
            (Ok (mkPaymentResult "id-0" (1 + pp_Version (shown payments1)) (op_target OpAuthorize)), w') /\
          exists pr', pd_projection (w_db w') !! "id-0" = Some pr' /\ pp_Status pr' = op_target OpAuthorize /\
            pp_Version pr' = 1 + pp_Version (shown payments1)
     else payment_command OpAuthorize "id-0" "auth" payments1 = (Err (refusal OpAuthorize), w') /\
          w_db w' = w_db payments1).
Proof.
  apply (payment_commands_follow_lifecycle OpAuthorize "id-0" "auth" payments1 (shown payments1));
    [apply payments1_reachable|evaluate|apply stream_shortb; evaluate|discriminate|discriminate|evaluate].
Defined.

(** The payment of the sample, made while nothing else runs *)
Definition pay_initiated : World PaymentDB :=
  ((InitiatePayment_validate payment_request ;;; with_tx (InitiatePayment_tx payment_request)) payments0).2.
Lemma pay_initiated_reachable : pay_reachable (pay_initiated, []).
Proof. exists payments0. split; [done|]. eapply rtc_once, (pay_initiate payment_request), surjective_pairing. Qed.

Lemma payment_concurrent_consistent_witness :
  exists ds, encodes payment_decode 1 (rows_for "id-0" (pd_events (w_db pay_initiated))) ds /\
    match pd_projection (w_db pay_initiated) !! "id-0" with
    | None => ds = []
    | Some pr => status_path ds (py_status (payment_at ds)) /\
        exists k, (0 < k <= length ds)%nat /\ pp_Status pr = py_status (payment_at (take k ds)) /\
          pp_Version pr = Z.of_nat k
    end.
Proof. apply (payment_concurrent_consistent pay_initiated [] "id-0"), pay_initiated_reachable. Defined.

Lemma payment_link_race_witness : exists w' p, rtc pay_step (payments1, []) (w', []) /\
  pp_Status <$> pd_projection (w_db w') !! "id-0" = Some StatusInitiated /\
  (LoadPayment "id-0" w').1 = Ok p /\ py_status p = StatusAuthorized.
Proof.
  destruct (payment_link_race OpAuthorize "id-0" "wf-1" "run-1" payments1 (shown payments1) payments1_reachable)
    as (w' & p & Hrun & Hrow & Hload & Hstat & _); [evaluate| |evaluate|evaluate|].
  - assert (length (rows_for "id-0" (pd_events (w_db payments1))) = 1%nat) as -> by evaluate. lia.
  - exists w', p. split; [exact Hrun|]. rewrite Hrow. split; [evaluate|]. exact (conj Hload Hstat).
Defined.

Lemma payment_settled_final_witness :
  is_ok (payment_command (OpFail "late") "id-0" "fail" payments3).1 = false /\
  w_db (payment_command (OpFail "late") "id-0" "fail" payments3).2 = w_db payments3.
Proof.
  apply (payment_settled_final (OpFail "late") "id-0" "fail" payments3 (shown payments3));
    [apply payments3_reachable|apply stream_shortb; evaluate|evaluate|evaluate].
Defined.

Lemma initiate_panics_without_temporal_witness :
  exists w', InitiatePaymentHandler_Handle (main_temporal false (fun _ _ => Ok "run")) payment_request payments0 =
      (Err (EPanic "nil pointer dereference"), w') /\
    pd_projection (w_db w') !! uuid_NewString (w_uuid payments0) =
      Some (initiated_projection (uuid_NewString (w_uuid payments0)) payment_request).
Proof.
  apply (initiate_panics_without_temporal payment_request (fun _ _ => Ok "run") payments0);
    [apply payments0_reachable|evaluate..].
Defined.

(** ** Authorization *)
Definition any_peer : peer := Some [Some "spiffe://fincore.local/ns/default/sa/other"].
Definition handler_ok : Z -> M unit string := fun _ => retM "done".
Definition some_world : World unit := mkWorld tt 1 0 0 0 [] [].

Lemma interceptor_guards_witness :
  let call := UnaryAuthzInterceptor (fun s => Some s) (fun _ => Err (ENew "no")) "" ledger_perms
    "/fincore.ledger.v1.LedgerService/PostEntry" (Some ∅) any_peer handler_ok in
  (exists md' payload, Some ∅ = Some md' /\
     authenticated (fun s => Some s) (fun _ => Err (ENew "no")) "" md' any_peer payload /\
     "ledger:write" ∈ tp_Permissions payload /\ call some_world = handler_ok (tp_LSN payload) some_world) \/
  (exists code msg, code ∈ ["Unauthenticated"; "PermissionDenied"] /\
     call some_world = (Err (EStatus code msg), some_world)).
Proof.
  apply (interceptor_guards (fun s => Some s) (fun _ => Err (ENew "no")) "" ledger_perms
    "/fincore.ledger.v1.LedgerService/PostEntry" "ledger:write" (Some ∅) any_peer handler_ok some_world); [evaluate|discriminate].
Defined.

Definition forged_headers : metadata :=
  <["x-fincore-subject" := ["root"]]> {["x-fincore-permissions" := ["ledger:write"]]}.

Lemma any_peer_not_gateway : ~ from_gateway (fun s => Some s) "" any_peer.
Proof. intros (id & Hp & Hg). vm_compute in Hp, Hg. congruence. Qed.

Lemma forged_headers_refused_witness :
  UnaryAuthzInterceptor (fun s => Some s) (fun _ => Err (ENew "no")) "" ledger_perms
    "/fincore.ledger.v1.LedgerService/PostEntry" (Some forged_headers) any_peer handler_ok some_world =
  (Err (Unauthenticated "missing authorization"), some_world).
Proof.
  apply (forged_headers_refused (fun s => Some s) (fun _ => Err (ENew "no")) "" ledger_perms
    "/fincore.ledger.v1.LedgerService/PostEntry" "ledger:write"); [evaluate|evaluate|apply any_peer_not_gateway].
Defined.

(** ** Transfers *)
Definition no_text : error -> string := fun _ => "".

(** The keys are unused, checked by evaluation. *)
Lemma keys_unusedb inp (w : World SystemDB) :
  forallb (fun e : expected => bool_decide (l_idem (sys_ledger (w_db w)) !! e.1.1 = None))
    (refund_entry inp :: transfer_entries inp) = true ->
  forall e, e ∈ refund_entry inp :: transfer_entries inp -> l_idem (sys_ledger (w_db w)) !! e.1.1 = None.
Proof. intros Hb e He. rewrite forallb_forall in Hb. by apply list_elem_of_In, Hb, bool_decide_eq_true in He. Qed.

Lemma payment_shownb (w : World SystemDB) id :
  match pd_projection (sys_payment (w_db w)) !! id with
  | Some p => bool_decide (pp_Status p = StatusInitiated) && (pp_Version p <? 10000)
  | None => false
  end = true ->
  exists p, pd_projection (sys_payment (w_db w)) !! id = Some p /\ pp_Status p = StatusInitiated /\ pp_Version p < 10000.
Proof.
  destruct (pd_projection _ !! id) as [p|]; [|done].
  intros [Hs%bool_decide_eq_true Hv%Z.ltb_lt]%andb_true_iff. by exists p.
Qed.

Ltac transferable_by_evaluation :=
  split; [reflexivity|discriminate|vm_compute; discriminate|vm_compute; discriminate|discriminate|reflexivity
    |apply Z.leb_le; vm_compute; reflexivity|apply Z.leb_le; vm_compute; reflexivity
    |apply keys_unusedb; vm_compute; reflexivity|apply active_accountb; vm_compute; reflexivity
    |apply payment_shownb; vm_compute; reflexivity].


Lemma nobody_transferable : transferable (sample_transfer "nobody") (system4 "nobody").
Proof. transferable_by_evaluation. Qed.

Definition lossy (w : World SystemDB) : World SystemDB := set_faults [FLostAck; FErr; FOk; FLostAck] w.

Lemma system4_refines to : exists s, sys_refines (lossy (system4 to)) s.
Proof.
  destruct (system4_ok to) as (s & st & pst & Hinv). exists s.
  apply (refines_mono (set_db (sys_ledger (w_db (system4 to))) (system4 to))); [done..|].
  apply (si_ledger _ _ _ _ Hinv).
Qed.

Lemma transfer_bounded_witness :
  let w' := (TransferWorkflow no_text (sample_transfer bob) (lossy (system4 bob))).2 in
  let change acc := ledger_balance w' acc - ledger_balance (lossy (system4 bob)) acc in
  - 2 * 100 <= change alice <= 100 /\ 0 <= change bob <= 2 * 100 /\
  forall acc, acc <> alice -> acc <> bob -> change acc = 0.
Proof.
  destruct (system4_refines bob) as [s Hs].
  apply (transfer_bounded no_text (sample_transfer bob) (lossy (system4 bob)) s Hs);
    [unfold max_int64; simpl; lia|discriminate].
Defined.



Lemma transfer_to_unknown_account_moves_money_witness :
  exists e w', TransferWorkflow no_text (sample_transfer "nobody") (system4 "nobody") = (Err e, w') /\
    ledger_balance w' alice = ledger_balance (system4 "nobody") alice - 100 /\
    ledger_balance w' "nobody" = ledger_balance (system4 "nobody") "nobody" + 100 /\
    exists p, pd_projection (sys_payment (w_db w')) !! "id-11" = Some p /\ pp_Status p = StatusFailed.
Proof.
  apply (transfer_to_unknown_account_moves_money no_text (sample_transfer "nobody") (system4 "nobody"));
    [apply sample_trusted|apply system4_ok|apply nobody_transferable|vm_compute; reflexivity].
Defined.

Lemma refused_deposit_credits_ledger_witness :
  exists w', account_server_Deposit (move_request "k" "nobody" "" 5) system2 = (Err ErrAccountNotActive, w') /\
    ledger_balance w' "nobody" = ledger_balance system2 "nobody" + 5 /\
    ac_projection (sys_account (w_db w')) !! "nobody" = None.
Proof.
  apply (refused_deposit_credits_ledger "k" "nobody" "" 5 system2);
    [apply sample_trusted|apply system2_ok|vm_compute; discriminate|discriminate|lia
    |apply Z.leb_le; vm_compute; reflexivity|vm_compute; reflexivity|vm_compute; reflexivity].
Defined.

Lemma internal_calls_refused_witness :
  (forall req, refused (@account_server_Deposit _ SystemDB _ (@system_LedgerClient _ bare_deployment) req) /\
     refused (@account_server_Withdraw _ SystemDB _ (@system_LedgerClient _ bare_deployment) req)) /\
  (forall activity_error inp w, let '(r, w') := @TransferWorkflow _ SystemDB _
       (@system_TransferLedger _ bare_deployment) (@system_TransferAccount _ bare_deployment) activity_error inp w in
     is_ok r = false /\ same_money w w').
Proof.
  apply (@internal_calls_refused _ bare_deployment); [reflexivity|].
  intros (id & Hp & Hg). vm_compute in Hp, Hg. congruence.
Defined.

(** ** Accounts changed at the same time and again *)
Definition account_salary : money_op := OpDeposit (mkMoney 500 NGN) "entry-1".
Definition account_rent : money_op := OpWithdraw (mkMoney 200 NGN) "entry-2".
Definition loading_salary : World AccountDB := (record_begin account_salary "id-0" accounts1).2.
Lemma loading_reachable : exists fs, acc_reachable (loading_salary, fs) /\ length fs = 1%nat.
Proof.
  eexists. split; [exists accounts0; split; [done|]|].
  - eapply rtc_l; [eapply (acc_open "alice" "open-1"), surjective_pairing|].
    eapply rtc_once, (acc_begin account_salary "id-0"), surjective_pairing.
  - vm_compute. reflexivity.
Qed.
Lemma account_linearizable_witness :
  exists st, rtc account_spec_step ∅ st /\ forall agg,
    encodes account_decode 1 (rows_for agg (ac_events (w_db loading_salary))) (events_of st agg) /\
    (w_faults loading_salary = [] -> (LoadAccount agg loading_salary).1 = Ok (Account_Rehydrate (events_of st agg))) /\
    ac_projection (w_db loading_salary) !! agg = (fun ds => mkAccountProjection agg (a_customerID (Account_Rehydrate ds))
      (a_status (Account_Rehydrate ds)) (Z.of_nat (length ds))) <$> st !! agg.
Proof. destruct loading_reachable as (fs & Hfs & _). apply (account_linearizable loading_salary fs Hfs). Defined.

Lemma account_race_witness :
  exists ag now1 now2 w2 w3 w4 w5 e,
    rtc acc_step (accounts1, []) (w2, [Recording account_salary "id-0" ag now1; Recording account_rent "id-0" ag now2]) /\
    record_write account_salary "id-0" ag now1 w2 = (Ok tt, w3) /\
    record_write account_rent "id-0" ag now2 w3 = (Err e, w4) /\ w_db w4 = w_db w3 /\
    length (rows_for "id-0" (ac_events (w_db w4))) = S (length (rows_for "id-0" (ac_events (w_db accounts1)))) /\
    with_tx (account_record "id-0" (money_event account_rent)) w4 = (Ok tt, w5) /\
    length (rows_for "id-0" (ac_events (w_db w5))) = S (S (length (rows_for "id-0" (ac_events (w_db accounts1))))).
Proof.
  apply (account_race account_salary account_rent "id-0" accounts1 (mkAccountProjection "id-0" "alice" StatusActive 1));
    [apply accounts1_reachable|evaluate..].
Defined.

Lemma deposit_retry_witness :
  let call := account_server_move EntryTypeDeposit (move_request "dep-2" alice "" 70) in
  exists entry w1 w2, call system3 = (Ok entry, w1) /\ call w1 = (Ok entry, w2) /\
    ledger_balance w2 alice = ledger_balance system3 alice + spec_delta EntryTypeDeposit 70 /\
    length (rows_for alice (ac_events (sys_account (w_db w2)))) =
      S (S (length (rows_for alice (ac_events (sys_account (w_db system3)))))).
Proof.
  apply (deposit_retry EntryTypeDeposit "dep-2" alice "" 70 system3);
    [apply sample_trusted|apply system3_ok|by left|evaluate|done|unfold max_int64; lia|evaluate| |].
  - assert (ledger_balance system3 alice = 1000) as -> by (vm_compute; reflexivity). vm_compute. split; discriminate.
  - apply active_accountb. vm_compute. reflexivity.
Defined.

(** The first posting appears behind the cursor of a worker that has gone past
    its number. *)
Definition overtaken : World LedgerDB := with_events (mkEventTables [] []) ledger1.
Lemma ledger_worker_gap_witness :
  let '(r, w') := ledger_worker_run 3 2 10 overtaken in
  events (l_events (w_db ledger1)) <> [] /\
  ledger_worker_run 3 2 10 (with_events (l_events (w_db ledger1)) overtaken) = (r, with_events (l_events (w_db ledger1)) w').
Proof.
  pose proof (ledger_worker_gap 3 2 10 (l_events (w_db ledger1)) overtaken ltac:(vm_compute; reflexivity)) as Hg.
  destruct (ledger_worker_run 3 2 10 overtaken) as [r w']. split; [vm_compute; discriminate|exact Hg].
Defined.
